(** * parse_factsheet.py: a shallow embedding and its checked properties

    The development follows the layout of the Python module:
    string primitives of the Python runtime, the regular expressions the
    module uses, then [clean_text], [fix_glued_domain_terms], [is_noise],
    [push_text], [normalize_table], [extract_tables],
    [merge_tables_into_pages] and [extract_fund_metadata_from_content].

    Text is a [string]: a sequence of 8-bit characters, read as the code
    points U+0000 to U+00FF of a Python [str].  The character classes below
    are Python's own classes restricted to that range.  Code points above
    U+00FF (the source names U+2007, U+202F and the rupee sign U+20B9 inside
    character classes) cannot occur in a modelled text, so those members of
    a class are never exercised and are left out of the class. *)

From Stdlib Require Import String Ascii List Bool Arith Lia ZArith QArith.
From Stdlib Require Import Permutation Sorted.
Import ListNotations.

Local Open Scope list_scope.
Local Open Scope string_scope.
Local Open Scope nat_scope.

(** ** Characters *)

Module Chr.

Definition code (c : ascii) : nat := nat_of_ascii c.

Definition in_range (lo hi : nat) (c : ascii) : bool :=
  (lo <=? code c) && (code c <=? hi).

Definition is_code (n : nat) (c : ascii) : bool := code c =? n.

(** [[A-Z]], [[a-z]], [[A-Za-z]] *)
Definition upper_az (c : ascii) : bool := in_range 65 90 c.
Definition lower_az (c : ascii) : bool := in_range 97 122 c.
Definition alpha_az (c : ascii) : bool := upper_az c || lower_az c.

(** [\d]: in the 8-bit range the decimal digits are 0-9 only. *)
Definition digit (c : ascii) : bool := in_range 48 57 c.

(** [\s], [str.isspace], the set [str.strip()] and [str.split()] use:
    TAB LF VT FF CR, FS GS RS US, SPACE, NEL (U+0085), NBSP (U+00A0). *)
Definition space (c : ascii) : bool :=
  in_range 9 13 c || in_range 28 32 c || is_code 133 c || is_code 160 c.

(** [\w]: alphanumerics ([str.isalnum]) and the underscore.  Above U+007F
    these are the letters, the superscript digits and the vulgar
    fractions of Latin-1. *)
Definition word (c : ascii) : bool :=
  alpha_az c || digit c || is_code 95 c
  || is_code 170 c || is_code 178 c || is_code 179 c || is_code 181 c
  || is_code 185 c || is_code 186 c || in_range 188 190 c
  || in_range 192 214 c || in_range 216 246 c || in_range 248 255 c.

(** ASCII case mapping of one character, as [str.lower] and [str.upper]
    act on A-Z and a-z. *)
Definition lower1 (c : ascii) : ascii :=
  if upper_az c then ascii_of_nat (code c + 32) else c.

Definition upper1 (c : ascii) : ascii :=
  if lower_az c then ascii_of_nat (code c - 32) else c.

Definition eqb_icase (a b : ascii) : bool := Ascii.eqb (lower1 a) (lower1 b).

End Chr.

(** ** Python string methods *)

Module Py.

(** [not s] for a [str]: the empty string is false. *)
Definition falsy (s : string) : bool :=
  match s with EmptyString => true | String _ _ => false end.

Fixpoint map_chars (f : ascii -> ascii) (s : string) : string :=
  match s with
  | EmptyString => EmptyString
  | String c s' => String (f c) (map_chars f s')
  end.

Fixpoint filter_chars (p : ascii -> bool) (s : string) : string :=
  match s with
  | EmptyString => EmptyString
  | String c s' => if p c then String c (filter_chars p s') else filter_chars p s'
  end.

(** [s.replace(a, b)] for one-character [a] and [b]. *)
Definition replace_char (a b : ascii) (s : string) : string :=
  map_chars (fun c => if Ascii.eqb c a then b else c) s.

(** [s.replace(a, "")] for a one-character [a]. *)
Definition remove_char (a : ascii) (s : string) : string :=
  filter_chars (fun c => negb (Ascii.eqb c a)) s.

Fixpoint lstrip (s : string) : string :=
  match s with
  | EmptyString => EmptyString
  | String c s' => if Chr.space c then lstrip s' else s
  end.

Fixpoint rstrip (s : string) : string :=
  match s with
  | EmptyString => EmptyString
  | String c s' =>
      match rstrip s' with
      | EmptyString => if Chr.space c then EmptyString else String c EmptyString
      | r => String c r
      end
  end.

(** [s.strip()] *)
Definition strip (s : string) : string := rstrip (lstrip s).

(** [s.split()]: the maximal runs of non-whitespace characters. *)
Fixpoint split (s : string) : list string :=
  match s with
  | EmptyString => []
  | String c s' =>
      if Chr.space c then split s'
      else match s' with
           | EmptyString => [String c EmptyString]
           | String d _ =>
               if Chr.space d then String c EmptyString :: split s'
               else match split s' with
                    | w :: ws => String c w :: ws
                    | [] => [String c EmptyString]
                    end
           end
  end.

(** [sep.join(l)] *)
Definition join (sep : string) (l : list string) : string := String.concat sep l.

(** [s.startswith(p)] *)
Definition startswith (p s : string) : bool := String.prefix p s.

Fixpoint rev_onto (acc s : string) : string :=
  match s with
  | EmptyString => acc
  | String c s' => rev_onto (String c acc) s'
  end.

Definition rev (s : string) : string := rev_onto EmptyString s.

(** [s.endswith(p)] *)
Definition endswith (p s : string) : bool := String.prefix (rev p) (rev s).

(** [p in s] *)
Fixpoint contains (p s : string) : bool :=
  String.prefix p s
  || match s with
     | EmptyString => false
     | String _ s' => contains p s'
     end.

(** [s[1:-1]] *)
Definition drop_last (s : string) : string :=
  String.substring 0 (String.length s - 1) s.

Definition slice_1_m1 (s : string) : string :=
  match s with
  | EmptyString => EmptyString
  | String _ s' => drop_last s'
  end.

(** [s.lower()] on a string of ASCII letters. *)
Definition lower (s : string) : string := map_chars Chr.lower1 s.

(** [s.upper()].  Of the 8-bit characters only a-z map into A-Z; sharp s
    becomes "SS"; the accented letters move inside the Latin-1 block;
    U+00B5 and U+00FF map above U+00FF and are kept, which no test made on
    the result ([in], [startswith] with ASCII arguments) can tell apart. *)
Definition upper_char (c : ascii) : string :=
  if Chr.lower_az c then String (Chr.upper1 c) EmptyString
  else if Chr.is_code 223 c then "SS"
  else if (Chr.in_range 224 246 c || Chr.in_range 248 254 c)
       then String (ascii_of_nat (Chr.code c - 32)) EmptyString
  else String c EmptyString.

Fixpoint upper (s : string) : string :=
  match s with
  | EmptyString => EmptyString
  | String c s' => upper_char c ++ upper s'
  end.

End Py.

(** ** Regular expressions

    The syntax covers what the module's patterns use.  Every repetition in
    them ([*], [+], [{m,n}]) is over a character class, so [Rep] repeats a
    class; [?] is over a group ([Opt]).  Matching is the backtracking search
    of Python's [re]: alternatives left to right, repetitions greedy, the
    first success wins. *)

Module Re.

Inductive re : Type :=
| Eps
| Cls (p : ascii -> bool)                          (* one character of a class *)
| Rep (p : ascii -> bool) (lo : nat) (hi : option nat)  (* class{lo,hi}, greedy *)
| Seq (a b : re)
| Alt (a b : re)
| Opt (a : re)                                     (* (?:a)?, greedy *)
| Grp (n : nat) (a : re)                           (* capturing group number n *)
| Bol                                              (* ^ *)
| Eol                                              (* $ *)
| WordB                                            (* \b *)
| Behind (p : ascii -> bool)                       (* (?<=[class]) *)
| Ahead (p : ascii -> bool).                       (* (?=[class]) *)

(** The matcher's position: the character before it ([None] at the start
    of the string), the number of characters consumed since the match
    began, the text still ahead, and the groups captured so far. *)
Record mstate : Type := MState
  { prev : option ascii; pos : nat; rest : string; caps : list (nat * string) }.

Definition word_before (st : mstate) : bool :=
  match prev st with Some c => Chr.word c | None => false end.

Definition word_after (st : mstate) : bool :=
  match rest st with String c _ => Chr.word c | EmptyString => false end.

(** [$] without MULTILINE: the end of the string, or just before a final
    newline. *)
Definition at_eol (s : string) : bool :=
  match s with
  | EmptyString => true
  | String c EmptyString => Ascii.eqb c "010"%char
  | _ => false
  end.

Section Matcher.
Context {R : Type}.

Fixpoint rep (p : ascii -> bool) (lo : nat) (hi : option nat)
    (pv : option ascii) (n : nat) (s : string) (cs : list (nat * string))
    (k : mstate -> option R) : option R :=
  let stop := if lo =? 0 then k (MState pv n s cs) else None in
  match s with
  | String c s' =>
      if p c && negb (match hi with Some 0 => true | _ => false end) then
        match rep p (Nat.pred lo) (option_map Nat.pred hi) (Some c) (S n) s' cs k with
        | Some x => Some x
        | None => stop
        end
      else stop
  | EmptyString => stop
  end.

Fixpoint rmatch (r : re) (st : mstate) (k : mstate -> option R) : option R :=
  match r with
  | Eps => k st
  | Cls p =>
      match rest st with
      | String c s' =>
          if p c then k (MState (Some c) (S (pos st)) s' (caps st)) else None
      | EmptyString => None
      end
  | Rep p lo hi => rep p lo hi (prev st) (pos st) (rest st) (caps st) k
  | Seq a b => rmatch a st (fun st' => rmatch b st' k)
  | Alt a b =>
      match rmatch a st k with
      | Some x => Some x
      | None => rmatch b st k
      end
  | Opt a =>
      match rmatch a st k with
      | Some x => Some x
      | None => k st
      end
  | Grp n a =>
      rmatch a st (fun st' =>
        k (MState (prev st') (pos st') (rest st')
             ((n, String.substring 0 (pos st' - pos st) (rest st)) :: caps st')))
  | Bol => match prev st with None => k st | Some _ => None end
  | Eol => if at_eol (rest st) then k st else None
  | WordB => if xorb (word_before st) (word_after st) then k st else None
  | Behind p =>
      match prev st with
      | Some c => if p c then k st else None
      | None => None
      end
  | Ahead p =>
      match rest st with
      | String c _ => if p c then k st else None
      | EmptyString => None
      end
  end.

End Matcher.

(** A match attempted at one position: its length and its groups. *)
Definition match_here (r : re) (pv : option ascii) (s : string)
  : option (nat * list (nat * string)) :=
  rmatch r (MState pv 0 s []) (fun st => Some (pos st, caps st)).

(** [re.match(r, s)] as a truth value. *)
Definition matches (r : re) (s : string) : bool :=
  match match_here r None s with Some _ => true | None => false end.

(** A match object: where it starts, what it spans, its groups. *)
Record mobj : Type := MObj
  { m_start : nat; m_text : string; m_caps : list (nat * string) }.

Fixpoint search_from (r : re) (pv : option ascii) (i : nat) (s : string)
  : option mobj :=
  match match_here r pv s with
  | Some (n, cs) => Some (MObj i (String.substring 0 n s) cs)
  | None =>
      match s with
      | String c s' => search_from r (Some c) (S i) s'
      | EmptyString => None
      end
  end.

(** [re.search(r, s)] *)
Definition search (r : re) (s : string) : option mobj := search_from r None 0 s.

Fixpoint lookup (n : nat) (cs : list (nat * string)) : option string :=
  match cs with
  | [] => None
  | (m, v) :: cs' => if m =? n then Some v else lookup n cs'
  end.

(** [m.group(n)] for n >= 1 (a group that took no part reads as empty),
    [m.group(0)]. *)
Definition group (n : nat) (m : mobj) : string :=
  match lookup n (m_caps m) with Some v => v | None => EmptyString end.

Definition group0 (m : mobj) : string := m_text m.

(** Replacement templates: literal text and group references. *)
Inductive tpart : Type :=
| TLit (s : string)
| TGrp (n : nat).

Fixpoint expand (t : list tpart) (cs : list (nat * string)) : string :=
  match t with
  | [] => EmptyString
  | TLit s :: t' => (s ++ expand t' cs)%string
  | TGrp n :: t' =>
      ((match lookup n cs with Some v => v | None => EmptyString end)
         ++ expand t' cs)%string
  end.

(** [re.sub(r, t, s)]: the matches are found left to right and do not
    overlap; [skip] counts the characters of the current match still to be
    passed over.  An empty match is replaced and the scan moves one
    character on. *)
Fixpoint sub_go (r : re) (t : list tpart) (skip : nat) (pv : option ascii)
    (s : string) {struct s} : string :=
  match skip with
  | S k =>
      match s with
      | String c s' => sub_go r t k (Some c) s'
      | EmptyString => EmptyString
      end
  | 0 =>
      match match_here r pv s with
      | Some (n, cs) =>
          (expand t cs ++
           match s with
           | String c s' =>
               match n with
               | 0 => String c (sub_go r t 0 (Some c) s')
               | S n' => sub_go r t n' (Some c) s'
               end
           | EmptyString => EmptyString
           end)%string
      | None =>
          match s with
          | String c s' => String c (sub_go r t 0 (Some c) s')
          | EmptyString => EmptyString
          end
      end
  end.

Definition sub (r : re) (t : list tpart) (s : string) : string :=
  sub_go r t 0 None s.

(** [re.findall(r, s)] for a pattern with one group: the group's text at
    each match. *)
Fixpoint findall_go (r : re) (skip : nat) (pv : option ascii) (s : string)
    {struct s} : list string :=
  match skip with
  | S k =>
      match s with
      | String c s' => findall_go r k (Some c) s'
      | EmptyString => []
      end
  | 0 =>
      match match_here r pv s with
      | Some (n, cs) =>
          (match lookup 1 cs with Some v => v | None => EmptyString end)
          :: match s with
             | String c s' => findall_go r (Nat.pred n) (Some c) s'
             | EmptyString => []
             end
      | None =>
          match s with
          | String c s' => findall_go r 0 (Some c) s'
          | EmptyString => []
          end
      end
  end.

Definition findall (r : re) (s : string) : list string :=
  findall_go r 0 None s.

(** [re.split(r, s)] for a pattern without groups and without empty
    matches: the pieces between the matches.  The head of the result is the
    piece being read. *)
Definition push_char (c : ascii) (l : list string) : list string :=
  match l with
  | p :: ps => String c p :: ps
  | [] => [String c EmptyString]
  end.

Fixpoint split_go (r : re) (skip : nat) (pv : option ascii) (s : string)
    {struct s} : list string :=
  match skip with
  | S k =>
      match s with
      | String c s' => split_go r k (Some c) s'
      | EmptyString => [EmptyString]
      end
  | 0 =>
      match s with
      | EmptyString => [EmptyString]
      | String c s' =>
          match match_here r pv s with
          | Some (S n', _) => EmptyString :: split_go r n' (Some c) s'
          | _ => push_char c (split_go r 0 (Some c) s')
          end
      end
  end.

Definition split (r : re) (s : string) : list string :=
  split_go r 0 None s.

(** Pattern builders. *)
Definition chr (c : ascii) : re := Cls (Ascii.eqb c).

Fixpoint lit (s : string) : re :=
  match s with
  | EmptyString => Eps
  | String c EmptyString => chr c
  | String c s' => Seq (chr c) (lit s')
  end.

(** A literal under IGNORECASE. *)
Fixpoint ilit (s : string) : re :=
  match s with
  | EmptyString => Eps
  | String c EmptyString => Cls (Chr.eqb_icase c)
  | String c s' => Seq (Cls (Chr.eqb_icase c)) (ilit s')
  end.

Definition star (p : ascii -> bool) : re := Rep p 0 None.
Definition plus (p : ascii -> bool) : re := Rep p 1 None.

Fixpoint seq (l : list re) : re :=
  match l with
  | [] => Eps
  | [a] => a
  | a :: l' => Seq a (seq l')
  end.

Fixpoint alt (l : list re) : re :=
  match l with
  | [] => Eps
  | [a] => a
  | a :: l' => Alt a (alt l')
  end.

(** Membership in a bracketed set of characters. *)
Fixpoint one_of (set : string) (c : ascii) : bool :=
  match set with
  | EmptyString => false
  | String d set' => Ascii.eqb c d || one_of set' c
  end.

End Re.

(** ** Helpers of the module: [clean_text], [fix_glued_domain_terms],
    [is_noise] *)

Import Re.

Definition TAB : ascii := "009"%char.
Definition SP : ascii := " "%char.
Definition HYPHEN : ascii := "-"%char.

(** The class of U+00A0, U+2007 and U+202F: of the three only U+00A0 is an
    8-bit character. *)
Definition nbsp_class (c : ascii) : bool := Chr.is_code 160 c.

(** [(\w)-\s+(\w)] *)
Definition re_hyphen_break : re :=
  seq [Grp 1 (Cls Chr.word); chr HYPHEN; plus Chr.space; Grp 2 (Cls Chr.word)].

(** [([a-z])([A-Z])], [([A-Za-z])(\d)], [(\d)([A-Za-z])] *)
Definition re_lower_upper : re := Seq (Grp 1 (Cls Chr.lower_az)) (Grp 2 (Cls Chr.upper_az)).
Definition re_alpha_digit : re := Seq (Grp 1 (Cls Chr.alpha_az)) (Grp 2 (Cls Chr.digit)).
Definition re_digit_alpha : re := Seq (Grp 1 (Cls Chr.digit)) (Grp 2 (Cls Chr.alpha_az)).

(** The template [\1 \2] and the template [\1\2]. *)
Definition tmpl_spaced : list tpart := [TGrp 1; TLit " "; TGrp 2].
Definition tmpl_joined : list tpart := [TGrp 1; TGrp 2].

Definition clean_text (t : string) : string :=
  if Py.falsy t then ""
  else
    let t := Py.replace_char TAB SP t in
    let t := sub (Cls nbsp_class) [TLit " "] t in
    let t := sub re_hyphen_break tmpl_joined t in
    let t := sub (plus Chr.space) [TLit " "] t in
    let t := sub re_lower_upper tmpl_spaced t in
    let t := sub re_alpha_digit tmpl_spaced t in
    let t := sub re_digit_alpha tmpl_spaced t in
    Py.strip t.

(** The table [fixes], in the order of the dict literal; each key is
    [\bword\b], applied with IGNORECASE. *)
Definition fixes : list (string * string) :=
  [ ("openended", "open ended");
    ("endedequity", "ended equity");
    ("equityscheme", "equity scheme");
    ("schemeinvesting", "scheme investing");
    ("investingin", "investing in");
    ("inmaximum", "in maximum");
    ("multicapstocks", "multicap stocks");
    ("mutualfundinvestmentsaresubjecttomarketrisks",
     "Mutual Fund investments are subject to market risks");
    ("readallschemerelateddocumentscarefully",
     "read all scheme related documents carefully") ].

Definition re_fix (w : string) : re := seq [WordB; ilit w; WordB].

Definition fix_glued_domain_terms (text : string) : string :=
  if Py.falsy text then text
  else fold_left (fun t f => sub (re_fix (fst f)) [TLit (snd f)] t) fixes text.

Definition noise_compact : list string :=
  [ "mutualfundinvestmentsaresubjecttomarketrisks";
    "readallschemerelateddocumentscarefully" ].

Definition PIPE : ascii := "|"%char.

(** [^\s*Page\s*\|?\s*\d+\s*$] and [Page\s*\d+], both with IGNORECASE. *)
Definition re_page_only : re :=
  seq [Bol; star Chr.space; ilit "Page"; star Chr.space; Opt (chr PIPE);
       star Chr.space; plus Chr.digit; star Chr.space; Eol].
Definition re_page_num : re := seq [ilit "Page"; star Chr.space; plus Chr.digit].

Definition found (m : option mobj) : bool :=
  match m with Some _ => true | None => false end.

Definition is_noise (text : string) : bool :=
  if Py.falsy text then false
  else
    (* re.sub(r"[^A-Za-z]", "", text).lower() *)
    let compact := Py.lower (sub (Cls (fun c => negb (Chr.alpha_az c))) [TLit ""] text) in
    if existsb (fun n => Py.contains n compact) noise_compact then true
    else if found (search re_page_only text) then true
    else if found (search re_page_num text) then true
    else false.

(** ** Data model *)

(** A normalized table: the dict with keys "headers" and "rows". *)
Record Table : Type := MkTable
  { headers : list string; rows : list (list string) }.

(** Coordinates are the finite floats of the layout library; the model
    keeps them as rationals, which order the same way. *)
Record ContentItem : Type := MkContentItem
  { type : string;
    section : option string;
    sub_section : option string;
    text : option string;
    table : option Table;
    bbox : option (list Q);
    meta : option (list (string * string)) }.

Record PageOut : Type := MkPageOut
  { page_number : nat; content : list ContentItem }.

(** ** Page assembly: [push_text] *)

(** The variables [current_section], [current_sub] and [items] that
    [push_text] shares with its enclosing loop. *)
Record asm : Type := MkAsm
  { current_section : option string;
    current_sub : option string;
    items : list ContentItem }.

(** [(?<=[.!?])\s+(?=[A-Z])] *)
Definition re_sentence_gap : re :=
  seq [Behind (one_of ".!?"); plus Chr.space; Ahead Chr.upper_az].

Definition paragraph (st : asm) (txt : string) (bx : list Q) : ContentItem :=
  MkContentItem "paragraph" (current_section st) (current_sub st) (Some txt)
    None (Some bx) None.

Definition append_item (st : asm) (c : ContentItem) : asm :=
  MkAsm (current_section st) (current_sub st) (items st ++ [c]).

Definition push_text (st : asm) (as_heading : bool) (txt0 : option string)
    (bx : list Q) : asm :=
  match txt0 with
  | None => st
  | Some t =>
      let txt := fix_glued_domain_terms (clean_text t) in
      if Py.falsy txt || is_noise txt then st
      else if as_heading then
        match current_section st with
        | None =>
            MkAsm (Some txt) (current_sub st)
              (items st ++ [MkContentItem "heading" (Some txt) None (Some txt)
                              None (Some bx) None])
        | Some sec =>
            MkAsm (Some sec) (Some txt)
              (items st ++ [MkContentItem "heading" (Some sec) (Some txt)
                              (Some txt) None (Some bx) None])
        end
      else if 600 <? String.length txt then
        fold_left
          (fun acc part =>
             let part := Py.strip part in
             if Py.falsy part then acc else append_item acc (paragraph acc part bx))
          (split re_sentence_gap txt) st
      else append_item st (paragraph st txt bx)
  end.

(** ** Table normalization *)

Definition clean_cell (c : option string) : string :=
  match c with
  | None => ""
  | Some s => Py.strip (fix_glued_domain_terms (clean_text s))
  end.

Definition NL : ascii := "010"%char.

(** [.*[A-Za-z]$] and [^[a-z]{1,6}$], both tried with [re.match]. *)
Definition re_ends_alpha : re :=
  seq [star (fun c => negb (Ascii.eqb c NL)); Cls Chr.alpha_az; Eol].
Definition re_short_lower : re := seq [Bol; Rep Chr.lower_az 1 (Some 6); Eol].

Definition cond_short (cur nxt : string) : bool :=
  (String.length cur <=? 4) && (String.length nxt <=? 6).

Definition cond_alpha_cont (cur nxt : string) : bool :=
  matches re_ends_alpha cur && matches re_short_lower nxt.

Definition cond_percent_split (cur nxt : string) : bool :=
  Py.endswith "%Yo" (Py.strip cur) && Py.startswith "Y" (Py.strip nxt).

(** The loop of [merge_fragments] with [cur = row[i]] and [rest = row[i+1:]]:
    a merge overwrites [row[i+1]] and moves on without emitting. *)
Fixpoint merge_from (cur : string) (rest : list string) : list string :=
  match rest with
  | [] => [cur]
  | nxt :: rest' =>
      if cond_short cur nxt || cond_alpha_cont cur nxt || cond_percent_split cur nxt
      then merge_from (Py.strip (cur ++ " " ++ nxt)) rest'
      else cur :: merge_from nxt rest'
  end.

Definition merge_fragments (row : list string) : list string :=
  match row with
  | [] => []
  | cur :: rest => merge_from cur rest
  end.

(** [while cleaned and cleaned[-1] == "": cleaned.pop()] *)
Fixpoint drop_trailing_empty (l : list string) : list string :=
  match l with
  | [] => []
  | x :: l' =>
      match drop_trailing_empty l' with
      | [] => if Py.falsy x then [] else [x]
      | r => x :: r
      end
  end.

(** The argument of [normalize_table]: header cells and rows of cells,
    a cell being a string or [None]. *)
Record RawTable : Type := MkRawTable
  { raw_headers : list (option string); raw_rows : list (list (option string)) }.

Definition normalize_table (tbl : RawTable) : Table :=
  let hdrs := map clean_cell (raw_headers tbl) in
  let hdrs_merged := merge_fragments hdrs in
  MkTable hdrs_merged
    (map (fun raw_row => drop_trailing_empty (merge_fragments (map clean_cell raw_row)))
         (raw_rows tbl)).

(** ** Table extraction and deduplication: [extract_tables] *)

(** What [page.extract_tables] yields: a raw table is a list of rows of
    optional strings. *)
Definition grid : Type := list (list (option string)).

(** The two entries of [strategies], in order. *)
Inductive strategy : Type := LinesStrategy | TextStrategy.

Definition strategies : list strategy := [LinesStrategy; TextStrategy].

(** One call [page.extract_tables(table_settings=mode)]: it raises, or it
    returns a list of tables (or [None]). *)
Inductive outcome : Type :=
| Raised
| Returned (tables : option (list grid)).

(** A page of the opened document, as far as [extract_tables] looks at it. *)
Record PdfPage : Type := MkPdfPage { page_extract_tables : strategy -> outcome }.

(** [tables or []] after the try/except. *)
Definition tables_or_empty (o : outcome) : list grid :=
  match o with
  | Raised => []
  | Returned None => []
  | Returned (Some l) => l
  end.

(** [cell is None or str(cell).strip() == ""] *)
Definition blank_cell (c : option string) : bool :=
  match c with
  | None => true
  | Some s => Py.falsy (Py.strip s)
  end.

(** [not tbl or all(... for row in tbl for cell in row)] *)
Definition skipped (tbl : grid) : bool :=
  match tbl with
  | [] => true
  | _ => forallb (fun row => forallb blank_cell row) tbl
  end.

Definition none_to_empty (c : option string) : option string :=
  match c with
  | None => Some ""
  | Some s => Some s
  end.

(** [header], [rows] and [norm] of a table that is not skipped. *)
Definition normalize_grid (tbl : grid) : Table :=
  match tbl with
  | [] => normalize_table (MkRawTable [] [])
  | h :: rs =>
      normalize_table (MkRawTable (map none_to_empty h) (map (map none_to_empty) rs))
  end.

(** The fingerprint [(tuple(norm["headers"]), len(norm["rows"]))]. *)
Definition fingerprint : Type := (list string * nat)%type.

Definition key_of (norm : Table) : fingerprint :=
  (headers norm, List.length (rows norm)).

Definition fingerprint_eq_dec (a b : fingerprint) : {a = b} + {a <> b}.
Proof. decide equality; [apply Nat.eq_dec | apply (list_eq_dec string_dec)]. Defined.

Definition key_in (k : fingerprint) (seen : list fingerprint) : bool :=
  if in_dec fingerprint_eq_dec k seen then true else false.

(** The loop variables [seen_keys] and [page_tables]. *)
Record dedup : Type := MkDedup
  { seen_keys : list fingerprint; page_tables : list Table }.

(** The body of [for tbl in tables or []]. *)
Definition visit_table (d : dedup) (tbl : grid) : dedup :=
  if skipped tbl then d
  else
    let norm := normalize_grid tbl in
    let key := key_of norm in
    if key_in key (seen_keys d) then d
    else MkDedup (key :: seen_keys d) (page_tables d ++ [norm]).

(** The body of [for mode in strategies]. *)
Definition visit_strategy (page : PdfPage) (d : dedup) (mode : strategy) : dedup :=
  fold_left visit_table (tables_or_empty (page_extract_tables page mode)) d.

Definition extract_page_tables (page : PdfPage) : list Table :=
  page_tables (fold_left (visit_strategy page) strategies (MkDedup [] [])).

(** [tables_by_page]: a dict from page index to tables, in insertion order. *)
Definition tables_dict : Type := list (nat * list Table).

Fixpoint dict_get (i : nat) (d : tables_dict) : option (list Table) :=
  match d with
  | [] => None
  | (j, v) :: d' => if j =? i then Some v else dict_get i d'
  end.

(** [for i, page in enumerate(pdf.pages)], started at index [i]. *)
Fixpoint extract_tables_from (i : nat) (pages : list PdfPage) : tables_dict :=
  match pages with
  | [] => []
  | page :: pages' =>
      match extract_page_tables page with
      | [] => extract_tables_from (S i) pages'
      | ts => (i, ts) :: extract_tables_from (S i) pages'
      end
  end.

Definition extract_tables (pdf_pages : list PdfPage) : tables_dict :=
  extract_tables_from 0 pdf_pages.

(** ** Content merger: [merge_tables_into_pages] *)

Definition SENTINEL : Q := 1000000000 # 1.

(** [{"heading": 0, "paragraph": 1, "table": 2, "chart": 3}.get(ci.type, 4)] *)
Definition order_class (t : string) : nat :=
  if String.eqb t "heading" then 0
  else if String.eqb t "paragraph" then 1
  else if String.eqb t "table" then 2
  else if String.eqb t "chart" then 3
  else 4.

Definition sort_key (ci : ContentItem) : nat * Q :=
  let y :=
    match bbox ci with
    | Some (_ :: y1 :: _) => y1
    | _ => SENTINEL
    end in
  (order_class (type ci), y).

(** The order of Python tuples [(int, float)]. *)
Definition key_lt (a b : nat * Q) : bool :=
  (fst a <? fst b) || ((fst a =? fst b) && negb (Qle_bool (snd b) (snd a))).

Definition key_eq (a b : nat * Q) : bool :=
  (fst a =? fst b) && Qeq_bool (snd a) (snd b).

Definition key_le (a b : nat * Q) : bool := negb (key_lt b a).

(** [sorted(l, key=key)]: Python's sort is stable, so it is determined by
    the order of the keys; it is written here as a stable insertion sort. *)
Section Sorted.
Context {A : Type} (key : A -> nat * Q).

Fixpoint insert_by (x : A) (l : list A) : list A :=
  match l with
  | [] => [x]
  | y :: l' => if key_le (key x) (key y) then x :: l else y :: insert_by x l'
  end.

Definition sorted (l : list A) : list A := fold_right insert_by [] l.

End Sorted.

Definition table_item (t : Table) : ContentItem :=
  MkContentItem "table" None None None (Some t) None None.

(** The body of the loop for page number [i]. *)
Definition merge_page (tables_by_page : tables_dict) (i : nat) (page : PageOut)
  : PageOut :=
  let appended :=
    match dict_get i tables_by_page with
    | Some ts => (content page ++ map table_item ts)%list
    | None => content page
    end in
  MkPageOut (page_number page) (sorted sort_key appended).

Fixpoint merge_from_index (tables_by_page : tables_dict) (i : nat)
    (pages : list PageOut) : list PageOut :=
  match pages with
  | [] => []
  | page :: pages' =>
      merge_page tables_by_page i page :: merge_from_index tables_by_page (S i) pages'
  end.

(** The function updates [pages] in place; the model returns the updated
    list. *)
Definition merge_tables_into_pages (pages : list PageOut)
    (tables_by_page : tables_dict) : list PageOut :=
  merge_from_index tables_by_page 0 pages.

(** ** Metadata extraction: [extract_fund_metadata_from_content] *)

(** [float(s)] for a string of digits and dots, which is what the two
    callers pass (the captures of [[\d,]+\.?\d*] with commas removed, and of
    [[\d\.]+]): digits with at most one dot and at least one digit parse,
    anything else raises ([None]).  Python rounds the decimal to the nearest
    binary64; the model keeps the decimal itself as a rational. *)
Fixpoint all_digits (s : string) : bool :=
  match s with
  | EmptyString => true
  | String c s' => Chr.digit c && all_digits s'
  end.

Fixpoint digits_value (acc : N) (s : string) : N :=
  match s with
  | EmptyString => acc
  | String c s' => digits_value (10 * acc + N.of_nat (Chr.code c - 48))%N s'
  end.

(** The text before the first dot, and the text after it if there is one. *)
Fixpoint cut_at_dot (s : string) : string * option string :=
  match s with
  | EmptyString => (EmptyString, None)
  | String c s' =>
      if Ascii.eqb c "."%char then (EmptyString, Some s')
      else let (a, b) := cut_at_dot s' in (String c a, b)
  end.

Fixpoint pow10 (n : nat) : positive :=
  match n with
  | 0 => 1%positive
  | S k => (10 * pow10 k)%positive
  end.

Definition float_of_string (s : string) : option Q :=
  let (ip, rest) := cut_at_dot s in
  let fp := match rest with Some f => f | None => EmptyString end in
  if all_digits ip && all_digits fp && negb (Py.falsy (ip ++ fp)) then
    Some (Qmake (Z.of_N (digits_value 0 (ip ++ fp))) (pow10 (String.length fp)))
  else None.

(** A float is false when it is 0.0; the nearest binary64 of a
    non-negative decimal is 0.0 exactly when the decimal is at most
    2^-1075, half the least subnormal. *)
Definition float_truthy (q : Q) : bool :=
  negb (Qle_bool q (Qmake 1 (Pos.pow 2 1075))).

(** The dict [meta]. *)
Record Meta : Type := MkMeta
  { name : option string;
    category : option string;
    aum_crore : option Q;
    monthly_avg_aum : option Q;
    expense_ratio_regular : option Q;
    expense_ratio_direct : option Q;
    benchmark : option string;
    additional_benchmark : option string;
    date_of_allotment : option string;
    managers : list string;
    doc_date : option string }.

Definition set_name v m := MkMeta v (category m) (aum_crore m) (monthly_avg_aum m)
  (expense_ratio_regular m) (expense_ratio_direct m) (benchmark m)
  (additional_benchmark m) (date_of_allotment m) (managers m) (doc_date m).
Definition set_category v m := MkMeta (name m) v (aum_crore m) (monthly_avg_aum m)
  (expense_ratio_regular m) (expense_ratio_direct m) (benchmark m)
  (additional_benchmark m) (date_of_allotment m) (managers m) (doc_date m).
Definition set_aum_crore v m := MkMeta (name m) (category m) v (monthly_avg_aum m)
  (expense_ratio_regular m) (expense_ratio_direct m) (benchmark m)
  (additional_benchmark m) (date_of_allotment m) (managers m) (doc_date m).
Definition set_monthly_avg_aum v m := MkMeta (name m) (category m) (aum_crore m) v
  (expense_ratio_regular m) (expense_ratio_direct m) (benchmark m)
  (additional_benchmark m) (date_of_allotment m) (managers m) (doc_date m).
Definition set_expense_ratio_regular v m := MkMeta (name m) (category m) (aum_crore m)
  (monthly_avg_aum m) v (expense_ratio_direct m) (benchmark m)
  (additional_benchmark m) (date_of_allotment m) (managers m) (doc_date m).
Definition set_expense_ratio_direct v m := MkMeta (name m) (category m) (aum_crore m)
  (monthly_avg_aum m) (expense_ratio_regular m) v (benchmark m)
  (additional_benchmark m) (date_of_allotment m) (managers m) (doc_date m).
Definition set_benchmark v m := MkMeta (name m) (category m) (aum_crore m)
  (monthly_avg_aum m) (expense_ratio_regular m) (expense_ratio_direct m) v
  (additional_benchmark m) (date_of_allotment m) (managers m) (doc_date m).
Definition set_additional_benchmark v m := MkMeta (name m) (category m) (aum_crore m)
  (monthly_avg_aum m) (expense_ratio_regular m) (expense_ratio_direct m) (benchmark m)
  v (date_of_allotment m) (managers m) (doc_date m).
Definition set_date_of_allotment v m := MkMeta (name m) (category m) (aum_crore m)
  (monthly_avg_aum m) (expense_ratio_regular m) (expense_ratio_direct m) (benchmark m)
  (additional_benchmark m) v (managers m) (doc_date m).
Definition set_managers v m := MkMeta (name m) (category m) (aum_crore m)
  (monthly_avg_aum m) (expense_ratio_regular m) (expense_ratio_direct m) (benchmark m)
  (additional_benchmark m) (date_of_allotment m) v (doc_date m).

(** [not meta[k]] for a string-valued and for a float-valued entry. *)
Definition unset_str (v : option string) : bool :=
  match v with None => true | Some s => Py.falsy s end.

Definition unset_num (v : option Q) : bool :=
  match v with None => true | Some q => negb (float_truthy q) end.

(** The patterns, in the order of the function body. *)
Definition months : list string :=
  [ "January"; "February"; "March"; "April"; "May"; "June"; "July"; "August";
    "September"; "October"; "November"; "December" ].

Definition colon_dash : ascii -> bool := one_of ":-".

(** [(January|...|December)\s+\d{4}] *)
Definition re_month_year : re :=
  seq [Grp 1 (alt (map lit months)); plus Chr.space; Rep Chr.digit 4 (Some 4)].

(** [Date of Allotment\s*[:\-]?\s*([A-Za-z]+\s+\d{1,2},\s+\d{4})] *)
Definition re_date_of_allotment : re :=
  seq [lit "Date of Allotment"; star Chr.space; Opt (Cls colon_dash); star Chr.space;
       Grp 1 (seq [plus Chr.alpha_az; plus Chr.space; Rep Chr.digit 1 (Some 2);
                   chr ","%char; plus Chr.space; Rep Chr.digit 4 (Some 4)])].

(** [[A-Za-z0-9\s\-\&]] *)
Definition bench_class (c : ascii) : bool :=
  Chr.alpha_az c || Chr.digit c || Chr.space c || one_of "-&" c.

(** [Benchmark(?: Index)?\s*[:\-]?\s*([A-Za-z0-9\s\-\&]+)] and the same
    after "Additional ". *)
Definition re_labelled_benchmark (label : string) : re :=
  seq [lit label; Opt (lit " Index"); star Chr.space; Opt (Cls colon_dash);
       star Chr.space; Grp 1 (plus bench_class)].
Definition re_benchmark : re := re_labelled_benchmark "Benchmark".
Definition re_additional_benchmark : re := re_labelled_benchmark "Additional Benchmark".

(** [<label>\s*[:\-]?\s*[R` ]*(G)\s*crore] with IGNORECASE, for the labels
    "Net AUM" and "Monthly Average AUM"; the group G is [[\d,]+\.?\d*], and R
    stands for the rupee sign U+20B9, which is no 8-bit character. *)
Definition re_labelled_crore (label : string) : re :=
  seq [ilit label; star Chr.space; Opt (Cls colon_dash); star Chr.space;
       star (one_of "` ");
       Grp 1 (seq [plus (fun c => Chr.digit c || Ascii.eqb c ","%char);
                   Opt (chr "."%char); star Chr.digit]);
       star Chr.space; ilit "crore"].
Definition re_net_aum : re := re_labelled_crore "Net AUM".
Definition re_monthly_avg_aum : re := re_labelled_crore "Monthly Average AUM".

(** [<label>\s*[:\-]?\s*([\d\.]+)%] with IGNORECASE, for "Regular Plan" and
    "Direct Plan". *)
Definition re_labelled_percent (label : string) : re :=
  seq [ilit label; star Chr.space; Opt (Cls colon_dash); star Chr.space;
       Grp 1 (plus (fun c => Chr.digit c || Ascii.eqb c "."%char)); chr "%"%char].
Definition re_regular_plan : re := re_labelled_percent "Regular Plan".
Definition re_direct_plan : re := re_labelled_percent "Direct Plan".

(** [Fund Manager] with IGNORECASE. *)
Definition re_fund_manager : re := ilit "Fund Manager".

(** [[A-Za-z\.\- ]] *)
Definition name_class (c : ascii) : bool := Chr.alpha_az c || one_of ".- " c.

(** [([A-Z][A-Za-z\.\- ]{2,})] *)
Definition re_name_capture : re := Grp 1 (Seq (Cls Chr.upper_az) (Rep name_class 2 None)).

Definition re_honorifics : re := alt [lit "Mr."; lit "Ms."; lit "Mrs."].

(** [(?:Fund Manager|Co-? ?Fund Manager)\s*(?:[:\-]?)\s*(?:Mr\.|Ms\.|Mrs\.)?\s*([A-Z][A-Za-z\.\- ]{2,})] *)
Definition re_manager_names : re :=
  seq [Alt (lit "Fund Manager")
           (seq [lit "Co"; Opt (chr "-"%char); Opt (chr " "%char); lit "Fund Manager"]);
       star Chr.space; Opt (Cls colon_dash); star Chr.space;
       Opt re_honorifics; star Chr.space; re_name_capture].

(** [Mr\.?\s*([A-Z][A-Za-z\.\- ]{2,})] *)
Definition re_mr_names : re :=
  seq [lit "Mr"; Opt (chr "."%char); star Chr.space; re_name_capture].

(** [\b(Equity|Debt|Hybrid|Fixed Income)\b], [\([^)]*\)],
    [^(Mr\.|Ms\.|Mrs\.)\s*] *)
Definition re_role : re :=
  seq [WordB; Grp 1 (alt [lit "Equity"; lit "Debt"; lit "Hybrid"; lit "Fixed Income"]);
       WordB].
Definition re_parenthetical : re :=
  seq [chr "("%char; star (fun c => negb (Ascii.eqb c ")"%char)); chr ")"%char].
Definition re_leading_honorific : re := seq [Bol; Grp 1 re_honorifics; star Chr.space].

(** The four statements that turn a captured [mname] into [name]. *)
Definition manager_name (mname : string) : string :=
  let name := Py.strip (sub re_role [TLit ""] mname) in
  let name := Py.strip (sub re_parenthetical [TLit ""] name) in
  let name := Py.join " " (Py.split name) in
  sub re_leading_honorific [TLit ""] name.

(** The state of the scan: [meta], [seen_managers] and [buffer]. *)
Record scan : Type := MkScan
  { st_meta : Meta; seen_managers : list string; buffer : string }.

Definition name_in (n : string) (seen : list string) : bool :=
  if in_dec string_dec n seen then true else false.

(** [for mname in matches: ...] *)
Definition add_manager (acc : list string * list string) (mname : string)
  : list string * list string :=
  let name := manager_name mname in
  if negb (Py.falsy name) && negb (name_in name (fst acc))
  then (name :: fst acc, (snd acc ++ [name])%list)
  else acc.

Definition add_managers (found_names : list string) (st : scan) : scan :=
  let r := fold_left add_manager found_names (seen_managers st, managers (st_meta st)) in
  MkScan (set_managers (snd r) (st_meta st)) (fst r) "".

(** The rules that do not end the iteration, each [if not meta.get(k): ...]. *)
Definition rule_str (get : Meta -> option string) (set : option string -> Meta -> Meta)
    (r : re) (value : mobj -> string) (text : string) (m : Meta) : Meta :=
  if unset_str (get m) then
    match search r text with
    | Some mo => set (Some (value mo)) m
    | None => m
    end
  else m.

Definition rule_num (get : Meta -> option Q) (set : option Q -> Meta -> Meta)
    (r : re) (capture : mobj -> string) (text : string) (m : Meta) : Meta :=
  if unset_num (get m) then
    match search r text with
    | Some mo =>
        match float_of_string (capture mo) with
        | Some v => set (Some v) m
        | None => m
        end
    | None => m
    end
  else m.

(** [" ".join(re.sub(r"([a-z])([A-Z])", r"\1 \2", s).split())] *)
Definition deglue (s : string) : string :=
  Py.join " " (Py.split (sub re_lower_upper tmpl_spaced s)).

Definition field_rules (text : string) (m : Meta) : Meta :=
  let m := rule_str date_of_allotment set_date_of_allotment re_date_of_allotment
             (group 1) text m in
  let m := rule_str benchmark set_benchmark re_benchmark
             (fun mo => deglue (group 1 mo)) text m in
  let m := rule_str additional_benchmark set_additional_benchmark
             re_additional_benchmark (fun mo => deglue (group 1 mo)) text m in
  let m := rule_num aum_crore set_aum_crore re_net_aum
             (fun mo => Py.remove_char ","%char (group 1 mo)) text m in
  let m := rule_num monthly_avg_aum set_monthly_avg_aum re_monthly_avg_aum
             (fun mo => Py.remove_char ","%char (group 1 mo)) text m in
  let m := rule_num expense_ratio_regular set_expense_ratio_regular re_regular_plan
             (group 1) text m in
  rule_num expense_ratio_direct set_expense_ratio_direct re_direct_plan
    (group 1) text m.

(** The guard of the fund-name rule. *)
Definition name_rule_fires (m : Meta) (text : string) : bool :=
  unset_str (name m)
  && Py.contains "FUND" (Py.upper text)
  && (String.length text <? 120)
  && negb (Py.startswith "JUNE" (Py.upper text)).

(** The guard of the category rule. *)
Definition category_rule_fires (m : Meta) (text : string) : bool :=
  negb (unset_str (name m)) && unset_str (category m)
  && Py.startswith "(" (Py.strip text) && Py.endswith ")" (Py.strip text).

Definition category_of (text : string) : string :=
  let cat := fix_glued_domain_terms (clean_text (Py.strip (Py.slice_1_m1 (Py.strip text)))) in
  Py.strip (Py.join " " (Py.split cat)).

Definition with_meta (m : Meta) (st : scan) : scan :=
  MkScan m (seen_managers st) (buffer st).

(** The manager rules, with the field rules already applied. *)
Definition manager_rules (text : string) (st : scan) : scan :=
  if found (search re_fund_manager text) then
    let buf := (buffer st ++ " " ++ text)%string in
    add_managers (findall re_manager_names buf) st
  else if negb (Py.falsy (buffer st)) && Py.startswith "Mr." text then
    let buf := (buffer st ++ " " ++ text)%string in
    add_managers (findall re_mr_names buf) st
  else st.

(** The body of [for c in p.content]. *)
Definition scan_item (st : scan) (c : ContentItem) : scan :=
  if negb (String.eqb (type c) "paragraph" || String.eqb (type c) "heading") then st
  else
    match text c with
    | None => st
    | Some raw =>
        if Py.falsy raw then st
        else
          let text := fix_glued_domain_terms (clean_text raw) in
          if is_noise text then st
          else if name_rule_fires (st_meta st) text then
            with_meta (set_name (Some (Py.strip (deglue text))) (st_meta st)) st
          else if category_rule_fires (st_meta st) text then
            with_meta (set_category (Some (category_of text)) (st_meta st)) st
          else manager_rules text (with_meta (field_rules text (st_meta st)) st)
    end.

Definition initial_meta (cover_text : string) : Meta :=
  MkMeta None None None None None None None None None []
    (option_map group0 (search re_month_year cover_text)).

Definition scan_pages (pages : list PageOut) (st : scan) : scan :=
  fold_left (fun st p => fold_left scan_item (content p) st) pages st.

Definition extract_fund_metadata_from_content (pages : list PageOut)
    (cover_text : string) : Meta :=
  st_meta (scan_pages pages (MkScan (initial_meta cover_text) [] "")).


(** ** Page assembly: [extract_blocks], [classify_spans_as_headings],
    [group_page_content] *)

(** The part of the layout library's page dict that the code reads: a span
    is a dict with the keys "text" and "size", a line a dict with the key
    "spans", a block a dict with the keys "lines" (text blocks only) and
    "bbox" (four numbers).  A key that is absent reads as [None]; for
    "text" so does a key that holds [None], the code treating both alike. *)
Record Span : Type := MkSpan
  { span_text : option string; span_size : option Q }.

Record Line : Type := MkLine { line_spans : option (list Span) }.

Record Block : Type := MkBlock
  { block_lines : option (list Line); block_bbox : option (Q * Q * Q * Q) }.

(** A page of the opened document: the "blocks" of [get_text("dict")],
    what [get_images(full=True)] returns ([None] when the call raises; the
    entries are counted, not read), and [get_text("text")] ([None] when the
    call raises). *)
Record DocPage : Type := MkDocPage
  { dict_blocks : option (list Block);
    get_images : option (list nat);
    plain_text : option string }.

(** [d.get(k, [])] *)
Definition or_empty {A : Type} (o : option (list A)) : list A :=
  match o with Some l => l | None => [] end.

(** ["lines" in b] *)
Definition has_lines (b : Block) : bool :=
  match block_lines b with Some _ => true | None => false end.

Definition extract_blocks (doc : list DocPage) : list (list Block) :=
  map (fun page => filter has_lines (or_empty (dict_blocks page))) doc.

(** [str.isupper]: some cased character, and no lower-case one.  Of the
    8-bit characters the upper-case ones are A-Z and U+00C0-U+00DE without
    the multiplication sign; the lower-case ones are a-z, the two ordinal
    indicators, the micro sign and U+00DF-U+00FF without the division
    sign. *)
Definition upper_cased (c : ascii) : bool :=
  Chr.in_range 65 90 c || Chr.in_range 192 214 c || Chr.in_range 216 222 c.

Definition lower_cased (c : ascii) : bool :=
  Chr.in_range 97 122 c || Chr.is_code 170 c || Chr.is_code 181 c
  || Chr.is_code 186 c || Chr.in_range 223 246 c || Chr.in_range 248 255 c.

Fixpoint any_char (p : ascii -> bool) (s : string) : bool :=
  match s with
  | EmptyString => false
  | String c s' => p c || any_char p s'
  end.

Definition isupper (s : string) : bool :=
  any_char upper_cased s && negb (any_char lower_cased s).

(** The two labels, "heading" and "body". *)
Inductive label : Type := LHeading | LBody.

Definition label_eqb (a b : label) : bool :=
  match a, b with
  | LHeading, LHeading => true
  | LBody, LBody => true
  | _, _ => false
  end.

Definition size_threshold : Q := 11%Q.

(** [span.get("text") or ""], and [span.get("text", "")] as [clean_text]
    reads it. *)
Definition text_or_empty (sp : Span) : string :=
  match span_text sp with Some t => t | None => "" end.

(** The body of the inner loop: no label for a span whose cleaned text is
    empty. *)
Definition span_label (sp : Span) : option label :=
  let text := clean_text (text_or_empty sp) in
  if Py.falsy text then None
  else
    let size := match span_size sp with Some q => q | None => 10%Q end in
    if Qle_bool size_threshold size
       || (isupper text && (List.length (Py.split text) <=? 6))
    then Some LHeading
    else Some LBody.

Definition classify_spans_as_headings (block : Block) : list (label * Span) :=
  flat_map
    (fun line =>
       flat_map
         (fun sp => match span_label sp with Some lab => [(lab, sp)] | None => [] end)
         (or_empty (line_spans line)))
    (or_empty (block_lines block)).

(** [sorted(blocks, key=lambda b: (bbox[1], bbox[0]))]: the order of Python
    tuples of two floats, and a stable insertion sort by it. *)
Definition block_key (b : Block) : Q * Q :=
  match block_bbox b with
  | Some (x0, y0, _, _) => (y0, x0)
  | None => (0%Q, 0%Q)
  end.

Definition pos_lt (a b : Q * Q) : bool :=
  negb (Qle_bool (fst b) (fst a))
  || (Qeq_bool (fst a) (fst b) && negb (Qle_bool (snd b) (snd a))).

Fixpoint insert_block (x : Block) (l : list Block) : list Block :=
  match l with
  | [] => [x]
  | y :: l' =>
      if pos_lt (block_key y) (block_key x) then y :: insert_block x l' else x :: l
  end.

Definition sort_blocks (l : list Block) : list Block := fold_right insert_block [] l.

(** The variables of the loop over a block's labelled spans: the state
    [push_text] works on, [buf_type] and [buf_text]. *)
Record flush : Type := MkFlush
  { fl_asm : asm; buf_type : option label; buf_text : list string }.

(** [buf_type == "heading"] *)
Definition is_heading (l : option label) : bool :=
  match l with Some LHeading => true | _ => false end.

(** [x0, y0, x1, y1 = b.get("bbox", [0, 0, 0, 0])] and the list
    [[x0, y0, x1, y1]] passed on. *)
Definition bbox_list (b : Block) : list Q :=
  match block_bbox b with
  | Some (x0, y0, x1, y1) => [x0; y0; x1; y1]
  | None => [0; 0; 0; 0]%Q
  end.

(** The body of [for lab, span in labels]. *)
Definition visit_span (bx : list Q) (st : flush) (ls : label * Span) : flush :=
  let t := clean_text (text_or_empty (snd ls)) in
  if Py.falsy t then st
  else
    match buf_type st with
    | None => MkFlush (fl_asm st) (Some (fst ls)) [t]
    | Some bt =>
        if negb (label_eqb (fst ls) bt) then
          MkFlush
            (push_text (fl_asm st) (is_heading (Some bt))
               (Some (Py.join " " (buf_text st))) bx)
            (Some (fst ls)) [t]
        else MkFlush (fl_asm st) (Some bt) (buf_text st ++ [t])
    end.

(** The body of [for b in blocks_sorted]. *)
Definition visit_block (st : asm) (b : Block) : asm :=
  let bx := bbox_list b in
  let r := fold_left (visit_span bx) (classify_spans_as_headings b)
             (MkFlush st None []) in
  match buf_text r with
  | [] => fl_asm r
  | _ :: _ =>
      push_text (fl_asm r) (is_heading (buf_type r))
        (Some (Py.join " " (buf_text r))) bx
  end.

(** The chart placeholders: one per image, none when the call raises. *)
Definition chart_item (st : asm) : ContentItem :=
  MkContentItem "chart" (current_section st) (current_sub st)
    (Some "Chart/graph detected") None (Some [0; 0; 0; 0]%Q)
    (Some [("note", "placeholder for chart")]).

Definition add_charts (st : asm) (imgs : option (list nat)) : asm :=
  fold_left (fun acc _ => append_item acc (chart_item acc)) (or_empty imgs) st.

(** The body of [for i, page in enumerate(doc)], given [blocks_per_page[i]]. *)
Definition assemble_page (i : nat) (page : DocPage) (blocks : list Block) : PageOut :=
  let st := fold_left visit_block (sort_blocks blocks) (MkAsm None None []) in
  let st := add_charts st (get_images page) in
  MkPageOut (i + 1) (items st).

(** [blocks_per_page[i]] raises IndexError when the list is too short:
    the result is [None]. *)
Fixpoint group_from (i : nat) (doc : list DocPage)
    (blocks_per_page : list (list Block)) : option (list PageOut) :=
  match doc with
  | [] => Some []
  | page :: doc' =>
      match nth_error blocks_per_page i with
      | None => None
      | Some blocks =>
          match group_from (S i) doc' blocks_per_page with
          | None => None
          | Some out => Some (assemble_page i page blocks :: out)
          end
      end
  end.

Definition group_page_content (doc : list DocPage)
    (blocks_per_page : list (list Block)) : option (list PageOut) :=
  group_from 0 doc blocks_per_page.

(** ** Main flow: [parse] *)

(** [s.split(sep)] for a one-character separator. *)
Fixpoint split_on (sep : ascii) (s : string) : list string :=
  match s with
  | EmptyString => [EmptyString]
  | String c s' =>
      if Ascii.eqb c sep then EmptyString :: split_on sep s'
      else
        match split_on sep s' with
        | p :: ps => String c p :: ps
        | [] => [String c EmptyString]
        end
  end.

(** The dict [fund_meta] after [pop("doc_date")]. *)
Record Fund : Type := MkFund
  { fund_name : option string;
    fund_category : option string;
    fund_aum_crore : option Q;
    fund_monthly_avg_aum : option Q;
    fund_expense_ratio_regular : option Q;
    fund_expense_ratio_direct : option Q;
    fund_benchmark : option string;
    fund_additional_benchmark : option string;
    fund_date_of_allotment : option string;
    fund_managers : list string }.

Definition without_doc_date (m : Meta) : Fund :=
  MkFund (name m) (category m) (aum_crore m) (monthly_avg_aum m)
    (expense_ratio_regular m) (expense_ratio_direct m) (benchmark m)
    (additional_benchmark m) (date_of_allotment m) (managers m).

(** The dict [parse] returns. *)
Record Parsed : Type := MkParsed
  { file_name : string;
    parsed_doc_date : option string;
    fund : Fund;
    parsed_pages : list PageOut }.

(** [doc[0].get_text("text")] under its guards. *)
Definition cover_text_of (doc : list DocPage) : string :=
  match doc with
  | [] => ""
  | page :: _ => match plain_text page with Some t => t | None => "" end
  end.

(** [parse], given what the two libraries read at [pdf_path]: the document
    [doc] and the pages [pdf].  The result is [None] when the function
    raises. *)
Definition parse (pdf_path : string) (doc : list DocPage) (pdf : list PdfPage)
  : option Parsed :=
  let cover_text := cover_text_of doc in
  let blocks_per_page := extract_blocks doc in
  match group_page_content doc blocks_per_page with
  | None => None
  | Some pages =>
      let tables := extract_tables pdf in
      let pages := merge_tables_into_pages pages tables in
      let fund_meta := extract_fund_metadata_from_content pages cover_text in
      Some (MkParsed (last (split_on "/"%char pdf_path) EmptyString)
              (doc_date fund_meta) (without_doc_date fund_meta) pages)
  end.
(** * Auxiliary definitions used in the statements *)

Local Open Scope list_scope.

(** A paragraph item as the page assembler emits it. *)
Definition paragraph_item (s : string) (bx : list Q) : ContentItem :=
  MkContentItem "paragraph" None None (Some s) None (Some bx) None.

Definition heading_item (s : string) (bx : list Q) : ContentItem :=
  MkContentItem "heading" (Some s) None (Some s) None (Some bx) None.

Definition zero_box : list Q := [0; 0; 0; 0]%Q.

(** The scan of a list of items, and the state before the first item. *)
Definition scan_items (l : list ContentItem) (st : scan) : scan :=
  fold_left scan_item l st.

Definition initial_scan (cover_text : string) : scan :=
  MkScan (initial_meta cover_text) [] "".

(** All items of a document in the order the scan visits them. *)
Definition all_items (pages : list PageOut) : list ContentItem :=
  flat_map content pages.

(** A state the scan can be in: reached from the initial state by some
    items. *)
Definition reachable (st : scan) : Prop :=
  exists cover_text l, st = scan_items l (initial_scan cover_text).

(** The four things an iteration can do: skip the item, take it as the
    fund name, take it as the category, or run the field rules and the
    manager rules on it. *)
Inductive step_kind (st : scan) (c : ContentItem) : Prop :=
| StepSkip : scan_item st c = st -> step_kind st c
| StepName : forall text,
    name_rule_fires (st_meta st) text = true ->
    scan_item st c = with_meta (set_name (Some (Py.strip (deglue text))) (st_meta st)) st ->
    step_kind st c
| StepCategory : forall text,
    category_rule_fires (st_meta st) text = true ->
    scan_item st c = with_meta (set_category (Some (category_of text)) (st_meta st)) st ->
    step_kind st c
| StepRules : forall text,
    scan_item st c = manager_rules text (with_meta (field_rules text (st_meta st)) st) ->
    step_kind st c.


(** The texts of the spec's worked examples. *)
Definition net_aum_rs_text : string := "Net AUM : Rs 12,345.67 crore".
Definition net_aum_text : string := "Net AUM : 12,345.67 crore".
Definition john_smith_text : string := "Fund Manager: Mr. John Smith (Equity)".

(** An item the scan reads: a paragraph or a heading. *)
Definition scanned_type (c : ContentItem) : bool :=
  String.eqb (type c) "paragraph" || String.eqb (type c) "heading".

(** The text the rules see for an item: cleaned and domain-fixed. *)
Definition rule_text (raw : string) : string :=
  fix_glued_domain_terms (clean_text raw).

(** What the scan maintains about the managers: the list has no repeats,
    it has the same members as [seen_managers], and the buffer is empty
    between items. *)
Definition managers_inv (st : scan) : Prop :=
  NoDup (managers (st_meta st))
  /\ (forall x, In x (seen_managers st) <-> In x (managers (st_meta st)))
  /\ buffer st = "".

(** ** Statements about [extract_tables] *)

Definition strategy_eqb (a b : strategy) : bool :=
  match a, b with
  | LinesStrategy, LinesStrategy => true
  | TextStrategy, TextStrategy => true
  | _, _ => false
  end.

Definition other_strategy (a : strategy) : strategy :=
  match a with
  | LinesStrategy => TextStrategy
  | TextStrategy => LinesStrategy
  end.

(** The page that answers [o] to strategy [mode] and is [page] otherwise. *)
Definition with_outcome (page : PdfPage) (mode : strategy) (o : outcome) : PdfPage :=
  MkPdfPage (fun m => if strategy_eqb m mode then o else page_extract_tables page m).

(** All raw tables the two strategies produce for a page, in the order
    the loops meet them. *)
Definition raw_tables (page : PdfPage) : list grid :=
  flat_map (fun mode => tables_or_empty (page_extract_tables page mode)) strategies.

(** The raw tables that are not skipped, normalized: the tables that get a
    fingerprint. *)
Definition normalized (gs : list grid) : list Table :=
  map normalize_grid (filter (fun g => negb (skipped g)) gs).

Definition candidates (page : PdfPage) : list Table := normalized (raw_tables page).

(** [visit_table] on a table that is already normalized. *)
Definition visit_normalized (d : dedup) (t : Table) : dedup :=
  if key_in (key_of t) (seen_keys d) then d
  else MkDedup (key_of t :: seen_keys d) (page_tables d ++ [t]).

(** [l1] is [l2] with some elements left out, order kept. *)
Inductive subseq {A : Type} : list A -> list A -> Prop :=
| subseq_nil : subseq [] []
| subseq_skip : forall x l1 l2, subseq l1 l2 -> subseq l1 (x :: l2)
| subseq_take : forall x l1 l2, subseq l1 l2 -> subseq (x :: l1) (x :: l2).

(** [t] stands in [l] with no table of the same fingerprint before it. *)
Definition first_of_its_key (t : Table) (l : list Table) : Prop :=
  exists l1 l2, l = l1 ++ t :: l2 /\ ~ In (key_of t) (map key_of l1).

(** Equal normalized headers and equal numbers of normalized rows. *)
Definition same_fingerprint (a b : Table) : bool :=
  (if list_eq_dec string_dec (headers a) (headers b) then true else false)
  && (List.length (rows a) =? List.length (rows b)).

(** The deduplication as the specification words it, without the loop's
    set of seen fingerprints: the first table stays, and no later table
    with its headers and row count does. *)
Fixpoint first_per_fingerprint (l : list Table) : list Table :=
  match l with
  | [] => []
  | c :: l' =>
      c :: filter (fun t => negb (same_fingerprint c t)) (first_per_fingerprint l')
  end.

(** The loop's [seen_keys] are the fingerprints of [page_tables], which
    are pairwise different. *)
Definition dedup_inv (d : dedup) : Prop :=
  NoDup (map key_of (page_tables d))
  /\ (forall k, In k (seen_keys d) <-> In k (map key_of (page_tables d))).

(** ** Statements about [merge_tables_into_pages] *)

(** The top coordinate [sort_key] reads, when the item has one. *)
Definition top_of (c : ContentItem) : option Q :=
  match bbox c with
  | Some (_ :: y1 :: _) => Some y1
  | _ => None
  end.

(** The items a page holds when the sort starts: its own, then one table
    item per table of [tables_by_page[i]]. *)
Definition with_tables (tables_by_page : tables_dict) (i : nat) (page : PageOut)
  : list ContentItem :=
  content page
  ++ match dict_get i tables_by_page with
     | Some ts => map table_item ts
     | None => []
     end.

(** The order of the keys, as a relation on what is sorted, and on
    items under [sort_key]. *)
Definition ordered_by {A : Type} (key : A -> nat * Q) (a b : A) : Prop :=
  key_le (key a) (key b) = true.

Definition key_ordered : ContentItem -> ContentItem -> Prop := ordered_by sort_key.

(** [a] stands somewhere before [b] in [l]. *)
Definition precedes {A : Type} (a b : A) (l : list A) : Prop :=
  exists l1 l2 l3, l = l1 ++ a :: l2 ++ b :: l3.

(** The items of [l] whose key equals [k], in the order of [l]. *)
Definition with_key (k : nat * Q) (l : list ContentItem) : list ContentItem :=
  filter (fun c => key_eq (sort_key c) k) l.

Definition positioned_item (ty : string) (s : string) (top : Q) : ContentItem :=
  MkContentItem ty None None (Some s) None (Some [0; top; 100; top + 10]%Q) None.

Definition positionless_item (ty : string) (s : string) : ContentItem :=
  MkContentItem ty None None (Some s) None None None.

Definition sample_table : Table := MkTable ["Scheme"; "Weightage"] [["Alpha"; "10.5"]].

(** ** Direct forms of the substitutions of [clean_text] *)

(** The next character of [s] is in class [q]. *)
Definition next_is (q : ascii -> bool) (s : string) : bool :=
  match s with
  | String c _ => q c
  | EmptyString => false
  end.

(** The length of the longest prefix of [s] inside class [p], the text
    after [n] characters, and the character before it. *)
Fixpoint run (p : ascii -> bool) (s : string) : nat :=
  match s with
  | String c s' => if p c then S (run p s') else 0
  | EmptyString => 0
  end.

Fixpoint drop (n : nat) (s : string) : string :=
  match n, s with
  | S k, String _ s' => drop k s'
  | _, _ => s
  end.

Fixpoint prev_after (n : nat) (pv : option ascii) (s : string) : option ascii :=
  match n, s with
  | S k, String c s' => prev_after k (Some c) s'
  | _, _ => pv
  end.

(** Some two neighbours of [a :: s] are related by [R]. *)
Fixpoint adj_from (R : ascii -> ascii -> bool) (a : ascii) (s : string) : bool :=
  match s with
  | EmptyString => false
  | String b s' => R a b || adj_from R b s'
  end.

Definition adj (R : ascii -> ascii -> bool) (s : string) : bool :=
  match s with
  | EmptyString => false
  | String a s' => adj_from R a s'
  end.

Fixpoint all_chars (p : ascii -> bool) (s : string) : bool :=
  match s with
  | EmptyString => true
  | String c s' => p c && all_chars p s'
  end.

(** A hyphen directly followed by whitespace. *)
Definition hyphen_then_space (a b : ascii) : bool :=
  Ascii.eqb HYPHEN a && Chr.space b.

Definition pair_of (p q : ascii -> bool) (a b : ascii) : bool := p a && q b.

(** A space put between every [p]-character and a [q]-character right
    after it: what [re.sub("([p])([q])", r"\1 \2", s)] does when no
    character of [q] is in [p]. *)
Fixpoint gap_from (p q : ascii -> bool) (x : ascii) (s : string) : string :=
  match s with
  | EmptyString => EmptyString
  | String y s' =>
      if p x && q y then String SP (String y (gap_from p q y s'))
      else String y (gap_from p q y s')
  end.

Definition gap (p q : ascii -> bool) (s : string) : string :=
  match s with
  | EmptyString => EmptyString
  | String x s' => String x (gap_from p q x s')
  end.

(** Every run of whitespace replaced by one space; [in_run] says that the
    character before was whitespace. *)
Fixpoint collapse_go (in_run : bool) (s : string) : string :=
  match s with
  | EmptyString => EmptyString
  | String c s' =>
      if Chr.space c then
        if in_run then collapse_go true s' else String SP (collapse_go true s')
      else String c (collapse_go false s')
  end.

Definition collapse (s : string) : string := collapse_go false s.

Definition to_space (p : ascii -> bool) (c : ascii) : ascii := if p c then SP else c.

(** [t.replace("\t", " ")] on one character. *)
Definition tab_to_sp (c : ascii) : ascii := if Ascii.eqb c TAB then SP else c.

(** The character is no whitespace other than the space itself. *)
Definition ws_is_sp (c : ascii) : bool := negb (Chr.space c) || Ascii.eqb c SP.

(** [clean_text] on a text in which no hyphen is directly followed by
    whitespace, with the substitutions in direct form. *)
Definition clean_text_direct (t : string) : string :=
  if Py.falsy t then ""
  else
    Py.strip
      (gap Chr.digit Chr.alpha_az
         (gap Chr.alpha_az Chr.digit
            (gap Chr.lower_az Chr.upper_az
               (collapse
                  (Py.map_chars (to_space nbsp_class)
                     (Py.replace_char TAB SP t)))))).

(** A text the normalizer leaves alone: whitespace is single spaces inside
    the text, and no two neighbours call for a space or a join. *)
Definition normal_form (s : string) : Prop :=
  all_chars ws_is_sp s = true
  /\ adj (pair_of Chr.space Chr.space) s = false
  /\ adj hyphen_then_space s = false
  /\ adj (pair_of Chr.lower_az Chr.upper_az) s = false
  /\ adj (pair_of Chr.alpha_az Chr.digit) s = false
  /\ adj (pair_of Chr.digit Chr.alpha_az) s = false
  /\ Py.strip s = s.

(** ** Sentence gaps *)

Definition sentence_end (c : ascii) : bool := one_of ".!?" c.

(** A sentence gap starts here: the character before ends a sentence, a
    run of whitespace follows, and an upper-case letter follows the run. *)
Definition gap_here (pv : option ascii) (s : string) : bool :=
  match pv with Some a => sentence_end a | None => false end
  && (0 <? run Chr.space s)
  && next_is Chr.upper_az (drop (run Chr.space s) s).

Fixpoint gaps_from (pv : option ascii) (s : string) : nat :=
  match s with
  | EmptyString => 0
  | String c s' => (if gap_here pv s then 1 else 0) + gaps_from (Some c) s'
  end.

(** The number of sentence gaps of a text. *)
Definition sentence_gaps (s : string) : nat := gaps_from None s.

Definition nonblank (s : string) : bool := negb (Py.falsy (Py.strip s)).

Fixpoint repeat_char (c : ascii) (n : nat) : string :=
  match n with
  | 0 => EmptyString
  | S k => String c (repeat_char c k)
  end.

(** A body run of 650 characters with two sentence gaps. *)
Definition body_650 : string :=
  ("A" ++ repeat_char "a" 214 ++ ". "
   ++ "B" ++ repeat_char "b" 214 ++ ". "
   ++ "C" ++ repeat_char "c" 215)%string.

(** A string-valued entry that was never assigned, or holds a non-empty
    string: what [name] and [date_of_allotment] can be. *)
Definition none_or_true (v : option string) : Prop :=
  v = None \/ unset_str v = false.

(** ** Statements about [clean_text] and [is_noise] on every text *)


(** The text right after the hyphen-break rejoin of [clean_text]. *)
Definition rejoined (t : string) : string :=
  sub re_hyphen_break tmpl_joined
    (Py.map_chars (to_space nbsp_class) (Py.replace_char TAB SP t)).

(** The letters of a text, lower-cased: what [is_noise] compares with the
    boilerplate phrases. *)
Definition letters (t : string) : string :=
  Py.lower (Py.filter_chars Chr.alpha_az t).

(** Equality of two texts under IGNORECASE. *)
Fixpoint eq_icase (a b : string) : bool :=
  match a, b with
  | EmptyString, EmptyString => true
  | String x a', String y b' => Chr.eqb_icase x y && eq_icase a' b'
  | _, _ => false
  end.

(** The text holds the word "page" in any case, then whitespace or
    nothing, then a digit. *)
Definition mentions_page_number (t : string) : Prop :=
  exists a w sp d b,
    t = (a ++ w ++ sp ++ String d b)%string
    /\ eq_icase "Page" w = true
    /\ all_chars Chr.space sp = true
    /\ Chr.digit d = true.

(** The whole text is "page", a bar and a number, with whitespace or
    nothing around each of them. *)
Definition page_bar_number (t : string) : Prop :=
  exists sp1 w sp2 sp3 ds sp4,
    t = (sp1 ++ w ++ sp2 ++ String PIPE (sp3 ++ ds ++ sp4))%string
    /\ eq_icase "Page" w = true
    /\ all_chars Chr.space sp1 = true
    /\ all_chars Chr.space sp2 = true
    /\ all_chars Chr.space sp3 = true
    /\ all_chars Chr.digit ds = true /\ ds <> EmptyString
    /\ all_chars Chr.space sp4 = true.

(** One of the two boilerplate phrases occurs in the letters of the text. *)
Definition carries_disclaimer (t : string) : bool :=
  existsb (fun n => Py.contains n (letters t)) noise_compact.

(** ** Statements about the table helpers *)

(** The characters of a row of cells that are not whitespace, in order. *)
Definition ink (c : ascii) : bool := negb (Chr.space c).

Definition row_ink (row : list string) : string :=
  Py.filter_chars ink (String.concat "" row).

Definition stripped (c : string) : Prop := Py.strip c = c.

Definition ends_empty (row : list string) : Prop :=
  exists pre, row = (pre ++ [EmptyString])%list.

(** The characters of a text that are not whitespace, lower-cased. *)
Definition lower_ink (t : string) : string := Py.lower (Py.filter_chars ink t).

(** ** Statements about the metadata scan and the merged pages *)

(** An item the scan does not pass over at once: a paragraph or a heading
    with a non-empty text. *)
Definition readable (c : ContentItem) : bool :=
  scanned_type c
  && match text c with Some raw => negb (Py.falsy raw) | None => false end.

(** A number-valued entry that is unassigned or not negative. *)
Definition nonneg (v : option Q) : Prop := forall q, v = Some q -> (0 <= q)%Q.

(** What holds of the metadata whatever the pages are: [name] and
    [date_of_allotment] are unassigned or non-empty, a category is only
    there beside a name, no manager name is empty, no number is negative. *)
Definition meta_wf (m : Meta) : Prop :=
  none_or_true (name m)
  /\ none_or_true (date_of_allotment m)
  /\ (category m <> None -> unset_str (name m) = false)
  /\ Forall (fun n => n <> EmptyString) (managers m)
  /\ nonneg (aum_crore m) /\ nonneg (monthly_avg_aum m)
  /\ nonneg (expense_ratio_regular m) /\ nonneg (expense_ratio_direct m).

Definition numbers_nonneg (m : Meta) : Prop :=
  nonneg (aum_crore m) /\ nonneg (monthly_avg_aum m)
  /\ nonneg (expense_ratio_regular m) /\ nonneg (expense_ratio_direct m).

(** ** Statements about the page assembler and [parse] *)

(** A bounding box of four numbers. *)
Definition four (bx : list Q) : Prop := exists x0 y0 x1 y1, bx = [x0; y0; x1; y1].

(** The text blocks [parse] hands to the assembler for a page. *)
Definition text_blocks (page : DocPage) : list Block :=
  filter has_lines (or_empty (dict_blocks page)).

(** The state of the assembler when the blocks of a page are done, before
    the chart placeholders. *)
Definition after_blocks (blocks : list Block) : asm :=
  fold_left visit_block (sort_blocks blocks) (MkAsm None None []).

(** Page [j] of what [parse] returns for a document whose page [j] is
    [page]. *)
Definition parsed_page (pdf : list PdfPage) (j : nat) (page : DocPage) : PageOut :=
  merge_page (extract_tables pdf) j (assemble_page j page (text_blocks page)).

(** A heading is the section heading (its text is the section, it has no
    sub-section) or a sub-section heading (its text is the sub-section,
    under some section). *)
Definition heading_shape (c : ContentItem) : Prop :=
  type c = "heading" ->
  (sub_section c = None /\ section c = text c /\ text c <> None)
  \/ (sub_section c = text c /\ text c <> None /\ section c <> None).

(** What the assembler maintains about the section state and the items. *)
Definition sec_inv (st : asm) : Prop :=
  Forall (fun c => section c = None \/ section c = current_section st) (items st)
  /\ (forall s, current_section st = Some s ->
        exists h, In h (items st) /\ type h = "heading" /\ text h = Some s
                  /\ section h = Some s /\ sub_section h = None)
  /\ Forall (fun c => sub_section c <> None -> section c <> None) (items st)
  /\ (current_sub st <> None -> current_section st <> None)
  /\ Forall heading_shape (items st).

(** A page has at most one section, the text of one of its headings;
    sub-sections only occur under it; every heading is the section heading
    or a sub-section heading. *)
Definition one_section (l : list ContentItem) : Prop :=
  (forall c1 c2 s1 s2, In c1 l -> In c2 l ->
     section c1 = Some s1 -> section c2 = Some s2 -> s1 = s2)
  /\ (forall c s, In c l -> section c = Some s ->
        exists h, In h l /\ type h = "heading" /\ text h = Some s
                  /\ section h = Some s /\ sub_section h = None)
  /\ (forall c, In c l -> sub_section c <> None -> section c <> None)
  /\ (forall c, In c l -> heading_shape c).

(** An item that follows the section state and is no heading. *)
Definition follows (st : asm) (c : ContentItem) : Prop :=
  type c <> "heading" /\ section c = current_section st
  /\ sub_section c = current_sub st.

(** An item outside the sections: no heading, no section. *)
Definition neutral (c : ContentItem) : Prop :=
  type c <> "heading" /\ section c = None /\ sub_section c = None.

(** The three shapes of item [parse] returns. *)
Definition text_item (c : ContentItem) : Prop :=
  (type c = "heading" \/ type c = "paragraph")
  /\ (exists t, text c = Some t /\ t <> EmptyString)
  /\ table c = None
  /\ (exists bx, bbox c = Some bx /\ four bx)
  /\ meta c = None.

Definition chart_placeholder (c : ContentItem) : Prop :=
  type c = "chart"
  /\ text c = Some "Chart/graph detected"
  /\ table c = None
  /\ bbox c = Some [0; 0; 0; 0]%Q
  /\ meta c = Some [("note", "placeholder for chart")].

Definition table_entry (c : ContentItem) : Prop :=
  type c = "table"
  /\ text c = None
  /\ table c <> None
  /\ bbox c = None
  /\ meta c = None
  /\ section c = None /\ sub_section c = None.

Definition item_shape (c : ContentItem) : Prop :=
  text_item c \/ chart_placeholder c \/ table_entry c.

(** The items of one type, in the order of the list. *)
Definition of_type (ty : string) (l : list ContentItem) : list ContentItem :=
  filter (fun c => String.eqb (type c) ty) l.

(** The tables found for page [j]. *)
Definition tables_of (pdf : list PdfPage) (j : nat) : list Table :=
  or_empty (dict_get j (extract_tables pdf)).

Definition table_of (c : ContentItem) : list Table :=
  match table c with Some t => [t] | None => [] end.

(** The cleaned texts of the labelled spans of a block, with their labels. *)
Definition labelled_texts (b : Block) : list (label * string) :=
  map (fun ls => (fst ls, clean_text (text_or_empty (snd ls))))
    (classify_spans_as_headings b).

(** The maximal runs of neighbours with the same label. *)
Fixpoint runs (l : list (label * string)) : list (label * list string) :=
  match l with
  | [] => []
  | (lab, t) :: l' =>
      match runs l' with
      | (lab', ts) :: rs =>
          if label_eqb lab lab' then (lab, t :: ts) :: rs
          else (lab, [t]) :: (lab', ts) :: rs
      | [] => [(lab, [t])]
      end
  end.

(** The labelled texts a list of runs stands for. *)
Definition unrun (rs : list (label * list string)) : list (label * string) :=
  flat_map (fun r => map (pair (fst r)) (snd r)) rs.

(** No two neighbouring runs have the same label. *)
Fixpoint alternating (rs : list (label * list string)) : Prop :=
  match rs with
  | r1 :: ((r2 :: _) as rs') => label_eqb (fst r1) (fst r2) = false /\ alternating rs'
  | _ => True
  end.

(** One call of [push_text] for a run: its texts joined by single spaces. *)
Definition push_run (bx : list Q) (st : asm) (r : label * list string) : asm :=
  push_text st (is_heading (Some (fst r))) (Some (Py.join " " (snd r))) bx.

(** What the block loop does when the spans are done: [if buf_text: ...]. *)
Definition final_push (bx : list Q) (r : flush) : asm :=
  match buf_text r with
  | [] => fl_asm r
  | _ :: _ =>
      push_text (fl_asm r) (is_heading (buf_type r))
        (Some (Py.join " " (buf_text r))) bx
  end.

(** The one-character string ["/"] and the test for it. *)
Definition SLASH : ascii := "/"%char.

Definition has_slash (s : string) : bool := any_char (Ascii.eqb SLASH) s.

(** A month name, whitespace, four digits. *)
Definition month_and_year (d : string) : Prop :=
  exists month sp year,
    d = (month ++ sp ++ year)%string
    /\ In month months
    /\ all_chars Chr.space sp = true /\ sp <> EmptyString
    /\ all_chars Chr.digit year = true /\ String.length year = 4.

(** The order in which the blocks of a page are visited: [a] may stand
    before [b] when [b]'s key (top, left) is not below [a]'s. *)
Definition block_le (a b : Block) : Prop :=
  pos_lt (block_key b) (block_key a) = false.

(** Two keys (top, left) are equal as numbers. *)
Definition pos_eq (a b : Q * Q) : bool :=
  Qeq_bool (fst a) (fst b) && Qeq_bool (snd a) (snd b).

(** A table with no text at all, and a table as the extractor stores it:
    trimmed cells, no row ending in an empty cell, some text somewhere. *)
Definition blank_table (t : Table) : Prop :=
  row_ink (headers t) = EmptyString
  /\ Forall (fun row => row_ink row = EmptyString) (rows t).

Definition table_wf (t : Table) : Prop :=
  Forall stripped (headers t)
  /\ Forall (fun row => Forall stripped row /\ ~ ends_empty row) (rows t)
  /\ ~ blank_table t.

(** ** Statements about the parts of a split paragraph *)

(** The last character of [s] is in class [p]; for an empty [s], the
    character [pv] before it is. *)
Fixpoint last_is (p : ascii -> bool) (pv : option ascii) (s : string) : bool :=
  match s with
  | EmptyString => match pv with Some a => p a | None => false end
  | String c s' => last_is p (Some c) s'
  end.

(** [s] does not end with whitespace. *)
Fixpoint ends_inked (s : string) : bool :=
  match s with
  | EmptyString => true
  | String c s' =>
      match s' with
      | EmptyString => ink c
      | String _ _ => ends_inked s'
      end
  end.

(** [s] is [parts] with a non-empty run of whitespace between every two
    neighbours, every part but the last ends a sentence, and a capital
    letter follows every run: [parts] cuts [s] at sentence gaps.  [pv] is
    the character before [s]. *)
Fixpoint cut_at_gaps (pv : option ascii) (s : string) (parts : list string) : Prop :=
  match parts with
  | [] => False
  | p :: ps =>
      match ps with
      | [] => s = p
      | _ :: _ =>
          exists w s',
            s = (p ++ w ++ s')%string
            /\ last_is sentence_end pv p = true
            /\ w <> EmptyString
            /\ all_chars Chr.space w = true
            /\ next_is Chr.upper_az s' = true
            /\ cut_at_gaps None s' ps
      end
  end.

(** A body run of 650 characters with two sentence gaps that mentions a
    page number. *)
Definition noisy_body_650 : string :=
  ("A" ++ repeat_char "a" 214 ++ ". "
   ++ "B" ++ repeat_char "b" 214 ++ ". "
   ++ "C" ++ repeat_char "c" 208 ++ " page 7")%string.

(** ** Statements about the pages [merge_tables_into_pages] is given *)

(** A page as [group_page_content] builds it: headings and paragraphs
    with the box of their block, and chart placeholders with the box
    [[0, 0, 0, 0]]. *)
Definition assembled (page : PageOut) : Prop :=
  Forall (fun c => text_item c \/ chart_placeholder c) (content page).

(** ** Statements about hyphen breaks *)

Definition is_hyphen (c : ascii) : bool := Ascii.eqb HYPHEN c.

(** How much of a hyphen break, a word character, a hyphen, a run of
    whitespace and a word character, the characters read last make up:
    nothing, the word character, the hyphen after it, or whitespace after
    the hyphen. *)
Inductive phase : Type := Idle | PastWord | PastHyphen | PastGap.

Definition advance (ph : phase) (c : ascii) : phase :=
  if Chr.word c then PastWord
  else if is_hyphen c then
    match ph with PastWord => PastHyphen | _ => Idle end
  else if Chr.space c then
    match ph with PastHyphen | PastGap => PastGap | _ => Idle end
  else Idle.

(** The character ends a hyphen break. *)
Definition closes (ph : phase) (c : ascii) : bool :=
  match ph with PastGap => Chr.word c | _ => false end.

(** A hyphen break ends somewhere in [s], when [ph] is what was read
    before [s]. *)
Fixpoint breaks_in (ph : phase) (s : string) : bool :=
  match s with
  | EmptyString => false
  | String c s' => closes ph c || breaks_in (advance ph c) s'
  end.

(** The hyphen break begun before [s] ends in [s]. *)
Fixpoint completes (ph : phase) (s : string) : bool :=
  match s with
  | EmptyString => false
  | String c s' => closes ph c || (negb (Chr.word c) && completes (advance ph c) s')
  end.

(** [s] begins with a hyphen break. *)
Definition break_here (s : string) : bool :=
  match s with
  | String x s1 => Chr.word x && completes PastWord s1
  | EmptyString => false
  end.

(** [p] holds of [s] or of what is left of [s] after some characters. *)
Fixpoint somewhere (p : string -> bool) (s : string) : bool :=
  p s || match s with
         | String _ s' => somewhere p s'
         | EmptyString => false
         end.

(** The text from the word character that ends the hyphen break at the
    head of [s]. *)
Definition after_gap (s : string) : string :=
  match s with
  | String _ (String _ r) => drop (run Chr.space r) r
  | _ => EmptyString
  end.

(** [s] begins with two hyphen breaks that share a word character: the
    one that ends the first begins the second. *)
Definition chained_here (s : string) : bool :=
  break_here s && break_here (after_gap s).

Definition has_break (s : string) : bool := somewhere break_here s.

Definition has_chained_break (s : string) : bool := somewhere chained_here s.

(** The text holds two hyphen breaks that share a word character: a word
    character, a hyphen, whitespace, one word character, a hyphen,
    whitespace, a word character. *)
Definition chained_break (t : string) : Prop :=
  exists a x sp1 u sp2 v b,
    t = (a ++ String x (String HYPHEN
               (sp1 ++ String u (String HYPHEN (sp2 ++ String v b)))))%string
    /\ Chr.word x = true /\ Chr.word u = true /\ Chr.word v = true
    /\ sp1 <> EmptyString /\ all_chars Chr.space sp1 = true
    /\ sp2 <> EmptyString /\ all_chars Chr.space sp2 = true.

(** The number of characters of [s] in class [p]. *)
Fixpoint count_chars (p : ascii -> bool) (s : string) : nat :=
  match s with
  | EmptyString => 0
  | String c s' => (if p c then 1 else 0) + count_chars p s'
  end.
(** * Properties *)

(** ** The scan visits the items of all pages in order *)

Lemma scan_pages_all_items : forall pages st,
  scan_pages pages st = scan_items (all_items pages) st.
Proof.
  unfold scan_pages, scan_items, all_items.
  induction pages as [|p ps IH]; intros st; simpl; [reflexivity|].
  rewrite fold_left_app. apply IH.
Qed.

Lemma extract_as_scan : forall pages cover_text,
  extract_fund_metadata_from_content pages cover_text
  = st_meta (scan_items (all_items pages) (initial_scan cover_text)).
Proof.
  intros. unfold extract_fund_metadata_from_content.
  rewrite scan_pages_all_items. reflexivity.
Qed.

Lemma scan_items_app : forall l1 l2 st,
  scan_items (l1 ++ l2) st = scan_items l2 (scan_items l1 st).
Proof. intros. unfold scan_items. apply fold_left_app. Qed.

(** ** What one item can do to the state *)

Lemma rule_str_keeps : forall (B : Type) (g : Meta -> B) get set r value text m,
  (unset_str (get m) = true -> forall v, g (set v m) = g m) ->
  g (rule_str get set r value text m) = g m.
Proof.
  intros B g get set r value text m H. unfold rule_str.
  destruct (unset_str (get m)) eqn:E; [|reflexivity].
  destruct (search r text); [apply H|]; reflexivity.
Qed.

Lemma rule_num_keeps : forall (B : Type) (g : Meta -> B) get set r capture text m,
  (unset_num (get m) = true -> forall v, g (set v m) = g m) ->
  g (rule_num get set r capture text m) = g m.
Proof.
  intros B g get set r capture text m H. unfold rule_num.
  destruct (unset_num (get m)) eqn:E; [|reflexivity].
  destruct (search r text); [|reflexivity].
  destruct (float_of_string (capture m0)); [apply H|]; reflexivity.
Qed.

(** A getter that every setter of [field_rules] leaves alone, or whose own
    setter is guarded by a test that fails, survives [field_rules]. *)
Ltac keep_rule :=
  first [ rewrite rule_str_keeps | rewrite rule_num_keeps ];
  [ | intros; try reflexivity; try congruence ].

(** Getters other than the one a rule guards pass through the rule; the
    guarded getter passes when its guard fails. *)
Ltac keep g :=
  repeat (first [ rewrite (rule_str_keeps _ g) | rewrite (rule_num_keeps _ g) ];
          [ | first [ intros; reflexivity | idtac ] ]).

Ltac sticky g H :=
  unfold field_rules; keep g;
  [ reflexivity
  | let Hu := fresh in intros Hu; exfalso; revert Hu; keep g; rewrite H; discriminate ].

Lemma field_rules_name : forall text m, name (field_rules text m) = name m.
Proof. intros. unfold field_rules. keep name. reflexivity. Qed.

Lemma field_rules_category : forall text m, category (field_rules text m) = category m.
Proof. intros. unfold field_rules. keep category. reflexivity. Qed.

Lemma field_rules_managers : forall text m, managers (field_rules text m) = managers m.
Proof. intros. unfold field_rules. keep managers. reflexivity. Qed.

Lemma field_rules_doc_date : forall text m, doc_date (field_rules text m) = doc_date m.
Proof. intros. unfold field_rules. keep doc_date. reflexivity. Qed.

Lemma field_rules_aum_crore : forall text m,
  unset_num (aum_crore m) = false -> aum_crore (field_rules text m) = aum_crore m.
Proof. intros text m H. sticky aum_crore H. Qed.

Lemma field_rules_monthly_avg_aum : forall text m,
  unset_num (monthly_avg_aum m) = false ->
  monthly_avg_aum (field_rules text m) = monthly_avg_aum m.
Proof. intros text m H. sticky monthly_avg_aum H. Qed.

Lemma field_rules_expense_ratio_regular : forall text m,
  unset_num (expense_ratio_regular m) = false ->
  expense_ratio_regular (field_rules text m) = expense_ratio_regular m.
Proof. intros text m H. sticky expense_ratio_regular H. Qed.

Lemma field_rules_expense_ratio_direct : forall text m,
  unset_num (expense_ratio_direct m) = false ->
  expense_ratio_direct (field_rules text m) = expense_ratio_direct m.
Proof. intros text m H. sticky expense_ratio_direct H. Qed.

Lemma field_rules_benchmark : forall text m,
  unset_str (benchmark m) = false -> benchmark (field_rules text m) = benchmark m.
Proof. intros text m H. sticky benchmark H. Qed.

Lemma field_rules_additional_benchmark : forall text m,
  unset_str (additional_benchmark m) = false ->
  additional_benchmark (field_rules text m) = additional_benchmark m.
Proof. intros text m H. sticky additional_benchmark H. Qed.

Lemma field_rules_date_of_allotment : forall text m,
  unset_str (date_of_allotment m) = false ->
  date_of_allotment (field_rules text m) = date_of_allotment m.
Proof. intros text m H. sticky date_of_allotment H. Qed.

(** The manager rules touch [managers], [seen_managers] and [buffer] only. *)
Lemma manager_rules_meta : forall text st,
  exists l, st_meta (manager_rules text st) = set_managers l (st_meta st).
Proof.
  intros text st. unfold manager_rules, add_managers.
  destruct (found (search re_fund_manager text)); [eexists; reflexivity|].
  destruct (negb (Py.falsy (buffer st)) && Py.startswith "Mr." text);
    [eexists; reflexivity|].
  exists (managers (st_meta st)). destruct st as [[] ? ?]; reflexivity.
Qed.

Lemma scan_item_kind : forall st c, step_kind st c.
Proof.
  intros st c.
  destruct (String.eqb (type c) "paragraph" || String.eqb (type c) "heading") eqn:Et;
    [|apply StepSkip; unfold scan_item; rewrite Et; reflexivity].
  destruct (text c) as [raw|] eqn:Ex;
    [|apply StepSkip; unfold scan_item; rewrite Et, Ex; reflexivity].
  destruct (Py.falsy raw) eqn:Ef;
    [apply StepSkip; unfold scan_item; rewrite Et, Ex, Ef; reflexivity|].
  destruct (is_noise (fix_glued_domain_terms (clean_text raw))) eqn:Ei;
    [apply StepSkip; unfold scan_item; rewrite Et, Ex, Ef, Ei; reflexivity|].
  destruct (name_rule_fires (st_meta st) (fix_glued_domain_terms (clean_text raw)))
    eqn:En;
    [eapply StepName; [exact En|unfold scan_item; rewrite Et, Ex, Ef, Ei, En; reflexivity]|].
  destruct (category_rule_fires (st_meta st) (fix_glued_domain_terms (clean_text raw)))
    eqn:Ec;
    [eapply StepCategory;
       [exact Ec|unfold scan_item; rewrite Et, Ex, Ef, Ei, En, Ec; reflexivity]|].
  eapply StepRules. unfold scan_item. rewrite Et, Ex, Ef, Ei, En, Ec. reflexivity.
Qed.

Lemma name_rule_needs_unset : forall m text,
  name_rule_fires m text = true -> unset_str (name m) = true.
Proof.
  unfold name_rule_fires. intros m text H.
  destruct (unset_str (name m)); [reflexivity|discriminate].
Qed.

Lemma category_rule_needs_unset : forall m text,
  category_rule_fires m text = true -> unset_str (category m) = true.
Proof.
  unfold category_rule_fires. intros m text H.
  destruct (unset_str (category m)); [reflexivity|].
  rewrite andb_false_r in H. discriminate.
Qed.

(** A getter of a scalar field after one item, by the kind of step. *)
Ltac by_step_kind st c g keep_lemma :=
  destruct (scan_item_kind st c) as [E|text F E|text F E|text E]; rewrite E;
  [ reflexivity
  | try reflexivity;
    apply name_rule_needs_unset in F; congruence
  | try reflexivity;
    apply category_rule_needs_unset in F; congruence
  | destruct (manager_rules_meta text (with_meta (field_rules text (st_meta st)) st))
      as [l El]; rewrite El; simpl; apply keep_lemma ].

Lemma scan_item_name : forall st c,
  unset_str (name (st_meta st)) = false ->
  name (st_meta (scan_item st c)) = name (st_meta st).
Proof. intros st c H. by_step_kind st c name field_rules_name. Qed.

Lemma scan_item_category : forall st c,
  unset_str (category (st_meta st)) = false ->
  category (st_meta (scan_item st c)) = category (st_meta st).
Proof. intros st c H. by_step_kind st c category field_rules_category. Qed.

Lemma scan_item_aum_crore : forall st c,
  unset_num (aum_crore (st_meta st)) = false ->
  aum_crore (st_meta (scan_item st c)) = aum_crore (st_meta st).
Proof. intros st c H. by_step_kind st c aum_crore field_rules_aum_crore; exact H. Qed.

Lemma scan_item_monthly_avg_aum : forall st c,
  unset_num (monthly_avg_aum (st_meta st)) = false ->
  monthly_avg_aum (st_meta (scan_item st c)) = monthly_avg_aum (st_meta st).
Proof. intros st c H. by_step_kind st c monthly_avg_aum field_rules_monthly_avg_aum; exact H. Qed.

Lemma scan_item_expense_ratio_regular : forall st c,
  unset_num (expense_ratio_regular (st_meta st)) = false ->
  expense_ratio_regular (st_meta (scan_item st c)) = expense_ratio_regular (st_meta st).
Proof.
  intros st c H.
  by_step_kind st c expense_ratio_regular field_rules_expense_ratio_regular; exact H.
Qed.

Lemma scan_item_expense_ratio_direct : forall st c,
  unset_num (expense_ratio_direct (st_meta st)) = false ->
  expense_ratio_direct (st_meta (scan_item st c)) = expense_ratio_direct (st_meta st).
Proof.
  intros st c H.
  by_step_kind st c expense_ratio_direct field_rules_expense_ratio_direct; exact H.
Qed.

Lemma scan_item_benchmark : forall st c,
  unset_str (benchmark (st_meta st)) = false ->
  benchmark (st_meta (scan_item st c)) = benchmark (st_meta st).
Proof. intros st c H. by_step_kind st c benchmark field_rules_benchmark; exact H. Qed.

Lemma scan_item_additional_benchmark : forall st c,
  unset_str (additional_benchmark (st_meta st)) = false ->
  additional_benchmark (st_meta (scan_item st c)) = additional_benchmark (st_meta st).
Proof.
  intros st c H.
  by_step_kind st c additional_benchmark field_rules_additional_benchmark; exact H.
Qed.

Lemma scan_item_date_of_allotment : forall st c,
  unset_str (date_of_allotment (st_meta st)) = false ->
  date_of_allotment (st_meta (scan_item st c)) = date_of_allotment (st_meta st).
Proof.
  intros st c H.
  by_step_kind st c date_of_allotment field_rules_date_of_allotment; exact H.
Qed.

Lemma scan_item_doc_date : forall st c,
  doc_date (st_meta (scan_item st c)) = doc_date (st_meta st).
Proof.
  intros st c.
  destruct (scan_item_kind st c) as [E|text F E|text F E|text E]; rewrite E;
    try reflexivity.
  destruct (manager_rules_meta text (with_meta (field_rules text (st_meta st)) st))
    as [l El]; rewrite El; simpl; apply field_rules_doc_date.
Qed.

(** A property of a getter that one item keeps is kept by any run of
    items. *)
Lemma scan_items_keeps : forall (B : Type) (g : Meta -> B) (ok : B -> bool),
  (forall st c, ok (g (st_meta st)) = true ->
                g (st_meta (scan_item st c)) = g (st_meta st)) ->
  forall l st, ok (g (st_meta st)) = true ->
               g (st_meta (scan_items l st)) = g (st_meta st).
Proof.
  intros B g ok step. induction l as [|c l IH]; intros st H; [reflexivity|].
  unfold scan_items in *. simpl.
  rewrite IH; [apply step; exact H|]. rewrite step; assumption.
Qed.

(** An item that passes the filters and fires neither the name rule nor
    the category rule reaches the field rules and the manager rules. *)
Lemma scan_item_rules : forall st c raw,
  scanned_type c = true -> text c = Some raw -> Py.falsy raw = false ->
  is_noise (rule_text raw) = false ->
  name_rule_fires (st_meta st) (rule_text raw) = false ->
  category_rule_fires (st_meta st) (rule_text raw) = false ->
  scan_item st c
  = manager_rules (rule_text raw)
      (with_meta (field_rules (rule_text raw) (st_meta st)) st).
Proof.
  unfold scanned_type, rule_text. intros st c raw Ht Ex Ef Ei En Ec.
  unfold scan_item. rewrite Ht, Ex, Ef, Ei, En, Ec. reflexivity.
Qed.

(** ** C3: the fragment-merge example *)

(** C3, as stated, fails: merging the header list ["12"; "3%Yo"; "Y"]
    does not give ["12"; "3%Yo Y"]. *)
Lemma merge_fragments_example_not_two_cells :
  merge_fragments ["12"; "3%Yo"; "Y"] <> ["12"; "3%Yo Y"]
  /\ headers (normalize_table (MkRawTable [Some "12"; Some "3%Yo"; Some "Y"] []))
     <> ["12"; "3%Yo Y"].
Proof. split; vm_compute; discriminate. Qed.

(** C3, amended: the header list ["12"; "3%Yo"; "Y"] merges into the single
    cell "12 3%Yo Y".  The short-pair rule fires on "12" and "3%Yo" (2 and 4
    characters), and the percent-split rule, alone of the three, then fires
    on "12 3%Yo" and "Y". *)
Theorem merge_fragments_example_one_cell :
  merge_fragments ["12"; "3%Yo"; "Y"] = ["12 3%Yo Y"]
  /\ headers (normalize_table (MkRawTable [Some "12"; Some "3%Yo"; Some "Y"] []))
     = ["12 3%Yo Y"]
  /\ cond_short "12" "3%Yo" = true
  /\ cond_short "12 3%Yo" "Y" = false
  /\ cond_alpha_cont "12 3%Yo" "Y" = false
  /\ cond_percent_split "12 3%Yo" "Y" = true.
Proof. repeat split; vm_compute; reflexivity. Qed.

(** ** C4: first match wins *)

(** C4, as stated, fails: a field set by a successful match can be changed
    by a later item.  After "Net AUM 0 crore" the field [aum_crore] holds
    0.0, and "Net AUM 5 crore" then changes it to 5.0. *)
Lemma first_match_does_not_always_win :
  let st1 := scan_item (initial_scan "") (paragraph_item "Net AUM 0 crore" zero_box) in
  let st2 := scan_item st1 (paragraph_item "Net AUM 5 crore" zero_box) in
  aum_crore (st_meta (initial_scan "")) = None
  /\ aum_crore (st_meta st1) = Some (0 # 1)%Q
  /\ aum_crore (st_meta st2) = Some (5 # 1)%Q
  /\ aum_crore (st_meta st2) <> aum_crore (st_meta st1).
Proof. vm_compute. repeat split; discriminate. Qed.

(** A scalar entry that holds a true value (a non-empty string, a number
    that is not 0.0) is not assigned again, whatever the state and whatever
    items follow; [doc_date] is not assigned by any item. *)
Lemma true_values_stay : forall (st : scan) (later : list ContentItem),
  let m := st_meta st in
  let m' := st_meta (scan_items later st) in
  (unset_str (name m) = false -> name m' = name m)
  /\ (unset_str (category m) = false -> category m' = category m)
  /\ (unset_num (aum_crore m) = false -> aum_crore m' = aum_crore m)
  /\ (unset_num (monthly_avg_aum m) = false -> monthly_avg_aum m' = monthly_avg_aum m)
  /\ (unset_num (expense_ratio_regular m) = false ->
      expense_ratio_regular m' = expense_ratio_regular m)
  /\ (unset_num (expense_ratio_direct m) = false ->
      expense_ratio_direct m' = expense_ratio_direct m)
  /\ (unset_str (benchmark m) = false -> benchmark m' = benchmark m)
  /\ (unset_str (additional_benchmark m) = false ->
      additional_benchmark m' = additional_benchmark m)
  /\ (unset_str (date_of_allotment m) = false ->
      date_of_allotment m' = date_of_allotment m)
  /\ doc_date m' = doc_date m.
Proof.
  intros st later m m'. subst m m'.
  repeat split; intros.
  - apply (scan_items_keeps _ name (fun v => negb (unset_str v))).
    + intros s c Hs. apply scan_item_name. now apply negb_true_iff.
    + now apply negb_true_iff.
  - apply (scan_items_keeps _ category (fun v => negb (unset_str v))).
    + intros s c Hs. apply scan_item_category. now apply negb_true_iff.
    + now apply negb_true_iff.
  - apply (scan_items_keeps _ aum_crore (fun v => negb (unset_num v))).
    + intros s c Hs. apply scan_item_aum_crore. now apply negb_true_iff.
    + now apply negb_true_iff.
  - apply (scan_items_keeps _ monthly_avg_aum (fun v => negb (unset_num v))).
    + intros s c Hs. apply scan_item_monthly_avg_aum. now apply negb_true_iff.
    + now apply negb_true_iff.
  - apply (scan_items_keeps _ expense_ratio_regular (fun v => negb (unset_num v))).
    + intros s c Hs. apply scan_item_expense_ratio_regular. now apply negb_true_iff.
    + now apply negb_true_iff.
  - apply (scan_items_keeps _ expense_ratio_direct (fun v => negb (unset_num v))).
    + intros s c Hs. apply scan_item_expense_ratio_direct. now apply negb_true_iff.
    + now apply negb_true_iff.
  - apply (scan_items_keeps _ benchmark (fun v => negb (unset_str v))).
    + intros s c Hs. apply scan_item_benchmark. now apply negb_true_iff.
    + now apply negb_true_iff.
  - apply (scan_items_keeps _ additional_benchmark (fun v => negb (unset_str v))).
    + intros s c Hs. apply scan_item_additional_benchmark. now apply negb_true_iff.
    + now apply negb_true_iff.
  - apply (scan_items_keeps _ date_of_allotment (fun v => negb (unset_str v))).
    + intros s c Hs. apply scan_item_date_of_allotment. now apply negb_true_iff.
    + now apply negb_true_iff.
  - apply (scan_items_keeps _ doc_date (fun _ => true)).
    + intros s c _. apply scan_item_doc_date.
    + reflexivity.
Qed.

(** ** C2: the Net AUM example *)

Lemma net_aum_text_facts :
  rule_text net_aum_text = net_aum_text
  /\ Py.falsy net_aum_text = false
  /\ is_noise net_aum_text = false
  /\ Py.contains "FUND" (Py.upper net_aum_text) = false
  /\ Py.startswith "(" (Py.strip net_aum_text) = false
  /\ found (search re_fund_manager net_aum_text) = false
  /\ Py.startswith "Mr." net_aum_text = false
  /\ option_map (fun mo => float_of_string (Py.remove_char ","%char (group 1 mo)))
       (search re_net_aum net_aum_text) = Some (Some (1234567 # 100)%Q)
  /\ unset_num (Some (1234567 # 100)%Q) = false.
Proof. repeat split; vm_compute; reflexivity. Qed.

Lemma name_rule_needs_fund : forall m text,
  Py.contains "FUND" (Py.upper text) = false -> name_rule_fires m text = false.
Proof.
  intros m text H. unfold name_rule_fires. rewrite H.
  destruct (unset_str (name m)); reflexivity.
Qed.

Lemma name_rule_needs_unset_name : forall m text,
  unset_str (name m) = false -> name_rule_fires m text = false.
Proof. intros m text H. unfold name_rule_fires. rewrite H. reflexivity. Qed.

Lemma category_rule_needs_paren : forall m text,
  Py.startswith "(" (Py.strip text) = false -> category_rule_fires m text = false.
Proof.
  intros m text H. unfold category_rule_fires. rewrite H.
  rewrite andb_false_r. reflexivity.
Qed.

Lemma manager_rules_idle : forall text st,
  found (search re_fund_manager text) = false ->
  Py.startswith "Mr." text = false ->
  manager_rules text st = st.
Proof.
  intros text st H1 H2. unfold manager_rules. rewrite H1, H2.
  rewrite andb_false_r. reflexivity.
Qed.

Lemma field_rules_net_aum : forall m,
  unset_num (aum_crore m) = true ->
  aum_crore (field_rules net_aum_text m) = Some (1234567 # 100)%Q.
Proof.
  intros m Hu. unfold field_rules.
  do 3 (rewrite (rule_num_keeps _ aum_crore); [|intros; reflexivity]).
  match goal with |- aum_crore (rule_num _ _ _ _ _ ?X) = _ =>
    assert (HX : aum_crore X = aum_crore m) by (keep aum_crore; reflexivity);
    revert HX; generalize X
  end.
  intros m1 HX. unfold rule_num. rewrite HX, Hu.
  destruct net_aum_text_facts as (_ & _ & _ & _ & _ & _ & _ & Hs & _).
  destruct (search re_net_aum net_aum_text) as [mo|]; [|discriminate].
  simpl in Hs. injection Hs as Hs. rewrite Hs. reflexivity.
Qed.

Lemma scan_item_net_aum : forall st c,
  type c = "paragraph" -> text c = Some net_aum_text ->
  unset_num (aum_crore (st_meta st)) = true ->
  aum_crore (st_meta (scan_item st c)) = Some (1234567 # 100)%Q.
Proof.
  intros st c Ht Ex Hu.
  destruct net_aum_text_facts as (Hr & Hf & Hn & Hfund & Hp & Hfm & Hmr & _ & _).
  rewrite (scan_item_rules st c net_aum_text); rewrite ?Hr; try assumption.
  - rewrite manager_rules_idle by assumption. simpl. apply field_rules_net_aum, Hu.
  - unfold scanned_type. rewrite Ht. reflexivity.
  - apply name_rule_needs_fund, Hfund.
  - apply category_rule_needs_paren, Hp.
Qed.

(** C2, as stated, fails: for a document whose only item is the paragraph
    "Net AUM : Rs 12,345.67 crore" the labelled-value pattern does not match
    (between the label and the digits it allows a colon or dash, spaces,
    backticks and rupee signs, not "Rs") and [aum_crore] stays unset. *)
Lemma net_aum_rs_paragraph_leaves_aum_unset :
  let m := extract_fund_metadata_from_content
             [MkPageOut 1 [paragraph_item net_aum_rs_text zero_box]] "" in
  aum_crore m = None
  /\ aum_crore m <> Some (1234567 # 100)%Q
  /\ search re_net_aum (rule_text net_aum_rs_text) = None.
Proof.
  intros m. assert (H : aum_crore m = None) by (vm_compute; reflexivity).
  split; [exact H|]. split; [rewrite H; discriminate|]. vm_compute. reflexivity.
Qed.

(** C2, amended: for a document whose ordered content contains a paragraph
    with text "Net AUM : 12,345.67 crore" (the amount right after the
    label), reached while [aum_crore] is still unset,
    [extract_fund_metadata_from_content] sets [aum_crore] to 12345.67, the
    number read from the captured digits and commas. *)
Theorem net_aum_paragraph_sets_aum_crore :
  forall (pages : list PageOut) (cover_text : string)
         (pre : list ContentItem) (c : ContentItem) (post : list ContentItem),
  all_items pages = pre ++ c :: post ->
  type c = "paragraph" -> text c = Some net_aum_text ->
  unset_num (aum_crore (st_meta (scan_items pre (initial_scan cover_text)))) = true ->
  aum_crore (extract_fund_metadata_from_content pages cover_text)
  = Some (1234567 # 100)%Q.
Proof.
  intros pages cover pre c post Hall Ht Ex Hu.
  rewrite extract_as_scan, Hall, scan_items_app.
  change (scan_items (c :: post) ?s) with (scan_items post (scan_item s c)).
  pose proof (scan_item_net_aum _ c Ht Ex Hu) as H1.
  destruct (true_values_stay
              (scan_item (scan_items pre (initial_scan cover)) c) post)
    as (_ & _ & Haum & _).
  rewrite Haum; [exact H1|]. rewrite H1. apply net_aum_text_facts.
Qed.

Lemma net_aum_paragraph_witness :
  aum_crore (extract_fund_metadata_from_content
               [MkPageOut 1 [paragraph_item net_aum_text zero_box]] "")
  = Some (1234567 # 100)%Q.
Proof.
  apply (net_aum_paragraph_sets_aum_crore
           [MkPageOut 1 [paragraph_item net_aum_text zero_box]] ""
           [] (paragraph_item net_aum_text zero_box) []); reflexivity.
Defined.

(** ** C10: a fund-name match ends the iteration *)

(** C10: when the fund-name rule fires on an item (the name is unset, the
    text contains "FUND" in any case, is shorter than 120 characters and
    does not start with "JUNE"), the iteration sets [name] and does nothing
    else: no other field changes, no manager is added, [seen_managers] and
    the manager buffer are as before, even if the text has "Fund Manager"
    in it. *)
Theorem fund_name_match_ends_the_item :
  forall (st : scan) (c : ContentItem) (raw : string),
  scanned_type c = true -> text c = Some raw -> Py.falsy raw = false ->
  is_noise (rule_text raw) = false ->
  unset_str (name (st_meta st)) = true ->
  Py.contains "FUND" (Py.upper (rule_text raw)) = true ->
  String.length (rule_text raw) < 120 ->
  Py.startswith "JUNE" (Py.upper (rule_text raw)) = false ->
  let st' := scan_item st c in
  st' = with_meta (set_name (Some (Py.strip (deglue (rule_text raw)))) (st_meta st)) st
  /\ managers (st_meta st') = managers (st_meta st)
  /\ seen_managers st' = seen_managers st
  /\ buffer st' = buffer st
  /\ category (st_meta st') = category (st_meta st)
  /\ aum_crore (st_meta st') = aum_crore (st_meta st)
  /\ monthly_avg_aum (st_meta st') = monthly_avg_aum (st_meta st)
  /\ expense_ratio_regular (st_meta st') = expense_ratio_regular (st_meta st)
  /\ expense_ratio_direct (st_meta st') = expense_ratio_direct (st_meta st)
  /\ benchmark (st_meta st') = benchmark (st_meta st)
  /\ additional_benchmark (st_meta st') = additional_benchmark (st_meta st)
  /\ date_of_allotment (st_meta st') = date_of_allotment (st_meta st)
  /\ doc_date (st_meta st') = doc_date (st_meta st).
Proof.
  intros st c raw Ht Ex Ef Ei Hu Hfund Hlen Hjune st'.
  assert (E : st' = with_meta (set_name (Some (Py.strip (deglue (rule_text raw))))
                                 (st_meta st)) st).
  { subst st'. unfold scan_item. unfold scanned_type in Ht. unfold rule_text in *.
    rewrite Ht, Ex, Ef, Ei. simpl negb. cbv iota.
    unfold name_rule_fires. rewrite Hu, Hfund, Hjune.
    apply Nat.ltb_lt in Hlen. rewrite Hlen. reflexivity. }
  rewrite E. repeat split; reflexivity.
Qed.

Lemma fund_name_match_witness :
  let st := initial_scan "" in
  let st' := scan_item st (paragraph_item john_smith_text zero_box) in
  st' = with_meta (set_name (Some (Py.strip (deglue (rule_text john_smith_text))))
                     (st_meta st)) st
  /\ managers (st_meta st') = managers (st_meta st)
  /\ seen_managers st' = seen_managers st
  /\ buffer st' = buffer st
  /\ category (st_meta st') = category (st_meta st)
  /\ aum_crore (st_meta st') = aum_crore (st_meta st)
  /\ monthly_avg_aum (st_meta st') = monthly_avg_aum (st_meta st)
  /\ expense_ratio_regular (st_meta st') = expense_ratio_regular (st_meta st)
  /\ expense_ratio_direct (st_meta st') = expense_ratio_direct (st_meta st)
  /\ benchmark (st_meta st') = benchmark (st_meta st)
  /\ additional_benchmark (st_meta st') = additional_benchmark (st_meta st)
  /\ date_of_allotment (st_meta st') = date_of_allotment (st_meta st)
  /\ doc_date (st_meta st') = doc_date (st_meta st).
Proof.
  apply (fund_name_match_ends_the_item (initial_scan "")
           (paragraph_item john_smith_text zero_box) john_smith_text);
    try (vm_compute; reflexivity).
  vm_compute. lia.
Defined.

(** ** C7: the managers list *)

Lemma add_manager_inv : forall seen ms mname,
  NoDup ms -> (forall x, In x seen <-> In x ms) ->
  let r := add_manager (seen, ms) mname in
  NoDup (snd r) /\ (forall x, In x (fst r) <-> In x (snd r))
  /\ exists l, snd r = ms ++ l.
Proof.
  intros seen ms mname Hnd Hsame. unfold add_manager. simpl fst. simpl snd.
  destruct (negb (Py.falsy (manager_name mname))
            && negb (name_in (manager_name mname) seen)) eqn:E; simpl.
  - apply andb_true_iff in E. destruct E as [_ E]. apply negb_true_iff in E.
    unfold name_in in E.
    destruct (in_dec string_dec (manager_name mname) seen) as [|Hnot]; [discriminate|].
    repeat split.
    + apply NoDup_app; [exact Hnd|repeat constructor; intros []|].
      intros x Hx [Hy|[]]. subst x. apply Hnot, Hsame, Hx.
    + intros [Hx|Hx]; apply in_or_app; [right; left; exact Hx|left; apply Hsame, Hx].
    + intros Hx. apply in_app_or in Hx. destruct Hx as [Hx|[Hx|[]]];
        [right; apply Hsame, Hx|left; exact Hx].
    + eexists; reflexivity.
  - repeat split; try assumption; try apply Hsame.
    exists []. symmetry. apply app_nil_r.
Qed.

Lemma add_managers_fold_inv : forall names seen ms,
  NoDup ms -> (forall x, In x seen <-> In x ms) ->
  let r := fold_left add_manager names (seen, ms) in
  NoDup (snd r) /\ (forall x, In x (fst r) <-> In x (snd r))
  /\ exists l, snd r = ms ++ l.
Proof.
  induction names as [|n names IH]; intros seen ms Hnd Hsame; simpl.
  - repeat split; try assumption; try apply Hsame. exists []. symmetry. apply app_nil_r.
  - destruct (add_manager_inv seen ms n Hnd Hsame) as (H1 & H2 & [l1 H3]).
    destruct (add_manager (seen, ms) n) as [seen1 ms1] eqn:E. simpl in H1, H2, H3.
    destruct (IH seen1 ms1 H1 H2) as (H4 & H5 & [l2 H6]).
    repeat split; try assumption; try apply H5.
    exists (l1 ++ l2). rewrite H6, H3. symmetry. apply app_assoc.
Qed.

Lemma add_managers_inv : forall names st,
  NoDup (managers (st_meta st)) ->
  (forall x, In x (seen_managers st) <-> In x (managers (st_meta st))) ->
  managers_inv (add_managers names st)
  /\ exists l, managers (st_meta (add_managers names st)) = managers (st_meta st) ++ l.
Proof.
  intros names st Hnd Hsame.
  destruct (add_managers_fold_inv names _ _ Hnd Hsame) as (H1 & H2 & H3).
  unfold managers_inv, add_managers. simpl. repeat split; try assumption; apply H2.
Qed.

Lemma manager_rules_inv : forall text st,
  managers_inv st ->
  managers_inv (manager_rules text st)
  /\ exists l, managers (st_meta (manager_rules text st)) = managers (st_meta st) ++ l.
Proof.
  intros text st (Hnd & Hsame & Hbuf). unfold manager_rules.
  destruct (found (search re_fund_manager text)).
  - apply add_managers_inv; assumption.
  - destruct (negb (Py.falsy (buffer st)) && Py.startswith "Mr." text).
    + apply add_managers_inv; assumption.
    + split; [exact (conj Hnd (conj Hsame Hbuf))|].
      exists []. symmetry. apply app_nil_r.
Qed.

Lemma scan_item_inv : forall st c,
  managers_inv st ->
  managers_inv (scan_item st c)
  /\ exists l, managers (st_meta (scan_item st c)) = managers (st_meta st) ++ l.
Proof.
  intros st c Hinv.
  assert (Hsame : forall m, managers m = managers (st_meta st) ->
                            managers_inv (with_meta m st)).
  { intros m Hm. destruct Hinv as (Hnd & Hs & Hb). unfold managers_inv. simpl.
    rewrite Hm. repeat split; try assumption; apply Hs. }
  destruct (scan_item_kind st c) as [E|text F E|text F E|text E]; rewrite E.
  - split; [exact Hinv|]. exists []. symmetry. apply app_nil_r.
  - split; [apply Hsame; reflexivity|]. exists []. symmetry. apply app_nil_r.
  - split; [apply Hsame; reflexivity|]. exists []. symmetry. apply app_nil_r.
  - destruct (manager_rules_inv text (with_meta (field_rules text (st_meta st)) st))
      as (H1 & [l H2]).
    + apply Hsame, field_rules_managers.
    + split; [exact H1|]. exists l. rewrite H2. simpl.
      rewrite field_rules_managers. reflexivity.
Qed.

Lemma scan_items_inv : forall l st,
  managers_inv st ->
  managers_inv (scan_items l st)
  /\ exists more, managers (st_meta (scan_items l st)) = managers (st_meta st) ++ more.
Proof.
  induction l as [|c l IH]; intros st Hinv.
  - split; [exact Hinv|]. exists []. symmetry. apply app_nil_r.
  - destruct (scan_item_inv st c Hinv) as (H1 & [l1 H2]).
    destruct (IH (scan_item st c) H1) as (H3 & [l2 H4]).
    change (scan_items (c :: l) st) with (scan_items l (scan_item st c)).
    split; [exact H3|]. exists (l1 ++ l2). rewrite H4, H2. symmetry. apply app_assoc.
Qed.

Lemma initial_scan_inv : forall cover_text, managers_inv (initial_scan cover_text).
Proof.
  intros. unfold managers_inv. simpl. repeat split; try constructor; intros [].
Qed.

Lemma john_smith_text_facts :
  rule_text john_smith_text = john_smith_text
  /\ Py.falsy john_smith_text = false
  /\ is_noise john_smith_text = false
  /\ Py.startswith "(" (Py.strip john_smith_text) = false
  /\ found (search re_fund_manager john_smith_text) = true
  /\ findall re_manager_names (("" ++ " " ++ john_smith_text)%string) = ["John Smith "]
  /\ manager_name "John Smith " = "John Smith".
Proof. repeat split; vm_compute; reflexivity. Qed.

Lemma scan_item_john_smith : forall st c,
  managers_inv st -> scanned_type c = true -> text c = Some john_smith_text ->
  unset_str (name (st_meta st)) = false ->
  In "John Smith" (managers (st_meta (scan_item st c))).
Proof.
  intros st c (Hnd & Hsame & Hbuf) Ht Ex Hname.
  destruct john_smith_text_facts as (Hr & Hf & Hn & Hp & Hfm & Hall & Hmn).
  rewrite (scan_item_rules st c john_smith_text); rewrite ?Hr; try assumption.
  - unfold manager_rules. rewrite Hfm. simpl buffer. rewrite Hbuf, Hall.
    unfold add_managers. simpl fold_left. unfold add_manager. rewrite Hmn.
    simpl fst. simpl snd. rewrite field_rules_managers.
    unfold name_in.
    destruct (in_dec string_dec "John Smith" (seen_managers st)) as [Hin|Hnot]; simpl.
    + apply Hsame, Hin.
    + apply in_or_app. right. left. reflexivity.
  - apply name_rule_needs_unset_name, Hname.
  - apply category_rule_needs_paren, Hp.
Qed.

(** C7, as stated, fails: the paragraph "Fund Manager: Mr. John Smith
    (Equity)" contains "FUND", so in a document where no name was found
    before it the fund-name rule takes it and no manager is recorded. *)
Lemma john_smith_paragraph_alone_yields_no_manager :
  let m := extract_fund_metadata_from_content
             [MkPageOut 1 [paragraph_item john_smith_text zero_box]] "" in
  managers m = [] /\ managers m <> ["John Smith"] /\ name m = Some john_smith_text.
Proof. vm_compute. repeat split. discriminate. Qed.

(** C7, amended: for every content stream the managers list has no
    duplicate entries and keeps insertion order (what the list holds after a
    prefix of the stream is a prefix of the final list); a paragraph "Fund
    Manager: Mr. John Smith (Equity)" that is read after the fund name has
    been set yields the entry "John Smith", exactly once however many later
    paragraphs name the same manager; with a heading "ABC Fund" before it
    [managers] is ["John Smith"], also when a second paragraph names him. *)
Theorem managers_accumulate_without_duplicates :
  forall (pages : list PageOut) (cover_text : string),
  let ms := managers (extract_fund_metadata_from_content pages cover_text) in
  NoDup ms
  /\ (forall pre post, all_items pages = pre ++ post ->
        exists more,
          ms = managers (st_meta (scan_items pre (initial_scan cover_text))) ++ more)
  /\ (forall pre c post,
        all_items pages = pre ++ c :: post ->
        scanned_type c = true -> text c = Some john_smith_text ->
        unset_str (name (st_meta (scan_items pre (initial_scan cover_text)))) = false ->
        In "John Smith" ms /\ count_occ string_dec ms "John Smith" = 1)
  /\ managers (extract_fund_metadata_from_content
                 [MkPageOut 1 [heading_item "ABC Fund" zero_box;
                               paragraph_item john_smith_text zero_box]] "")
     = ["John Smith"]
  /\ managers (extract_fund_metadata_from_content
                 [MkPageOut 1 [heading_item "ABC Fund" zero_box;
                               paragraph_item john_smith_text zero_box;
                               paragraph_item "Co-Fund Manager: Mr. John Smith" zero_box]] "")
     = ["John Smith"].
Proof.
  intros pages cover ms. subst ms. rewrite extract_as_scan.
  assert (Hnd : NoDup (managers (st_meta (scan_items (all_items pages)
                                             (initial_scan cover))))).
  { apply scan_items_inv, initial_scan_inv. }
  split; [exact Hnd|]. split; [|split; [|split; vm_compute; reflexivity]].
  - intros pre post Hall. rewrite Hall, scan_items_app.
    apply scan_items_inv. apply scan_items_inv, initial_scan_inv.
  - intros pre c post Hall Ht Ex Hname.
    assert (Hin : In "John Smith"
                     (managers (st_meta (scan_items (all_items pages)
                                           (initial_scan cover))))).
    { rewrite Hall, scan_items_app.
      change (scan_items (c :: post) ?s) with (scan_items post (scan_item s c)).
      pose proof (scan_items_inv pre _ (initial_scan_inv cover)) as [Hpre _].
      pose proof (scan_item_john_smith _ c Hpre Ht Ex Hname) as H1.
      destruct (scan_item_inv _ c Hpre) as [Hc _].
      destruct (scan_items_inv post _ Hc) as [_ [more Hm]].
      rewrite Hm. apply in_or_app. left. exact H1. }
    split; [exact Hin|].
    apply NoDup_count_occ'; assumption.
Qed.

Lemma managers_accumulate_witness :
  NoDup (managers (extract_fund_metadata_from_content
                     [MkPageOut 1 [heading_item "ABC Fund" zero_box;
                                   paragraph_item john_smith_text zero_box]] ""))
  /\ In "John Smith"
       (managers (extract_fund_metadata_from_content
                    [MkPageOut 1 [heading_item "ABC Fund" zero_box;
                                  paragraph_item john_smith_text zero_box]] "")).
Proof.
  pose proof (managers_accumulate_without_duplicates
                [MkPageOut 1 [heading_item "ABC Fund" zero_box;
                              paragraph_item john_smith_text zero_box]] "")
    as (Hnd & _ & Hjs & _).
  split; [exact Hnd|].
  apply (Hjs [heading_item "ABC Fund" zero_box]
             (paragraph_item john_smith_text zero_box) []); reflexivity.
Defined.

(** ** [extract_tables]: the loop as a fold over normalized candidates *)

Lemma visit_tables_normalized : forall gs d,
  fold_left visit_table gs d = fold_left visit_normalized (normalized gs) d.
Proof.
  unfold normalized. induction gs as [|g gs IH]; intros d; simpl; [reflexivity|].
  unfold visit_table at 2. destruct (skipped g); simpl; [apply IH|].
  rewrite IH. reflexivity.
Qed.

Lemma normalized_app : forall l1 l2,
  normalized (l1 ++ l2) = normalized l1 ++ normalized l2.
Proof. intros. unfold normalized. rewrite filter_app, map_app. reflexivity. Qed.

Lemma extract_page_tables_fold : forall page,
  extract_page_tables page
  = page_tables (fold_left visit_normalized (candidates page) (MkDedup [] [])).
Proof.
  intros page. unfold extract_page_tables, candidates, raw_tables, strategies.
  simpl. unfold visit_strategy. rewrite app_nil_r, normalized_app, fold_left_app.
  rewrite !visit_tables_normalized. reflexivity.
Qed.

Lemma subseq_refl_nil : forall (A : Type) (l : list A), subseq [] l.
Proof. induction l; constructor; assumption. Qed.

Lemma dedup_fold : forall cs d,
  dedup_inv d ->
  let r := fold_left visit_normalized cs d in
  dedup_inv r
  /\ exists new,
       page_tables r = page_tables d ++ new
       /\ subseq new cs
       /\ (forall t, In t new ->
             first_of_its_key t cs /\ ~ In (key_of t) (map key_of (page_tables d)))
       /\ (forall c, In c cs -> In (key_of c) (map key_of (page_tables r))).
Proof.
  induction cs as [|c cs IH]; intros d Hinv; simpl.
  - split; [exact Hinv|]. exists []. rewrite app_nil_r.
    split; [reflexivity|]. split; [constructor|].
    split; intros ? [].
  - destruct Hinv as [Hnd Hseen].
    assert (Ev : visit_normalized d c
                 = if in_dec fingerprint_eq_dec (key_of c) (seen_keys d) then d
                   else MkDedup (key_of c :: seen_keys d) (page_tables d ++ [c])).
    { unfold visit_normalized, key_in.
      destruct (in_dec fingerprint_eq_dec (key_of c) (seen_keys d)); reflexivity. }
    destruct (in_dec fingerprint_eq_dec (key_of c) (seen_keys d)) as [Hin|Hnot];
      rewrite Ev; clear Ev.
    + destruct (IH d (conj Hnd Hseen)) as (Hr & new & Hp & Hs & Hf & Hc).
      split; [exact Hr|]. exists new.
      split; [exact Hp|]. split; [constructor; exact Hs|]. split.
      * intros t Ht. destruct (Hf t Ht) as [(l1 & l2 & E & Hn) Hd].
        split; [|exact Hd].
        exists (c :: l1), l2. split; [rewrite E; reflexivity|].
        simpl. intros [Hk|Hk]; [|exact (Hn Hk)].
        apply Hd. rewrite <- Hk. apply Hseen, Hin.
      * intros c' [Hc'|Hc']; [|apply Hc, Hc'].
        subst c'. rewrite Hp, map_app. apply in_or_app. left. apply Hseen, Hin.
    + set (d1 := MkDedup (key_of c :: seen_keys d) (page_tables d ++ [c])).
      assert (Hinv1 : dedup_inv d1).
      { unfold dedup_inv, d1. simpl. rewrite map_app. simpl. split.
        - apply NoDup_app; [exact Hnd|repeat constructor; intros []|].
          intros k Hk [Hk'|[]]. subst k. apply Hnot, Hseen, Hk.
        - intros k. split.
          + intros [Hk|Hk]; apply in_or_app;
              [right; left; exact Hk|left; apply Hseen, Hk].
          + intros Hk. apply in_app_or in Hk.
            destruct Hk as [Hk|[Hk|[]]]; [right; apply Hseen, Hk|left; exact Hk]. }
      destruct (IH d1 Hinv1) as (Hr & new & Hp & Hs & Hf & Hc).
      split; [exact Hr|]. exists (c :: new).
      split; [|split; [constructor; exact Hs|split]].
      * rewrite Hp. unfold d1. simpl. rewrite <- app_assoc. reflexivity.
      * intros t [Ht|Ht].
        -- subst t. split; [exists [], cs; split; [reflexivity|intros []]|].
           intros Hk. apply Hnot, Hseen, Hk.
        -- destruct (Hf t Ht) as [(l1 & l2 & E & Hn) Hd]. split.
           ++ exists (c :: l1), l2. split; [rewrite E; reflexivity|].
              simpl. intros [Hk|Hk]; [|exact (Hn Hk)].
              apply Hd. unfold d1. simpl. rewrite map_app. apply in_or_app.
              right. left. exact Hk.
           ++ intros Hk. apply Hd.
              unfold d1. simpl. rewrite map_app. apply in_or_app. left. exact Hk.
      * intros c' [Hc'|Hc']; [|apply Hc, Hc'].
        subst c'. rewrite Hp, map_app. apply in_or_app. left.
        unfold d1. simpl. rewrite map_app. apply in_or_app. right. left. reflexivity.
Qed.

Lemma extract_tables_from_below : forall pages i k,
  k < i -> dict_get k (extract_tables_from i pages) = None.
Proof.
  induction pages as [|page pages IH]; intros i k Hk; simpl; [reflexivity|].
  destruct (extract_page_tables page); [apply IH; lia|].
  simpl. destruct (Nat.eqb_spec i k); [lia|]. apply IH. lia.
Qed.

Lemma extract_tables_from_get : forall pages i j,
  dict_get (i + j) (extract_tables_from i pages)
  = match nth_error pages j with
    | Some page =>
        match extract_page_tables page with
        | [] => None
        | ts => Some ts
        end
    | None => None
    end.
Proof.
  induction pages as [|page pages IH]; intros i j; simpl.
  - destruct j; reflexivity.
  - destruct j as [|j]; simpl.
    + rewrite Nat.add_0_r.
      destruct (extract_page_tables page) as [|t ts].
      * apply extract_tables_from_below. lia.
      * simpl. rewrite Nat.eqb_refl. reflexivity.
    + rewrite Nat.add_succ_r.
      destruct (extract_page_tables page) as [|t ts]; [exact (IH (S i) j)|].
      simpl. destruct (Nat.eqb_spec i (S (i + j))); [lia|]. exact (IH (S i) j).
Qed.

Lemma extract_tables_from_ext : forall l1 l2 i,
  map extract_page_tables l1 = map extract_page_tables l2 ->
  extract_tables_from i l1 = extract_tables_from i l2.
Proof.
  induction l1 as [|p1 l1 IH]; intros [|p2 l2] i H; simpl in H; try discriminate;
    [reflexivity|].
  injection H as Hp Hl. simpl. rewrite Hp. rewrite (IH l2 (S i) Hl). reflexivity.
Qed.

(** ** C6: table deduplication *)

Lemma same_fingerprint_key : forall a b,
  same_fingerprint a b = true <-> key_of a = key_of b.
Proof.
  intros a b. unfold same_fingerprint, key_of.
  destruct (list_eq_dec string_dec (headers a) (headers b)) as [Hh|Hh]; simpl.
  - rewrite Nat.eqb_eq. split; [intros Hr; rewrite Hh, Hr; reflexivity|].
    intros H. injection H as _ Hr. exact Hr.
  - split; [discriminate|]. intros H. injection H as Hh' _. contradiction.
Qed.

Lemma key_of_eq : forall a b,
  key_of a = key_of b
  <-> headers a = headers b /\ List.length (rows a) = List.length (rows b).
Proof.
  intros a b. unfold key_of. split.
  - intros H. injection H as Hh Hr. split; assumption.
  - intros [Hh Hr]. rewrite Hh, Hr. reflexivity.
Qed.

Lemma same_fingerprint_false : forall a b,
  same_fingerprint a b = false <-> key_of a <> key_of b.
Proof.
  intros a b. rewrite <- same_fingerprint_key.
  destruct (same_fingerprint a b); split; congruence.
Qed.

Lemma key_in_cons : forall k k' seen,
  key_in k (k' :: seen)
  = (if fingerprint_eq_dec k' k then true else false) || key_in k seen.
Proof.
  intros k k' seen. unfold key_in.
  destruct (in_dec fingerprint_eq_dec k (k' :: seen)) as [H|H];
    destruct (fingerprint_eq_dec k' k) as [E|E];
    destruct (in_dec fingerprint_eq_dec k seen) as [H'|H']; simpl;
    try reflexivity; exfalso.
  - destruct H as [H|H]; contradiction.
  - apply H. left. exact E.
  - apply H. left. exact E.
  - apply H. right. exact H'.
Qed.

Lemma filter_filter : forall (A : Type) (p q : A -> bool) l,
  filter p (filter q l) = filter (fun x => q x && p x) l.
Proof.
  intros A p q l. induction l as [|x l IH]; simpl; [reflexivity|].
  destruct (q x); simpl; [destruct (p x)|]; rewrite IH; reflexivity.
Qed.

(** Filtering by a test that tables of one fingerprint pass together
    commutes with keeping the first table of each fingerprint. *)
Lemma first_per_fingerprint_filter : forall (p : Table -> bool),
  (forall a b, key_of a = key_of b -> p a = p b) ->
  forall l,
    filter p (first_per_fingerprint l) = first_per_fingerprint (filter p l).
Proof.
  intros p Hp. induction l as [|c l IH]; simpl; [reflexivity|].
  destruct (p c) eqn:Ec; simpl.
  - f_equal. rewrite <- IH. rewrite !filter_filter.
    apply filter_ext. intros x. apply andb_comm.
  - rewrite <- IH. rewrite filter_filter. apply filter_ext. intros x.
    destruct (same_fingerprint c x) eqn:Es; simpl; [|reflexivity].
    apply same_fingerprint_key in Es. rewrite <- (Hp c x Es). symmetry. exact Ec.
Qed.

(** The loop over the candidates keeps the first table of each
    fingerprint that is not yet seen. *)
Lemma dedup_fold_first : forall cs d,
  page_tables (fold_left visit_normalized cs d)
  = page_tables d
    ++ first_per_fingerprint
         (filter (fun t => negb (key_in (key_of t) (seen_keys d))) cs).
Proof.
  induction cs as [|c cs IH]; intros d; simpl; [rewrite app_nil_r; reflexivity|].
  unfold visit_normalized at 2.
  destruct (key_in (key_of c) (seen_keys d)) eqn:Ek; simpl; [apply IH|].
  rewrite IH. simpl. rewrite <- app_assoc. simpl. do 2 f_equal.
  rewrite first_per_fingerprint_filter.
  - f_equal. rewrite filter_filter. apply filter_ext. intros x.
    rewrite key_in_cons.
    destruct (fingerprint_eq_dec (key_of c) (key_of x)) as [E|E]; simpl.
    + apply same_fingerprint_key in E. rewrite E. rewrite andb_false_r. reflexivity.
    + apply same_fingerprint_false in E. rewrite E. rewrite andb_true_r. reflexivity.
  - intros a b Hab. f_equal.
    destruct (same_fingerprint c a) eqn:Ea; destruct (same_fingerprint c b) eqn:Eb;
      try reflexivity; exfalso.
    + apply same_fingerprint_key in Ea. apply same_fingerprint_false in Eb.
      apply Eb. congruence.
    + apply same_fingerprint_key in Eb. apply same_fingerprint_false in Ea.
      apply Ea. congruence.
Qed.

Lemma extract_page_tables_first : forall page,
  extract_page_tables page = first_per_fingerprint (candidates page).
Proof.
  intros page. rewrite extract_page_tables_fold, dedup_fold_first. simpl.
  f_equal. induction (candidates page) as [|c l IH]; simpl; [reflexivity|].
  f_equal. exact IH.
Qed.

Lemma In_first_per_fingerprint : forall l t,
  In t (first_per_fingerprint l) -> In t l.
Proof.
  induction l as [|c l IH]; intros t; simpl; [tauto|].
  intros [H|H]; [left; exact H|]. right. apply filter_In in H. apply IH, H.
Qed.

Lemma filter_app_cons_inv : forall (A : Type) (p : A -> bool) l m1 a m2,
  filter p l = m1 ++ a :: m2 ->
  exists l1 l2,
    l = l1 ++ a :: l2 /\ filter p l1 = m1 /\ filter p l2 = m2 /\ p a = true.
Proof.
  intros A p. induction l as [|x l IH]; intros m1 a m2 H; simpl in H.
  - destruct m1; discriminate.
  - destruct (p x) eqn:Ex.
    + destruct m1 as [|y m1]; simpl in H; injection H as Hx Hl.
      * subst x. exists [], l. simpl. repeat split; assumption.
      * subst y. destruct (IH _ _ _ Hl) as (l1 & l2 & E & H1 & H2 & Ha).
        exists (x :: l1), l2. simpl. rewrite Ex, H1, E.
        repeat split; assumption.
    + destruct (IH _ _ _ H) as (l1 & l2 & E & H1 & H2 & Ha).
      exists (x :: l1), l2. simpl. rewrite Ex, E. repeat split; assumption.
Qed.

Lemma not_same_respects : forall c a b,
  key_of a = key_of b ->
  negb (same_fingerprint c a) = negb (same_fingerprint c b).
Proof.
  intros c a b Hab. f_equal.
  destruct (same_fingerprint c a) eqn:Ea; destruct (same_fingerprint c b) eqn:Eb;
    try reflexivity; exfalso.
  - apply same_fingerprint_key in Ea. apply same_fingerprint_false in Eb.
    apply Eb. congruence.
  - apply same_fingerprint_key in Eb. apply same_fingerprint_false in Ea.
    apply Ea. congruence.
Qed.

(** A kept table stands among the candidates with no table of its
    fingerprint before it, and the tables kept before it are the ones
    kept of the candidates before it. *)
Lemma first_per_fingerprint_split : forall n l,
  List.length l <= n ->
  forall k1 a k2,
    first_per_fingerprint l = k1 ++ a :: k2 ->
    exists l1 l2,
      l = l1 ++ a :: l2
      /\ first_per_fingerprint l1 = k1
      /\ ~ In (key_of a) (map key_of l1).
Proof.
  induction n as [|n IH]; intros l Hn k1 a k2 H.
  - destruct l; [destruct k1; discriminate|simpl in Hn; lia].
  - destruct l as [|c l]; [destruct k1; discriminate|].
    simpl in H, Hn. destruct k1 as [|c' k1]; simpl in H; injection H as Hc H.
    + subst c. exists [], l. simpl. repeat split. tauto.
    + subst c'.
      rewrite (first_per_fingerprint_filter _ (not_same_respects c)) in H.
      assert (Hlen : List.length (filter (fun t => negb (same_fingerprint c t)) l) <= n).
      { pose proof (filter_length_le (fun t => negb (same_fingerprint c t)) l). lia. }
      destruct (IH _ Hlen _ _ _ H) as (m1 & m2 & E & Hk & Hn1).
      destruct (filter_app_cons_inv _ _ _ _ _ _ E) as (l1 & l2 & El & H1 & H2 & Ha).
      exists (c :: l1), l2. split; [rewrite El; reflexivity|]. split.
      * simpl. rewrite (first_per_fingerprint_filter _ (not_same_respects c)).
        rewrite H1, Hk. reflexivity.
      * simpl. intros [Hk'|Hk'].
        -- apply negb_true_iff, same_fingerprint_false in Ha. contradiction.
        -- apply in_map_iff in Hk'. destruct Hk' as (x & Hx & Hin).
           apply Hn1. apply in_map_iff. exists x. split; [exact Hx|].
           rewrite <- H1. apply filter_In. split; [exact Hin|].
           rewrite (not_same_respects c x a Hx). exact Ha.
Qed.

(** Two tables kept one after the other stand in that order among the
    candidates, each with no table of its fingerprint before it. *)
Lemma first_per_fingerprint_order : forall l k1 a k2 b k3,
  first_per_fingerprint l = k1 ++ a :: k2 ++ b :: k3 ->
  exists l1 l2 l3,
    l = l1 ++ a :: l2 ++ b :: l3
    /\ ~ In (key_of a) (map key_of l1)
    /\ ~ In (key_of b) (map key_of (l1 ++ a :: l2)).
Proof.
  intros l k1 a k2 b k3 H.
  assert (H' : first_per_fingerprint l = (k1 ++ a :: k2) ++ b :: k3).
  { rewrite H, <- app_assoc. reflexivity. }
  destruct (first_per_fingerprint_split _ l (le_n _) _ _ _ H')
    as (p & l3 & El & Hp & Hb).
  destruct (first_per_fingerprint_split _ p (le_n _) _ _ _ Hp)
    as (l1 & l2 & Ep & _ & Ha).
  exists l1, l2, l3. subst p. split; [|split; assumption].
  rewrite El, <- app_assoc. reflexivity.
Qed.

(** C6: the fingerprint of a normalized table is its headers and its
    number of rows: two tables have one fingerprint exactly when both
    agree.  For every page, the tables kept are the first table of each
    fingerprint among the raw tables of the two strategies that are not
    skipped as blank, in first-seen order: the kept list is
    [first_per_fingerprint] of the candidates; its fingerprints are
    pairwise different; it is the candidate list with elements left out;
    every kept table has no candidate of its fingerprint before it; two
    tables kept one after the other stand in that order among the
    candidates, the first with no candidate of its fingerprint before it
    and the second with none before it either, so they differ in headers
    or in row count; every candidate has a kept table with its headers
    and row count; and two candidates with equal normalized headers and
    equal row counts leave one kept table of that fingerprint.  A page
    index is a key of the result exactly when the page kept a table, and
    then maps to the kept list. *)
Theorem tables_deduplicated_by_fingerprint :
  (forall a b : Table,
     key_of a = key_of b
     <-> headers a = headers b /\ List.length (rows a) = List.length (rows b))
  /\ (forall page : PdfPage,
        let kept := extract_page_tables page in
        kept = first_per_fingerprint (candidates page)
        /\ NoDup (map key_of kept)
        /\ subseq kept (candidates page)
        /\ (forall t, In t kept -> first_of_its_key t (candidates page))
        /\ (forall k1 a k2 b k3,
              kept = k1 ++ a :: k2 ++ b :: k3 ->
              (headers a <> headers b
               \/ List.length (rows a) <> List.length (rows b))
              /\ exists l1 l2 l3,
                   candidates page = l1 ++ a :: l2 ++ b :: l3
                   /\ ~ In (key_of a) (map key_of l1)
                   /\ ~ In (key_of b) (map key_of (l1 ++ a :: l2)))
        /\ (forall c, In c (candidates page) ->
              exists t, In t kept
                        /\ headers t = headers c
                        /\ List.length (rows t) = List.length (rows c))
        /\ (forall c1 c2,
              In c1 (candidates page) -> In c2 (candidates page) ->
              headers c1 = headers c2 ->
              List.length (rows c1) = List.length (rows c2) ->
              count_occ fingerprint_eq_dec (map key_of kept) (key_of c1) = 1
              /\ key_of c2 = key_of c1))
  /\ (forall (pdf_pages : list PdfPage) (i : nat),
        dict_get i (extract_tables pdf_pages)
        = match nth_error pdf_pages i with
          | Some page =>
              match extract_page_tables page with
              | [] => None
              | kept => Some kept
              end
          | None => None
          end)
  /\ (forall (pdf_pages : list PdfPage) (i : nat) (ts : list Table),
        dict_get i (extract_tables pdf_pages) = Some ts ->
        ts <> []
        /\ exists page, nth_error pdf_pages i = Some page
                        /\ extract_page_tables page = ts).
Proof.
  assert (Hget : forall pdf_pages i,
            dict_get i (extract_tables pdf_pages)
            = match nth_error pdf_pages i with
              | Some page =>
                  match extract_page_tables page with
                  | [] => None
                  | kept => Some kept
                  end
              | None => None
              end).
  { intros. unfold extract_tables. exact (extract_tables_from_get pdf_pages 0 i). }
  split; [exact key_of_eq|]. split; [|split; [exact Hget|]].
  - intros page kept. subst kept.
    split; [apply extract_page_tables_first|].
    assert (Hord : forall k1 a k2 b k3,
              extract_page_tables page = k1 ++ a :: k2 ++ b :: k3 ->
              exists l1 l2 l3,
                candidates page = l1 ++ a :: l2 ++ b :: l3
                /\ ~ In (key_of a) (map key_of l1)
                /\ ~ In (key_of b) (map key_of (l1 ++ a :: l2))).
    { intros k1 a k2 b k3 E. rewrite extract_page_tables_first in E.
      exact (first_per_fingerprint_order _ _ _ _ _ _ E). }
    rewrite extract_page_tables_fold in *.
    assert (Hinit : dedup_inv (MkDedup [] [])).
    { split; simpl; [constructor|intros k; split; intros []]. }
    destruct (dedup_fold (candidates page) _ Hinit) as ((Hnd & _) & new & Hp & Hs & Hf & Hc).
    simpl in Hp. rewrite Hp in *.
    split; [exact Hnd|]. split; [exact Hs|]. split; [intros t Ht; apply Hf, Ht|].
    split; [|split].
    + intros k1 a k2 b k3 E. split; [|exact (Hord _ _ _ _ _ E)].
      destruct (Hord _ _ _ _ _ E) as (l1 & l2 & l3 & _ & _ & Hb).
      destruct (list_eq_dec string_dec (headers a) (headers b)) as [Hh|Hh];
        [|left; exact Hh].
      right. intros Hr. apply Hb. rewrite map_app. apply in_or_app. right.
      left. apply key_of_eq. split; assumption.
    + intros c Hin. specialize (Hc c Hin). apply in_map_iff in Hc.
      destruct Hc as (t & Hk & Ht). exists t. split; [exact Ht|].
      apply key_of_eq, Hk.
    + intros c1 c2 H1 H2 Hh Hr. split.
      * apply NoDup_count_occ'; [exact Hnd|apply Hc, H1].
      * unfold key_of. rewrite Hh, Hr. reflexivity.
  - intros pdf_pages i ts H. rewrite Hget in H.
    destruct (nth_error pdf_pages i) as [page|]; [|discriminate].
    destruct (extract_page_tables page) as [|t kept] eqn:E; [discriminate|].
    injection H as H. subst ts. split; [discriminate|].
    exists page. split; [reflexivity|exact E].
Qed.

(** An instance: the line strategy finds two tables, the text strategy
    finds the first of them again with different spacing, then a third
    one; three tables are kept, in the order they were first seen, and
    the page is a key of the result. *)
Lemma tables_deduplicated_witness :
  let g1 : grid := [[Some "Scheme"; Some "Weightage"]; [Some "Alpha"; Some "10.5"]] in
  let g2 : grid := [[Some "Sector"; Some "Share"]; [Some "Banks"; Some "31.2"]] in
  let g3 : grid := [[Some " Scheme "; Some "Weightage  "]; [Some "Alpha "; Some "10.5"]] in
  let g4 : grid := [[Some "Scheme"; Some "Weightage"]] in
  let page := MkPdfPage (fun mode =>
                match mode with
                | LinesStrategy => Returned (Some [g1; g2])
                | TextStrategy => Returned (Some [g3; g4])
                end) in
  candidates page
  = [normalize_grid g1; normalize_grid g2; normalize_grid g3; normalize_grid g4]
  /\ extract_page_tables page
     = [normalize_grid g1; normalize_grid g2; normalize_grid g4]
  /\ count_occ fingerprint_eq_dec (map key_of (extract_page_tables page))
       (key_of (normalize_grid g1)) = 1
  /\ dict_get 0 (extract_tables [page])
     = Some [normalize_grid g1; normalize_grid g2; normalize_grid g4].
Proof.
  intros g1 g2 g3 g4 page.
  destruct tables_deduplicated_by_fingerprint as (_ & Hpage & Hget & _).
  destruct (Hpage page) as (Hkept & _ & _ & _ & _ & _ & Hsame).
  split; [vm_compute; reflexivity|]. split; [|split].
  - rewrite Hkept. vm_compute. reflexivity.
  - apply (Hsame (normalize_grid g1) (normalize_grid g3));
      vm_compute; try reflexivity; tauto.
  - rewrite Hget. vm_compute. reflexivity.
Defined.

(** ** C9: a failing strategy *)

Lemma extract_page_tables_strategies : forall page,
  extract_page_tables page
  = page_tables
      (fold_left visit_table (tables_or_empty (page_extract_tables page TextStrategy))
         (fold_left visit_table (tables_or_empty (page_extract_tables page LinesStrategy))
            (MkDedup [] []))).
Proof. reflexivity. Qed.

(** C9: if one of the two strategies raises on a page, the tables of that
    page are what they would be had the strategy returned no table, that is
    what the other strategy's tables alone give; the result for the whole
    document, every other page included, is the same dict, and the function
    still returns it (the exception is caught inside the loop). *)
Theorem strategy_failure_is_isolated :
  forall (pre : list PdfPage) (page : PdfPage) (post : list PdfPage) (mode : strategy),
  page_extract_tables page mode = Raised ->
  let quiet := with_outcome page mode (Returned (Some [])) in
  extract_page_tables page = extract_page_tables quiet
  /\ extract_page_tables page
     = page_tables
         (fold_left visit_table
            (tables_or_empty (page_extract_tables page (other_strategy mode)))
            (MkDedup [] []))
  /\ page_extract_tables quiet (other_strategy mode)
     = page_extract_tables page (other_strategy mode)
  /\ extract_tables (pre ++ page :: post) = extract_tables (pre ++ quiet :: post).
Proof.
  intros pre page post mode Hr quiet.
  assert (H1 : extract_page_tables page = extract_page_tables quiet).
  { rewrite !extract_page_tables_strategies. subst quiet.
    destruct mode; simpl; rewrite Hr; reflexivity. }
  split; [exact H1|]. split; [|split].
  - rewrite extract_page_tables_strategies. destruct mode; simpl; rewrite Hr; reflexivity.
  - subst quiet. destruct mode; reflexivity.
  - unfold extract_tables. apply extract_tables_from_ext.
    rewrite !map_app. simpl. rewrite H1. reflexivity.
Qed.

Lemma strategy_failure_witness :
  let g : grid := [[Some "Scheme"; Some "Weightage"]; [Some "Alpha"; Some "10.5"]] in
  let page := MkPdfPage (fun mode =>
                match mode with
                | LinesStrategy => Raised
                | TextStrategy => Returned (Some [g])
                end) in
  let quiet := with_outcome page LinesStrategy (Returned (Some [])) in
  extract_page_tables page = extract_page_tables quiet
  /\ extract_page_tables page
     = page_tables
         (fold_left visit_table
            (tables_or_empty (page_extract_tables page TextStrategy)) (MkDedup [] []))
  /\ page_extract_tables quiet TextStrategy = page_extract_tables page TextStrategy
  /\ extract_tables ([] ++ page :: []) = extract_tables ([] ++ quiet :: []).
Proof.
  intros g page quiet.
  exact (strategy_failure_is_isolated [] page [] LinesStrategy eq_refl).
Defined.

(** ** The order of sort keys *)

Lemma key_le_iff : forall a b : nat * Q,
  key_le a b = true <-> (fst a < fst b \/ (fst a = fst b /\ (snd a <= snd b)%Q)).
Proof.
  intros [a1 a2] [b1 b2]. unfold key_le, key_lt. simpl.
  rewrite negb_true_iff, orb_false_iff, andb_false_iff, negb_false_iff.
  rewrite Nat.ltb_ge, Nat.eqb_neq, Qle_bool_iff.
  destruct (Nat.lt_trichotomy a1 b1) as [H|[H|H]]; intuition lia.
Qed.

Lemma key_le_false : forall a b : nat * Q,
  key_le a b = false -> key_lt b a = true.
Proof. intros a b H. unfold key_le in H. now apply negb_false_iff in H. Qed.

Lemma key_lt_iff : forall a b : nat * Q,
  key_lt a b = true <-> (fst a < fst b \/ (fst a = fst b /\ (snd a < snd b)%Q)).
Proof.
  intros [a1 a2] [b1 b2]. unfold key_lt. simpl.
  rewrite orb_true_iff, andb_true_iff, negb_true_iff, Nat.ltb_lt, Nat.eqb_eq.
  assert (Hq : Qle_bool b2 a2 = false <-> (a2 < b2)%Q).
  { split; intros H.
    - apply Qnot_le_lt. intros Hle. apply Qle_bool_iff in Hle. congruence.
    - destruct (Qle_bool b2 a2) eqn:E; [|reflexivity].
      apply Qle_bool_iff in E. exfalso. exact (Qlt_not_le _ _ H E). }
  rewrite Hq. reflexivity.
Qed.

Lemma key_lt_le : forall a b : nat * Q, key_lt a b = true -> key_le a b = true.
Proof.
  intros a b H. apply key_le_iff. apply key_lt_iff in H.
  destruct H as [H|[H1 H2]]; [left; exact H|right; split; [exact H1|]].
  apply Qlt_le_weak, H2.
Qed.

Lemma key_le_trans : forall a b c : nat * Q,
  key_le a b = true -> key_le b c = true -> key_le a c = true.
Proof.
  intros a b c H1 H2. apply key_le_iff in H1, H2. apply key_le_iff.
  destruct H1 as [H1|[H1 H1']], H2 as [H2|[H2 H2']]; try (left; lia).
  right. split; [lia|]. eapply Qle_trans; eassumption.
Qed.

Lemma key_eq_iff : forall a b : nat * Q,
  key_eq a b = true <-> (fst a = fst b /\ (snd a == snd b)%Q).
Proof.
  intros [a1 a2] [b1 b2]. unfold key_eq. simpl.
  rewrite andb_true_iff, Nat.eqb_eq, Qeq_bool_iff. reflexivity.
Qed.

(** A key strictly below another is not equal to what the other equals. *)
Lemma key_lt_not_eq : forall a b k : nat * Q,
  key_lt a b = true -> key_eq a k = true -> key_eq b k = false.
Proof.
  intros a b k Hlt Ha. apply key_lt_iff in Hlt. apply key_eq_iff in Ha.
  destruct (key_eq b k) eqn:Hb; [|reflexivity]. apply key_eq_iff in Hb.
  destruct Ha as [Ha1 Ha2], Hb as [Hb1 Hb2].
  destruct Hlt as [Hlt|[_ Hlt]]; [lia|].
  rewrite Ha2, Hb2 in Hlt. exfalso. exact (Qlt_irrefl _ Hlt).
Qed.

(** ** [sorted]: a permutation, ordered, stable *)

Section SortedFacts.
Context {A : Type} (key : A -> nat * Q).

Lemma insert_by_perm : forall x l, Permutation (insert_by key x l) (x :: l).
Proof.
  induction l as [|y l IH]; simpl; [reflexivity|].
  destruct (key_le (key x) (key y)); [reflexivity|].
  rewrite IH. apply perm_swap.
Qed.

Lemma sorted_perm : forall l, Permutation (sorted key l) l.
Proof.
  induction l as [|x l IH]; simpl; [constructor|].
  rewrite insert_by_perm. constructor. exact IH.
Qed.

Lemma insert_by_ordered : forall x l,
  StronglySorted (ordered_by key) l -> StronglySorted (ordered_by key) (insert_by key x l).
Proof.
  induction l as [|y l IH]; intros Hs; simpl.
  - constructor; constructor.
  - apply StronglySorted_inv in Hs. destruct Hs as [Hs Hy].
    destruct (key_le (key x) (key y)) eqn:E.
    + constructor; [constructor; assumption|].
      constructor; [exact E|].
      eapply Forall_impl; [|exact Hy].
      intros z Hz. unfold ordered_by in *. eapply key_le_trans; eassumption.
    + constructor; [apply IH, Hs|].
      eapply Permutation_Forall; [symmetry; apply insert_by_perm|].
      constructor; [|exact Hy].
      unfold ordered_by. apply key_lt_le, key_le_false, E.
Qed.

Lemma sorted_ordered : forall l, StronglySorted (ordered_by key) (sorted key l).
Proof.
  induction l as [|x l IH]; simpl; [constructor|]. apply insert_by_ordered, IH.
Qed.

Lemma insert_by_stable : forall k x l,
  filter (fun c => key_eq (key c) k) (insert_by key x l)
  = filter (fun c => key_eq (key c) k) (x :: l).
Proof.
  intros k x. induction l as [|y l IH]; [reflexivity|].
  simpl insert_by. destruct (key_le (key x) (key y)) eqn:E; [reflexivity|].
  apply key_le_false in E.
  simpl filter in *. rewrite IH.
  destruct (key_eq (key y) k) eqn:Ey; [|reflexivity].
  rewrite (key_lt_not_eq _ _ _ E Ey). reflexivity.
Qed.

Lemma sorted_stable : forall k l,
  filter (fun c => key_eq (key c) k) (sorted key l)
  = filter (fun c => key_eq (key c) k) l.
Proof.
  intros k. induction l as [|x l IH]; [reflexivity|].
  simpl sorted. rewrite insert_by_stable. simpl. rewrite IH. reflexivity.
Qed.

(** In an ordered list nothing stands before an item of strictly smaller
    key. *)
Lemma ordered_no_inversion : forall a b l,
  StronglySorted (ordered_by key) l -> key_lt (key a) (key b) = true -> ~ precedes b a l.
Proof.
  intros a b l Hs Hlt (l1 & l2 & l3 & E). subst l.
  induction l1 as [|z l1 IH]; simpl in Hs; apply StronglySorted_inv in Hs;
    destruct Hs as [Hs Hall]; [|exact (IH Hs)].
  rewrite Forall_forall in Hall.
  assert (Hba : ordered_by key b a). { apply Hall, in_or_app. right. left. reflexivity. }
  unfold ordered_by in Hba. unfold key_le in Hba. rewrite Hlt in Hba. discriminate.
Qed.

End SortedFacts.

(** ** The sort of a merged page *)

Lemma merge_from_index_nth : forall tables_by_page pages i j page,
  nth_error pages j = Some page ->
  nth_error (merge_from_index tables_by_page i pages) j
  = Some (merge_page tables_by_page (i + j) page).
Proof.
  induction pages as [|p pages IH]; intros i j page H; [destruct j; discriminate|].
  destruct j as [|j]; simpl in *.
  - injection H as H. subst p. rewrite Nat.add_0_r. reflexivity.
  - rewrite Nat.add_succ_r. exact (IH (S i) j page H).
Qed.

Lemma merge_from_index_length : forall tables_by_page pages i,
  List.length (merge_from_index tables_by_page i pages) = List.length pages.
Proof.
  induction pages as [|p pages IH]; intros i; simpl; [reflexivity|].
  rewrite IH. reflexivity.
Qed.

Lemma merge_page_content : forall tables_by_page i page,
  content (merge_page tables_by_page i page)
  = sorted sort_key (with_tables tables_by_page i page).
Proof.
  intros. unfold merge_page, with_tables. simpl.
  destruct (dict_get i tables_by_page); [reflexivity|].
  rewrite app_nil_r. reflexivity.
Qed.

Lemma sort_key_top : forall c,
  sort_key c
  = (order_class (type c), match top_of c with Some y => y | None => SENTINEL end).
Proof.
  intros c. unfold sort_key, top_of.
  destruct (bbox c) as [[|x [|y l]]|]; reflexivity.
Qed.

(** On a page that holds a paragraph without a bounding box, which the
    assembler never builds, such an item does not sort after every
    positioned item of its class: a paragraph whose top is 2000000000,
    above the sentinel, ends up after a paragraph without a box that came
    after it. *)
Lemma positionless_item_can_sort_first :
  let far := positioned_item "paragraph" "far" (2000000000 # 1)%Q in
  let nowhere := positionless_item "paragraph" "nowhere" in
  top_of far = Some (2000000000 # 1)%Q
  /\ top_of nowhere = None
  /\ type far = type nowhere
  /\ merge_tables_into_pages [MkPageOut 1 [far; nowhere]] []
     = [MkPageOut 1 [nowhere; far]]
  /\ precedes nowhere far [nowhere; far].
Proof.
  intros far nowhere. split; [reflexivity|]. split; [reflexivity|].
  split; [reflexivity|]. split; [vm_compute; reflexivity|].
  exists [], [], []. reflexivity.
Qed.

(** ** The matcher on the patterns of [clean_text] *)

Lemma sub_go_cons : forall r t pv c s,
  sub_go r t 0 pv (String c s)
  = match match_here r pv (String c s) with
    | Some (n, cs) =>
        (expand t cs ++
         match n with
         | 0 => String c (sub_go r t 0 (Some c) s)
         | S n' => sub_go r t n' (Some c) s
         end)%string
    | None => String c (sub_go r t 0 (Some c) s)
    end.
Proof. reflexivity. Qed.

Lemma sub_go_skip : forall r t k pv c s,
  sub_go r t (S k) pv (String c s) = sub_go r t k (Some c) s.
Proof. reflexivity. Qed.

Lemma sub_go_nil : forall r t pv,
  sub_go r t 0 pv EmptyString
  = match match_here r pv EmptyString with
    | Some (n, cs) => (expand t cs ++ EmptyString)%string
    | None => EmptyString
    end.
Proof. reflexivity. Qed.

Lemma match_here_cls : forall p pv s,
  match_here (Cls p) pv s
  = match s with
    | String c _ => if p c then Some (1, []) else None
    | EmptyString => None
    end.
Proof. intros p pv [|c s]; reflexivity. Qed.

Lemma substring_0_0 : forall s, String.substring 0 0 s = EmptyString.
Proof. destruct s; reflexivity. Qed.

Lemma match_here_pair : forall p q pv s,
  match_here (Seq (Grp 1 (Cls p)) (Grp 2 (Cls q))) pv s
  = match s with
    | String x (String y _) =>
        if p x && q y
        then Some (2, [(2, String y EmptyString); (1, String x EmptyString)])
        else None
    | _ => None
    end.
Proof.
  intros p q pv [|x [|y s]]; unfold match_here; simpl; try reflexivity.
  - destruct (p x); reflexivity.
  - destruct (p x); simpl; [|reflexivity].
    destruct (q y); [|reflexivity]. rewrite substring_0_0. reflexivity.
Qed.

(** A greedy repetition whose continuation always succeeds takes the
    whole run. *)
Lemma rep_takes_run : forall (R : Type) p (f : mstate -> R) s lo pv n cs,
  rep p lo None pv n s cs (fun st => Some (f st))
  = if lo <=? run p s
    then Some (f (MState (prev_after (run p s) pv s) (n + run p s)
                    (drop (run p s) s) cs))
    else None.
Proof.
  intros R p f. induction s as [|c s IH]; intros lo pv n cs; simpl.
  - rewrite Nat.add_0_r. destruct lo; reflexivity.
  - destruct (p c); simpl.
    + rewrite IH. rewrite Nat.add_succ_r.
      destruct lo as [|lo]; simpl; [reflexivity|].
      destruct (lo <=? run p s); reflexivity.
    + rewrite Nat.add_0_r. destruct lo; reflexivity.
Qed.

(** A greedy repetition whose continuation refuses every position that
    still has a character of the class ahead takes the whole run or
    fails. *)
Lemma rep_needs_run : forall (R : Type) p (k : mstate -> option R),
  (forall pv n s cs, next_is p s = true -> k (MState pv n s cs) = None) ->
  forall s lo pv n cs,
  rep p lo None pv n s cs k
  = if lo <=? run p s
    then k (MState (prev_after (run p s) pv s) (n + run p s) (drop (run p s) s) cs)
    else None.
Proof.
  intros R p k Hk. induction s as [|c s IH]; intros lo pv n cs; simpl.
  - rewrite Nat.add_0_r. destruct lo; reflexivity.
  - destruct (p c) eqn:Ec; simpl.
    + rewrite IH. rewrite Nat.add_succ_r.
      rewrite (Hk pv n (String c s) cs) by (simpl; exact Ec).
      destruct lo as [|lo]; simpl.
      * destruct (k _); reflexivity.
      * destruct (lo <=? run p s); [destruct (k _)|]; reflexivity.
    + rewrite Nat.add_0_r. destruct lo; reflexivity.
Qed.

Lemma match_here_spaces : forall pv s,
  match_here (plus Chr.space) pv s
  = if 1 <=? run Chr.space s then Some (run Chr.space s, []) else None.
Proof.
  intros pv s. unfold match_here, plus. simpl.
  rewrite (rep_takes_run _ Chr.space (fun st => (pos st, caps st))). reflexivity.
Qed.

(** [re.sub] of a one-character class by a space. *)
Lemma sub_class_to_space : forall p s pv,
  sub_go (Cls p) [TLit " "] 0 pv s = Py.map_chars (to_space p) s.
Proof.
  intros p. induction s as [|c s IH]; intros pv; [reflexivity|].
  rewrite sub_go_cons, match_here_cls. simpl Py.map_chars. unfold to_space at 1.
  destruct (p c); simpl; rewrite IH; reflexivity.
Qed.

(** [re.sub(r"\s+", " ", s)] *)
Lemma sub_spaces_collapse : forall s pv,
  sub_go (plus Chr.space) [TLit " "] 0 pv s = collapse_go false s
  /\ sub_go (plus Chr.space) [TLit " "] (run Chr.space s) pv s = collapse_go true s.
Proof.
  induction s as [|c s IH]; intros pv; [split; reflexivity|].
  destruct (IH (Some c)) as [IH1 IH2].
  assert (H0 : sub_go (plus Chr.space) [TLit " "] 0 pv (String c s)
               = collapse_go false (String c s)).
  { rewrite sub_go_cons, match_here_spaces. simpl run. simpl collapse_go.
    destruct (Chr.space c); simpl; [rewrite IH2|rewrite IH1]; reflexivity. }
  split; [exact H0|].
  simpl run. destruct (Chr.space c) eqn:Ec.
  - rewrite sub_go_skip, IH2. simpl. rewrite Ec. reflexivity.
  - rewrite H0. simpl. rewrite Ec. reflexivity.
Qed.

(** [re.sub] of a pair of classes by the pair with a space inside. *)
Lemma sub_pair_gap : forall p q,
  (forall c, q c = true -> p c = false) ->
  forall s pv,
  sub_go (Seq (Grp 1 (Cls p)) (Grp 2 (Cls q))) tmpl_spaced 0 pv s = gap p q s
  /\ forall x pv',
       sub_go (Seq (Grp 1 (Cls p)) (Grp 2 (Cls q))) tmpl_spaced 0 pv' (String x s)
       = gap p q (String x s).
Proof.
  intros p q Hpq. induction s as [|y s IH]; intros pv.
  - split; [reflexivity|]. intros x pv'. rewrite sub_go_cons, match_here_pair.
    reflexivity.
  - destruct (IH (Some y)) as [IH1 IH2].
    split; [apply IH2|]. intros x pv'.
    rewrite sub_go_cons, match_here_pair. simpl gap.
    destruct (p x && q y) eqn:E.
    + apply andb_true_iff in E. destruct E as [_ Eq].
      rewrite sub_go_skip. simpl expand. rewrite (proj1 (IH (Some y))).
      destruct s as [|z s]; [reflexivity|].
      simpl. rewrite (Hpq y Eq). reflexivity.
    + rewrite (IH2 y (Some x)). reflexivity.
Qed.

(** The hyphen-break pattern needs a hyphen followed by whitespace. *)
Lemma match_here_hyphen_break : forall pv s,
  adj hyphen_then_space s = false -> match_here re_hyphen_break pv s = None.
Proof.
  intros pv [|x [|h s]] H; unfold match_here, re_hyphen_break, chr, plus;
    cbn -[Ascii.eqb Chr.word Chr.space HYPHEN]; try reflexivity.
  - destruct (Chr.word x); reflexivity.
  - destruct (Chr.word x); [|reflexivity].
    destruct (Ascii.eqb HYPHEN h) eqn:Eh; [|reflexivity].
    destruct s as [|c s]; [reflexivity|].
    cbn -[Ascii.eqb Chr.word Chr.space HYPHEN] in H |- *.
    unfold hyphen_then_space in H at 2. rewrite Eh in H.
    apply orb_false_iff in H. destruct H as [_ H].
    apply orb_false_iff in H. destruct H as [H _].
    cbn -[Chr.space] in H. rewrite H. reflexivity.
Qed.

Lemma adj_from_tail : forall R a s, adj_from R a s = false -> adj R s = false.
Proof.
  intros R a [|b s] H; [reflexivity|]. simpl in *.
  apply orb_false_iff in H. apply H.
Qed.

Lemma sub_hyphen_break_none : forall s pv,
  adj hyphen_then_space s = false ->
  sub_go re_hyphen_break tmpl_joined 0 pv s = s.
Proof.
  induction s as [|c s IH]; intros pv H.
  - rewrite sub_go_nil, match_here_hyphen_break by reflexivity. reflexivity.
  - rewrite sub_go_cons, match_here_hyphen_break by exact H.
    rewrite IH; [reflexivity|]. exact (adj_from_tail _ c s H).
Qed.

(** ** Facts about single characters, checked on all 256 of them *)

Ltac by_chars :=
  intros;
  repeat match goal with c : ascii |- _ => destruct c as [[|] [|] [|] [|] [|] [|] [|] [|]] end;
  vm_compute in *; congruence.

Lemma upper_not_lower : forall c, Chr.upper_az c = true -> Chr.lower_az c = false.
Proof. by_chars. Qed.

Lemma digit_not_alpha : forall c, Chr.digit c = true -> Chr.alpha_az c = false.
Proof. by_chars. Qed.

Lemma alpha_not_digit : forall c, Chr.alpha_az c = true -> Chr.digit c = false.
Proof. by_chars. Qed.

Lemma tab_to_sp_hyphen : forall c, Ascii.eqb HYPHEN (tab_to_sp c) = Ascii.eqb HYPHEN c.
Proof. by_chars. Qed.

Lemma tab_to_sp_space : forall c, Chr.space (tab_to_sp c) = Chr.space c.
Proof. by_chars. Qed.

Lemma nbsp_to_sp_hyphen : forall c,
  Ascii.eqb HYPHEN (to_space nbsp_class c) = Ascii.eqb HYPHEN c.
Proof. by_chars. Qed.

Lemma nbsp_to_sp_space : forall c, Chr.space (to_space nbsp_class c) = Chr.space c.
Proof. by_chars. Qed.

Lemma tab_to_sp_fixes : forall c, ws_is_sp c = true -> tab_to_sp c = c.
Proof. by_chars. Qed.

Lemma nbsp_to_sp_fixes : forall c, ws_is_sp c = true -> to_space nbsp_class c = c.
Proof. by_chars. Qed.

Lemma ws_is_sp_space : forall c, ws_is_sp c = true -> Chr.space c = true -> c = SP.
Proof. by_chars. Qed.

(** ** The direct forms: what each step keeps and what it fixes *)

Lemma map_chars_id : forall (f : ascii -> ascii) (p : ascii -> bool),
  (forall c, p c = true -> f c = c) ->
  forall s, all_chars p s = true -> Py.map_chars f s = s.
Proof.
  intros f p Hf. induction s as [|c s IH]; intros H; [reflexivity|].
  simpl in *. apply andb_true_iff in H. destruct H as [Hc Hs].
  rewrite (Hf c Hc), (IH Hs). reflexivity.
Qed.

Lemma adj_from_map : forall (f : ascii -> ascii) (R : ascii -> ascii -> bool),
  (forall a b, R (f a) (f b) = R a b) ->
  forall s a, adj_from R (f a) (Py.map_chars f s) = adj_from R a s.
Proof.
  intros f R Hf. induction s as [|b s IH]; intros a; [reflexivity|].
  simpl. rewrite Hf, IH. reflexivity.
Qed.

Lemma adj_map : forall (f : ascii -> ascii) (R : ascii -> ascii -> bool),
  (forall a b, R (f a) (f b) = R a b) ->
  forall s, adj R (Py.map_chars f s) = adj R s.
Proof. intros f R Hf [|a s]; [reflexivity|]. simpl. apply adj_from_map, Hf. Qed.

(** [gap_from] *)
Lemma gap_from_id : forall p q s x,
  adj_from (pair_of p q) x s = false -> gap_from p q x s = s.
Proof.
  intros p q. induction s as [|y s IH]; intros x H; [reflexivity|].
  simpl in *. apply orb_false_iff in H. destruct H as [Hxy Hs].
  unfold pair_of in Hxy. rewrite Hxy, (IH y Hs). reflexivity.
Qed.

Lemma gap_id : forall p q s, adj (pair_of p q) s = false -> gap p q s = s.
Proof.
  intros p q [|x s] H; [reflexivity|]. simpl in *. rewrite gap_from_id by exact H.
  reflexivity.
Qed.

Lemma gap_from_keeps : forall p q (R : ascii -> ascii -> bool),
  (forall a, p a = true -> R a SP = false) ->
  (forall b, q b = true -> R SP b = false) ->
  forall s x, adj_from R x s = false -> adj_from R x (gap_from p q x s) = false.
Proof.
  intros p q R Hp Hq. induction s as [|y s IH]; intros x H; [reflexivity|].
  simpl in *. apply orb_false_iff in H. destruct H as [Hxy Hs].
  destruct (p x && q y) eqn:E; simpl.
  - apply andb_true_iff in E. destruct E as [Ex Ey].
    rewrite (Hp x Ex), (Hq y Ey), (IH y Hs). reflexivity.
  - rewrite Hxy, (IH y Hs). reflexivity.
Qed.

Lemma gap_keeps : forall p q (R : ascii -> ascii -> bool),
  (forall a, p a = true -> R a SP = false) ->
  (forall b, q b = true -> R SP b = false) ->
  forall s, adj R s = false -> adj R (gap p q s) = false.
Proof.
  intros p q R Hp Hq [|x s] H; [reflexivity|]. simpl in *.
  apply gap_from_keeps; assumption.
Qed.

Lemma gap_from_kills : forall p q,
  p SP = false -> q SP = false ->
  forall s x, adj_from (pair_of p q) x (gap_from p q x s) = false.
Proof.
  intros p q Hp Hq. induction s as [|y s IH]; intros x; [reflexivity|].
  simpl. destruct (p x && q y) eqn:E; simpl.
  - unfold pair_of at 1 2. rewrite Hq, Hp, andb_false_r. simpl. apply IH.
  - unfold pair_of at 1. rewrite E. simpl. apply IH.
Qed.

Lemma gap_kills : forall p q,
  p SP = false -> q SP = false ->
  forall s, adj (pair_of p q) (gap p q s) = false.
Proof. intros p q Hp Hq [|x s]; [reflexivity|]. simpl. apply gap_from_kills; assumption. Qed.

Lemma gap_from_all : forall p q (c : ascii -> bool),
  c SP = true ->
  forall s x, all_chars c s = true -> all_chars c (gap_from p q x s) = true.
Proof.
  intros p q c Hc. induction s as [|y s IH]; intros x H; [reflexivity|].
  simpl in *. apply andb_true_iff in H. destruct H as [Hy Hs].
  destruct (p x && q y); simpl; rewrite ?Hc, Hy, (IH y Hs); reflexivity.
Qed.

Lemma gap_all : forall p q (c : ascii -> bool),
  c SP = true ->
  forall s, all_chars c s = true -> all_chars c (gap p q s) = true.
Proof.
  intros p q c Hc [|x s] H; [reflexivity|]. simpl in *.
  apply andb_true_iff in H. destruct H as [Hx Hs].
  rewrite Hx. simpl. apply gap_from_all; assumption.
Qed.

(** [collapse] *)
Lemma collapse_go_all : forall s b, all_chars ws_is_sp (collapse_go b s) = true.
Proof.
  induction s as [|c s IH]; intros b; [reflexivity|]. simpl.
  destruct (Chr.space c) eqn:Ec.
  - destruct b; simpl; apply IH.
  - simpl. rewrite IH. unfold ws_is_sp. rewrite Ec. reflexivity.
Qed.

Lemma collapse_go_no_double : forall s a b,
  (b = false -> Chr.space a = false) ->
  adj_from (pair_of Chr.space Chr.space) a (collapse_go b s) = false.
Proof.
  induction s as [|c s IH]; intros a b Hab; [reflexivity|]. simpl.
  destruct (Chr.space c) eqn:Ec.
  - destruct b.
    + apply IH. intros; discriminate.
    + simpl. unfold pair_of at 1. rewrite (Hab eq_refl). simpl.
      apply IH. intros; discriminate.
  - simpl. unfold pair_of at 1. rewrite Ec, andb_false_r. simpl.
    apply IH. intros _. exact Ec.
Qed.

Lemma collapse_no_double : forall s,
  adj (pair_of Chr.space Chr.space) (collapse s) = false.
Proof.
  intros [|c s]; [reflexivity|]. unfold collapse. simpl.
  destruct (Chr.space c) eqn:Ec; simpl; apply collapse_go_no_double.
  - intros; discriminate.
  - intros _. exact Ec.
Qed.

Lemma collapse_go_hyphen : forall s a,
  adj_from hyphen_then_space a s = false ->
  adj_from hyphen_then_space (to_space Chr.space a) (collapse_go (Chr.space a) s) = false.
Proof.
  induction s as [|c s IH]; intros a H; [reflexivity|].
  simpl in H. apply orb_false_iff in H. destruct H as [Hac Hs].
  specialize (IH c Hs). simpl. unfold to_space in *.
  destruct (Chr.space c) eqn:Ec.
  - destruct (Chr.space a) eqn:Ea; [exact IH|].
    simpl. rewrite IH. unfold hyphen_then_space in *. rewrite Ec in Hac.
    rewrite andb_true_r in Hac. rewrite Hac. reflexivity.
  - simpl. rewrite IH. unfold hyphen_then_space. rewrite Ec, andb_false_r.
    reflexivity.
Qed.

Lemma collapse_hyphen : forall s,
  adj hyphen_then_space s = false -> adj hyphen_then_space (collapse s) = false.
Proof.
  intros [|c s] H; [reflexivity|]. unfold collapse. simpl in *.
  pose proof (collapse_go_hyphen s c H) as IH. unfold to_space in IH.
  destruct (Chr.space c); simpl; exact IH.
Qed.

Lemma collapse_go_id : forall s a,
  all_chars ws_is_sp s = true ->
  adj_from (pair_of Chr.space Chr.space) a s = false ->
  collapse_go (Chr.space a) s = s.
Proof.
  induction s as [|c s IH]; intros a Hall H; [reflexivity|].
  simpl in *. apply andb_true_iff in Hall. destruct Hall as [Hc Hall].
  apply orb_false_iff in H. destruct H as [Hac Hs].
  specialize (IH c Hall Hs).
  destruct (Chr.space c) eqn:Ec.
  - unfold pair_of in Hac. rewrite Ec, andb_true_r in Hac. rewrite Hac.
    rewrite IH. rewrite (ws_is_sp_space c Hc Ec). reflexivity.
  - rewrite IH. reflexivity.
Qed.

Lemma collapse_id : forall s,
  all_chars ws_is_sp s = true ->
  adj (pair_of Chr.space Chr.space) s = false ->
  collapse s = s.
Proof.
  intros [|c s] Hall H; [reflexivity|]. unfold collapse. simpl in *.
  apply andb_true_iff in Hall. destruct Hall as [Hc Hall].
  pose proof (collapse_go_id s c Hall H) as IH.
  destruct (Chr.space c) eqn:Ec; rewrite IH; [|reflexivity].
  rewrite (ws_is_sp_space c Hc Ec). reflexivity.
Qed.

(** [strip] *)
Lemma lstrip_all : forall (p : ascii -> bool) s,
  all_chars p s = true -> all_chars p (Py.lstrip s) = true.
Proof.
  intros p. induction s as [|c s IH]; intros H; [reflexivity|].
  simpl. destruct (Chr.space c); [|exact H].
  simpl in H. apply andb_true_iff in H. apply IH, H.
Qed.

Lemma rstrip_all : forall (p : ascii -> bool) s,
  all_chars p s = true -> all_chars p (Py.rstrip s) = true.
Proof.
  intros p. induction s as [|c s IH]; intros H; [reflexivity|].
  simpl in *. apply andb_true_iff in H. destruct H as [Hc Hs]. specialize (IH Hs).
  destruct (Py.rstrip s) as [|d r].
  - destruct (Chr.space c); simpl; rewrite ?Hc; reflexivity.
  - simpl in *. rewrite Hc, IH. reflexivity.
Qed.

Lemma lstrip_adj : forall R s, adj R s = false -> adj R (Py.lstrip s) = false.
Proof.
  intros R. induction s as [|c s IH]; intros H; [reflexivity|].
  simpl. destruct (Chr.space c); [|exact H].
  apply IH. exact (adj_from_tail R c s H).
Qed.

Lemma rstrip_adj_from : forall R s a,
  adj_from R a s = false -> adj_from R a (Py.rstrip s) = false.
Proof.
  intros R. induction s as [|c s IH]; intros a H; [reflexivity|].
  simpl in *. apply orb_false_iff in H. destruct H as [Hac Hs].
  specialize (IH c Hs).
  destruct (Py.rstrip s) as [|d r].
  - destruct (Chr.space c); simpl; rewrite ?Hac; reflexivity.
  - simpl in *. rewrite Hac, IH. reflexivity.
Qed.

Lemma rstrip_adj : forall R s, adj R s = false -> adj R (Py.rstrip s) = false.
Proof.
  intros R [|c s] H; [reflexivity|]. simpl in *.
  pose proof (rstrip_adj_from R s c H) as IH.
  destruct (Py.rstrip s) as [|d r]; [destruct (Chr.space c); reflexivity|].
  exact IH.
Qed.

Lemma rstrip_idem : forall s, Py.rstrip (Py.rstrip s) = Py.rstrip s.
Proof.
  induction s as [|c s IH]; [reflexivity|]. simpl.
  destruct (Py.rstrip s) as [|d r] eqn:E.
  - destruct (Chr.space c) eqn:Ec; [reflexivity|]. simpl. rewrite Ec. reflexivity.
  - simpl. simpl in IH. rewrite IH. reflexivity.
Qed.

(** The head of a left-stripped text is no whitespace, and right-stripping
    keeps it. *)
Lemma lstrip_head : forall s c r, Py.lstrip s = String c r -> Chr.space c = false.
Proof.
  induction s as [|d s IH]; intros c r H; [discriminate|].
  simpl in H. destruct (Chr.space d) eqn:Ed; [exact (IH c r H)|].
  injection H as H _. subst d. exact Ed.
Qed.

Lemma rstrip_head : forall c s,
  Chr.space c = false -> exists r, Py.rstrip (String c s) = String c r.
Proof.
  intros c s Hc. simpl. destruct (Py.rstrip s) as [|d r].
  - rewrite Hc. eexists; reflexivity.
  - eexists; reflexivity.
Qed.

Lemma strip_head : forall s c r, Py.strip s = String c r -> Chr.space c = false.
Proof.
  unfold Py.strip. intros s c r H.
  destruct (Py.lstrip s) as [|d u] eqn:E; [discriminate|].
  pose proof (lstrip_head s d u E) as Hd.
  destruct (rstrip_head d u Hd) as [r' Hr]. rewrite Hr in H.
  injection H as H _. subst d. exact Hd.
Qed.

Lemma strip_idem : forall s, Py.strip (Py.strip s) = Py.strip s.
Proof.
  intros s. unfold Py.strip at 1.
  destruct (Py.strip s) as [|c r] eqn:E; [reflexivity|].
  pose proof (strip_head s c r E) as Hc. simpl Py.lstrip. rewrite Hc.
  rewrite <- E. unfold Py.strip. apply rstrip_idem.
Qed.

Lemma strip_all : forall (p : ascii -> bool) s,
  all_chars p s = true -> all_chars p (Py.strip s) = true.
Proof. intros. unfold Py.strip. apply rstrip_all, lstrip_all. assumption. Qed.

Lemma strip_adj : forall R s, adj R s = false -> adj R (Py.strip s) = false.
Proof. intros. unfold Py.strip. apply rstrip_adj, lstrip_adj. assumption. Qed.

(** ** C1: [clean_text] applied twice *)

Lemma replace_tab_is_map : forall s,
  Py.replace_char TAB SP s = Py.map_chars tab_to_sp s.
Proof. reflexivity. Qed.

Lemma hyphen_then_space_tab : forall a b,
  hyphen_then_space (tab_to_sp a) (tab_to_sp b) = hyphen_then_space a b.
Proof.
  intros. unfold hyphen_then_space. rewrite tab_to_sp_hyphen, tab_to_sp_space.
  reflexivity.
Qed.

Lemma hyphen_then_space_nbsp : forall a b,
  hyphen_then_space (to_space nbsp_class a) (to_space nbsp_class b)
  = hyphen_then_space a b.
Proof.
  intros. unfold hyphen_then_space. rewrite nbsp_to_sp_hyphen, nbsp_to_sp_space.
  reflexivity.
Qed.

(** On a text without a hyphen directly before whitespace the
    substitutions of [clean_text] are the direct forms. *)
Lemma clean_text_is_direct : forall t,
  adj hyphen_then_space t = false -> clean_text t = clean_text_direct t.
Proof.
  intros t H. unfold clean_text, clean_text_direct.
  destruct (Py.falsy t); [reflexivity|].
  unfold sub. rewrite sub_class_to_space.
  rewrite sub_hyphen_break_none.
  - rewrite (proj1 (sub_spaces_collapse _ None)).
    unfold re_lower_upper, re_alpha_digit, re_digit_alpha.
    rewrite (proj1 (sub_pair_gap _ _ upper_not_lower _ None)).
    rewrite (proj1 (sub_pair_gap _ _ digit_not_alpha _ None)).
    rewrite (proj1 (sub_pair_gap _ _ alpha_not_digit _ None)).
    reflexivity.
  - rewrite (adj_map _ _ hyphen_then_space_nbsp).
    rewrite replace_tab_is_map, (adj_map _ _ hyphen_then_space_tab). exact H.
Qed.

Ltac gap_side := repeat match goal with H : _ |- _ => clear H end; by_chars.

(** The direct form ends in a normal form. *)
Lemma clean_text_direct_normal : forall t,
  adj hyphen_then_space t = false -> normal_form (clean_text_direct t).
Proof.
  intros t H. unfold clean_text_direct.
  destruct (Py.falsy t); [repeat split; reflexivity|].
  set (s1 := Py.map_chars (to_space nbsp_class) (Py.replace_char TAB SP t)).
  assert (H1 : adj hyphen_then_space s1 = false).
  { unfold s1. rewrite (adj_map _ _ hyphen_then_space_nbsp).
    rewrite replace_tab_is_map, (adj_map _ _ hyphen_then_space_tab). exact H. }
  set (s2 := collapse s1).
  assert (A2 : all_chars ws_is_sp s2 = true) by apply collapse_go_all.
  assert (W2 : adj (pair_of Chr.space Chr.space) s2 = false) by apply collapse_no_double.
  assert (H2 : adj hyphen_then_space s2 = false) by (apply collapse_hyphen, H1).
  set (s3 := gap Chr.lower_az Chr.upper_az s2).
  assert (A3 : all_chars ws_is_sp s3 = true) by (apply gap_all; [reflexivity|exact A2]).
  assert (W3 : adj (pair_of Chr.space Chr.space) s3 = false)
    by (apply gap_keeps; [gap_side|gap_side|exact W2]).
  assert (H3 : adj hyphen_then_space s3 = false)
    by (apply gap_keeps; [gap_side|gap_side|exact H2]).
  assert (L3 : adj (pair_of Chr.lower_az Chr.upper_az) s3 = false)
    by (apply gap_kills; reflexivity).
  set (s4 := gap Chr.alpha_az Chr.digit s3).
  assert (A4 : all_chars ws_is_sp s4 = true) by (apply gap_all; [reflexivity|exact A3]).
  assert (W4 : adj (pair_of Chr.space Chr.space) s4 = false)
    by (apply gap_keeps; [gap_side|gap_side|exact W3]).
  assert (H4 : adj hyphen_then_space s4 = false)
    by (apply gap_keeps; [gap_side|gap_side|exact H3]).
  assert (L4 : adj (pair_of Chr.lower_az Chr.upper_az) s4 = false)
    by (apply gap_keeps; [gap_side|gap_side|exact L3]).
  assert (D4 : adj (pair_of Chr.alpha_az Chr.digit) s4 = false)
    by (apply gap_kills; reflexivity).
  set (s5 := gap Chr.digit Chr.alpha_az s4).
  assert (A5 : all_chars ws_is_sp s5 = true) by (apply gap_all; [reflexivity|exact A4]).
  assert (W5 : adj (pair_of Chr.space Chr.space) s5 = false)
    by (apply gap_keeps; [gap_side|gap_side|exact W4]).
  assert (H5 : adj hyphen_then_space s5 = false)
    by (apply gap_keeps; [gap_side|gap_side|exact H4]).
  assert (L5 : adj (pair_of Chr.lower_az Chr.upper_az) s5 = false)
    by (apply gap_keeps; [gap_side|gap_side|exact L4]).
  assert (D5 : adj (pair_of Chr.alpha_az Chr.digit) s5 = false)
    by (apply gap_keeps; [gap_side|gap_side|exact D4]).
  assert (E5 : adj (pair_of Chr.digit Chr.alpha_az) s5 = false)
    by (apply gap_kills; reflexivity).
  unfold normal_form.
  split; [apply strip_all, A5|]. split; [apply strip_adj, W5|].
  split; [apply strip_adj, H5|]. split; [apply strip_adj, L5|].
  split; [apply strip_adj, D5|]. split; [apply strip_adj, E5|].
  apply strip_idem.
Qed.

(** A normal form is left as it is. *)
Lemma clean_text_direct_fixes : forall s, normal_form s -> clean_text_direct s = s.
Proof.
  intros s (A & W & H & L & D & E & S). unfold clean_text_direct.
  destruct s as [|c s]; [reflexivity|]. simpl Py.falsy. cbv iota.
  rewrite replace_tab_is_map.
  rewrite (map_chars_id _ _ tab_to_sp_fixes _ A).
  rewrite (map_chars_id _ _ nbsp_to_sp_fixes _ A).
  rewrite (collapse_id _ A W).
  rewrite (gap_id _ _ _ L), (gap_id _ _ _ D), (gap_id _ _ _ E).
  exact S.
Qed.

(** C1, as stated, fails: on "a- b- c" the hyphen-break rejoin takes the
    first break only (the matches of one [re.sub] do not overlap, and the
    second break begins with the character that ends the first), so a
    second pass changes the text again. *)
Lemma clean_text_not_idempotent :
  clean_text "a- b- c" = "ab- c"
  /\ clean_text (clean_text "a- b- c") = "abc"
  /\ clean_text (clean_text "a- b- c") <> clean_text "a- b- c".
Proof. vm_compute. repeat split. discriminate. Qed.

(** ** The matcher on the sentence-gap pattern *)

Lemma space_not_upper : forall c, Chr.space c = true -> Chr.upper_az c = false.
Proof. by_chars. Qed.

Lemma space_not_sentence_end : forall c, Chr.space c = true -> sentence_end c = false.
Proof. by_chars. Qed.

Lemma match_here_sentence_gap : forall pv s,
  match_here re_sentence_gap pv s
  = if gap_here pv s then Some (run Chr.space s, []) else None.
Proof.
  intros pv s. unfold match_here, re_sentence_gap, gap_here, plus.
  cbn -[Chr.space Chr.upper_az one_of run drop].
  destruct pv as [a|]; [|reflexivity].
  unfold sentence_end. destruct (one_of ".!?" a); [|reflexivity].
  rewrite rep_needs_run.
  - destruct (run Chr.space s) as [|m] eqn:Er; [reflexivity|].
    cbn -[Chr.space Chr.upper_az drop].
    destruct (drop (S m) s) as [|c r]; [reflexivity|].
    simpl. destruct (Chr.upper_az c); reflexivity.
  - intros pv' n [|c r] cs Hn; [discriminate|].
    cbn -[Chr.space Chr.upper_az]. simpl in Hn.
    rewrite (space_not_upper c Hn). reflexivity.
Qed.

Lemma split_go_cons : forall r pv c s,
  split_go r 0 pv (String c s)
  = match match_here r pv (String c s) with
    | Some (S n', _) => EmptyString :: split_go r n' (Some c) s
    | _ => push_char c (split_go r 0 (Some c) s)
    end.
Proof. reflexivity. Qed.

Lemma split_go_drop : forall r k s pv,
  split_go r k pv s = split_go r 0 (prev_after k pv s) (drop k s).
Proof.
  intros r. induction k as [|k IH]; intros s pv.
  - destruct s; reflexivity.
  - destruct s as [|c s]; [reflexivity|]. simpl. apply IH.
Qed.

Lemma drop_length : forall k s, String.length (drop k s) <= String.length s.
Proof.
  induction k as [|k IH]; intros [|c s]; simpl; try lia.
  specialize (IH s). lia.
Qed.

(** No sentence gap starts inside a run of whitespace. *)
Lemma gaps_skip_run : forall s a,
  Chr.space a = true ->
  gaps_from (Some a) s
  = gaps_from (prev_after (run Chr.space s) (Some a) s) (drop (run Chr.space s) s).
Proof.
  induction s as [|d s IH]; intros a Ha; [reflexivity|].
  simpl run. destruct (Chr.space d) eqn:Ed; [|reflexivity].
  simpl prev_after. simpl drop. rewrite <- (IH d Ed).
  simpl gaps_from. unfold gap_here at 1.
  rewrite (space_not_sentence_end a Ha). reflexivity.
Qed.

Lemma nonblank_cons : forall c s, Chr.space c = false -> nonblank (String c s) = true.
Proof.
  intros c s Hc. unfold nonblank, Py.strip. simpl Py.lstrip. rewrite Hc.
  destruct (rstrip_head c s Hc) as [r Hr]. rewrite Hr. reflexivity.
Qed.

(** The pieces of a split at sentence gaps: one more than there are gaps
    ahead; every piece after the first begins with the capital that ends
    a gap. *)
Lemma split_sentence_gaps : forall n s pv,
  String.length s <= n ->
  exists p0 ps,
    split_go re_sentence_gap 0 pv s = p0 :: ps
    /\ List.length ps = gaps_from pv s
    /\ forallb nonblank ps = true
    /\ (next_is (fun c => negb (Chr.space c)) s = true -> nonblank p0 = true).
Proof.
  induction n as [|n IH]; intros s pv Hlen.
  - destruct s; [|simpl in Hlen; lia].
    exists EmptyString, []. repeat split; intros; discriminate.
  - destruct s as [|c s].
    + exists EmptyString, []. repeat split; intros; discriminate.
    + simpl in Hlen. rewrite split_go_cons, match_here_sentence_gap.
      simpl gaps_from. destruct (gap_here pv (String c s)) eqn:G.
      * unfold gap_here in G. apply andb_true_iff in G. destruct G as [G Gup].
        apply andb_true_iff in G. destruct G as [_ Grun].
        simpl run in *. destruct (Chr.space c) eqn:Ec; [|discriminate].
        simpl drop in Gup. rewrite split_go_drop.
        destruct (IH (drop (run Chr.space s) s)
                    (prev_after (run Chr.space s) (Some c) s))
          as (q0 & qs & E & Hl & Hnb & Hq0).
        { pose proof (drop_length (run Chr.space s) s). lia. }
        exists EmptyString, (q0 :: qs). split; [rewrite E; reflexivity|].
        split; [simpl; rewrite Hl, <- (gaps_skip_run s c Ec); reflexivity|].
        split.
        -- simpl. rewrite Hnb, andb_true_r. apply Hq0.
           destruct (drop (run Chr.space s) s) as [|u r]; [discriminate|].
           simpl in *. destruct (Chr.space u) eqn:Eu; [|reflexivity].
           rewrite (space_not_upper u Eu) in Gup. discriminate.
        -- simpl. rewrite Ec. discriminate.
      * destruct (IH s (Some c)) as (q0 & qs & E & Hl & Hnb & _); [lia|].
        rewrite E. exists (String c q0), qs. split; [reflexivity|].
        split; [exact Hl|]. split; [exact Hnb|].
        simpl. intros Hc. apply negb_true_iff in Hc. apply nonblank_cons, Hc.
Qed.

(** ** The head of the text [push_text] and the rules see *)

Lemma sub_literal_head : forall r c0 rep c s,
  Chr.space c0 = false -> Chr.space c = false ->
  exists c' s', sub r [TLit (String c0 rep)] (String c s) = String c' s'
                /\ Chr.space c' = false.
Proof.
  intros r c0 rep c s H0 Hc. unfold sub. rewrite sub_go_cons.
  destruct (match_here r None (String c s)) as [[n cs]|].
  - simpl. eexists _, _. split; [reflexivity|exact H0].
  - eexists _, _. split; [reflexivity|exact Hc].
Qed.

Lemma fixes_heads :
  Forall (fun f => exists c0 rep, snd f = String c0 rep /\ Chr.space c0 = false) fixes.
Proof. unfold fixes. repeat constructor; eexists _, _; split; reflexivity. Qed.

Lemma fold_fixes_head : forall fs,
  Forall (fun f => exists c0 rep, snd f = String c0 rep /\ Chr.space c0 = false) fs ->
  forall c s, Chr.space c = false ->
  exists c' s',
    fold_left (fun t (f : string * string) => sub (re_fix (fst f)) [TLit (snd f)] t)
      fs (String c s) = String c' s'
    /\ Chr.space c' = false.
Proof.
  induction fs as [|f fs IH]; intros Hall c s Hc.
  - exists c, s. split; [reflexivity|exact Hc].
  - inversion Hall as [|? ? (c0 & rep & E & H0) Hrest]; subst.
    simpl. rewrite E.
    destruct (sub_literal_head (re_fix (fst f)) c0 rep c s H0 Hc) as (c1 & s1 & E1 & H1).
    rewrite E1. apply IH; assumption.
Qed.

Lemma clean_text_head : forall t c s,
  clean_text t = String c s -> Chr.space c = false.
Proof.
  intros t c s H. unfold clean_text in H.
  destruct (Py.falsy t); [discriminate|]. exact (strip_head _ c s H).
Qed.

Lemma rule_text_head : forall t c s,
  rule_text t = String c s -> Chr.space c = false.
Proof.
  intros t c s H. unfold rule_text, fix_glued_domain_terms in H.
  destruct (clean_text t) as [|d u] eqn:E; [discriminate|].
  simpl Py.falsy in H. cbv iota in H.
  pose proof (clean_text_head t d u E) as Hd.
  destruct (fold_fixes_head fixes fixes_heads d u Hd) as (c' & s' & E' & Hc').
  rewrite E' in H. injection H as H _. subst c'. exact Hc'.
Qed.

(** ** Paragraph splitting in [push_text]: the number of parts *)

Lemma push_parts : forall (bx : list Q) parts st,
  fold_left
    (fun acc part =>
       let part := Py.strip part in
       if Py.falsy part then acc else append_item acc (paragraph acc part bx))
    parts st
  = MkAsm (current_section st) (current_sub st)
      (items st
       ++ map (fun p => paragraph st p bx)
            (filter (fun p => negb (Py.falsy p)) (map Py.strip parts))).
Proof.
  intros bx. induction parts as [|p parts IH]; intros st; simpl.
  - rewrite app_nil_r. destruct st; reflexivity.
  - destruct (Py.falsy (Py.strip p)); simpl; [apply IH|].
    rewrite IH. simpl. rewrite <- app_assoc. reflexivity.
Qed.

Lemma nonblank_parts_kept : forall l,
  forallb nonblank l = true ->
  List.length (filter (fun p => negb (Py.falsy p)) (map Py.strip l)) = List.length l.
Proof.
  induction l as [|p l IH]; intros H; [reflexivity|].
  simpl in *. apply andb_true_iff in H. destruct H as [Hp Hl].
  unfold nonblank in Hp. rewrite Hp. simpl. rewrite (IH Hl). reflexivity.
Qed.

Lemma sentence_parts_count : forall txt,
  next_is (fun c => negb (Chr.space c)) txt = true ->
  List.length (filter (fun p => negb (Py.falsy p))
                 (map Py.strip (split re_sentence_gap txt)))
  = S (sentence_gaps txt).
Proof.
  intros txt Hhead. unfold split, sentence_gaps.
  destruct (split_sentence_gaps (String.length txt) txt None (le_n _))
    as (p0 & ps & E & Hl & Hnb & Hp0).
  rewrite E, nonblank_parts_kept; [simpl; rewrite Hl; reflexivity|].
  simpl. rewrite (Hp0 Hhead), Hnb. reflexivity.
Qed.

(** ** Where a match ends, and what a leading repetition captures *)

(** A successful repetition hands its continuation a position at least
    [lo] characters on. *)
Lemma rep_result : forall (R : Type) p (k : mstate -> option R) s lo hi pv n cs x,
  rep p lo hi pv n s cs k = Some x ->
  exists j pv', lo <= j /\ k (MState pv' (n + j) (drop j s) cs) = Some x.
Proof.
  intros R p k. induction s as [|c s IH]; intros lo hi pv n cs x H.
  - simpl in H. destruct (Nat.eqb_spec lo 0); [|discriminate].
    exists 0, pv. rewrite Nat.add_0_r. split; [lia|exact H].
  - simpl in H.
    assert (Hstop : (if lo =? 0 then k (MState pv n (String c s) cs) else None) = Some x ->
                    exists j pv', lo <= j
                      /\ k (MState pv' (n + j) (drop j (String c s)) cs) = Some x).
    { intros Hs. destruct (Nat.eqb_spec lo 0); [|discriminate].
      exists 0, pv. rewrite Nat.add_0_r. split; [lia|exact Hs]. }
    destruct (p c && negb match hi with Some 0 => true | _ => false end);
      [|exact (Hstop H)].
    destruct (rep p (Nat.pred lo) (option_map Nat.pred hi) (Some c) (S n) s cs k)
      as [y|] eqn:E; [|exact (Hstop H)].
    injection H as H. subst y.
    destruct (IH _ _ _ _ _ _ E) as (j & pv' & Hj & Hk).
    exists (S j), pv'. split; [lia|].
    rewrite Nat.add_succ_r. exact Hk.
Qed.

(** Every result of the matcher is a result of its continuation, at a
    position not before the start. *)
Lemma rmatch_result : forall (R : Type) r st (k : mstate -> option R) x,
  rmatch r st k = Some x ->
  exists st', k st' = Some x /\ pos st <= pos st'.
Proof.
  intros R. induction r as [|p|p lo hi|a IHa b IHb|a IHa b IHb|a IHa|n a IHa| | | |p|p];
    intros st k x H; simpl in H.
  - exists st. split; [exact H|lia].
  - destruct (rest st) as [|c s]; [discriminate|].
    destruct (p c); [|discriminate]. eexists. split; [exact H|simpl; lia].
  - destruct (rep_result _ _ _ _ _ _ _ _ _ _ H) as (j & pv' & _ & Hk).
    eexists. split; [exact Hk|simpl; lia].
  - destruct (IHa _ _ _ H) as (st1 & H1 & L1).
    destruct (IHb _ _ _ H1) as (st2 & H2 & L2).
    exists st2. split; [exact H2|lia].
  - destruct (rmatch a st k) as [y|] eqn:E.
    + injection H as H. subst y. exact (IHa _ _ _ E).
    + exact (IHb _ _ _ H).
  - destruct (rmatch a st k) as [y|] eqn:E.
    + injection H as H. subst y. exact (IHa _ _ _ E).
    + exists st. split; [exact H|lia].
  - destruct (IHa _ _ _ H) as (st1 & H1 & L1).
    eexists. split; [exact H1|simpl; exact L1].
  - destruct (prev st); [discriminate|]. exists st. split; [exact H|lia].
  - destruct (at_eol (rest st)); [|discriminate]. exists st. split; [exact H|lia].
  - destruct (xorb (word_before st) (word_after st)); [|discriminate].
    exists st. split; [exact H|lia].
  - destruct (prev st) as [c|]; [|discriminate].
    destruct (p c); [|discriminate]. exists st. split; [exact H|lia].
  - destruct (rest st) as [|c s]; [discriminate|].
    destruct (p c); [|discriminate]. exists st. split; [exact H|lia].
Qed.

(** What follows a prefix of a sequence matched somewhere. *)
Lemma rmatch_seq_tail : forall (R : Type) a b st (k : mstate -> option R) x,
  rmatch (Seq a b) st k = Some x -> exists st1, rmatch b st1 k = Some x.
Proof.
  intros R a b st k x H. simpl in H.
  destruct (rmatch_result _ _ _ _ _ H) as (st1 & H1 & _). exists st1. exact H1.
Qed.

(** A group that begins with a repetition of at least one character
    captures a non-empty text. *)
Lemma group_capture_nonempty : forall n p b st x,
  rmatch (Grp n (Seq (Rep p 1 None) b)) st (fun st' => Some (pos st', caps st')) = Some x ->
  exists v rest_caps, snd x = (n, v) :: rest_caps /\ Py.falsy v = false.
Proof.
  intros n p b st x H. simpl in H.
  destruct (rep_result _ _ _ _ _ _ _ _ _ _ H) as (j & pv' & Hj & Hk).
  destruct (rmatch_result _ _ _ _ _ Hk) as (st' & Hx & Hpos).
  injection Hx as Hx. subst x. simpl in *.
  eexists _, _. split; [reflexivity|].
  destruct (rest st) as [|c s] eqn:Er.
  - destruct j; [lia|]. simpl in H. discriminate.
  - replace (pos st' - pos st) with (S (pos st' - pos st - 1)) by lia.
    reflexivity.
Qed.

Lemma search_from_caps : forall r s pv i mo,
  search_from r pv i s = Some mo ->
  exists pv' s' n, match_here r pv' s' = Some (n, m_caps mo).
Proof.
  intros r. induction s as [|c s IH]; intros pv i mo H; simpl in H.
  - destruct (match_here r pv EmptyString) as [[n cs]|] eqn:E; [|discriminate].
    injection H as H. subst mo. exists pv, EmptyString, n. exact E.
  - destruct (match_here r pv (String c s)) as [[n cs]|] eqn:E.
    + injection H as H. subst mo. exists pv, (String c s), n. exact E.
    + exact (IH _ _ _ H).
Qed.

(** The date captured after "Date of Allotment" is never empty. *)
Lemma date_of_allotment_capture : forall text mo,
  search re_date_of_allotment text = Some mo -> Py.falsy (group 1 mo) = false.
Proof.
  intros text mo H. unfold search in H.
  destruct (search_from_caps _ _ _ _ _ H) as (pv & s & n & Hm).
  unfold match_here, re_date_of_allotment in Hm.
  cbv beta iota delta [seq] in Hm.
  apply rmatch_seq_tail in Hm. destruct Hm as [st1 Hm].
  apply rmatch_seq_tail in Hm. destruct Hm as [st2 Hm].
  apply rmatch_seq_tail in Hm. destruct Hm as [st3 Hm].
  apply rmatch_seq_tail in Hm. destruct Hm as [st4 Hm].
  unfold plus in Hm.
  destruct (group_capture_nonempty _ _ _ _ _ Hm) as (v & cs & E & Hv).
  simpl in E. unfold group. rewrite E. simpl. exact Hv.
Qed.

(** ** The values the name rule and the date rule assign *)

Lemma space_upper_char : forall c,
  Chr.space c = true -> Py.upper_char c = String c EmptyString.
Proof. by_chars. Qed.

Lemma space_not_F : forall c, Chr.space c = true -> c <> "F"%char.
Proof. by_chars. Qed.

Lemma prefix_head : forall a p c u,
  String.prefix (String a p) (String c u) = true -> a = c.
Proof.
  intros a p c u H. simpl in H. destruct (ascii_dec a c); [assumption|discriminate].
Qed.

Lemma contains_cons : forall p c u,
  Py.contains p (String c u) = String.prefix p (String c u) || Py.contains p u.
Proof. reflexivity. Qed.

Lemma all_space_no_fund : forall t,
  all_chars Chr.space t = true -> Py.contains "FUND" (Py.upper t) = false.
Proof.
  induction t as [|c s IH]; intros H; [reflexivity|].
  simpl in H. apply andb_true_iff in H. destruct H as [Hc Hs].
  change (Py.upper (String c s)) with (Py.upper_char c ++ Py.upper s)%string.
  rewrite (space_upper_char c Hc).
  change (String c "" ++ Py.upper s)%string with (String c (Py.upper s)).
  rewrite contains_cons, (IH Hs), orb_false_r.
  destruct (String.prefix "FUND" (String c (Py.upper s))) eqn:E; [|reflexivity].
  exfalso. exact (space_not_F c Hc (eq_sym (prefix_head _ _ _ _ E))).
Qed.

Lemma all_chars_cons : forall p c s,
  all_chars p (String c s) = p c && all_chars p s.
Proof. reflexivity. Qed.

Lemma gap_from_all_space : forall p q s x,
  all_chars Chr.space (gap_from p q x s) = true -> all_chars Chr.space s = true.
Proof.
  intros p q. induction s as [|y s IH]; intros x H; [reflexivity|].
  simpl gap_from in H. rewrite all_chars_cons.
  destruct (p x && q y); rewrite !all_chars_cons in H.
  - apply andb_true_iff in H. destruct H as [_ H].
    apply andb_true_iff in H. destruct H as [Hy H]. rewrite Hy, (IH y H). reflexivity.
  - apply andb_true_iff in H. destruct H as [Hy H]. rewrite Hy, (IH y H). reflexivity.
Qed.

Lemma gap_all_space : forall p q s,
  all_chars Chr.space (gap p q s) = true -> all_chars Chr.space s = true.
Proof.
  intros p q [|x s] H; [reflexivity|]. simpl gap in H.
  rewrite all_chars_cons in *.
  apply andb_true_iff in H. destruct H as [Hx H].
  rewrite Hx, (gap_from_all_space p q s x H). reflexivity.
Qed.

Lemma split_head : forall s,
  all_chars Chr.space s = false ->
  exists c w ws, Py.split s = String c w :: ws /\ Chr.space c = false.
Proof.
  induction s as [|c s IH]; intros H; [discriminate|].
  simpl in H. simpl Py.split. destruct (Chr.space c) eqn:Ec.
  - simpl in H. exact (IH H).
  - destruct s as [|d s']; [eexists _, _, _; split; [reflexivity|exact Ec]|].
    destruct (Chr.space d); [eexists _, _, _; split; [reflexivity|exact Ec]|].
    destruct (Py.split (String d s')); eexists _, _, _; split;
      try reflexivity; exact Ec.
Qed.

Lemma join_head : forall sep c w ws,
  exists r, Py.join sep (String c w :: ws) = String c r.
Proof.
  intros sep c w ws. unfold Py.join. simpl.
  destruct ws; eexists; reflexivity.
Qed.

Lemma deglue_nonempty : forall text,
  all_chars Chr.space text = false -> Py.falsy (Py.strip (deglue text)) = false.
Proof.
  intros text H. unfold deglue, sub, re_lower_upper.
  rewrite (proj1 (sub_pair_gap _ _ upper_not_lower text None)).
  destruct (split_head (gap Chr.lower_az Chr.upper_az text)) as (c & w & ws & E & Hc).
  { destruct (all_chars Chr.space (gap Chr.lower_az Chr.upper_az text)) eqn:G;
      [|reflexivity].
    rewrite (gap_all_space _ _ _ G) in H. discriminate. }
  rewrite E. destruct (join_head " " c w ws) as [r Er]. rewrite Er.
  pose proof (nonblank_cons c r Hc) as N. unfold nonblank in N.
  apply negb_true_iff in N. exact N.
Qed.

Lemma name_rule_value : forall m text,
  name_rule_fires m text = true -> Py.falsy (Py.strip (deglue text)) = false.
Proof.
  intros m text H. apply deglue_nonempty.
  destruct (all_chars Chr.space text) eqn:E; [|reflexivity].
  unfold name_rule_fires in H. rewrite (all_space_no_fund text E) in H.
  rewrite andb_false_r in H. discriminate.
Qed.

Lemma field_rules_date_value : forall text m,
  none_or_true (date_of_allotment m) ->
  none_or_true (date_of_allotment (field_rules text m)).
Proof.
  intros text m H. unfold field_rules.
  do 6 (first [ rewrite (rule_str_keeps _ date_of_allotment)
              | rewrite (rule_num_keeps _ date_of_allotment) ];
        [|intros; reflexivity]).
  unfold rule_str. destruct (unset_str (date_of_allotment m)) eqn:E.
  - destruct (search re_date_of_allotment text) as [mo|] eqn:S; [|exact H].
    right. simpl. apply (date_of_allotment_capture text mo S).
  - right. exact E.
Qed.

(** Between items [name] and [date_of_allotment] are unassigned or hold a
    non-empty string. *)
Lemma scan_item_none_or_true : forall st c,
  none_or_true (name (st_meta st)) /\ none_or_true (date_of_allotment (st_meta st)) ->
  none_or_true (name (st_meta (scan_item st c)))
  /\ none_or_true (date_of_allotment (st_meta (scan_item st c))).
Proof.
  intros st c [Hn Hd].
  destruct (scan_item_kind st c) as [E|text F E|text F E|text E]; rewrite E.
  - split; assumption.
  - split; [|exact Hd]. right. simpl. exact (name_rule_value _ _ F).
  - split; assumption.
  - destruct (manager_rules_meta text (with_meta (field_rules text (st_meta st)) st))
      as [l El]. rewrite El. simpl. split.
    + rewrite field_rules_name. exact Hn.
    + apply field_rules_date_value, Hd.
Qed.

Lemma scan_items_none_or_true : forall l st,
  none_or_true (name (st_meta st)) /\ none_or_true (date_of_allotment (st_meta st)) ->
  none_or_true (name (st_meta (scan_items l st)))
  /\ none_or_true (date_of_allotment (st_meta (scan_items l st))).
Proof.
  induction l as [|c l IH]; intros st H; [exact H|].
  change (scan_items (c :: l) st) with (scan_items l (scan_item st c)).
  apply IH, scan_item_none_or_true, H.
Qed.

(** ** C4: first match wins, for true values *)

(** C4, amended: for every content stream, [name] and [date_of_allotment]
    are assigned at most once (what they hold after a prefix of the stream
    they hold at the end), [doc_date] is the value found in the cover text
    and no item assigns it, and each other scalar field, once it holds a
    true value (a non-empty string, a number that is not 0.0), is not
    assigned again.  (A field holding "" or 0.0 counts as unset for its
    guard [not meta.get(k)], and a later match assigns it again.) *)
Theorem first_true_match_wins :
  forall (cover_text : string) (earlier later : list ContentItem),
  let m := st_meta (scan_items earlier (initial_scan cover_text)) in
  let m' := st_meta (scan_items (earlier ++ later) (initial_scan cover_text)) in
  (name m <> None -> name m' = name m)
  /\ (date_of_allotment m <> None -> date_of_allotment m' = date_of_allotment m)
  /\ doc_date m = doc_date (initial_meta cover_text)
  /\ doc_date m' = doc_date (initial_meta cover_text)
  /\ (unset_str (category m) = false -> category m' = category m)
  /\ (unset_num (aum_crore m) = false -> aum_crore m' = aum_crore m)
  /\ (unset_num (monthly_avg_aum m) = false -> monthly_avg_aum m' = monthly_avg_aum m)
  /\ (unset_num (expense_ratio_regular m) = false ->
      expense_ratio_regular m' = expense_ratio_regular m)
  /\ (unset_num (expense_ratio_direct m) = false ->
      expense_ratio_direct m' = expense_ratio_direct m)
  /\ (unset_str (benchmark m) = false -> benchmark m' = benchmark m)
  /\ (unset_str (additional_benchmark m) = false ->
      additional_benchmark m' = additional_benchmark m).
Proof.
  intros cover earlier later m m'. subst m m'. rewrite scan_items_app.
  set (st := scan_items earlier (initial_scan cover)).
  destruct (true_values_stay st later)
    as (Hname & Hcat & Haum & Hmon & Hreg & Hdir & Hben & Hadd & Hdate & Hdoc).
  destruct (true_values_stay (initial_scan cover) earlier)
    as (_ & _ & _ & _ & _ & _ & _ & _ & _ & Hdoc0).
  destruct (scan_items_none_or_true earlier (initial_scan cover)) as [Nname Ndate].
  { split; left; reflexivity. }
  fold st in Nname, Ndate, Hdoc0.
  split; [intros Hset; apply Hname; destruct Nname as [N|N]; [contradiction|exact N]|].
  split; [intros Hset; apply Hdate; destruct Ndate as [N|N]; [contradiction|exact N]|].
  split; [exact Hdoc0|]. split; [rewrite Hdoc; exact Hdoc0|].
  repeat split; assumption.
Qed.

Lemma first_true_match_witness :
  let cover := "Factsheet as on June 2024" in
  let earlier := [heading_item "ABC Bluechip Fund" zero_box;
                  paragraph_item "Net AUM : 12,345.67 crore" zero_box] in
  let later := [paragraph_item "XYZ Other Fund" zero_box;
                paragraph_item "Net AUM : 5 crore" zero_box] in
  let m := st_meta (scan_items earlier (initial_scan cover)) in
  let m' := st_meta (scan_items (earlier ++ later) (initial_scan cover)) in
  name m = Some "ABC Bluechip Fund"
  /\ name m' = name m
  /\ aum_crore m = Some (1234567 # 100)%Q
  /\ aum_crore m' = aum_crore m
  /\ doc_date m' = Some "June 2024".
Proof.
  intros cover earlier later m m'.
  destruct (first_true_match_wins cover earlier later)
    as (Hname & _ & _ & Hdoc & _ & Haum & _).
  fold m m' in Hname, Haum, Hdoc.
  split; [vm_compute; reflexivity|].
  split; [apply Hname; vm_compute; discriminate|].
  split; [vm_compute; reflexivity|].
  split; [apply Haum; vm_compute; reflexivity|].
  rewrite Hdoc. vm_compute. reflexivity.
Defined.

(** * Further properties of the text helpers *)

(** ** [clean_text] on every text *)

Lemma clean_text_after_rejoin : forall t,
  clean_text t
  = if Py.falsy t then ""
    else Py.strip
           (gap Chr.digit Chr.alpha_az
              (gap Chr.alpha_az Chr.digit
                 (gap Chr.lower_az Chr.upper_az (collapse (rejoined t))))).
Proof.
  intros t. unfold clean_text, rejoined.
  destruct (Py.falsy t); [reflexivity|].
  unfold sub. rewrite sub_class_to_space.
  rewrite (proj1 (sub_spaces_collapse _ None)).
  unfold re_lower_upper, re_alpha_digit, re_digit_alpha.
  rewrite (proj1 (sub_pair_gap _ _ upper_not_lower _ None)).
  rewrite (proj1 (sub_pair_gap _ _ digit_not_alpha _ None)).
  rewrite (proj1 (sub_pair_gap _ _ alpha_not_digit _ None)).
  reflexivity.
Qed.

(** X1: whatever the input, the text [clean_text] returns has no
    whitespace other than single spaces between other characters (none at
    either end, no two in a row), and no lower-case letter directly before
    an upper-case one, no letter directly before a digit, no digit directly
    before a letter. *)
Theorem clean_text_output_is_spaced : forall t : string,
  let r := clean_text t in
  all_chars ws_is_sp r = true
  /\ adj (pair_of Chr.space Chr.space) r = false
  /\ Py.strip r = r
  /\ adj (pair_of Chr.lower_az Chr.upper_az) r = false
  /\ adj (pair_of Chr.alpha_az Chr.digit) r = false
  /\ adj (pair_of Chr.digit Chr.alpha_az) r = false.
Proof.
  intros t r. subst r. rewrite clean_text_after_rejoin.
  destruct (Py.falsy t); [repeat split; reflexivity|].
  set (s2 := collapse (rejoined t)).
  assert (A2 : all_chars ws_is_sp s2 = true) by apply collapse_go_all.
  assert (W2 : adj (pair_of Chr.space Chr.space) s2 = false) by apply collapse_no_double.
  set (s3 := gap Chr.lower_az Chr.upper_az s2).
  assert (A3 : all_chars ws_is_sp s3 = true) by (apply gap_all; [reflexivity|exact A2]).
  assert (W3 : adj (pair_of Chr.space Chr.space) s3 = false)
    by (apply gap_keeps; [gap_side|gap_side|exact W2]).
  assert (L3 : adj (pair_of Chr.lower_az Chr.upper_az) s3 = false)
    by (apply gap_kills; reflexivity).
  set (s4 := gap Chr.alpha_az Chr.digit s3).
  assert (A4 : all_chars ws_is_sp s4 = true) by (apply gap_all; [reflexivity|exact A3]).
  assert (W4 : adj (pair_of Chr.space Chr.space) s4 = false)
    by (apply gap_keeps; [gap_side|gap_side|exact W3]).
  assert (L4 : adj (pair_of Chr.lower_az Chr.upper_az) s4 = false)
    by (apply gap_keeps; [gap_side|gap_side|exact L3]).
  assert (D4 : adj (pair_of Chr.alpha_az Chr.digit) s4 = false)
    by (apply gap_kills; reflexivity).
  set (s5 := gap Chr.digit Chr.alpha_az s4).
  assert (A5 : all_chars ws_is_sp s5 = true) by (apply gap_all; [reflexivity|exact A4]).
  assert (W5 : adj (pair_of Chr.space Chr.space) s5 = false)
    by (apply gap_keeps; [gap_side|gap_side|exact W4]).
  assert (L5 : adj (pair_of Chr.lower_az Chr.upper_az) s5 = false)
    by (apply gap_keeps; [gap_side|gap_side|exact L4]).
  assert (D5 : adj (pair_of Chr.alpha_az Chr.digit) s5 = false)
    by (apply gap_keeps; [gap_side|gap_side|exact D4]).
  assert (E5 : adj (pair_of Chr.digit Chr.alpha_az) s5 = false)
    by (apply gap_kills; reflexivity).
  split; [apply strip_all, A5|]. split; [apply strip_adj, W5|].
  split; [apply strip_idem|]. split; [apply strip_adj, L5|].
  split; [apply strip_adj, D5|]. apply strip_adj, E5.
Qed.

Lemma space_not_word : forall c, Chr.space c = true -> Chr.word c = false.
Proof. by_chars. Qed.





Lemma filter_chars_cons : forall p c s,
  Py.filter_chars p (String c s)
  = if p c then String c (Py.filter_chars p s) else Py.filter_chars p s.
Proof. reflexivity. Qed.









Lemma drop_next : forall k s c s',
  drop k s = String c s' -> drop (S k) s = s' /\ S k <= String.length s.
Proof.
  induction k as [|k IH]; intros s c s' H.
  - destruct s; simpl in H; [discriminate|]. injection H as _ H. subst.
    simpl. split; [destruct s'; reflexivity|lia].
  - destruct s as [|d s]; [discriminate|]. simpl in H.
    destruct (IH s c s' H) as [H1 H2]. split; [exact H1|simpl; lia].
Qed.

Lemma sub_go_drop : forall r t k s pv,
  k <= String.length s ->
  sub_go r t k pv s = sub_go r t 0 (prev_after k pv s) (drop k s).
Proof.
  intros r t. induction k as [|k IH]; intros s pv H.
  - destruct s; reflexivity.
  - destruct s as [|c s]; [simpl in H; lia|].
    rewrite sub_go_skip. simpl in H. simpl. apply IH. lia.
Qed.

(** What a match of the hyphen-break pattern looks like: a word character,
    a hyphen, a run of whitespace, a word character. *)
Lemma match_here_hyphen_shape : forall pv s n cs,
  match_here re_hyphen_break pv s = Some (n, cs) ->
  exists x h s2 c s',
    s = String x (String h s2)
    /\ Ascii.eqb HYPHEN h = true
    /\ drop (run Chr.space s2) s2 = String c s'
    /\ n = S (2 + run Chr.space s2)
    /\ cs = [(2, String c EmptyString); (1, String x EmptyString)].
Proof.
  intros pv [|x [|h s2]] n cs H; unfold match_here, re_hyphen_break, chr, plus in H;
    cbn -[Ascii.eqb Chr.word Chr.space HYPHEN] in H; try discriminate.
  - destruct (Chr.word x); discriminate.
  - destruct (Chr.word x); [|discriminate].
    destruct (Ascii.eqb HYPHEN h) eqn:Eh; [|discriminate].
    rewrite rep_needs_run in H.
    + destruct (1 <=? run Chr.space s2); [|discriminate].
      cbn -[Ascii.eqb Chr.word Chr.space HYPHEN run drop] in H.
      destruct (drop (run Chr.space s2) s2) as [|c s'] eqn:Ed; [discriminate|].
      destruct (Chr.word c); [|discriminate].
      injection H as Hn Hcs. exists x, h, s2, c, s'.
      split; [reflexivity|]. split; [exact Eh|]. split; [exact Ed|].
      split; [symmetry; exact Hn|].
      rewrite <- Hcs.
      assert (H1 : match run Chr.space s2 with
                   | 0 => S (run Chr.space s2)
                   | S l => run Chr.space s2 - l
                   end = 1) by (destruct (run Chr.space s2); lia).
      rewrite H1, substring_0_0. reflexivity.
    + intros pv' n' [|c r] cs' Hn; [discriminate|].
      cbn -[Chr.word Chr.space]. simpl in Hn.
      rewrite (space_not_word c Hn). reflexivity.
Qed.



(** ** What [is_noise] accepts *)

Lemma sub_class_removed : forall p s pv,
  sub_go (Cls p) [TLit ""] 0 pv s = Py.filter_chars (fun c => negb (p c)) s.
Proof.
  intros p. induction s as [|c s IH]; intros pv; [reflexivity|].
  rewrite sub_go_cons, match_here_cls, filter_chars_cons.
  destruct (p c); simpl; rewrite IH; reflexivity.
Qed.

Lemma filter_chars_ext : forall p q,
  (forall c, p c = q c) -> forall s, Py.filter_chars p s = Py.filter_chars q s.
Proof.
  intros p q H. induction s as [|c s IH]; [reflexivity|].
  rewrite !filter_chars_cons, H, IH. reflexivity.
Qed.

Lemma noise_compact_letters : forall t,
  Py.lower (sub (Cls (fun c => negb (Chr.alpha_az c))) [TLit ""] t) = letters t.
Proof.
  intros t. unfold sub, letters. rewrite sub_class_removed.
  f_equal. apply filter_chars_ext. intros c. apply negb_involutive.
Qed.

Lemma append_assoc' : forall a b c : string, ((a ++ b) ++ c = a ++ (b ++ c))%string.
Proof. induction a as [|x a IH]; intros; simpl; [|rewrite IH]; reflexivity. Qed.

Lemma all_chars_app : forall p a b,
  all_chars p (a ++ b) = all_chars p a && all_chars p b.
Proof.
  intros p. induction a as [|x a IH]; intros b; [reflexivity|].
  simpl. rewrite IH. apply andb_assoc.
Qed.

Lemma run_split : forall p j s,
  j <= run p s -> exists u, s = (u ++ drop j s)%string /\ all_chars p u = true.
Proof.
  intros p. induction j as [|j IH]; intros s H.
  - exists EmptyString. split; [destruct s; reflexivity|reflexivity].
  - destruct s as [|c s]; [simpl in H; lia|]. simpl in H.
    destruct (p c) eqn:Ec; [|lia].
    destruct (IH s ltac:(lia)) as (u & Hu & Ha).
    exists (String c u). simpl. rewrite <- Hu, Ec, Ha. split; reflexivity.
Qed.

Lemma run_app : forall p u r,
  all_chars p u = true ->
  String.length u <= run p (u ++ r) /\ drop (String.length u) (u ++ r) = r.
Proof.
  intros p. induction u as [|c u IH]; intros r H.
  - simpl. split; [lia|destruct r; reflexivity].
  - simpl in H. apply andb_true_iff in H. destruct H as [Hc Hu].
    simpl. rewrite Hc. destruct (IH r Hu) as [H1 H2]. split; [lia|exact H2].
Qed.

(** A repetition that succeeds took some characters of the run before it. *)
Lemma rep_result_run : forall (R : Type) p (k : mstate -> option R) s lo pv n cs x,
  rep p lo None pv n s cs k = Some x ->
  exists j, lo <= j /\ j <= run p s
    /\ k (MState (prev_after j pv s) (n + j) (drop j s) cs) = Some x.
Proof.
  intros R p k. induction s as [|c s IH]; intros lo pv n cs x H.
  - simpl in H. destruct (Nat.eqb_spec lo 0); [|discriminate].
    exists 0. rewrite Nat.add_0_r. simpl. repeat split; [lia|lia|exact H].
  - simpl in H.
    assert (Hstop : (if lo =? 0 then k (MState pv n (String c s) cs) else None) = Some x ->
                    exists j, lo <= j /\ j <= run p (String c s)
                      /\ k (MState (prev_after j pv (String c s)) (n + j)
                              (drop j (String c s)) cs) = Some x).
    { intros Hs. destruct (Nat.eqb_spec lo 0); [|discriminate].
      exists 0. rewrite Nat.add_0_r. simpl. repeat split; [lia|lia|exact Hs]. }
    destruct (p c) eqn:Ec; simpl in H; [|exact (Hstop H)].
    destruct (rep p (Nat.pred lo) None (Some c) (S n) s cs k) as [y|] eqn:E;
      [|exact (Hstop H)].
    injection H as H. subst y.
    destruct (IH _ _ _ _ _ E) as (j & Hj & Hr & Hk).
    exists (S j). simpl. rewrite Ec.
    replace (n + S j) with (S n + j) by lia.
    repeat split; [lia|lia|exact Hk].
Qed.

(** A repetition succeeds as soon as one admissible count lets the rest
    of the pattern succeed. *)
Lemma rep_some : forall (R : Type) p (k : mstate -> option R) s j lo pv n cs,
  lo <= j -> j <= run p s ->
  k (MState (prev_after j pv s) (n + j) (drop j s) cs) <> None ->
  rep p lo None pv n s cs k <> None.
Proof.
  intros R p k. induction s as [|c s IH]; intros j lo pv n cs Hlo Hr Hk.
  - simpl in Hr. assert (j = 0) by lia. subst j. assert (lo = 0) by lia. subst lo.
    simpl. simpl in Hk. rewrite Nat.add_0_r in Hk. exact Hk.
  - simpl. destruct j as [|j].
    + assert (lo = 0) by lia. subst lo. simpl in Hk. rewrite Nat.add_0_r in Hk.
      simpl. destruct (p c); simpl; [|exact Hk].
      destruct (rep p 0 None (Some c) (S n) s cs k); [discriminate|exact Hk].
    + simpl in Hr. destruct (p c) eqn:Ec; [|lia]. simpl.
      assert (H : rep p (Nat.pred lo) None (Some c) (S n) s cs k <> None).
      { apply (IH j); [lia|lia|]. simpl in Hk.
        replace (S n + j) with (n + S j) by lia. exact Hk. }
      destruct (rep p (Nat.pred lo) None (Some c) (S n) s cs k); [discriminate|].
      contradiction.
Qed.

Lemma eq_icase_page : forall w,
  eq_icase "Page" w = true <->
  exists c1 c2 c3 c4,
    w = String c1 (String c2 (String c3 (String c4 EmptyString)))
    /\ Chr.eqb_icase "P" c1 = true /\ Chr.eqb_icase "a" c2 = true
    /\ Chr.eqb_icase "g" c3 = true /\ Chr.eqb_icase "e" c4 = true.
Proof.
  intros w. split.
  - intros H. destruct w as [|c1 [|c2 [|c3 [|c4 [|c5 w]]]]];
      cbn -[Chr.eqb_icase] in H; try discriminate;
      try (rewrite ?andb_false_r in H; discriminate).
    rewrite andb_true_r in H.
    apply andb_true_iff in H. destruct H as [H1 H].
    apply andb_true_iff in H. destruct H as [H2 H].
    apply andb_true_iff in H. destruct H as [H3 H4].
    exists c1, c2, c3, c4. repeat split; assumption.
  - intros (c1 & c2 & c3 & c4 & Hw & H1 & H2 & H3 & H4). subst w.
    cbn -[Chr.eqb_icase]. rewrite H1, H2, H3, H4. reflexivity.
Qed.

Lemma digit_not_space : forall c, Chr.digit c = true -> Chr.space c = false.
Proof. by_chars. Qed.

Lemma space_not_digit : forall c, Chr.space c = true -> Chr.digit c = false.
Proof. by_chars. Qed.

Lemma space_not_P : forall c, Chr.space c = true -> Chr.eqb_icase "P" c = false.
Proof. by_chars. Qed.

Lemma newline_is_space : forall c, Ascii.eqb c "010" = true -> Chr.space c = true.
Proof. by_chars. Qed.

Lemma at_eol_spaces : forall s, at_eol s = true -> all_chars Chr.space s = true.
Proof.
  intros [|c [|d s]] H; simpl in H; try discriminate; [reflexivity|].
  simpl. rewrite (newline_is_space c H). reflexivity.
Qed.

(** [Page\s*\d+] at one position. *)
Lemma page_num_here : forall pv s,
  match_here re_page_num pv s <> None <->
  exists w sp d b,
    s = (w ++ sp ++ String d b)%string
    /\ eq_icase "Page" w = true
    /\ all_chars Chr.space sp = true
    /\ Chr.digit d = true.
Proof.
  intros pv s. split.
  - intros H.
    destruct (match_here re_page_num pv s) as [x|] eqn:E; [clear H|contradiction].
    unfold match_here, re_page_num, star, plus in E.
    destruct s as [|c1 [|c2 [|c3 [|c4 s4]]]];
      cbn -[Chr.eqb_icase Chr.space Chr.digit] in E; try discriminate;
      repeat match type of E with
             | (if ?b then _ else _) = _ => destruct b eqn:?; try discriminate
             end.
    apply rep_result_run in E. destruct E as (j & _ & Hj & E).
    cbn -[Chr.eqb_icase Chr.space Chr.digit drop prev_after] in E.
    apply rep_result_run in E. destruct E as (j' & Hj1 & Hj' & _).
    destruct (run_split _ _ _ Hj) as (sp & Hsp & Hall).
    destruct (drop j s4) as [|d b]; [simpl in Hj'; lia|].
    simpl in Hj'. destruct (Chr.digit d) eqn:Ed; [|lia].
    exists (String c1 (String c2 (String c3 (String c4 EmptyString)))), sp, d, b.
    split; [simpl; rewrite <- Hsp; reflexivity|].
    split; [apply eq_icase_page; eexists _, _, _, _; repeat split; eassumption|].
    split; assumption.
  - intros (w & sp & d & b & Hs & Hw & Hsp & Hd).
    apply eq_icase_page in Hw.
    destruct Hw as (c1 & c2 & c3 & c4 & Hw & H1 & H2 & H3 & H4). subst w s.
    unfold match_here, re_page_num, star, plus.
    cbn -[Chr.eqb_icase Chr.space Chr.digit].
    rewrite H1, H2, H3, H4.
    destruct (run_app Chr.space sp (String d b) Hsp) as [Hr Hdrop].
    apply (rep_some _ _ _ _ (String.length sp)); [lia|exact Hr|].
    rewrite Hdrop.
    cbn -[Chr.eqb_icase Chr.space Chr.digit prev_after rep].
    apply (rep_some _ _ _ _ 1); [lia|simpl; rewrite Hd; lia|]. discriminate.
Qed.

(** Reading a successful match backwards, one pattern node at a time, and
    building one forwards. *)
Lemma rmatch_Seq : forall (R : Type) a b st (k : mstate -> option R),
  rmatch (Seq a b) st k = rmatch a st (fun st' => rmatch b st' k).
Proof. reflexivity. Qed.

Lemma rmatch_Bol_start : forall (R : Type) n s cs (k : mstate -> option R),
  rmatch Bol (MState None n s cs) k = k (MState None n s cs).
Proof. reflexivity. Qed.

Lemma rmatch_Cls_some : forall (R : Type) p pv n s cs (k : mstate -> option R) x,
  rmatch (Cls p) (MState pv n s cs) k = Some x ->
  exists c s', s = String c s' /\ p c = true
    /\ k (MState (Some c) (S n) s' cs) = Some x.
Proof.
  intros R p pv n [|c s'] cs k x H; simpl in H; [discriminate|].
  destruct (p c) eqn:E; [|discriminate]. exists c, s'. repeat split; assumption.
Qed.

Lemma rmatch_Cls_ok : forall (R : Type) p pv n c s' cs (k : mstate -> option R),
  p c = true -> k (MState (Some c) (S n) s' cs) <> None ->
  rmatch (Cls p) (MState pv n (String c s') cs) k <> None.
Proof. intros R p pv n c s' cs k Hp Hk. simpl. rewrite Hp. exact Hk. Qed.

Lemma rmatch_Rep_some : forall (R : Type) p lo pv n s cs (k : mstate -> option R) x,
  rmatch (Rep p lo None) (MState pv n s cs) k = Some x ->
  exists j u, lo <= j /\ j <= run p s /\ s = (u ++ drop j s)%string
    /\ all_chars p u = true
    /\ k (MState (prev_after j pv s) (n + j) (drop j s) cs) = Some x.
Proof.
  intros R p lo pv n s cs k x H. simpl in H.
  destruct (rep_result_run _ _ _ _ _ _ _ _ _ H) as (j & H1 & H2 & H3).
  destruct (run_split _ _ _ H2) as (u & Hu & Ha).
  exists j, u. repeat split; assumption.
Qed.

Lemma rmatch_Rep_ok : forall (R : Type) p lo pv n u r cs (k : mstate -> option R),
  all_chars p u = true -> lo <= String.length u ->
  (forall pv' n', k (MState pv' n' r cs) <> None) ->
  rmatch (Rep p lo None) (MState pv n (u ++ r) cs) k <> None.
Proof.
  intros R p lo pv n u r cs k Hu Hlo Hk. simpl.
  destruct (run_app p u r Hu) as [Hr Hd].
  apply (rep_some _ _ _ _ (String.length u)); [exact Hlo|exact Hr|].
  rewrite Hd. apply Hk.
Qed.

Lemma rmatch_Opt_some : forall (R : Type) a st (k : mstate -> option R) x,
  rmatch (Opt a) st k = Some x -> rmatch a st k = Some x \/ k st = Some x.
Proof.
  intros R a st k x H. simpl in H.
  destruct (rmatch a st k) as [y|]; [left|right]; assumption.
Qed.

Lemma rmatch_Opt_ok : forall (R : Type) a st (k : mstate -> option R),
  rmatch a st k <> None -> rmatch (Opt a) st k <> None.
Proof.
  intros R a st k H. simpl. destruct (rmatch a st k); [discriminate|contradiction].
Qed.

(** The end of [re_page_only]: whitespace, digits, whitespace, end of
    text. *)
Lemma page_tail_some : forall (R : Type) pv n s cs (k : mstate -> option R) x,
  rmatch (Seq (star Chr.space) (Seq (plus Chr.digit) (Seq (star Chr.space) Eol)))
    (MState pv n s cs) k = Some x ->
  exists sp3 ds sp4,
    s = (sp3 ++ ds ++ sp4)%string
    /\ all_chars Chr.space sp3 = true
    /\ all_chars Chr.digit ds = true /\ ds <> EmptyString
    /\ all_chars Chr.space sp4 = true.
Proof.
  intros R pv n s cs k x H. unfold star, plus in H.
  rewrite rmatch_Seq in H.
  apply rmatch_Rep_some in H. destruct H as (j3 & sp3 & _ & _ & Hs3 & Ha3 & H).
  cbv beta in H. rewrite rmatch_Seq in H.
  apply rmatch_Rep_some in H. destruct H as (j4 & ds & Hlo & Hr4 & Hs4 & Ha4 & H).
  cbv beta in H. rewrite rmatch_Seq in H.
  apply rmatch_Rep_some in H. destruct H as (j5 & sp4 & _ & _ & Hs5 & Ha5 & H).
  cbv beta in H. simpl in H.
  destruct (at_eol (drop j5 (drop j4 (drop j3 s)))) eqn:Ee; [|discriminate].
  exists sp3, ds, (sp4 ++ drop j5 (drop j4 (drop j3 s)))%string.
  split; [rewrite <- Hs5, <- Hs4; exact Hs3|].
  split; [exact Ha3|]. split; [exact Ha4|].
  split.
  - intros Hds. subst ds. simpl in Hs4. rewrite Hs4 in Hr4.
    assert (Hj : String.length (drop j4 (drop j3 s)) <= String.length (drop j3 s))
      by apply drop_length.
    destruct j4 as [|j4]; [lia|].
    destruct (drop j3 s) as [|c r] eqn:Ed; [simpl in Hr4; lia|].
    simpl in Hs4. pose proof (drop_length j4 r) as Hl.
    rewrite <- Hs4 in Hl. simpl in Hl. lia.
  - rewrite all_chars_app, Ha5. simpl. apply at_eol_spaces. exact Ee.
Qed.

Lemma length_nonempty : forall s, s <> EmptyString -> 1 <= String.length s.
Proof. intros [|c s] H; [contradiction|simpl; lia]. Qed.

Lemma append_nil_r : forall s : string, (s ++ "")%string = s.
Proof. induction s as [|c s IH]; simpl; [|rewrite IH]; reflexivity. Qed.

Lemma page_tail_ok : forall pv n sp3 ds sp4 cs,
  all_chars Chr.space sp3 = true ->
  all_chars Chr.digit ds = true -> ds <> EmptyString ->
  all_chars Chr.space sp4 = true ->
  rmatch (Seq (star Chr.space) (Seq (plus Chr.digit) (Seq (star Chr.space) Eol)))
    (MState pv n (sp3 ++ ds ++ sp4) cs) (fun st => Some (pos st, caps st)) <> None.
Proof.
  intros pv n sp3 ds sp4 cs H3 Hd Hne H4. unfold star, plus.
  rewrite rmatch_Seq. apply rmatch_Rep_ok; [exact H3|lia|]. intros pv1 n1.
  rewrite rmatch_Seq. apply rmatch_Rep_ok; [exact Hd|apply length_nonempty; exact Hne|].
  intros pv2 n2. rewrite rmatch_Seq. rewrite <- (append_nil_r sp4).
  apply rmatch_Rep_ok; [exact H4|lia|]. intros pv3 n3. simpl. discriminate.
Qed.

(** [^\s*Page\s*\|?\s*\d+\s*$] at the start of the text. *)
Lemma page_only_some : forall t x,
  match_here re_page_only None t = Some x ->
  page_bar_number t \/ mentions_page_number t.
Proof.
  intros t x H. unfold match_here, re_page_only, star, plus, chr in H.
  cbn [seq ilit] in H. rewrite rmatch_Seq, rmatch_Bol_start in H.
  rewrite rmatch_Seq in H.
  apply rmatch_Rep_some in H. destruct H as (j1 & sp1 & _ & _ & Hs1 & Ha1 & H).
  cbv beta in H. rewrite ?rmatch_Seq in H.
  apply rmatch_Cls_some in H. destruct H as (c1 & r1 & Hr1 & H1 & H).
  cbv beta in H. rewrite ?rmatch_Seq in H.
  apply rmatch_Cls_some in H. destruct H as (c2 & r2 & Hr2 & H2 & H).
  cbv beta in H. rewrite ?rmatch_Seq in H.
  apply rmatch_Cls_some in H. destruct H as (c3 & r3 & Hr3 & H3 & H).
  cbv beta in H. rewrite ?rmatch_Seq in H.
  apply rmatch_Cls_some in H. destruct H as (c4 & r4 & Hr4 & H4 & H).
  cbv beta in H. rewrite rmatch_Seq in H.
  apply rmatch_Rep_some in H. destruct H as (j2 & sp2 & _ & _ & Hs2 & Ha2 & H).
  cbv beta in H. rewrite rmatch_Seq in H.
  assert (Hw : eq_icase "Page" (String c1 (String c2 (String c3 (String c4 ""))))
               = true).
  { apply eq_icase_page. eexists _, _, _, _. repeat split; assumption. }
  assert (Ht : t = (sp1 ++ String c1 (String c2 (String c3 (String c4 "")))
                      ++ sp2 ++ drop j2 r4)%string).
  { rewrite Hs1 at 1. rewrite Hr1. subst r1 r2 r3. simpl. rewrite <- Hs2.
    reflexivity. }
  apply rmatch_Opt_some in H. destruct H as [H|H].
  - left.
    apply rmatch_Cls_some in H. destruct H as (c & r & Hr & Hc & H). cbv beta in H.
    apply (page_tail_some _ _ _ _ _ _ _) in H.
    destruct H as (sp3 & ds & sp4 & Hs & A3 & Ad & Hne & A4).
    apply Ascii.eqb_eq in Hc. subst c.
    exists sp1, (String c1 (String c2 (String c3 (String c4 "")))), sp2, sp3, ds, sp4.
    split; [rewrite Ht, Hr, Hs; reflexivity|].
    repeat split; assumption.
  - right. apply (page_tail_some _ _ _ _ _ _ _) in H.
    destruct H as (sp3 & ds & sp4 & Hs & A3 & Ad & Hne & A4).
    destruct ds as [|d ds]; [contradiction|].
    simpl in Ad. apply andb_true_iff in Ad. destruct Ad as [Ad _].
    exists sp1, (String c1 (String c2 (String c3 (String c4 "")))),
      (sp2 ++ sp3)%string, d, (ds ++ sp4)%string.
    split; [rewrite Ht, Hs, append_assoc'; reflexivity|].
    split; [exact Hw|]. split; [|exact Ad].
    rewrite all_chars_app, Ha2, A3. reflexivity.
Qed.

Lemma page_only_ok : forall t,
  page_bar_number t -> match_here re_page_only None t <> None.
Proof.
  intros t (sp1 & w & sp2 & sp3 & ds & sp4 & Ht & Hw & A1 & A2 & A3 & Ad & Hne & A4).
  apply eq_icase_page in Hw.
  destruct Hw as (c1 & c2 & c3 & c4 & Hw & H1 & H2 & H3 & H4). subst w t.
  unfold match_here, re_page_only. cbn [seq ilit].
  rewrite rmatch_Seq, rmatch_Bol_start.
  rewrite rmatch_Seq. unfold star at 1.
  apply rmatch_Rep_ok; [exact A1|lia|]. intros pv1 n1.
  simpl String.append. rewrite ?rmatch_Seq.
  apply rmatch_Cls_ok; [exact H1|]. rewrite ?rmatch_Seq.
  apply rmatch_Cls_ok; [exact H2|]. rewrite ?rmatch_Seq.
  apply rmatch_Cls_ok; [exact H3|]. rewrite ?rmatch_Seq.
  apply rmatch_Cls_ok; [exact H4|]. rewrite rmatch_Seq.
  unfold star at 1. apply rmatch_Rep_ok; [exact A2|lia|]. intros pv2 n2.
  rewrite rmatch_Seq.
  apply rmatch_Opt_ok. unfold chr.
  apply rmatch_Cls_ok; [apply Ascii.eqb_refl|].
  apply page_tail_ok; assumption.
Qed.

Lemma search_from_cons : forall r pv i c s,
  search_from r pv i (String c s)
  = match match_here r pv (String c s) with
    | Some (n, cs) => Some (MObj i (String.substring 0 n (String c s)) cs)
    | None => search_from r (Some c) (S i) s
    end.
Proof. reflexivity. Qed.

Lemma search_from_nil : forall r pv i,
  search_from r pv i EmptyString
  = match match_here r pv EmptyString with
    | Some (n, cs) => Some (MObj i (String.substring 0 n EmptyString) cs)
    | None => None
    end.
Proof. reflexivity. Qed.

Lemma page_only_later : forall s c i, search_from re_page_only (Some c) i s = None.
Proof.
  induction s as [|d s IH]; intros c i; [reflexivity|].
  change (search_from re_page_only (Some c) i (String d s))
    with (search_from re_page_only (Some d) (S i) s).
  apply IH.
Qed.

Lemma page_only_search : forall t,
  found (search re_page_only t) = true <-> match_here re_page_only None t <> None.
Proof.
  intros t. unfold search.
  destruct t as [|c t]; [rewrite search_from_nil|rewrite search_from_cons].
  - destruct (match_here re_page_only None EmptyString) as [[n cs]|]; simpl found;
      split; intros H; try discriminate; try reflexivity. contradiction.
  - destruct (match_here re_page_only None (String c t)) as [[n cs]|].
    + simpl found. split; intros; [discriminate|reflexivity].
    + rewrite page_only_later. simpl found.
      split; intros H; [discriminate|contradiction].
Qed.

Lemma search_from_some : forall r a b pv i,
  (forall pv', match_here r pv' b <> None) ->
  found (search_from r pv i (a ++ b)) = true.
Proof.
  intros r. induction a as [|c a IH]; intros b pv i H.
  - simpl String.append. specialize (H pv).
    destruct b; [rewrite search_from_nil|rewrite search_from_cons];
      destruct (match_here r pv _) as [[n cs]|]; try reflexivity; contradiction.
  - simpl String.append. rewrite search_from_cons.
    destruct (match_here r pv (String c (a ++ b))) as [[n cs]|];
      [reflexivity|]. apply IH. exact H.
Qed.

Lemma search_from_found : forall r s pv i,
  found (search_from r pv i s) = true ->
  exists a b pv', s = (a ++ b)%string /\ match_here r pv' b <> None.
Proof.
  intros r. induction s as [|c s IH]; intros pv i H.
  - exists EmptyString, EmptyString, pv. split; [reflexivity|].
    rewrite search_from_nil in H.
    destruct (match_here r pv EmptyString) as [[n cs]|]; discriminate.
  - rewrite search_from_cons in H.
    destruct (match_here r pv (String c s)) as [[n cs]|] eqn:E.
    + exists EmptyString, (String c s), pv. split; [reflexivity|].
      rewrite E. discriminate.
    + destruct (IH _ _ H) as (a & b & pv' & Hs & Hm).
      exists (String c a), b, pv'. split; [simpl; rewrite Hs; reflexivity|exact Hm].
Qed.

Lemma page_num_search : forall t,
  found (search re_page_num t) = true <-> mentions_page_number t.
Proof.
  intros t. split.
  - intros H. destruct (search_from_found _ _ _ _ H) as (a & b & pv' & Ht & Hm).
    apply page_num_here in Hm. destruct Hm as (w & sp & d & r & Hb & Hw & Hsp & Hd).
    exists a, w, sp, d, r. subst. repeat split; assumption.
  - intros (a & w & sp & d & b & Ht & Hw & Hsp & Hd). subst t.
    apply search_from_some. intros pv'. apply page_num_here.
    exists w, sp, d, b. repeat split; assumption.
Qed.

Lemma mentions_page_nonempty : forall t, mentions_page_number t -> Py.falsy t = false.
Proof.
  intros t (a & w & sp & d & b & Ht & _). subst t.
  destruct a; [|reflexivity]. destruct w; [|reflexivity]. destruct sp; reflexivity.
Qed.

Lemma page_bar_nonempty : forall t, page_bar_number t -> Py.falsy t = false.
Proof.
  intros t (sp1 & w & sp2 & sp3 & ds & sp4 & Ht & _). subst t.
  destruct sp1; [|reflexivity]. destruct w; [|reflexivity]. destruct sp2; reflexivity.
Qed.

(** X3: [is_noise] holds of exactly three kinds of text: one whose letters,
    taken alone and lower-cased, contain one of the two boilerplate phrases;
    one that is "page", a bar and a number with nothing but whitespace
    around them; one that has, anywhere in it, "page" in any case followed
    by a digit with at most whitespace between. *)
Theorem is_noise_characterized : forall t : string,
  is_noise t = true <->
  carries_disclaimer t = true \/ page_bar_number t \/ mentions_page_number t.
Proof.
  intros t. unfold is_noise. rewrite noise_compact_letters.
  fold (carries_disclaimer t). split.
  - intros H. destruct (Py.falsy t); [discriminate|].
    destruct (carries_disclaimer t); [left; reflexivity|].
    destruct (found (search re_page_only t)) eqn:E1.
    + apply page_only_search in E1.
      destruct (match_here re_page_only None t) as [x|] eqn:E; [|contradiction].
      right. exact (page_only_some _ _ E).
    + destruct (found (search re_page_num t)) eqn:E2; [|discriminate].
      right. right. apply page_num_search. exact E2.
  - intros [H|[H|H]].
    + rewrite H. destruct t; [discriminate H|reflexivity].
    + rewrite (page_bar_nonempty _ H).
      apply page_only_ok in H. apply page_only_search in H. rewrite H.
      destruct (carries_disclaimer t); reflexivity.
    + rewrite (mentions_page_nonempty _ H).
      apply page_num_search in H. rewrite H.
      destruct (carries_disclaimer t); [reflexivity|].
      destruct (found (search re_page_only t)); reflexivity.
Qed.

(** * Further properties of the table helpers *)

Lemma filter_chars_app : forall p a b,
  Py.filter_chars p (a ++ b) = (Py.filter_chars p a ++ Py.filter_chars p b)%string.
Proof.
  intros p. induction a as [|c a IH]; intros b; [reflexivity|].
  simpl String.append. rewrite !filter_chars_cons, IH.
  destruct (p c); reflexivity.
Qed.

Lemma ink_lstrip : forall s, Py.filter_chars ink (Py.lstrip s) = Py.filter_chars ink s.
Proof.
  induction s as [|c s IH]; [reflexivity|]. simpl Py.lstrip.
  destruct (Chr.space c) eqn:Ec; [|reflexivity].
  rewrite filter_chars_cons. unfold ink at 2. rewrite Ec. exact IH.
Qed.

Lemma ink_rstrip : forall s, Py.filter_chars ink (Py.rstrip s) = Py.filter_chars ink s.
Proof.
  induction s as [|c s IH]; [reflexivity|]. simpl Py.rstrip.
  rewrite (filter_chars_cons ink c s), <- IH.
  destruct (Py.rstrip s) as [|d r].
  - destruct (Chr.space c) eqn:Ec.
    + unfold ink. rewrite Ec. reflexivity.
    + rewrite filter_chars_cons. reflexivity.
  - rewrite filter_chars_cons. reflexivity.
Qed.

Lemma ink_strip : forall s, Py.filter_chars ink (Py.strip s) = Py.filter_chars ink s.
Proof. intros. unfold Py.strip. rewrite ink_rstrip. apply ink_lstrip. Qed.

Lemma concat_cons2 : forall (a b : string) l,
  String.concat "" (a :: b :: l) = (a ++ String.concat "" (b :: l))%string.
Proof. reflexivity. Qed.

Lemma row_ink_cons : forall a l,
  row_ink (a :: l) = (Py.filter_chars ink a ++ row_ink l)%string.
Proof.
  intros a [|b l]; unfold row_ink.
  - simpl. rewrite append_nil_r. reflexivity.
  - rewrite concat_cons2. simpl String.append. apply filter_chars_app.
Qed.

Lemma merge_from_ink : forall more cur,
  row_ink (merge_from cur more) = row_ink (cur :: more).
Proof.
  induction more as [|nxt more IH]; intros cur; [reflexivity|].
  simpl merge_from.
  destruct (cond_short cur nxt || cond_alpha_cont cur nxt || cond_percent_split cur nxt).
  - rewrite IH, !row_ink_cons, ink_strip, !filter_chars_app.
    simpl (Py.filter_chars ink " "). rewrite append_assoc'. reflexivity.
  - rewrite row_ink_cons, IH. rewrite <- row_ink_cons. reflexivity.
Qed.

Lemma drop_trailing_empty_split : forall l,
  exists tail,
    l = (drop_trailing_empty l ++ tail)%list
    /\ Forall (fun c => c = EmptyString) tail
    /\ ~ ends_empty (drop_trailing_empty l).
Proof.
  unfold ends_empty, not.
  induction l as [|x l (tail & Hl & Ht & Hn)].
  - exists []. repeat split; [constructor|]. intros [[|p pre] H]; discriminate.
  - simpl. destruct (drop_trailing_empty l) as [|y r] eqn:E.
    + destruct x as [|c x]; simpl.
      * exists (EmptyString :: tail). simpl in Hl. subst l.
        repeat split; [constructor; [reflexivity|exact Ht]|].
        intros [[|p pre] H]; discriminate.
      * exists tail. simpl in Hl. subst l. repeat split; [exact Ht|].
        intros [[|p [|q pre]] H]; discriminate.
    + exists tail. split; [simpl; rewrite Hl at 1; reflexivity|]. split; [exact Ht|].
      intros [[|p pre] H]; [discriminate|]. injection H as _ H.
      apply Hn. exists pre. exact H.
Qed.

Lemma row_ink_empty_tail : forall tail,
  Forall (fun c => c = EmptyString) tail -> row_ink tail = EmptyString.
Proof.
  induction 1 as [|x tail Hx _ IH]; [reflexivity|].
  rewrite row_ink_cons, IH. subst x. reflexivity.
Qed.

Lemma row_ink_app : forall a b, row_ink (a ++ b) = (row_ink a ++ row_ink b)%string.
Proof.
  induction a as [|x a IH]; intros b; [reflexivity|].
  simpl app. rewrite !row_ink_cons, IH, append_assoc'. reflexivity.
Qed.

Lemma drop_trailing_empty_ink : forall l, row_ink (drop_trailing_empty l) = row_ink l.
Proof.
  intros l. destruct (drop_trailing_empty_split l) as (tail & Hl & Ht & _).
  rewrite Hl at 2. rewrite row_ink_app, (row_ink_empty_tail _ Ht), append_nil_r.
  reflexivity.
Qed.

Lemma merge_from_length : forall more cur,
  1 <= List.length (merge_from cur more) <= S (List.length more).
Proof.
  induction more as [|nxt more IH]; intros cur; simpl; [lia|].
  destruct (cond_short cur nxt || cond_alpha_cont cur nxt || cond_percent_split cur nxt).
  - match goal with |- context [merge_from ?c more] => specialize (IH c) end. lia.
  - specialize (IH nxt). simpl. lia.
Qed.

Lemma merge_fragments_length : forall row,
  List.length (merge_fragments row) <= List.length row
  /\ (row <> [] -> merge_fragments row <> []).
Proof.
  intros [|cur more]; simpl; [split; [lia|intros H; exact H]|].
  pose proof (merge_from_length more cur) as H. split; [lia|].
  intros _ E. rewrite E in H. simpl in H. lia.
Qed.

Lemma merge_from_stripped : forall more cur,
  stripped cur -> Forall stripped more -> Forall stripped (merge_from cur more).
Proof.
  induction more as [|nxt more IH]; intros cur Hc Hr; simpl.
  - constructor; [exact Hc|constructor].
  - inversion Hr as [|? ? Hn Hr']; subst.
    destruct (cond_short cur nxt || cond_alpha_cont cur nxt || cond_percent_split cur nxt).
    + apply IH; [apply strip_idem|exact Hr'].
    + constructor; [exact Hc|]. apply IH; assumption.
Qed.

Lemma merge_fragments_stripped : forall row,
  Forall stripped row -> Forall stripped (merge_fragments row).
Proof.
  intros [|cur more] H; [constructor|]. inversion H; subst.
  apply merge_from_stripped; assumption.
Qed.

Lemma clean_cell_stripped : forall c, stripped (clean_cell c).
Proof. intros [s|]; unfold stripped, clean_cell; [apply strip_idem|reflexivity]. Qed.

Lemma cleaned_row_stripped : forall raw, Forall stripped (map clean_cell raw).
Proof.
  induction raw as [|c raw IH]; constructor; [apply clean_cell_stripped|exact IH].
Qed.

Lemma drop_trailing_empty_incl : forall l c,
  In c (drop_trailing_empty l) -> In c l.
Proof.
  intros l c H. destruct (drop_trailing_empty_split l) as (tail & Hl & _).
  rewrite Hl. apply in_or_app. left. exact H.
Qed.

Lemma drop_trailing_empty_length : forall l,
  List.length (drop_trailing_empty l) <= List.length l.
Proof.
  intros l. destruct (drop_trailing_empty_split l) as (tail & Hl & _).
  rewrite Hl at 2. rewrite length_app. lia.
Qed.

(** X4: the fragment merge and the removal of trailing empty cells lose no
    text: the characters of a row that are not whitespace are the same, in
    the same order, after [merge_fragments] and after the removal of the
    trailing empty cells as before; the merge never adds a cell and never
    empties a row. *)
Theorem merge_fragments_keeps_the_text : forall row : list string,
  row_ink (merge_fragments row) = row_ink row
  /\ row_ink (drop_trailing_empty (merge_fragments row)) = row_ink row
  /\ List.length (merge_fragments row) <= List.length row
  /\ (row <> [] -> merge_fragments row <> []).
Proof.
  intros row.
  assert (H : row_ink (merge_fragments row) = row_ink row).
  { destruct row as [|cur more]; [reflexivity|]. apply merge_from_ink. }
  split; [exact H|]. split; [rewrite drop_trailing_empty_ink; exact H|].
  apply merge_fragments_length.
Qed.

(** X5: in the table [normalize_table] returns there is one row for each
    raw row, in order; a row has at most as many cells as the raw row and
    does not end with an empty cell; a non-empty header row stays
    non-empty; and no cell, header or not, begins or ends with
    whitespace. *)
Theorem normalize_table_shape : forall tbl : RawTable,
  let t := normalize_table tbl in
  Forall2 (fun raw row =>
             List.length row <= List.length raw
             /\ ~ ends_empty row
             /\ Forall stripped row)
    (raw_rows tbl) (rows t)
  /\ List.length (headers t) <= List.length (raw_headers tbl)
  /\ (raw_headers tbl <> [] -> headers t <> [])
  /\ Forall stripped (headers t).
Proof.
  intros tbl t. subst t. unfold normalize_table. simpl. split; [|split; [|split]].
  - induction (raw_rows tbl) as [|raw l IH]; simpl; constructor; [|exact IH].
    destruct (drop_trailing_empty_split (merge_fragments (map clean_cell raw)))
      as (tail & Hl & _ & Hn).
    split; [|split; [exact Hn|]].
    + pose proof (drop_trailing_empty_length (merge_fragments (map clean_cell raw))).
      pose proof (proj1 (merge_fragments_length (map clean_cell raw))) as H1.
      rewrite length_map in H1. lia.
    + apply Forall_forall. intros c Hc. apply drop_trailing_empty_incl in Hc.
      pose proof (merge_fragments_stripped _ (cleaned_row_stripped raw)) as Hs.
      rewrite Forall_forall in Hs. exact (Hs c Hc).
  - pose proof (proj1 (merge_fragments_length (map clean_cell (raw_headers tbl)))) as H.
    rewrite length_map in H. exact H.
  - intros Hne. apply merge_fragments_length.
    destruct (raw_headers tbl); [contradiction|discriminate].
  - apply merge_fragments_stripped, cleaned_row_stripped.
Qed.

(** * [fix_glued_domain_terms] only puts spaces in and changes case *)

Lemma ink_lower1 : forall c, ink (Chr.lower1 c) = ink c.
Proof. by_chars. Qed.

Lemma lower1_idem : forall c, Chr.lower1 (Chr.lower1 c) = Chr.lower1 c.
Proof. by_chars. Qed.

Lemma lower_ink_cons : forall c s,
  lower_ink (String c s)
  = if ink c then String (Chr.lower1 c) (lower_ink s) else lower_ink s.
Proof.
  intros c s. unfold lower_ink. rewrite filter_chars_cons.
  destruct (ink c); reflexivity.
Qed.

Lemma lower_ink_app : forall a b, lower_ink (a ++ b) = (lower_ink a ++ lower_ink b)%string.
Proof.
  induction a as [|c a IH]; intros b; [reflexivity|].
  simpl String.append. rewrite !lower_ink_cons, IH. destruct (ink c); reflexivity.
Qed.

Lemma eq_icase_lower_ink : forall w u,
  eq_icase w u = true ->
  lower_ink u = lower_ink w /\ String.length u = String.length w.
Proof.
  induction w as [|x w IH]; intros [|y u] H; simpl in H; try discriminate.
  - split; reflexivity.
  - apply andb_true_iff in H. destruct H as [Hxy H].
    destruct (IH u H) as [H1 H2]. unfold Chr.eqb_icase in Hxy.
    apply Ascii.eqb_eq in Hxy.
    rewrite !lower_ink_cons, H1, <- (ink_lower1 y), <- (ink_lower1 x), Hxy.
    split; [reflexivity|simpl; rewrite H2; reflexivity].
Qed.

Lemma rmatch_WordB : forall (R : Type) st (k : mstate -> option R),
  rmatch WordB st k = if xorb (word_before st) (word_after st) then k st else None.
Proof. reflexivity. Qed.

Lemma ilit_cons2 : forall c d w,
  ilit (String c (String d w)) = Seq (Cls (Chr.eqb_icase c)) (ilit (String d w)).
Proof. reflexivity. Qed.

(** A literal under IGNORECASE takes a text equal to it up to case. *)
Lemma ilit_some : forall (R : Type) (k : mstate -> option R) x w c pv n s cs,
  rmatch (ilit (String c w)) (MState pv n s cs) k = Some x ->
  exists u r pv',
    s = (u ++ r)%string /\ eq_icase (String c w) u = true
    /\ k (MState pv' (n + String.length u) r cs) = Some x.
Proof.
  intros R k x. induction w as [|d w IH]; intros c pv n s cs H.
  - change (ilit (String c "")) with (Cls (Chr.eqb_icase c)) in H.
    apply rmatch_Cls_some in H. destruct H as (y & s' & Hs & Hy & H).
    exists (String y EmptyString), s', (Some y). subst s.
    split; [reflexivity|]. split; [simpl; rewrite Hy; reflexivity|].
    simpl String.length. replace (n + 1) with (S n) by lia. exact H.
  - rewrite ilit_cons2, rmatch_Seq in H.
    apply rmatch_Cls_some in H. destruct H as (y & s' & Hs & Hy & H).
    cbv beta in H. apply IH in H. destruct H as (u & r & pv' & Hs' & Hu & H).
    exists (String y u), r, pv'. subst s s'.
    split; [reflexivity|].
    split; [change (eq_icase (String c (String d w)) (String y u))
              with (Chr.eqb_icase c y && eq_icase (String d w) u);
            rewrite Hy, Hu; reflexivity|].
    simpl String.length. replace (n + S (String.length u)) with (S n + String.length u)
      by lia. exact H.
Qed.

Lemma re_fix_some : forall c w pv s n cs,
  match_here (re_fix (String c w)) pv s = Some (n, cs) ->
  exists u r,
    s = (u ++ r)%string /\ eq_icase (String c w) u = true /\ n = String.length u.
Proof.
  intros c w pv s n cs H. unfold match_here, re_fix in H. cbn [seq] in H.
  rewrite rmatch_Seq, rmatch_WordB in H.
  destruct (xorb _ _); [|discriminate].
  rewrite rmatch_Seq in H. apply ilit_some in H.
  destruct H as (u & r & pv' & Hs & Hu & H). rewrite rmatch_WordB in H.
  destruct (xorb _ _); [|discriminate]. simpl in H. injection H as Hn _.
  exists u, r. repeat split; [exact Hs|exact Hu|symmetry; exact Hn].
Qed.

Lemma drop_app_length : forall u r, drop (String.length u) (u ++ r) = r.
Proof.
  induction u as [|c u IH]; intros r; [destruct r; reflexivity|]. simpl. apply IH.
Qed.

Lemma length_append : forall a b : string,
  String.length (a ++ b) = String.length a + String.length b.
Proof. induction a as [|c a IH]; intros b; simpl; [|rewrite IH]; reflexivity. Qed.

Lemma sub_fix_lower_ink : forall c w rp,
  lower_ink rp = lower_ink (String c w) ->
  forall n s pv, String.length s <= n ->
  lower_ink (sub_go (re_fix (String c w)) [TLit rp] 0 pv s) = lower_ink s.
Proof.
  intros c w rp Hrp. induction n as [|n IH]; intros s pv Hlen.
  - destruct s; [|simpl in Hlen; lia]. rewrite sub_go_nil.
    destruct (match_here _ pv EmptyString) as [[m cs]|] eqn:E; [|reflexivity].
    destruct (re_fix_some _ _ _ _ _ _ E) as (u & r & Hs & Hu & _).
    destruct u; [discriminate Hu|discriminate Hs].
  - destruct s as [|x s].
    + rewrite sub_go_nil.
      destruct (match_here _ pv EmptyString) as [[m cs]|] eqn:E; [|reflexivity].
      destruct (re_fix_some _ _ _ _ _ _ E) as (u & r & Hs & Hu & _).
      destruct u; [discriminate Hu|discriminate Hs].
    + simpl in Hlen. rewrite sub_go_cons.
      destruct (match_here _ pv (String x s)) as [[m cs]|] eqn:E.
      * destruct (re_fix_some _ _ _ _ _ _ E) as (u & r & Hs & Hu & Hm).
        destruct (eq_icase_lower_ink _ _ Hu) as [Hlu _].
        destruct u as [|y u]; [discriminate Hu|].
        simpl in Hs. injection Hs as Hy Hs. subst y s m.
        simpl String.length. cbv iota.
        rewrite sub_go_drop by (rewrite length_append; lia).
        rewrite drop_app_length.
        change (expand [TLit rp] cs) with (rp ++ "")%string.
        rewrite append_nil_r, lower_ink_app, Hrp, <- Hlu.
        rewrite IH by (rewrite length_append in Hlen; lia).
        change (String x (u ++ r)) with (String x u ++ r)%string.
        rewrite lower_ink_app. reflexivity.
      * rewrite !lower_ink_cons, IH by lia. reflexivity.
Qed.

Lemma fixes_lower_ink :
  Forall (fun f => exists c w, fst f = String c w
                               /\ lower_ink (snd f) = lower_ink (fst f)) fixes.
Proof.
  unfold fixes.
  repeat (apply Forall_cons;
          [eexists _, _; split; [reflexivity|vm_compute; reflexivity]|]).
  apply Forall_nil.
Qed.

Lemma fold_fixes_lower_ink : forall fs,
  Forall (fun f => exists c w, fst f = String c w
                               /\ lower_ink (snd f) = lower_ink (fst f)) fs ->
  forall t,
  lower_ink (fold_left (fun t (f : string * string) =>
                          sub (re_fix (fst f)) [TLit (snd f)] t) fs t)
  = lower_ink t.
Proof.
  induction 1 as [|f fs (c & w & Hf & Hl) _ IH]; intros t; [reflexivity|].
  simpl fold_left. rewrite IH. unfold sub. rewrite Hf. rewrite Hf in Hl.
  apply (sub_fix_lower_ink c w (snd f) Hl _ _ None (le_n _)).
Qed.

(** X6: on a text whose characters are all below U+0100, which is what
    the strings of this development hold, [fix_glued_domain_terms] only
    puts spaces into the text and changes the case of the letters A to Z:
    the characters that are not whitespace, lower-cased, are the same
    before and after, in number and in order.  Beyond this alphabet the
    statement does not hold: under IGNORECASE the letter s of a key also
    matches U+017F, which the replacement then turns into s. *)
Theorem fix_glued_domain_terms_keeps_letters : forall text : string,
  lower_ink (fix_glued_domain_terms text) = lower_ink text.
Proof.
  intros text. unfold fix_glued_domain_terms.
  destruct (Py.falsy text); [reflexivity|].
  apply fold_fixes_lower_ink, fixes_lower_ink.
Qed.

(** * The metadata scan and the tables *)

Section FilterSorted.
Context {A : Type} (key : A -> nat * Q) (P : A -> bool).

Lemma insert_by_front : forall x l,
  Forall (fun z => key_le (key x) (key z) = true) l -> insert_by key x l = x :: l.
Proof.
  intros x [|y l] H; [reflexivity|]. inversion H as [|? ? Hy _]; subst.
  simpl. rewrite Hy. reflexivity.
Qed.

Lemma filter_insert_by : forall x l,
  StronglySorted (ordered_by key) l ->
  filter P (insert_by key x l)
  = if P x then insert_by key x (filter P l) else filter P l.
Proof.
  intros x. induction l as [|y l IH]; intros Hs.
  - simpl. destruct (P x); reflexivity.
  - apply StronglySorted_inv in Hs. destruct Hs as [Hs Hy].
    simpl insert_by. destruct (key_le (key x) (key y)) eqn:E.
    + change (filter P (x :: y :: l))
        with (if P x then x :: filter P (y :: l) else filter P (y :: l)).
      destruct (P x); [|reflexivity].
      symmetry. apply insert_by_front.
      apply Forall_forall. intros z Hz. apply filter_In in Hz. destruct Hz as [Hz _].
      destruct Hz as [Hz|Hz]; [subst z; exact E|].
      rewrite Forall_forall in Hy. eapply key_le_trans; [exact E|]. exact (Hy z Hz).
    + simpl filter. rewrite (IH Hs).
      destruct (P y), (P x); try reflexivity.
      simpl insert_by. rewrite E. reflexivity.
Qed.

Lemma filter_sorted : forall l, filter P (sorted key l) = sorted key (filter P l).
Proof.
  induction l as [|x l IH]; [reflexivity|].
  simpl sorted. rewrite filter_insert_by by apply sorted_ordered.
  simpl filter. rewrite IH. destruct (P x); reflexivity.
Qed.

End FilterSorted.

Lemma scan_item_unreadable : forall st c, readable c = false -> scan_item st c = st.
Proof.
  intros st c H. unfold readable, scanned_type in H. unfold scan_item.
  destruct (String.eqb (type c) "paragraph" || String.eqb (type c) "heading");
    [|reflexivity].
  simpl in H. destruct (text c) as [raw|]; [|reflexivity].
  destruct (Py.falsy raw); [reflexivity|discriminate].
Qed.

Lemma scan_items_readable : forall l st,
  scan_items l st = scan_items (filter readable l) st.
Proof.
  induction l as [|c l IH]; intros st; [reflexivity|].
  change (scan_items (c :: l) st) with (scan_items l (scan_item st c)).
  simpl filter. destruct (readable c) eqn:E.
  - change (scan_items (c :: filter readable l) st)
      with (scan_items (filter readable l) (scan_item st c)). apply IH.
  - rewrite (scan_item_unreadable st c E). apply IH.
Qed.

Lemma table_items_unreadable : forall ts, filter readable (map table_item ts) = [].
Proof. induction ts as [|t ts IH]; [reflexivity|]. simpl. exact IH. Qed.

Lemma readable_with_tables : forall d i page,
  filter readable (with_tables d i page) = filter readable (content page).
Proof.
  intros d i page. unfold with_tables. rewrite filter_app.
  destruct (dict_get i d); [rewrite table_items_unreadable|]; apply app_nil_r.
Qed.

Lemma all_items_cons : forall p ps, all_items (p :: ps) = content p ++ all_items ps.
Proof. reflexivity. Qed.

Lemma readable_merged : forall d1 d2 pages i,
  filter readable (all_items (merge_from_index d1 i pages))
  = filter readable (all_items (merge_from_index d2 i pages)).
Proof.
  intros d1 d2. induction pages as [|p pages IH]; intros i; [reflexivity|].
  simpl merge_from_index. rewrite !all_items_cons, !filter_app. f_equal; [|apply IH].
  rewrite !merge_page_content, !filter_sorted, !readable_with_tables. reflexivity.
Qed.

(** X7: the tables do not enter the fund metadata: whatever tables are
    merged into the pages, [extract_fund_metadata_from_content] gives on
    the merged pages what it gives on the pages sorted without any table. *)
Theorem metadata_ignores_tables :
  forall (pages : list PageOut) (tables_by_page : tables_dict) (cover_text : string),
  extract_fund_metadata_from_content
    (merge_tables_into_pages pages tables_by_page) cover_text
  = extract_fund_metadata_from_content (merge_tables_into_pages pages []) cover_text.
Proof.
  intros pages d cover. rewrite !extract_as_scan.
  rewrite (scan_items_readable (all_items (merge_tables_into_pages pages d))).
  rewrite (scan_items_readable (all_items (merge_tables_into_pages pages []))).
  unfold merge_tables_into_pages. rewrite (readable_merged d [] pages 0). reflexivity.
Qed.

(** * Further properties of the metadata scan *)

Lemma scan_item_no_fund_manager : forall st c,
  buffer st = EmptyString ->
  (forall raw, text c = Some raw ->
               found (search re_fund_manager (rule_text raw)) = false) ->
  managers (st_meta (scan_item st c)) = managers (st_meta st)
  /\ seen_managers (scan_item st c) = seen_managers st.
Proof.
  intros st c Hb H. unfold scan_item.
  destruct (negb _); [split; reflexivity|].
  destruct (text c) as [raw|]; [|split; reflexivity].
  specialize (H raw eq_refl). unfold rule_text in H.
  destruct (Py.falsy raw); [split; reflexivity|]. cbv zeta.
  destruct (is_noise _); [split; reflexivity|].
  destruct (name_rule_fires _ _); [split; reflexivity|].
  destruct (category_rule_fires _ _); [split; reflexivity|].
  unfold manager_rules. rewrite H. simpl buffer. rewrite Hb. simpl.
  split; [apply field_rules_managers|reflexivity].
Qed.

(** X8: a manager is only ever taken from an item whose cleaned text has
    "Fund Manager" in it (in any case): an item without it, also one that
    begins with "Mr.", leaves [managers] as it was, wherever it stands in
    the content stream. *)
Theorem managers_need_fund_manager_text :
  forall (cover_text : string) (earlier : list ContentItem) (c : ContentItem),
  (forall raw, text c = Some raw ->
               found (search re_fund_manager (rule_text raw)) = false) ->
  managers (st_meta (scan_items (earlier ++ [c]) (initial_scan cover_text)))
  = managers (st_meta (scan_items earlier (initial_scan cover_text))).
Proof.
  intros cover earlier c H. rewrite scan_items_app.
  destruct (scan_items_inv earlier _ (initial_scan_inv cover)) as [(_ & _ & Hb) _].
  change (scan_items [c] ?s) with (scan_item s c).
  apply (scan_item_no_fund_manager _ c Hb H).
Qed.

Lemma managers_need_fund_manager_witness :
  managers (st_meta (scan_items ([heading_item "ABC Fund" zero_box]
                                 ++ [paragraph_item "Mr. John Smith" zero_box])
                       (initial_scan "")))
  = managers (st_meta (scan_items [heading_item "ABC Fund" zero_box] (initial_scan ""))).
Proof.
  apply (managers_need_fund_manager_text ""
           [heading_item "ABC Fund" zero_box]
           (paragraph_item "Mr. John Smith" zero_box)).
  intros raw H. injection H as H. subst raw. vm_compute. reflexivity.
Defined.

Lemma float_of_string_nonneg : forall s q, float_of_string s = Some q -> (0 <= q)%Q.
Proof.
  intros s q H. unfold float_of_string in H.
  destruct (cut_at_dot s) as [ip more].
  destruct (all_digits ip && _ && _); [|discriminate].
  injection H as H. subst q. unfold Qle. simpl. lia.
Qed.

Lemma rule_str_pres : forall (Pm : Meta -> Prop) get set r value text m,
  (forall v, Pm m -> Pm (set v m)) ->
  Pm m -> Pm (rule_str get set r value text m).
Proof.
  intros Pm get set r value text m Hset H. unfold rule_str.
  destruct (unset_str (get m)); [|exact H].
  destruct (search r text); [apply Hset|]; exact H.
Qed.

Lemma rule_num_pres : forall (Pm : Meta -> Prop) get set r capture text m,
  (forall v, (0 <= v)%Q -> Pm m -> Pm (set (Some v) m)) ->
  Pm m -> Pm (rule_num get set r capture text m).
Proof.
  intros Pm get set r capture text m Hset H. unfold rule_num.
  destruct (unset_num (get m)); [|exact H].
  destruct (search r text) as [mo|]; [|exact H].
  destruct (float_of_string (capture mo)) as [v|] eqn:E; [|exact H].
  apply Hset; [exact (float_of_string_nonneg _ _ E)|exact H].
Qed.

Lemma nonneg_some : forall v, (0 <= v)%Q -> nonneg (Some v).
Proof. intros v H q E. injection E as E. subst q. exact H. Qed.

Lemma field_rules_numbers : forall text m,
  numbers_nonneg m -> numbers_nonneg (field_rules text m).
Proof.
  intros text m H. unfold field_rules.
  repeat first
    [ apply rule_num_pres;
      [ let v := fresh "v" in let Hv := fresh "Hv" in let Hm := fresh "Hm" in
        intros v Hv Hm; destruct Hm as (H1 & H2 & H3 & H4);
        unfold numbers_nonneg; simpl;
        repeat split; try assumption; apply nonneg_some; exact Hv | ]
    | apply rule_str_pres;
      [ let v := fresh "v" in let Hm := fresh "Hm" in
        intros v Hm; exact Hm | ] ].
  exact H.
Qed.

Lemma add_manager_nonempty : forall acc mname,
  Forall (fun n => n <> EmptyString) (snd acc) ->
  Forall (fun n => n <> EmptyString) (snd (add_manager acc mname)).
Proof.
  intros acc mname H. unfold add_manager.
  destruct (negb (Py.falsy (manager_name mname))) eqn:E; simpl; [|exact H].
  destruct (negb (name_in (manager_name mname) (fst acc))); simpl; [|exact H].
  apply Forall_app. split; [exact H|]. constructor; [|constructor].
  intros E'. rewrite E' in E. discriminate.
Qed.

Lemma add_managers_nonempty : forall names acc,
  Forall (fun n => n <> EmptyString) (snd acc) ->
  Forall (fun n => n <> EmptyString) (snd (fold_left add_manager names acc)).
Proof.
  induction names as [|n names IH]; intros acc H; [exact H|].
  simpl. apply IH, add_manager_nonempty, H.
Qed.

Lemma manager_rules_nonempty : forall text st,
  Forall (fun n => n <> EmptyString) (managers (st_meta st)) ->
  Forall (fun n => n <> EmptyString) (managers (st_meta (manager_rules text st))).
Proof.
  intros text st H. unfold manager_rules, add_managers.
  destruct (found _); [simpl; apply add_managers_nonempty; exact H|].
  destruct (negb _ && _); [simpl; apply add_managers_nonempty; exact H|exact H].
Qed.

Lemma scan_item_wf : forall st c,
  meta_wf (st_meta st) -> meta_wf (st_meta (scan_item st c)).
Proof.
  intros st c Hwf.
  pose proof Hwf as (Hn & Hd & Hc & Hm & Hnum).
  destruct (scan_item_kind st c) as [E|text F E|text F E|text E].
  - rewrite E. exact Hwf.
  - rewrite E. simpl.
    assert (Hv : unset_str (Some (Py.strip (deglue text))) = false)
      by exact (name_rule_value _ _ F).
    unfold meta_wf. simpl. repeat split; try assumption; try apply Hnum.
    + right. exact Hv.
    + intros _. exact Hv.
  - rewrite E. unfold meta_wf. simpl. repeat split; try assumption; try apply Hnum.
    intros _. unfold category_rule_fires in F.
    destruct (unset_str (name (st_meta st))); [discriminate|reflexivity].
  - assert (Hf : meta_wf (field_rules text (st_meta st))).
    { unfold meta_wf. rewrite field_rules_name, field_rules_category,
        field_rules_managers.
      split; [exact Hn|]. split; [apply field_rules_date_value; exact Hd|].
      split; [exact Hc|]. split; [exact Hm|].
      apply (field_rules_numbers text (st_meta st)). exact Hnum. }
    pose proof (manager_rules_nonempty text
                  (with_meta (field_rules text (st_meta st)) st)) as Hne.
    destruct (manager_rules_meta text (with_meta (field_rules text (st_meta st)) st))
      as [l El].
    rewrite E. destruct Hf as (Fn & Fd & Fc & Fm & Fnum).
    specialize (Hne Fm). rewrite El in Hne |- *. simpl in Hne.
    unfold meta_wf. simpl. repeat split; try assumption; apply Fnum.
Qed.

Lemma scan_items_wf : forall l st,
  meta_wf (st_meta st) -> meta_wf (st_meta (scan_items l st)).
Proof.
  induction l as [|c l IH]; intros st H; [exact H|].
  change (scan_items (c :: l) st) with (scan_items l (scan_item st c)).
  apply IH, scan_item_wf, H.
Qed.

(** X9: whatever the pages and the cover text, the metadata returned is
    well formed: [name] and [date_of_allotment] are unassigned or non-empty;
    [category] is assigned only if [name] holds a non-empty string; no entry
    of [managers] is empty; and none of the four numbers is negative. *)
Theorem metadata_is_well_formed :
  forall (pages : list PageOut) (cover_text : string),
  meta_wf (extract_fund_metadata_from_content pages cover_text).
Proof.
  intros pages cover. rewrite extract_as_scan. apply scan_items_wf.
  unfold meta_wf, initial_scan, initial_meta, none_or_true, nonneg. simpl.
  repeat split; try (left; reflexivity); try constructor; try discriminate;
    try (intros H; contradiction).
Qed.

(** * The page assembler and the main flow *)

Section AssemblerInvariant.
Variable Inv : asm -> Prop.
Hypothesis Hpush : forall st h t bx, four bx -> Inv st -> Inv (push_text st h (Some t) bx).

Lemma visit_span_inv : forall bx fs ls,
  four bx -> Inv (fl_asm fs) -> Inv (fl_asm (visit_span bx fs ls)).
Proof.
  intros bx fs ls Hbx H. unfold visit_span.
  destruct (Py.falsy _); [exact H|].
  destruct (buf_type fs) as [bt|]; [|exact H].
  destruct (negb _); [|exact H]. simpl. apply Hpush; assumption.
Qed.

Lemma visit_spans_inv : forall bx l fs,
  four bx -> Inv (fl_asm fs) -> Inv (fl_asm (fold_left (visit_span bx) l fs)).
Proof.
  intros bx. induction l as [|ls l IH]; intros fs Hbx H; [exact H|].
  simpl. apply IH; [exact Hbx|]. apply visit_span_inv; assumption.
Qed.

Lemma bbox_list_four : forall b, four (bbox_list b).
Proof.
  intros b. unfold bbox_list, four.
  destruct (block_bbox b) as [[[[x0 y0] x1] y1]|]; eexists _, _, _, _; reflexivity.
Qed.

Lemma visit_block_inv : forall st b, Inv st -> Inv (visit_block st b).
Proof.
  intros st b H. unfold visit_block.
  pose proof (visit_spans_inv (bbox_list b) (classify_spans_as_headings b)
                (MkFlush st None []) (bbox_list_four b) H) as H1.
  destruct (buf_text _); [exact H1|]. apply Hpush; [apply bbox_list_four|exact H1].
Qed.

Lemma visit_blocks_inv : forall l st, Inv st -> Inv (fold_left visit_block l st).
Proof.
  induction l as [|b l IH]; intros st H; [exact H|].
  simpl. apply IH, visit_block_inv, H.
Qed.

Lemma after_blocks_inv : forall blocks,
  Inv (MkAsm None None []) -> Inv (after_blocks blocks).
Proof. intros blocks H. unfold after_blocks. apply visit_blocks_inv, H. Qed.

End AssemblerInvariant.

(** The chart placeholders leave the section state alone and are all the
    same item. *)
Lemma add_charts_items : forall imgs st,
  add_charts st imgs
  = MkAsm (current_section st) (current_sub st)
      (items st ++ map (fun _ => chart_item st) (or_empty imgs)).
Proof.
  intros imgs. unfold add_charts.
  induction (or_empty imgs) as [|x l IH]; intros st.
  - simpl. rewrite app_nil_r. destruct st; reflexivity.
  - simpl fold_left. rewrite IH. unfold append_item, chart_item. simpl.
    rewrite <- app_assoc. reflexivity.
Qed.

Lemma assemble_page_content : forall i page blocks,
  assemble_page i page blocks
  = MkPageOut (i + 1)
      (items (after_blocks blocks)
       ++ map (fun _ => chart_item (after_blocks blocks)) (or_empty (get_images page))).
Proof.
  intros. unfold assemble_page. fold (after_blocks blocks).
  rewrite add_charts_items. reflexivity.
Qed.

Lemma group_from_total : forall doc bpp i,
  List.length doc + i <= List.length bpp ->
  exists out,
    group_from i doc bpp = Some out
    /\ List.length out = List.length doc
    /\ forall j page, nth_error doc j = Some page ->
         exists blocks, nth_error bpp (i + j) = Some blocks
           /\ nth_error out j = Some (assemble_page (i + j) page blocks).
Proof.
  induction doc as [|page doc IH]; intros bpp i Hlen.
  - exists []. repeat split. intros [|j] p H; discriminate.
  - simpl in Hlen. simpl group_from.
    destruct (nth_error bpp i) as [blocks|] eqn:E;
      [|apply nth_error_None in E; lia].
    destruct (IH bpp (S i) ltac:(lia)) as (out & Hg & Hl & Hn).
    rewrite Hg. exists (assemble_page i page blocks :: out).
    split; [reflexivity|]. split; [simpl; rewrite Hl; reflexivity|].
    intros [|j] p H; simpl in H.
    + injection H as H. subst p. exists blocks. rewrite Nat.add_0_r.
      split; [exact E|reflexivity].
    + destruct (Hn j p H) as (bl & H1 & H2). exists bl.
      rewrite Nat.add_succ_r. split; [exact H1|exact H2].
Qed.

Lemma extract_blocks_nth : forall doc j page,
  nth_error doc j = Some page -> nth_error (extract_blocks doc) j = Some (text_blocks page).
Proof.
  intros doc j page H. unfold extract_blocks. rewrite nth_error_map, H. reflexivity.
Qed.

(** [parse] returns, and its page [j] is the merged, sorted page assembled
    from page [j] of the document. *)
Lemma parse_pages : forall path doc pdf,
  exists out,
    parse path doc pdf = Some out
    /\ List.length (parsed_pages out) = List.length doc
    /\ forall j page, nth_error doc j = Some page ->
         nth_error (parsed_pages out) j = Some (parsed_page pdf j page).
Proof.
  intros path doc pdf. unfold parse, group_page_content.
  destruct (group_from_total doc (extract_blocks doc) 0) as (out & Hg & Hl & Hn).
  { unfold extract_blocks. rewrite length_map. lia. }
  rewrite Hg. eexists. split; [reflexivity|]. simpl parsed_pages.
  unfold merge_tables_into_pages. rewrite merge_from_index_length.
  split; [exact Hl|]. intros j page H.
  destruct (Hn j page H) as (blocks & Hb & Ho). simpl in Hb, Ho.
  rewrite (extract_blocks_nth doc j page H) in Hb. injection Hb as Hb. subst blocks.
  rewrite (merge_from_index_nth _ _ 0 j _ Ho). reflexivity.
Qed.

(** X10: [parse] never fails on a missing block list, and the pages it
    returns are the pages of the document, one for one and in order, page
    [j] (counted from 0) carrying the page number [j + 1], tables merged or
    not. *)
Theorem parse_numbers_the_pages :
  forall (pdf_path : string) (doc : list DocPage) (pdf : list PdfPage),
  exists out,
    parse pdf_path doc pdf = Some out
    /\ List.length (parsed_pages out) = List.length doc
    /\ (forall j p, nth_error (parsed_pages out) j = Some p -> page_number p = j + 1)
    /\ group_page_content doc (extract_blocks doc) <> None.
Proof.
  intros path doc pdf. destruct (parse_pages path doc pdf) as (out & Hp & Hl & Hn).
  exists out. split; [exact Hp|]. split; [exact Hl|]. split.
  - intros j p Hj.
    assert (Hlt : j < List.length doc).
    { rewrite <- Hl. apply nth_error_Some. rewrite Hj. discriminate. }
    destruct (nth_error doc j) as [page|] eqn:E;
      [|apply nth_error_None in E; lia].
    rewrite (Hn j page E) in Hj. injection Hj as Hj. subst p. reflexivity.
  - unfold parse in Hp. destruct (group_page_content doc (extract_blocks doc));
      [discriminate|discriminate Hp].
Qed.

(** ** One section per page *)

Lemma sec_inv_extend : forall st new,
  sec_inv st -> Forall (follows st) new ->
  sec_inv (MkAsm (current_section st) (current_sub st) (items st ++ new)).
Proof.
  intros st new (I1 & I2 & I3 & I4 & I5) Hnew. unfold sec_inv. simpl.
  split; [|split; [|split; [|split]]].
  - apply Forall_app. split; [exact I1|].
    eapply Forall_impl; [|exact Hnew]. intros c (_ & Hs & _). right. exact Hs.
  - intros s Hs. destruct (I2 s Hs) as (h & Hin & Hh). exists h.
    split; [apply in_or_app; left; exact Hin|exact Hh].
  - apply Forall_app. split; [exact I3|].
    eapply Forall_impl; [|exact Hnew]. intros c (_ & Hs & Hsub) Hne.
    rewrite Hs. apply I4. rewrite <- Hsub. exact Hne.
  - exact I4.
  - apply Forall_app. split; [exact I5|].
    eapply Forall_impl; [|exact Hnew]. intros c (Ht & _) Hh. contradiction.
Qed.

Lemma paragraph_follows : forall st p bx, follows st (paragraph st p bx).
Proof. intros. unfold follows, paragraph. simpl. repeat split. discriminate. Qed.

Lemma chart_follows : forall st, follows st (chart_item st).
Proof. intros. unfold follows, chart_item. simpl. repeat split. discriminate. Qed.

Lemma push_text_sec_inv : forall st h t bx,
  four bx -> sec_inv st -> sec_inv (push_text st h (Some t) bx).
Proof.
  intros st h t bx _ Hinv. unfold push_text. cbv zeta.
  set (txt := fix_glued_domain_terms (clean_text t)).
  destruct (Py.falsy txt || is_noise txt); [exact Hinv|].
  destruct h.
  - pose proof Hinv as (I1 & I2 & I3 & I4 & I5).
    destruct (current_section st) as [sec|] eqn:Es.
    + unfold sec_inv. simpl. split; [|split; [|split; [|split]]].
      * apply Forall_app. split; [exact I1|]. constructor; [|constructor].
        right. reflexivity.
      * intros s Hs. destruct (I2 s Hs) as (h & Hin & Hh). exists h.
        split; [apply in_or_app; left; exact Hin|exact Hh].
      * apply Forall_app. split; [exact I3|]. constructor; [|constructor].
        simpl. intros _. discriminate.
      * intros _. discriminate.
      * apply Forall_app. split; [exact I5|]. constructor; [|constructor].
        intros _. right. simpl. repeat split; discriminate.
    + unfold sec_inv. simpl. split; [|split; [|split; [|split]]].
      * apply Forall_app. split.
        -- eapply Forall_impl; [|exact I1]. intros c [H|H]; left; exact H.
        -- constructor; [|constructor]. right. reflexivity.
      * intros s Hs. injection Hs as Hs. subst s.
        eexists. split; [apply in_or_app; right; left; reflexivity|].
        simpl. repeat split.
      * apply Forall_app. split; [exact I3|]. constructor; [|constructor].
        simpl. intros H. contradiction.
      * intros _. discriminate.
      * apply Forall_app. split; [exact I5|]. constructor; [|constructor].
        intros _. left. simpl. repeat split. discriminate.
  - destruct (600 <? String.length txt).
    + rewrite push_parts. apply sec_inv_extend; [exact Hinv|].
      apply Forall_forall. intros c Hc. apply in_map_iff in Hc.
      destruct Hc as (p & Hp & _). subst c. apply paragraph_follows.
    + unfold append_item. apply sec_inv_extend; [exact Hinv|].
      constructor; [apply paragraph_follows|constructor].
Qed.

Lemma sec_inv_initial : sec_inv (MkAsm None None []).
Proof.
  unfold sec_inv. simpl. repeat split; try constructor.
  - intros s H. discriminate.
  - intros H. contradiction.
Qed.

Lemma sec_inv_page : forall page blocks i,
  exists st, content (assemble_page i page blocks) = items st /\ sec_inv st.
Proof.
  intros page blocks i. rewrite assemble_page_content. simpl content.
  pose proof (after_blocks_inv sec_inv push_text_sec_inv blocks sec_inv_initial) as H.
  eexists (MkAsm _ _ _). split; [reflexivity|].
  apply sec_inv_extend; [exact H|].
  apply Forall_forall. intros c Hc. apply in_map_iff in Hc.
  destruct Hc as (x & Hx & _). subst c. apply chart_follows.
Qed.

Lemma sec_inv_one_section : forall st, sec_inv st -> one_section (items st).
Proof.
  intros st (I1 & I2 & I3 & I4 & I5). rewrite Forall_forall in I1, I3, I5.
  unfold one_section. split; [|split; [|split]].
  - intros c1 c2 s1 s2 H1 H2 E1 E2.
    destruct (I1 c1 H1) as [H|H]; [congruence|].
    destruct (I1 c2 H2) as [H'|H']; congruence.
  - intros c s Hc Es. destruct (I1 c Hc) as [H|H]; [congruence|].
    apply I2. congruence.
  - exact I3.
  - exact I5.
Qed.

Lemma one_section_neutral : forall l extra,
  one_section l -> Forall neutral extra -> one_section (l ++ extra).
Proof.
  intros l extra (O1 & O2 & O3 & O4) Hn. rewrite Forall_forall in Hn.
  assert (Hside : forall c, In c (l ++ extra) ->
                   In c l \/ (type c <> "heading" /\ section c = None
                              /\ sub_section c = None)).
  { intros c Hc. apply in_app_or in Hc. destruct Hc as [Hc|Hc];
      [left; exact Hc|right; exact (Hn c Hc)]. }
  unfold one_section. split; [|split; [|split]].
  - intros c1 c2 s1 s2 H1 H2 E1 E2.
    destruct (Hside c1 H1) as [H1'|(_ & N1 & _)]; [|congruence].
    destruct (Hside c2 H2) as [H2'|(_ & N2 & _)]; [|congruence].
    exact (O1 c1 c2 s1 s2 H1' H2' E1 E2).
  - intros c s Hc Es. destruct (Hside c Hc) as [Hc'|(_ & N & _)]; [|congruence].
    destruct (O2 c s Hc' Es) as (h & Hin & Hh). exists h.
    split; [apply in_or_app; left; exact Hin|exact Hh].
  - intros c Hc Hsub. destruct (Hside c Hc) as [Hc'|(_ & _ & N)]; [|congruence].
    exact (O3 c Hc' Hsub).
  - intros c Hc. destruct (Hside c Hc) as [Hc'|(N & _)]; [exact (O4 c Hc')|].
    intros Hh. contradiction.
Qed.

Lemma one_section_same_members : forall l l',
  (forall c, In c l' <-> In c l) -> one_section l -> one_section l'.
Proof.
  intros l l' Hm (O1 & O2 & O3 & O4). unfold one_section. split; [|split; [|split]].
  - intros c1 c2 s1 s2 H1 H2. apply O1; apply Hm; assumption.
  - intros c s Hc Es. apply Hm in Hc. destruct (O2 c s Hc Es) as (h & Hin & Hh).
    exists h. split; [apply Hm; exact Hin|exact Hh].
  - intros c Hc. apply O3, Hm, Hc.
  - intros c Hc. apply O4, Hm, Hc.
Qed.

Lemma table_items_neutral : forall d i,
  Forall neutral match dict_get i d with
                 | Some ts => map table_item ts
                 | None => []
                 end.
Proof.
  intros d i. destruct (dict_get i d) as [ts|]; [|constructor].
  apply Forall_forall. intros c Hc. apply in_map_iff in Hc.
  destruct Hc as (t & Ht & _). subst c. unfold neutral. simpl.
  repeat split. discriminate.
Qed.

Lemma merged_members : forall d i page c,
  In c (content (merge_page d i page)) <-> In c (with_tables d i page).
Proof.
  intros d i page c. rewrite merge_page_content.
  split; apply Permutation_in; [|symmetry]; apply sorted_perm.
Qed.

Lemma parsed_page_one_section : forall pdf j page,
  one_section (content (parsed_page pdf j page)).
Proof.
  intros pdf j page. unfold parsed_page.
  apply (one_section_same_members
           (with_tables (extract_tables pdf) j (assemble_page j page (text_blocks page)))).
  - intros c. apply merged_members.
  - unfold with_tables.
    destruct (sec_inv_page page (text_blocks page) j) as (st & Hc & Hinv).
    rewrite Hc. apply one_section_neutral; [apply sec_inv_one_section, Hinv|].
    apply table_items_neutral.
Qed.

Lemma parsed_pages_all : forall (P : PageOut -> Prop) path doc pdf,
  (forall j page, P (parsed_page pdf j page)) ->
  exists out, parse path doc pdf = Some out /\ Forall P (parsed_pages out).
Proof.
  intros P path doc pdf HP. destruct (parse_pages path doc pdf) as (out & Hp & Hl & Hn).
  exists out. split; [exact Hp|]. apply Forall_forall. intros p Hin.
  apply In_nth_error in Hin. destruct Hin as [j Hj].
  assert (Hlt : j < List.length doc).
  { rewrite <- Hl. apply nth_error_Some. rewrite Hj. discriminate. }
  destruct (nth_error doc j) as [page|] eqn:E; [|apply nth_error_None in E; lia].
  rewrite (Hn j page E) in Hj. injection Hj as Hj. subst p. apply HP.
Qed.

(** X11: on every page [parse] returns there is at most one section: all
    items that carry a section carry the same one, and it is the text of a
    heading of that page which has no sub-section; no item has a sub-section
    without a section; and every heading is either that section heading or
    a sub-section heading whose text is its sub-section.  (The first heading
    the assembler pushes on a page sets the section, every later one a
    sub-section; the section does not carry over to the next page.) *)
Theorem parse_gives_one_section_per_page :
  forall (pdf_path : string) (doc : list DocPage) (pdf : list PdfPage),
  exists out,
    parse pdf_path doc pdf = Some out
    /\ Forall (fun p => one_section (content p)) (parsed_pages out).
Proof.
  intros path doc pdf. apply parsed_pages_all. intros j page.
  apply parsed_page_one_section.
Qed.

(** ** The items of a parsed page *)

Lemma falsy_false : forall s, Py.falsy s = false -> s <> EmptyString.
Proof. intros [|c s] H; [discriminate|discriminate]. Qed.

Lemma paragraph_text_item : forall st p bx,
  four bx -> Py.falsy p = false -> text_item (paragraph st p bx).
Proof.
  intros st p bx Hbx Hp. unfold text_item, paragraph. simpl.
  split; [right; reflexivity|]. split; [exists p; split; [reflexivity|]|].
  - apply falsy_false, Hp.
  - split; [reflexivity|]. split; [exists bx; split; [reflexivity|exact Hbx]|].
    reflexivity.
Qed.

Lemma push_text_text_items : forall st h t bx,
  four bx -> Forall text_item (items st) ->
  Forall text_item (items (push_text st h (Some t) bx)).
Proof.
  intros st h t bx Hbx Hinv. unfold push_text. cbv zeta.
  set (txt := fix_glued_domain_terms (clean_text t)).
  destruct (Py.falsy txt) eqn:Ef; [exact Hinv|].
  destruct (is_noise txt); [exact Hinv|]. simpl orb. cbv iota.
  assert (Hhead : forall sec sub,
            text_item (MkContentItem "heading" sec sub (Some txt) None (Some bx) None)).
  { intros sec sub. unfold text_item. simpl.
    split; [left; reflexivity|].
    split; [exists txt; split; [reflexivity|apply falsy_false, Ef]|].
    split; [reflexivity|]. split; [exists bx; split; [reflexivity|exact Hbx]|].
    reflexivity. }
  destruct h.
  - destruct (current_section st); simpl; apply Forall_app; split;
      try exact Hinv; constructor; try apply Hhead; constructor.
  - destruct (600 <? String.length txt).
    + rewrite push_parts. simpl. apply Forall_app. split; [exact Hinv|].
      apply Forall_forall. intros c Hc. apply in_map_iff in Hc.
      destruct Hc as (p & Hp & Hin). subst c. apply filter_In in Hin.
      destruct Hin as [_ Hne]. apply negb_true_iff in Hne.
      apply paragraph_text_item; assumption.
    + simpl. apply Forall_app. split; [exact Hinv|].
      constructor; [|constructor]. apply paragraph_text_item; assumption.
Qed.

Lemma after_blocks_text_items : forall blocks,
  Forall text_item (items (after_blocks blocks)).
Proof.
  intros blocks.
  apply (after_blocks_inv (fun st => Forall text_item (items st))
           push_text_text_items blocks).
  constructor.
Qed.

Lemma chart_item_placeholder : forall st, chart_placeholder (chart_item st).
Proof. intros st. unfold chart_placeholder, chart_item. simpl. repeat split. Qed.

Lemma table_item_entry : forall t, table_entry (table_item t).
Proof.
  intros t. unfold table_entry, table_item. simpl. repeat split. discriminate.
Qed.

(** What a parsed page holds before the sort: the text items, the chart
    placeholders, the table items. *)
Lemma parsed_page_unsorted : forall pdf j page,
  with_tables (extract_tables pdf) j (assemble_page j page (text_blocks page))
  = items (after_blocks (text_blocks page))
    ++ map (fun _ => chart_item (after_blocks (text_blocks page)))
         (or_empty (get_images page))
    ++ map table_item (tables_of pdf j).
Proof.
  intros pdf j page. unfold with_tables, tables_of.
  rewrite assemble_page_content. simpl content. rewrite <- app_assoc.
  destruct (dict_get j (extract_tables pdf)); reflexivity.
Qed.

Lemma parsed_page_content : forall pdf j page,
  content (parsed_page pdf j page)
  = sorted sort_key
      (items (after_blocks (text_blocks page))
       ++ map (fun _ => chart_item (after_blocks (text_blocks page)))
            (or_empty (get_images page))
       ++ map table_item (tables_of pdf j)).
Proof.
  intros. unfold parsed_page. rewrite merge_page_content, parsed_page_unsorted.
  reflexivity.
Qed.

Lemma unsorted_shapes : forall pdf j page,
  Forall item_shape
    (items (after_blocks (text_blocks page))
     ++ map (fun _ => chart_item (after_blocks (text_blocks page)))
          (or_empty (get_images page))
     ++ map table_item (tables_of pdf j)).
Proof.
  intros pdf j page. apply Forall_app. split; [|apply Forall_app; split].
  - eapply Forall_impl; [|apply after_blocks_text_items].
    intros c H. left. exact H.
  - apply Forall_forall. intros c Hc. apply in_map_iff in Hc.
    destruct Hc as (x & Hx & _). subst c. right. left. apply chart_item_placeholder.
  - apply Forall_forall. intros c Hc. apply in_map_iff in Hc.
    destruct Hc as (t & Ht & _). subst c. right. right. apply table_item_entry.
Qed.

Lemma parsed_page_shapes : forall pdf j page,
  Forall item_shape (content (parsed_page pdf j page)).
Proof.
  intros pdf j page. rewrite parsed_page_content.
  pose proof (unsorted_shapes pdf j page) as H. rewrite Forall_forall in H.
  apply Forall_forall. intros c Hc. apply H.
  eapply Permutation_in; [apply sorted_perm|exact Hc].
Qed.

(** X12: every item of every page [parse] returns has one of three shapes:
    a heading or paragraph with a non-empty text, a bounding box of four
    numbers, no table and no meta; a chart placeholder with the fixed text,
    the zero box and the fixed note; or a table item with a table and
    neither text, bounding box, section nor sub-section. *)
Theorem parse_items_have_three_shapes :
  forall (pdf_path : string) (doc : list DocPage) (pdf : list PdfPage),
  exists out,
    parse pdf_path doc pdf = Some out
    /\ Forall (fun p => Forall item_shape (content p)) (parsed_pages out).
Proof.
  intros path doc pdf. apply parsed_pages_all. intros j page.
  apply parsed_page_shapes.
Qed.

(** ** Grouping by type *)

Lemma order_class_names : forall t,
  (order_class t =? 0) = String.eqb t "heading"
  /\ (order_class t =? 1) = String.eqb t "paragraph"
  /\ (order_class t =? 2) = String.eqb t "table"
  /\ (order_class t =? 3) = String.eqb t "chart".
Proof.
  intros t. unfold order_class.
  destruct (String.eqb_spec t "heading") as [E|_]; [subst t; repeat split|].
  destruct (String.eqb_spec t "paragraph") as [E|_]; [subst t; repeat split|].
  destruct (String.eqb_spec t "table") as [E|_]; [subst t; repeat split|].
  destruct (String.eqb_spec t "chart") as [E|_]; [subst t; repeat split|].
  repeat split.
Qed.

Lemma item_shape_class : forall c, item_shape c -> order_class (type c) < 4.
Proof.
  intros c [([H|H] & _)|[(H & _)|(H & _)]]; rewrite H; vm_compute; lia.
Qed.

Lemma filter_none : forall (A : Type) (f : A -> bool) l,
  Forall (fun x => f x = false) l -> filter f l = [].
Proof.
  intros A f. induction 1 as [|x l Hx _ IH]; [reflexivity|].
  simpl. rewrite Hx. exact IH.
Qed.

Lemma sorted_groups : forall l,
  StronglySorted key_ordered l ->
  Forall (fun c => order_class (type c) < 4) l ->
  l = filter (fun c => order_class (type c) =? 0) l
      ++ filter (fun c => order_class (type c) =? 1) l
      ++ filter (fun c => order_class (type c) =? 2) l
      ++ filter (fun c => order_class (type c) =? 3) l.
Proof.
  induction l as [|x l IH]; intros Hs Hc; [reflexivity|].
  apply StronglySorted_inv in Hs. destruct Hs as [Hs Hx].
  inversion Hc as [|? ? Hcx Hcl]; subst.
  specialize (IH Hs Hcl).
  assert (Hlow : forall n, n < order_class (type x) ->
                   filter (fun c => order_class (type c) =? n) l = []).
  { intros n Hn. apply filter_none. eapply Forall_impl; [|exact Hx].
    intros c Hk. unfold key_ordered, ordered_by in Hk. apply key_le_iff in Hk.
    rewrite !sort_key_top in Hk. simpl in Hk. apply Nat.eqb_neq. lia. }
  simpl filter.
  destruct (order_class (type x)) as [|[|[|[|k]]]] eqn:E; simpl Nat.eqb; cbv iota.
  - simpl. f_equal. exact IH.
  - rewrite (Hlow 0) by lia. simpl. f_equal. rewrite (Hlow 0) in IH by lia. exact IH.
  - rewrite (Hlow 0), (Hlow 1) by lia. simpl. f_equal.
    rewrite (Hlow 0), (Hlow 1) in IH by lia. exact IH.
  - rewrite (Hlow 0), (Hlow 1), (Hlow 2) by lia. simpl. f_equal.
    rewrite (Hlow 0), (Hlow 1), (Hlow 2) in IH by lia. exact IH.
  - lia.
Qed.

Lemma of_type_class : forall l,
  of_type "heading" l = filter (fun c => order_class (type c) =? 0) l
  /\ of_type "paragraph" l = filter (fun c => order_class (type c) =? 1) l
  /\ of_type "table" l = filter (fun c => order_class (type c) =? 2) l
  /\ of_type "chart" l = filter (fun c => order_class (type c) =? 3) l.
Proof.
  intros l. unfold of_type.
  repeat split; apply filter_ext; intros c;
    destruct (order_class_names (type c)) as (H0 & H1 & H2 & H3); congruence.
Qed.

Lemma parsed_page_grouped : forall pdf j page,
  let l := content (parsed_page pdf j page) in
  l = of_type "heading" l ++ of_type "paragraph" l
      ++ of_type "table" l ++ of_type "chart" l.
Proof.
  intros pdf j page l.
  destruct (of_type_class l) as (H0 & H1 & H2 & H3). rewrite H0, H1, H2, H3.
  apply sorted_groups.
  - subst l. rewrite parsed_page_content. apply sorted_ordered.
  - eapply Forall_impl; [|apply parsed_page_shapes]. apply item_shape_class.
Qed.

(** X13: on every page [parse] returns the items stand grouped by type
    whatever their place on the page: first all headings, then all
    paragraphs, then all table items, then all chart placeholders, and
    nothing else. *)
Theorem parse_groups_items_by_type :
  forall (pdf_path : string) (doc : list DocPage) (pdf : list PdfPage),
  exists out,
    parse pdf_path doc pdf = Some out
    /\ Forall (fun p =>
                 content p
                 = of_type "heading" (content p) ++ of_type "paragraph" (content p)
                   ++ of_type "table" (content p) ++ of_type "chart" (content p))
         (parsed_pages out).
Proof.
  intros path doc pdf. apply parsed_pages_all. intros j page.
  apply parsed_page_grouped.
Qed.

(** ** The tables and the chart placeholders of a parsed page *)

Lemma of_type_sorted : forall ty k l,
  (forall c, In c l -> String.eqb (type c) ty = key_eq (sort_key c) k) ->
  of_type ty (sorted sort_key l) = of_type ty l.
Proof.
  intros ty k l H. unfold of_type.
  rewrite (filter_ext_in _ (fun c => key_eq (sort_key c) k) (sorted sort_key l)).
  - rewrite (filter_ext_in _ (fun c => key_eq (sort_key c) k) l) by exact H.
    apply sorted_stable.
  - intros c Hc. apply H. eapply Permutation_in; [apply sorted_perm|exact Hc].
Qed.

Lemma of_type_app : forall ty a b, of_type ty (a ++ b) = of_type ty a ++ of_type ty b.
Proof. intros. unfold of_type. apply filter_app. Qed.

Lemma of_type_none : forall ty l,
  Forall (fun c => type c <> ty) l -> of_type ty l = [].
Proof.
  intros ty l H. unfold of_type. apply filter_none.
  eapply Forall_impl; [|exact H]. intros c Hc. apply String.eqb_neq. exact Hc.
Qed.

Lemma of_type_all : forall ty l,
  Forall (fun c => type c = ty) l -> of_type ty l = l.
Proof.
  intros ty. induction 1 as [|c l Hc _ IH]; [reflexivity|].
  unfold of_type in *. simpl. rewrite Hc, String.eqb_refl, IH. reflexivity.
Qed.

Lemma shape_table_key : forall c,
  item_shape c -> String.eqb (type c) "table" = key_eq (sort_key c) (2, SENTINEL).
Proof.
  intros c [([H|H] & _)|[(H & _)|(H & _ & _ & Hb & _)]];
    unfold sort_key, key_eq; rewrite H; try reflexivity.
  rewrite Hb. reflexivity.
Qed.

Lemma shape_chart_key : forall c,
  item_shape c -> String.eqb (type c) "chart" = key_eq (sort_key c) (3, 0%Q).
Proof.
  intros c [([H|H] & _)|[(H & _ & _ & Hb & _)|(H & _)]];
    unfold sort_key, key_eq; rewrite H; try reflexivity.
  rewrite Hb. reflexivity.
Qed.

Lemma text_items_types : forall l ty,
  ty <> "heading" -> ty <> "paragraph" ->
  Forall text_item l -> Forall (fun c => type c <> ty) l.
Proof.
  intros l ty H1 H2 H. eapply Forall_impl; [|exact H].
  intros c ([E|E] & _); rewrite E; congruence.
Qed.

Lemma parsed_page_tables_charts : forall pdf j page,
  of_type "table" (content (parsed_page pdf j page)) = map table_item (tables_of pdf j)
  /\ List.length (of_type "chart" (content (parsed_page pdf j page)))
     = List.length (or_empty (get_images page)).
Proof.
  intros pdf j page. rewrite parsed_page_content.
  pose proof (unsorted_shapes pdf j page) as Hs. rewrite Forall_forall in Hs.
  pose proof (after_blocks_text_items (text_blocks page)) as Ht.
  split.
  - rewrite (of_type_sorted "table" (2, SENTINEL))
      by (intros c Hc; apply shape_table_key, Hs, Hc).
    rewrite !of_type_app.
    rewrite (of_type_none "table" (items _))
      by (apply text_items_types; [discriminate|discriminate|exact Ht]).
    rewrite (of_type_none "table" (map (fun _ => _) _)).
    + apply of_type_all. apply Forall_forall. intros c Hc.
      apply in_map_iff in Hc. destruct Hc as (t & E & _). subst c. reflexivity.
    + apply Forall_forall. intros c Hc.
      apply in_map_iff in Hc. destruct Hc as (t & E & _). subst c. discriminate.
  - rewrite (of_type_sorted "chart" (3, 0%Q))
      by (intros c Hc; apply shape_chart_key, Hs, Hc).
    rewrite !of_type_app.
    rewrite (of_type_none "chart" (items _))
      by (apply text_items_types; [discriminate|discriminate|exact Ht]).
    rewrite (of_type_none "chart" (map table_item _)).
    + rewrite app_nil_r. simpl app. rewrite of_type_all.
      * apply length_map.
      * apply Forall_forall. intros c Hc.
        apply in_map_iff in Hc. destruct Hc as (t & E & _). subst c. reflexivity.
    + apply Forall_forall. intros c Hc.
      apply in_map_iff in Hc. destruct Hc as (t & E & _). subst c. discriminate.
Qed.

(** X14: page [j] of what [parse] returns holds one table item for each
    table [extract_tables] found on page [j], in the order found and
    nothing else of type "table"; and as many chart placeholders as the
    page has images, none when the image query raised. *)
Theorem parse_keeps_tables_and_counts_charts :
  forall (pdf_path : string) (doc : list DocPage) (pdf : list PdfPage),
  exists out,
    parse pdf_path doc pdf = Some out
    /\ forall j page, nth_error doc j = Some page ->
         exists p,
           nth_error (parsed_pages out) j = Some p
           /\ of_type "table" (content p) = map table_item (tables_of pdf j)
           /\ List.length (of_type "chart" (content p))
              = List.length (or_empty (get_images page)).
Proof.
  intros path doc pdf. destruct (parse_pages path doc pdf) as (out & Hp & _ & Hn).
  exists out. split; [exact Hp|]. intros j page H.
  exists (parsed_page pdf j page). split; [exact (Hn j page H)|].
  apply parsed_page_tables_charts.
Qed.

(** ** The spans of a block are pushed run by run *)

Lemma label_eqb_eq : forall a b, label_eqb a b = true <-> a = b.
Proof. intros [] []; simpl; split; intros H; try reflexivity; discriminate. Qed.

Lemma label_eqb_refl : forall a, label_eqb a a = true.
Proof. intros []; reflexivity. Qed.

Lemma runs_cons : forall lab t l,
  runs ((lab, t) :: l)
  = match runs l with
    | (lab', ts) :: rs =>
        if label_eqb lab lab' then (lab, t :: ts) :: rs
        else (lab, [t]) :: (lab', ts) :: rs
    | [] => [(lab, [t])]
    end.
Proof. reflexivity. Qed.

Lemma runs_head : forall lab t l,
  exists ts rs, runs ((lab, t) :: l) = (lab, t :: ts) :: rs.
Proof.
  intros lab t l. rewrite runs_cons. destruct (runs l) as [|[lab' ts] rs].
  - exists [], []. reflexivity.
  - destruct (label_eqb lab lab'); eexists _, _; reflexivity.
Qed.

(** A run in front: it joins the first run behind it when the labels
    agree. *)
Lemma runs_prefix : forall lab a acc more,
  runs (map (pair lab) (a :: acc) ++ more)
  = match runs more with
    | (lab', ts) :: rs =>
        if label_eqb lab lab' then (lab, (a :: acc) ++ ts) :: rs
        else (lab, a :: acc) :: (lab', ts) :: rs
    | [] => [(lab, a :: acc)]
    end.
Proof.
  intros lab a acc. revert a. induction acc as [|b acc IH]; intros a more.
  - simpl map. simpl app. rewrite runs_cons. reflexivity.
  - change (map (pair lab) (a :: b :: acc) ++ more)
      with ((lab, a) :: (map (pair lab) (b :: acc) ++ more)).
    rewrite runs_cons, IH.
    destruct (runs more) as [|[lab' ts] rs].
    + rewrite label_eqb_refl. reflexivity.
    + destruct (label_eqb lab lab'); rewrite label_eqb_refl; reflexivity.
Qed.

Lemma unrun_runs : forall l, unrun (runs l) = l.
Proof.
  induction l as [|[lab t] l IH]; [reflexivity|].
  rewrite runs_cons. destruct (runs l) as [|[lab' ts] rs].
  - simpl in IH. subst l. reflexivity.
  - destruct (label_eqb lab lab') eqn:E.
    + apply label_eqb_eq in E. subst lab'. rewrite <- IH. reflexivity.
    + rewrite <- IH. reflexivity.
Qed.

Lemma runs_alternating : forall l,
  alternating (runs l) /\ Forall (fun r => snd r <> []) (runs l).
Proof.
  induction l as [|[lab t] l (IH1 & IH2)]; [split; [exact I|constructor]|].
  rewrite runs_cons. destruct (runs l) as [|[lab' ts] rs].
  - split; [exact I|]. constructor; [discriminate|constructor].
  - inversion IH2 as [|? ? Hh Ht]; subst.
    destruct (label_eqb lab lab') eqn:E.
    + apply label_eqb_eq in E. subst lab'. split.
      * destruct rs as [|r2 rs']; [exact I|]. exact IH1.
      * constructor; [discriminate|exact Ht].
    + split; [split; [exact E|exact IH1]|].
      constructor; [discriminate|exact IH2].
Qed.

Lemma classified_texts : forall b ls,
  In ls (classify_spans_as_headings b) ->
  Py.falsy (clean_text (text_or_empty (snd ls))) = false.
Proof.
  intros b ls H. unfold classify_spans_as_headings in H.
  apply in_flat_map in H. destruct H as (line & _ & H).
  apply in_flat_map in H. destruct H as (sp & _ & H).
  unfold span_label in H.
  destruct (Py.falsy (clean_text (text_or_empty sp))) eqn:E; [contradiction|].
  destruct (_ || _); destruct H as [H|[]]; subst ls; exact E.
Qed.

Lemma visit_span_some : forall bx st lab buf l1 sp,
  Py.falsy (clean_text (text_or_empty sp)) = false ->
  visit_span bx (MkFlush st (Some lab) buf) (l1, sp)
  = if label_eqb l1 lab
    then MkFlush st (Some lab) (buf ++ [clean_text (text_or_empty sp)])
    else MkFlush (push_text st (is_heading (Some lab)) (Some (Py.join " " buf)) bx)
           (Some l1) [clean_text (text_or_empty sp)].
Proof.
  intros bx st lab buf l1 sp H. unfold visit_span. simpl. rewrite H.
  destruct (label_eqb l1 lab); reflexivity.
Qed.

Lemma visit_span_none : forall bx st buf l1 sp,
  Py.falsy (clean_text (text_or_empty sp)) = false ->
  visit_span bx (MkFlush st None buf) (l1, sp)
  = MkFlush st (Some l1) [clean_text (text_or_empty sp)].
Proof. intros bx st buf l1 sp H. unfold visit_span. simpl. rewrite H. reflexivity. Qed.

Lemma fold_left_cons : forall (A B : Type) (f : A -> B -> A) x l s,
  fold_left f (x :: l) s = fold_left f l (f s x).
Proof. reflexivity. Qed.

Lemma flush_runs : forall bx L st lab a acc,
  (forall ls, In ls L -> Py.falsy (clean_text (text_or_empty (snd ls))) = false) ->
  final_push bx (fold_left (visit_span bx) L (MkFlush st (Some lab) (a :: acc)))
  = fold_left (push_run bx)
      (runs (map (pair lab) (a :: acc)
             ++ map (fun ls => (fst ls, clean_text (text_or_empty (snd ls)))) L))
      st.
Proof.
  intros bx. induction L as [|[l1 sp] L IH]; intros st lab a acc Hne.
  - simpl map at 2. rewrite runs_prefix. reflexivity.
  - assert (Hne' : forall ls, In ls L ->
                     Py.falsy (clean_text (text_or_empty (snd ls))) = false)
      by (intros ls Hl; apply Hne; right; exact Hl).
    pose proof (Hne (l1, sp) (or_introl eq_refl)) as Ht. simpl snd in Ht.
    rewrite fold_left_cons, (visit_span_some _ _ _ _ _ _ Ht).
    change (map (fun ls : label * Span => (fst ls, clean_text (text_or_empty (snd ls))))
              ((l1, sp) :: L))
      with ((l1, clean_text (text_or_empty sp))
            :: map (fun ls : label * Span =>
                      (fst ls, clean_text (text_or_empty (snd ls)))) L).
    set (t := clean_text (text_or_empty sp)).
    set (texts := map (fun ls : label * Span =>
                         (fst ls, clean_text (text_or_empty (snd ls)))) L).
    destruct (label_eqb l1 lab) eqn:E.
    + apply label_eqb_eq in E. subst l1.
      change ((a :: acc) ++ [t]) with (a :: (acc ++ [t])).
      rewrite (IH st lab a (acc ++ [t]) Hne'). fold texts.
      f_equal. f_equal.
      change (a :: acc ++ [t]) with ((a :: acc) ++ [t]).
      rewrite map_app, <- app_assoc. reflexivity.
    + rewrite (IH _ l1 t [] Hne'). fold texts.
      change (map (pair l1) [t] ++ texts) with ((l1, t) :: texts).
      rewrite (runs_prefix lab a acc).
      destruct (runs_head l1 t texts) as (ts & rs & Er).
      rewrite Er.
      assert (E' : label_eqb lab l1 = false) by (destruct lab, l1; simpl in *; congruence).
      rewrite E'. reflexivity.
Qed.

Lemma visit_block_runs : forall st b,
  visit_block st b
  = fold_left (push_run (bbox_list b)) (runs (labelled_texts b)) st.
Proof.
  intros st b. unfold visit_block, labelled_texts. cbv zeta.
  fold (final_push (bbox_list b)
          (fold_left (visit_span (bbox_list b)) (classify_spans_as_headings b)
             (MkFlush st None []))).
  pose proof (classified_texts b) as Hne.
  destruct (classify_spans_as_headings b) as [|[l1 sp] L]; [reflexivity|].
  pose proof (Hne (l1, sp) (or_introl eq_refl)) as Ht. simpl snd in Ht.
  rewrite fold_left_cons, (visit_span_none _ _ _ _ _ Ht).
  rewrite flush_runs by (intros ls Hl; apply Hne; right; exact Hl).
  reflexivity.
Qed.

(** X15: the spans of a block reach [push_text] run by run: the labelled
    spans are cut into the maximal runs of neighbours with the same label,
    and each run is pushed once, in order, as a heading or as body text,
    its cleaned span texts joined by single spaces, with the box of the
    block.  The runs hold every labelled text once and in order, no run is
    empty, neighbouring runs differ in label, and no labelled text is
    empty. *)
Theorem block_is_pushed_run_by_run : forall (st : asm) (b : Block),
  visit_block st b
  = fold_left (push_run (bbox_list b)) (runs (labelled_texts b)) st
  /\ unrun (runs (labelled_texts b)) = labelled_texts b
  /\ alternating (runs (labelled_texts b))
  /\ Forall (fun r => snd r <> []) (runs (labelled_texts b))
  /\ Forall (fun lt => snd lt <> EmptyString) (labelled_texts b).
Proof.
  intros st b. split; [apply visit_block_runs|]. split; [apply unrun_runs|].
  split; [apply runs_alternating|]. split; [apply runs_alternating|].
  unfold labelled_texts. apply Forall_forall. intros lt Hlt.
  apply in_map_iff in Hlt. destruct Hlt as (ls & E & Hin). subst lt. simpl.
  apply falsy_false. exact (classified_texts b ls Hin).
Qed.

(** ** The file name *)

Lemma split_on_nonempty : forall sep s, split_on sep s <> [].
Proof.
  intros sep [|c s]; simpl; [discriminate|].
  destruct (Ascii.eqb c sep); [discriminate|].
  destruct (split_on sep s); discriminate.
Qed.

Lemma concat_cons_cons : forall sep (x y : string) l,
  String.concat sep (x :: y :: l) = (x ++ sep ++ String.concat sep (y :: l))%string.
Proof. reflexivity. Qed.

(** Joining the pieces with the separator gives the text back. *)
Lemma split_on_join : forall sep s,
  String.concat (String sep EmptyString) (split_on sep s) = s.
Proof.
  intros sep. induction s as [|c s IH]; [reflexivity|].
  simpl split_on. destruct (Ascii.eqb c sep) eqn:E.
  - apply Ascii.eqb_eq in E. subst c.
    destruct (split_on sep s) as [|p ps] eqn:Es;
      [exfalso; exact (split_on_nonempty sep s Es)|].
    rewrite concat_cons_cons, IH. reflexivity.
  - destruct (split_on sep s) as [|p [|q ps]] eqn:Es.
    + exfalso. exact (split_on_nonempty sep s Es).
    + simpl in IH. subst s. reflexivity.
    + rewrite concat_cons_cons. rewrite concat_cons_cons in IH.
      simpl String.append. rewrite <- IH. reflexivity.
Qed.

Lemma split_on_pieces : forall sep s,
  Forall (fun p => any_char (Ascii.eqb sep) p = false) (split_on sep s).
Proof.
  intros sep. induction s as [|c s IH]; [repeat constructor|].
  simpl split_on. destruct (Ascii.eqb c sep) eqn:E.
  - constructor; [reflexivity|exact IH].
  - destruct (split_on sep s) as [|p ps].
    + constructor; [|constructor]. simpl. rewrite Ascii.eqb_sym, E. reflexivity.
    + inversion IH as [|? ? Hp Hps]; subst. constructor; [|exact Hps].
      simpl. rewrite Ascii.eqb_sym, E. exact Hp.
Qed.

Lemma concat_last : forall sep (l : list string),
  l <> [] ->
  exists dir,
    String.concat sep l = (dir ++ last l EmptyString)%string
    /\ (dir = EmptyString \/ exists d, dir = (d ++ sep)%string).
Proof.
  intros sep. induction l as [|x l IH]; intros Hne; [contradiction|].
  destruct l as [|y l].
  - exists EmptyString. split; [reflexivity|left; reflexivity].
  - destruct (IH ltac:(discriminate)) as (dir & Hd & Hs).
    rewrite concat_cons_cons, Hd.
    change (last (x :: y :: l) EmptyString) with (last (y :: l) EmptyString).
    exists (x ++ sep ++ dir)%string. split; [rewrite !append_assoc'; reflexivity|].
    right. destruct Hs as [Hs|[d Hs]]; subst dir.
    + exists x. rewrite append_nil_r. reflexivity.
    + exists (x ++ sep ++ d)%string. rewrite !append_assoc'. reflexivity.
Qed.

Lemma last_in : forall (l : list string), l <> [] -> In (last l EmptyString) l.
Proof.
  induction l as [|x l IH]; intros H; [contradiction|].
  destruct l as [|y l]; [left; reflexivity|].
  right. apply IH. discriminate.
Qed.

(** X16: the [file_name] that [parse] returns is the part of the path
    after its last slash: it has no slash in it, and the path is the file
    name itself or something ending in a slash followed by the file name
    (so a path that ends in a slash gives the empty file name). *)
Theorem parse_file_name_is_the_base_name :
  forall (pdf_path : string) (doc : list DocPage) (pdf : list PdfPage),
  exists out dir,
    parse pdf_path doc pdf = Some out
    /\ pdf_path = (dir ++ file_name out)%string
    /\ has_slash (file_name out) = false
    /\ (dir = EmptyString \/ exists d, dir = (d ++ "/")%string).
Proof.
  intros path doc pdf. destruct (parse_pages path doc pdf) as (out & Hp & _).
  assert (Hf : file_name out = last (split_on SLASH path) EmptyString).
  { unfold parse in Hp. destruct (group_page_content doc (extract_blocks doc));
      [|discriminate]. injection Hp as Hp. subst out. reflexivity. }
  destruct (concat_last (String SLASH EmptyString) (split_on SLASH path)
              (split_on_nonempty SLASH path)) as (dir & Hd & Hs).
  rewrite split_on_join in Hd.
  exists out, dir. split; [exact Hp|]. rewrite Hf. split; [exact Hd|].
  split; [|exact Hs].
  pose proof (split_on_pieces SLASH path) as Hall. rewrite Forall_forall in Hall.
  apply Hall, last_in, split_on_nonempty.
Qed.

(** ** Merging twice *)

Lemma sorted_of_ordered : forall (A : Type) (key : A -> nat * Q) l,
  StronglySorted (ordered_by key) l -> sorted key l = l.
Proof.
  intros A key. induction l as [|x l IH]; intros Hs; [reflexivity|].
  apply StronglySorted_inv in Hs. destruct Hs as [Hs Hx].
  simpl sorted. rewrite (IH Hs). apply insert_by_front. exact Hx.
Qed.

Lemma merge_page_again : forall d i page,
  merge_page [] i (merge_page d i page) = merge_page d i page.
Proof.
  intros d i page. unfold merge_page at 1. simpl dict_get. cbv iota.
  rewrite sorted_of_ordered.
  - destruct (merge_page d i page); reflexivity.
  - rewrite merge_page_content. apply sorted_ordered.
Qed.

Lemma merge_from_index_again : forall d pages i,
  merge_from_index [] i (merge_from_index d i pages) = merge_from_index d i pages.
Proof.
  intros d. induction pages as [|p pages IH]; intros i; [reflexivity|].
  simpl. rewrite merge_page_again, IH. reflexivity.
Qed.

(** X17: merging is idempotent once the tables are in: a second pass of
    [merge_tables_into_pages] with no tables to add leaves every page as
    the first pass made it. *)
Theorem merging_again_changes_nothing :
  forall (pages : list PageOut) (tables_by_page : tables_dict),
  merge_tables_into_pages (merge_tables_into_pages pages tables_by_page) []
  = merge_tables_into_pages pages tables_by_page.
Proof. intros. unfold merge_tables_into_pages. apply merge_from_index_again. Qed.

(** ** The document date *)

Lemma rep_result_bounds : forall (R : Type) p (k : mstate -> option R) s lo hi pv n cs x,
  rep p lo hi pv n s cs k = Some x ->
  exists j, lo <= j /\ j <= run p s
    /\ (forall h, hi = Some h -> j <= h)
    /\ k (MState (prev_after j pv s) (n + j) (drop j s) cs) = Some x.
Proof.
  intros R p k. induction s as [|c s IH]; intros lo hi pv n cs x H.
  - simpl in H. destruct (Nat.eqb_spec lo 0); [|discriminate].
    exists 0. rewrite Nat.add_0_r. simpl.
    split; [lia|]. split; [lia|]. split; [intros; lia|exact H].
  - simpl in H.
    assert (Hstop : (if lo =? 0 then k (MState pv n (String c s) cs) else None) = Some x ->
                    exists j, lo <= j /\ j <= run p (String c s)
                      /\ (forall h, hi = Some h -> j <= h)
                      /\ k (MState (prev_after j pv (String c s)) (n + j)
                              (drop j (String c s)) cs) = Some x).
    { intros Hs. destruct (Nat.eqb_spec lo 0); [|discriminate].
      exists 0. rewrite Nat.add_0_r. simpl.
      split; [lia|]. split; [lia|]. split; [intros; lia|exact Hs]. }
    destruct (p c) eqn:Ec; simpl in H; [|exact (Hstop H)].
    destruct hi as [[|h]|]; simpl in H; try exact (Hstop H).
    + destruct (rep p (Nat.pred lo) (Some h) (Some c) (S n) s cs k) as [y|] eqn:E;
        [|exact (Hstop H)].
      injection H as H. subst y.
      destruct (IH _ _ _ _ _ _ E) as (j & Hj & Hr & Hh & Hk).
      exists (S j). simpl. rewrite Ec.
      replace (n + S j) with (S n + j) by lia.
      split; [lia|]. split; [lia|]. split; [|exact Hk].
      intros h' Hh'. injection Hh' as Hh'. subst h'. specialize (Hh h eq_refl). lia.
    + destruct (rep p (Nat.pred lo) None (Some c) (S n) s cs k) as [y|] eqn:E;
        [|exact (Hstop H)].
      injection H as H. subst y.
      destruct (IH _ _ _ _ _ _ E) as (j & Hj & Hr & Hh & Hk).
      exists (S j). simpl. rewrite Ec.
      replace (n + S j) with (S n + j) by lia.
      split; [lia|]. split; [lia|]. split; [intros; discriminate|exact Hk].
Qed.

Lemma run_split_length : forall p j s,
  j <= run p s ->
  exists u, s = (u ++ drop j s)%string /\ all_chars p u = true /\ String.length u = j.
Proof.
  intros p. induction j as [|j IH]; intros s H.
  - exists EmptyString. split; [destruct s; reflexivity|split; reflexivity].
  - destruct s as [|c s]; [simpl in H; lia|]. simpl in H.
    destruct (p c) eqn:Ec; [|lia].
    destruct (IH s ltac:(lia)) as (u & Hu & Ha & Hl).
    exists (String c u). simpl. rewrite <- Hu, Ec, Ha, Hl. repeat split.
Qed.

Lemma lit_cons2 : forall c d w,
  lit (String c (String d w)) = Seq (chr c) (lit (String d w)).
Proof. reflexivity. Qed.

(** A literal takes itself. *)
Lemma lit_some : forall (R : Type) (k : mstate -> option R) x w c pv n s cs,
  rmatch (lit (String c w)) (MState pv n s cs) k = Some x ->
  exists r pv',
    s = (String c w ++ r)%string
    /\ k (MState pv' (n + String.length (String c w)) r cs) = Some x.
Proof.
  intros R k x. induction w as [|d w IH]; intros c pv n s cs H.
  - change (lit (String c "")) with (Cls (Ascii.eqb c)) in H.
    apply rmatch_Cls_some in H. destruct H as (y & s' & Hs & Hy & H).
    apply Ascii.eqb_eq in Hy. subst y s. exists s', (Some c).
    split; [reflexivity|]. simpl String.length.
    replace (n + 1) with (S n) by lia. exact H.
  - rewrite lit_cons2, rmatch_Seq in H. unfold chr in H.
    apply rmatch_Cls_some in H. destruct H as (y & s' & Hs & Hy & H).
    apply Ascii.eqb_eq in Hy. subst y s. cbv beta in H.
    apply IH in H. destruct H as (r & pv' & Hs' & H). subst s'.
    exists r, pv'. split; [reflexivity|].
    simpl String.length in *. replace (n + S (S (String.length w)))
      with (S n + S (String.length w)) by lia. exact H.
Qed.

Lemma alt_cons2 : forall a b l, alt (a :: b :: l) = Alt a (alt (b :: l)).
Proof. reflexivity. Qed.

Lemma rmatch_Alt : forall (R : Type) a b st (k : mstate -> option R),
  rmatch (Alt a b) st k
  = match rmatch a st k with Some x => Some x | None => rmatch b st k end.
Proof. reflexivity. Qed.

Lemma alt_lit_some : forall (R : Type) (k : mstate -> option R) x ws pv n s cs,
  ws <> [] -> Forall (fun w => w <> EmptyString) ws ->
  rmatch (alt (map lit ws)) (MState pv n s cs) k = Some x ->
  exists w r pv',
    In w ws /\ s = (w ++ r)%string
    /\ k (MState pv' (n + String.length w) r cs) = Some x.
Proof.
  intros R k x. induction ws as [|w ws IH]; intros pv n s cs Hne Hall H;
    [contradiction|].
  inversion Hall as [|? ? Hw Hws]; subst.
  destruct w as [|c w]; [contradiction|].
  destruct ws as [|w2 ws].
  - simpl map in H. simpl alt in H.
    change (match w with "" => chr c | String _ _ => Seq (chr c) (lit w) end)
      with (lit (String c w)) in H.
    apply lit_some in H. destruct H as (r & pv' & Hs & H).
    exists (String c w), r, pv'. split; [left; reflexivity|]. split; assumption.
  - change (map lit (String c w :: w2 :: ws))
      with (lit (String c w) :: lit w2 :: map lit ws) in H.
    rewrite alt_cons2 in H.
    change (lit w2 :: map lit ws) with (map lit (w2 :: ws)) in H.
    rewrite rmatch_Alt in H.
    destruct (rmatch (lit (String c w)) (MState pv n s cs) k) as [y|] eqn:E.
    + injection H as H. subst y. apply lit_some in E.
      destruct E as (r & pv' & Hs & E).
      exists (String c w), r, pv'. split; [left; reflexivity|]. split; assumption.
    + destruct (IH pv n s cs ltac:(discriminate) Hws H) as (w' & r & pv' & Hin & Hs & Hk).
      exists w', r, pv'. split; [right; exact Hin|]. split; assumption.
Qed.

Lemma rmatch_Grp : forall (R : Type) g a st (k : mstate -> option R),
  rmatch (Grp g a) st k
  = rmatch a st (fun st' =>
      k (MState (prev st') (pos st') (rest st')
           ((g, String.substring 0 (pos st' - pos st) (rest st)) :: caps st'))).
Proof. reflexivity. Qed.

Lemma months_nonempty : Forall (fun w => w <> EmptyString) months.
Proof. unfold months. repeat constructor; discriminate. Qed.

Lemma substring_app_length : forall u r,
  String.substring 0 (String.length u) (u ++ r) = u.
Proof.
  induction u as [|c u IH]; intros r; [apply substring_0_0|].
  simpl. rewrite IH. reflexivity.
Qed.

Lemma month_year_here : forall pv s n cs,
  match_here re_month_year pv s = Some (n, cs) ->
  month_and_year (String.substring 0 n s).
Proof.
  intros pv s n cs H. unfold match_here, re_month_year, plus in H.
  cbn [seq] in H. rewrite rmatch_Seq, rmatch_Grp in H.
  apply alt_lit_some in H; [|discriminate|exact months_nonempty].
  destruct H as (month & r1 & pv1 & Hin & Hs & H). cbv beta in H.
  cbn [prev pos rest caps] in H. rewrite rmatch_Seq in H.
  simpl rmatch in H.
  apply rep_result_bounds in H. destruct H as (j1 & Hlo1 & Hr1 & _ & H).
  cbv beta in H. cbn [prev pos rest caps] in H.
  apply rep_result_bounds in H. destruct H as (j2 & Hlo2 & Hr2 & Hhi2 & H).
  specialize (Hhi2 4 eq_refl).
  destruct (run_split_length _ _ _ Hr1) as (sp & Hsp & Hasp & Hlsp).
  destruct (run_split_length _ _ _ Hr2) as (yr & Hyr & Hayr & Hlyr).
  simpl in H. injection H as Hn _. subst n.
  exists month, sp, yr.
  split.
  - rewrite Hs, Hsp, Hyr.
    replace (String.length month + j1 + j2)
      with (String.length (month ++ sp ++ yr)%string)
      by (rewrite !length_append; lia).
    rewrite <- !append_assoc'. rewrite substring_app_length.
    rewrite !append_assoc'. reflexivity.
  - split; [exact Hin|]. split; [exact Hasp|]. split.
    + intros E. subst sp. simpl in Hlsp. lia.
    + split; [exact Hayr|lia].
Qed.

Lemma search_from_text : forall r s pv i mo,
  search_from r pv i s = Some mo ->
  exists a b pv' n cs,
    s = (a ++ b)%string /\ match_here r pv' b = Some (n, cs)
    /\ m_text mo = String.substring 0 n b.
Proof.
  intros r. induction s as [|c s IH]; intros pv i mo H.
  - rewrite search_from_nil in H.
    destruct (match_here r pv EmptyString) as [[n cs]|] eqn:E; [|discriminate].
    injection H as H. subst mo.
    exists EmptyString, EmptyString, pv, n, cs. repeat split. exact E.
  - rewrite search_from_cons in H.
    destruct (match_here r pv (String c s)) as [[n cs]|] eqn:E.
    + injection H as H. subst mo.
      exists EmptyString, (String c s), pv, n, cs. repeat split. exact E.
    + destruct (IH _ _ _ H) as (a & b & pv' & n & cs & Hs & Hm & Ht).
      exists (String c a), b, pv', n, cs.
      split; [simpl; rewrite Hs; reflexivity|]. split; assumption.
Qed.

Lemma substring_prefix_split : forall n b,
  exists tl, b = (String.substring 0 n b ++ tl)%string.
Proof.
  induction n as [|n IH]; intros b.
  - exists b. rewrite substring_0_0. reflexivity.
  - destruct b as [|c b]; [exists EmptyString; reflexivity|].
    destruct (IH b) as [tl Htl]. exists tl. simpl. rewrite <- Htl. reflexivity.
Qed.

(** X18: the [doc_date] that [parse] returns is read from the plain text of
    the first page alone: when there is one, it is a piece of that text
    made of an English month name, whitespace and four digits; no page
    content can set it. *)
Theorem parse_doc_date_is_month_and_year :
  forall (pdf_path : string) (doc : list DocPage) (pdf : list PdfPage),
  exists out,
    parse pdf_path doc pdf = Some out
    /\ parsed_doc_date out = doc_date (initial_meta (cover_text_of doc))
    /\ forall d, parsed_doc_date out = Some d ->
         month_and_year d
         /\ exists before after,
              cover_text_of doc = (before ++ d ++ after)%string.
Proof.
  intros path doc pdf. destruct (parse_pages path doc pdf) as (out & Hp & _).
  exists out. split; [exact Hp|].
  assert (Hd : parsed_doc_date out = doc_date (initial_meta (cover_text_of doc))).
  { unfold parse in Hp. destruct (group_page_content doc (extract_blocks doc));
      [|discriminate]. injection Hp as Hp. subst out. simpl parsed_doc_date.
    rewrite extract_as_scan.
    exact (proj2 (proj2 (proj2 (proj2 (proj2 (proj2 (proj2 (proj2 (proj2
             (true_values_stay (initial_scan (cover_text_of doc)) _)))))))))). }
  split; [exact Hd|]. intros d E. rewrite Hd in E. unfold initial_meta in E.
  simpl doc_date in E. unfold search in E.
  destruct (search_from re_month_year None 0 (cover_text_of doc)) as [mo|] eqn:Es;
    [|discriminate].
  simpl in E. injection E as E. unfold group0 in E.
  destruct (search_from_text _ _ _ _ _ Es) as (a & b & pv' & n & cs & Hs & Hm & Ht).
  rewrite Ht in E. subst d. split; [exact (month_year_here _ _ _ _ Hm)|].
  destruct (substring_prefix_split n b) as [tl Htl].
  exists a, tl. rewrite Hs. rewrite Htl at 1. reflexivity.
Qed.

(** ** The order of the blocks *)

Lemma Qlt_bool_iff : forall a b : Q, negb (Qle_bool b a) = true <-> (a < b)%Q.
Proof.
  intros a b. rewrite negb_true_iff. split; intros H.
  - apply Qnot_le_lt. intros Hle. apply Qle_bool_iff in Hle. congruence.
  - destruct (Qle_bool b a) eqn:E; [|reflexivity].
    apply Qle_bool_iff in E. exfalso. exact (Qlt_not_le _ _ H E).
Qed.

Lemma pos_lt_iff : forall a b : Q * Q,
  pos_lt a b = true
  <-> ((fst a < fst b)%Q \/ ((fst a == fst b)%Q /\ (snd a < snd b)%Q)).
Proof.
  intros [a1 a2] [b1 b2]. unfold pos_lt. simpl.
  rewrite orb_true_iff, andb_true_iff, !Qlt_bool_iff, Qeq_bool_iff. reflexivity.
Qed.

Lemma pos_ge_iff : forall a b : Q * Q,
  pos_lt b a = false
  <-> ((fst a < fst b)%Q \/ ((fst a == fst b)%Q /\ (snd a <= snd b)%Q)).
Proof.
  intros a b. split.
  - intros H.
    destruct (Qlt_le_dec (fst a) (fst b)) as [Hlt|Hle]; [left; exact Hlt|].
    right.
    assert (Hn : ~ ((fst b < fst a)%Q \/ ((fst b == fst a)%Q /\ (snd b < snd a)%Q))).
    { intros Hc. apply pos_lt_iff in Hc. congruence. }
    assert (Heq : (fst a == fst b)%Q).
    { apply Qle_antisym; [|exact Hle].
      apply Qnot_lt_le. intros Hc. apply Hn. left. exact Hc. }
    split; [exact Heq|].
    apply Qnot_lt_le. intros Hc. apply Hn. right. split; [symmetry; exact Heq|exact Hc].
  - intros H. destruct (pos_lt b a) eqn:E; [|reflexivity].
    apply pos_lt_iff in E. exfalso.
    destruct H as [H|[H1 H2]], E as [E|[E1 E2]].
    + exact (Qlt_irrefl _ (Qlt_trans _ _ _ H E)).
    + rewrite E1 in H. exact (Qlt_irrefl _ H).
    + rewrite H1 in E. exact (Qlt_irrefl _ E).
    + exact (Qlt_not_le _ _ E2 H2).
Qed.

Lemma block_le_trans : forall a b c, block_le a b -> block_le b c -> block_le a c.
Proof.
  unfold block_le. intros a b c H1 H2.
  apply pos_ge_iff in H1. apply pos_ge_iff in H2. apply pos_ge_iff.
  destruct H1 as [H1|[H1 H1']], H2 as [H2|[H2 H2']].
  - left. exact (Qlt_trans _ _ _ H1 H2).
  - left. rewrite <- H2. exact H1.
  - left. rewrite H1. exact H2.
  - right. split; [rewrite H1; exact H2|exact (Qle_trans _ _ _ H1' H2')].
Qed.

Lemma insert_block_perm : forall x l, Permutation (insert_block x l) (x :: l).
Proof.
  induction l as [|y l IH]; simpl; [reflexivity|].
  destruct (pos_lt (block_key y) (block_key x)); [|reflexivity].
  rewrite IH. apply perm_swap.
Qed.

Lemma insert_block_ordered : forall x l,
  StronglySorted block_le l -> StronglySorted block_le (insert_block x l).
Proof.
  induction l as [|y l IH]; intros Hs; simpl.
  - constructor; constructor.
  - apply StronglySorted_inv in Hs. destruct Hs as [Hs Hy].
    destruct (pos_lt (block_key y) (block_key x)) eqn:E.
    + constructor; [exact (IH Hs)|].
      apply Forall_forall. intros z Hz.
      apply (Permutation_in _ (insert_block_perm x l)) in Hz.
      destruct Hz as [Hz|Hz].
      * subst z. unfold block_le. apply pos_ge_iff. apply pos_lt_iff in E.
        destruct E as [E|[E1 E2]]; [left; exact E|right; split; [exact E1|]].
        apply Qlt_le_weak, E2.
      * rewrite Forall_forall in Hy. exact (Hy z Hz).
    + constructor; [constructor; assumption|].
      constructor; [exact E|].
      eapply Forall_impl; [|exact Hy]. intros z Hz.
      exact (block_le_trans x y z E Hz).
Qed.

Lemma pos_lt_not_eq : forall a b k,
  pos_lt a b = true -> pos_eq a k = true -> pos_eq b k = false.
Proof.
  intros a b k Hlt Ha. destruct (pos_eq b k) eqn:Hb; [|reflexivity]. exfalso.
  unfold pos_eq in Ha, Hb. apply andb_true_iff in Ha, Hb.
  destruct Ha as [A1 A2], Hb as [B1 B2].
  apply Qeq_bool_iff in A1, A2, B1, B2. apply pos_lt_iff in Hlt.
  destruct Hlt as [H|[H1 H2]].
  - rewrite A1, B1 in H. exact (Qlt_irrefl _ H).
  - rewrite A2, B2 in H2. exact (Qlt_irrefl _ H2).
Qed.

Lemma insert_block_stable : forall k x l,
  filter (fun b => pos_eq (block_key b) k) (insert_block x l)
  = filter (fun b => pos_eq (block_key b) k) (x :: l).
Proof.
  intros k x. induction l as [|y l IH]; [reflexivity|].
  simpl insert_block. destruct (pos_lt (block_key y) (block_key x)) eqn:E;
    [|reflexivity].
  simpl filter in *. rewrite IH.
  destruct (pos_eq (block_key y) k) eqn:Ey; [|reflexivity].
  rewrite (pos_lt_not_eq _ _ _ E Ey). reflexivity.
Qed.

(** X19: the blocks of a page are visited from top to bottom and, at equal
    top, from left to right: the order of visit is a rearrangement of the
    page's blocks in which no block stands before one with a smaller
    (top, left) key, and blocks with equal keys keep the order the layout
    library gave them. *)
Theorem blocks_are_visited_top_down : forall blocks : list Block,
  Permutation (sort_blocks blocks) blocks
  /\ StronglySorted block_le (sort_blocks blocks)
  /\ (forall k, filter (fun b => pos_eq (block_key b) k) (sort_blocks blocks)
                = filter (fun b => pos_eq (block_key b) k) blocks).
Proof.
  intros blocks. split; [|split].
  - induction blocks as [|x l IH]; simpl; [constructor|].
    rewrite insert_block_perm. constructor. exact IH.
  - induction blocks as [|x l IH]; simpl; [constructor|].
    apply insert_block_ordered, IH.
  - intros k. induction blocks as [|x l IH]; [reflexivity|].
    simpl sort_blocks. rewrite insert_block_stable. simpl. rewrite IH. reflexivity.
Qed.

(** * The tables that are stored *)

Lemma lstrip_blank : forall s,
  all_chars Chr.space (Py.lstrip s) = true -> all_chars Chr.space s = true.
Proof.
  induction s as [|c s IH]; intros H; [reflexivity|].
  simpl in H. destruct (Chr.space c) eqn:Ec; [|exact H].
  simpl. rewrite Ec. exact (IH H).
Qed.

Lemma rstrip_blank : forall s,
  all_chars Chr.space (Py.rstrip s) = true -> all_chars Chr.space s = true.
Proof.
  induction s as [|c s IH]; intros H; [reflexivity|].
  simpl in H. destruct (Py.rstrip s) as [|d r] eqn:E.
  - specialize (IH eq_refl). destruct (Chr.space c) eqn:Ec.
    + simpl. rewrite Ec. exact IH.
    + simpl in H. rewrite Ec in H. discriminate.
  - rewrite all_chars_cons in H. apply andb_true_iff in H. destruct H as [Hc H].
    simpl. rewrite Hc. exact (IH H).
Qed.

Lemma strip_blank : forall s,
  all_chars Chr.space (Py.strip s) = true -> all_chars Chr.space s = true.
Proof. intros s H. unfold Py.strip in H. apply lstrip_blank, rstrip_blank, H. Qed.

Lemma collapse_go_blank : forall s b,
  all_chars Chr.space (collapse_go b s) = true -> all_chars Chr.space s = true.
Proof.
  induction s as [|c s IH]; intros b H; [reflexivity|].
  simpl collapse_go in H. rewrite all_chars_cons.
  destruct (Chr.space c) eqn:Ec.
  - destruct b; [exact (IH _ H)|].
    rewrite all_chars_cons in H. apply andb_true_iff in H. exact (IH _ (proj2 H)).
  - rewrite all_chars_cons, Ec in H. discriminate.
Qed.

Lemma map_chars_blank : forall f,
  (forall c, Chr.space (f c) = Chr.space c) ->
  forall s, all_chars Chr.space (Py.map_chars f s) = all_chars Chr.space s.
Proof.
  intros f Hf. induction s as [|c s IH]; [reflexivity|].
  simpl. rewrite Hf, IH. reflexivity.
Qed.

Lemma space_tab_to_sp : forall c, Chr.space (tab_to_sp c) = Chr.space c.
Proof. by_chars. Qed.

Lemma space_nbsp_to_sp : forall c, Chr.space (to_space nbsp_class c) = Chr.space c.
Proof. by_chars. Qed.

Lemma match_here_hyphen_word : forall pv s n cs,
  match_here re_hyphen_break pv s = Some (n, cs) ->
  exists x s1, s = String x s1 /\ Chr.word x = true.
Proof.
  intros pv [|x s1] n cs H; unfold match_here, re_hyphen_break, chr, plus in H;
    cbn -[Ascii.eqb Chr.word Chr.space HYPHEN rep] in H; [discriminate|].
  destruct (Chr.word x) eqn:E; [|discriminate]. exists x, s1.
  split; [reflexivity|exact E].
Qed.

Lemma sub_hyphen_break_blank : forall s pv,
  all_chars Chr.space (sub_go re_hyphen_break tmpl_joined 0 pv s) = true ->
  all_chars Chr.space s = true.
Proof.
  induction s as [|x s IH]; intros pv H; [reflexivity|].
  rewrite sub_go_cons in H.
  destruct (match_here re_hyphen_break pv (String x s)) as [[m cs]|] eqn:E.
  - exfalso.
    destruct (match_here_hyphen_shape _ _ _ _ E)
      as (x' & h & s2 & c & s' & Hs & _ & _ & _ & Hcs).
    destruct (match_here_hyphen_word _ _ _ _ E) as (x2 & s1 & Hs2 & Hw).
    injection Hs as Hx _. injection Hs2 as Hx2 _. subst x' x2 cs.
    change (expand tmpl_joined [(2, String c ""); (1, String x "")])
      with (String x (String c EmptyString)) in H.
    simpl String.append in H. rewrite all_chars_cons in H.
    apply andb_true_iff in H. destruct H as [Hsp _].
    rewrite (space_not_word x Hsp) in Hw. discriminate.
  - rewrite all_chars_cons in H |- *. apply andb_true_iff in H.
    destruct H as [Hx H]. rewrite Hx. exact (IH _ H).
Qed.

(** A text that [clean_text] empties had nothing but whitespace in it. *)
Lemma clean_text_blank : forall t,
  all_chars Chr.space (clean_text t) = true -> all_chars Chr.space t = true.
Proof.
  intros t H. rewrite clean_text_after_rejoin in H.
  destruct t as [|c t]; [reflexivity|]. simpl Py.falsy in H. cbv iota in H.
  apply strip_blank in H. do 3 apply gap_all_space in H.
  unfold collapse in H. apply collapse_go_blank in H.
  unfold rejoined, sub in H. apply sub_hyphen_break_blank in H.
  rewrite (map_chars_blank _ space_nbsp_to_sp), replace_tab_is_map,
    (map_chars_blank _ space_tab_to_sp) in H.
  exact H.
Qed.

Lemma lower_ink_blank : forall s,
  lower_ink s = EmptyString <-> all_chars Chr.space s = true.
Proof.
  induction s as [|c s IH]; [split; reflexivity|].
  rewrite lower_ink_cons, all_chars_cons. unfold ink.
  destruct (Chr.space c); simpl; [exact IH|split; discriminate].
Qed.

Lemma blank_strip : forall s, all_chars Chr.space s = true -> Py.strip s = EmptyString.
Proof.
  intros s H. pose proof (strip_all Chr.space s H) as Ha.
  destruct (Py.strip s) as [|c r] eqn:E; [reflexivity|].
  pose proof (strip_head s c r E) as Hc. simpl in Ha. rewrite Hc in Ha. discriminate.
Qed.

Lemma clean_cell_nonblank : forall c,
  blank_cell c = false -> all_chars Chr.space (clean_cell c) = false.
Proof.
  intros [s|] H; [|discriminate]. simpl in H. unfold clean_cell.
  destruct (all_chars Chr.space (Py.strip (fix_glued_domain_terms (clean_text s))))
    eqn:E; [|reflexivity].
  apply strip_blank in E. apply lower_ink_blank in E.
  unfold fix_glued_domain_terms in E.
  destruct (Py.falsy (clean_text s));
    [|rewrite (fold_fixes_lower_ink _ fixes_lower_ink) in E];
    apply lower_ink_blank, clean_text_blank, blank_strip in E;
    rewrite E in H; discriminate.
Qed.

Lemma clean_cell_none_to_empty : forall c, clean_cell (none_to_empty c) = clean_cell c.
Proof. intros [s|]; reflexivity. Qed.

Lemma ink_blank : forall s,
  Py.filter_chars ink s = EmptyString <-> all_chars Chr.space s = true.
Proof.
  induction s as [|c s IH]; [split; reflexivity|].
  rewrite filter_chars_cons, all_chars_cons. unfold ink at 1.
  destruct (Chr.space c); simpl; [exact IH|split; discriminate].
Qed.

Lemma append_empty : forall a b : string,
  (a ++ b)%string = EmptyString -> a = EmptyString /\ b = EmptyString.
Proof. intros [|c a] b H; [split; [reflexivity|exact H]|discriminate]. Qed.

Lemma row_ink_blank : forall l,
  row_ink l = EmptyString -> Forall (fun c => all_chars Chr.space c = true) l.
Proof.
  induction l as [|a l IH]; intros H; [constructor|].
  rewrite row_ink_cons in H. apply append_empty in H. destruct H as [Ha Hl].
  constructor; [apply ink_blank, Ha|exact (IH Hl)].
Qed.

Lemma cleaned_row_has_ink : forall row cell,
  In cell row -> blank_cell cell = false ->
  row_ink (map clean_cell (map none_to_empty row)) <> EmptyString.
Proof.
  intros row cell Hin Hb E. apply row_ink_blank in E. rewrite Forall_forall in E.
  specialize (E (clean_cell cell)).
  rewrite (clean_cell_nonblank cell Hb) in E. 
  assert (Hc : In (clean_cell cell) (map clean_cell (map none_to_empty row))).
  { rewrite map_map. apply in_map_iff. exists cell.
    split; [apply clean_cell_none_to_empty|exact Hin]. }
  specialize (E Hc). discriminate.
Qed.

Lemma merge_fragments_ink : forall row, row_ink (merge_fragments row) = row_ink row.
Proof. intros [|cur more]; [reflexivity|]. apply merge_from_ink. Qed.

Lemma skipped_false : forall g,
  skipped g = false ->
  exists row cell, In row g /\ In cell row /\ blank_cell cell = false.
Proof.
  intros g H. unfold skipped in H. destruct g as [|h rs]; [discriminate|].
  assert (Hn : forallb (fun row => forallb blank_cell row) (h :: rs) = false) by exact H.
  clear H. induction (h :: rs) as [|row l IH]; [discriminate|].
  simpl in Hn. apply andb_false_iff in Hn. destruct Hn as [Hn|Hn].
  - assert (Hc : exists cell, In cell row /\ blank_cell cell = false).
    { clear IH. induction row as [|c row IHr]; [discriminate|].
      simpl in Hn. apply andb_false_iff in Hn. destruct Hn as [Hn|Hn].
      - exists c. split; [left; reflexivity|exact Hn].
      - destruct (IHr Hn) as (cell & Hin & Hb). exists cell.
        split; [right; exact Hin|exact Hb]. }
    destruct Hc as (cell & Hin & Hb). exists row, cell.
    split; [left; reflexivity|]. split; assumption.
  - destruct (IH Hn) as (row' & cell & Hr & Hin & Hb). exists row', cell.
    split; [right; exact Hr|]. split; assumption.
Qed.

Lemma normalize_table_cells : forall tbl,
  Forall stripped (headers (normalize_table tbl))
  /\ Forall (fun row => Forall stripped row /\ ~ ends_empty row)
       (rows (normalize_table tbl)).
Proof.
  intros tbl. unfold normalize_table. simpl. split.
  - apply merge_fragments_stripped, cleaned_row_stripped.
  - apply Forall_forall. intros row Hrow. apply in_map_iff in Hrow.
    destruct Hrow as (raw & E & _). subst row.
    destruct (drop_trailing_empty_split (merge_fragments (map clean_cell raw)))
      as (tail & _ & _ & Hn).
    split; [|exact Hn]. apply Forall_forall. intros c Hc.
    apply drop_trailing_empty_incl in Hc.
    pose proof (merge_fragments_stripped _ (cleaned_row_stripped raw)) as Hs.
    rewrite Forall_forall in Hs. exact (Hs c Hc).
Qed.

Lemma normalize_grid_wf : forall g, skipped g = false -> table_wf (normalize_grid g).
Proof.
  intros g Hs. destruct (skipped_false g Hs) as (row & cell & Hrow & Hcell & Hb).
  destruct g as [|h rs]; [contradiction|].
  unfold normalize_grid.
  destruct (normalize_table_cells
              (MkRawTable (map none_to_empty h) (map (map none_to_empty) rs)))
    as [H1 H2].
  split; [exact H1|]. split; [exact H2|].
  intros [Bh Br]. unfold normalize_table in Bh, Br. simpl in Bh, Br.
  destruct Hrow as [Hrow|Hrow].
  - subst row. rewrite merge_fragments_ink in Bh.
    exact (cleaned_row_has_ink h cell Hcell Hb Bh).
  - rewrite Forall_forall in Br.
    specialize (Br (drop_trailing_empty
                      (merge_fragments (map clean_cell (map none_to_empty row))))).
    rewrite drop_trailing_empty_ink, merge_fragments_ink in Br.
    apply (cleaned_row_has_ink row cell Hcell Hb). apply Br.
    apply in_map_iff. exists (map none_to_empty row).
    split; [reflexivity|]. apply in_map. exact Hrow.
Qed.

Lemma subseq_In : forall (A : Type) (l1 l2 : list A) x,
  subseq l1 l2 -> In x l1 -> In x l2.
Proof.
  intros A l1 l2 x H. induction H as [|y l1 l2 _ IH|y l1 l2 _ IH]; intros Hx.
  - exact Hx.
  - right. exact (IH Hx).
  - destruct Hx as [Hx|Hx]; [left; exact Hx|right; exact (IH Hx)].
Qed.

Lemma extract_page_tables_wf : forall page, Forall table_wf (extract_page_tables page).
Proof.
  intros page. rewrite extract_page_tables_fold.
  destruct (dedup_fold (candidates page) (MkDedup [] [])) as (_ & new & Hn & Hsub & _).
  { split; [constructor|]. intros k. split; intros []. }
  rewrite Hn. simpl. apply Forall_forall. intros t Ht.
  apply (subseq_In _ _ _ _ Hsub) in Ht. unfold candidates, normalized in Ht.
  apply in_map_iff in Ht. destruct Ht as (g & E & Hg). subst t.
  apply filter_In in Hg. destruct Hg as [_ Hg]. apply negb_true_iff in Hg.
  apply normalize_grid_wf, Hg.
Qed.

Lemma tables_of_wf : forall pdf j, Forall table_wf (tables_of pdf j).
Proof.
  intros pdf j. unfold tables_of, extract_tables.
  change j with (0 + j) at 1. rewrite (extract_tables_from_get pdf 0 j).
  destruct (nth_error pdf j) as [page|]; [|constructor].
  pose proof (extract_page_tables_wf page) as H.
  destruct (extract_page_tables page); [constructor|exact H].
Qed.

Lemma parsed_page_tables_wf : forall pdf j page,
  Forall (fun c => forall t, table c = Some t -> table_wf t)
    (content (parsed_page pdf j page)).
Proof.
  intros pdf j page. rewrite parsed_page_content.
  apply Forall_forall. intros c Hc t Ht.
  apply (Permutation_in _ (sorted_perm sort_key _)) in Hc.
  apply in_app_or in Hc. destruct Hc as [Hc|Hc].
  - pose proof (after_blocks_text_items (text_blocks page)) as H.
    rewrite Forall_forall in H. destruct (H c Hc) as (_ & _ & Hn & _). congruence.
  - apply in_app_or in Hc. destruct Hc as [Hc|Hc].
    + apply in_map_iff in Hc. destruct Hc as (x & E & _). subst c. discriminate.
    + apply in_map_iff in Hc. destruct Hc as (t' & E & Hin). subst c.
      simpl in Ht. injection Ht as Ht. subst t'.
      pose proof (tables_of_wf pdf j) as H. rewrite Forall_forall in H.
      exact (H t Hin).
Qed.

(** X20: every table [extract_tables] stores, and so every table in what
    [parse] returns, is trimmed and not blank: no header or body cell
    begins or ends with whitespace, no body row ends with an empty cell,
    and the table has a character that is not whitespace somewhere in its
    header or body. *)
Theorem stored_tables_are_trimmed_and_not_blank :
  forall (pdf_path : string) (doc : list DocPage) (pdf : list PdfPage),
  (forall j, Forall table_wf (tables_of pdf j))
  /\ exists out,
       parse pdf_path doc pdf = Some out
       /\ Forall (fun p =>
                    Forall (fun c => forall t, table c = Some t -> table_wf t)
                      (content p))
            (parsed_pages out).
Proof.
  intros path doc pdf. split; [intros j; apply tables_of_wf|].
  apply parsed_pages_all. intros j page. apply parsed_page_tables_wf.
Qed.

(** ** Paragraph splitting in [push_text]: the parts *)

Lemma sentence_end_ink : forall c, sentence_end c = true -> ink c = true.
Proof. by_chars. Qed.

Lemma upper_ink : forall c, Chr.upper_az c = true -> ink c = true.
Proof. by_chars. Qed.

Lemma last_is_cons : forall p pv c s,
  last_is p pv (String c s) = last_is p None (String c s).
Proof. reflexivity. Qed.

Lemma last_is_nonempty : forall p s, last_is p None s = true -> s <> EmptyString.
Proof. intros p [|c s] H; [discriminate|discriminate]. Qed.

Lemma last_is_ends_inked : forall s pv,
  last_is sentence_end pv s = true -> ends_inked s = true.
Proof.
  induction s as [|c s IH]; intros pv H; [reflexivity|].
  simpl in H. destruct s as [|d s]; [simpl in H; apply sentence_end_ink, H|].
  change (ends_inked (String d s) = true). exact (IH _ H).
Qed.

Lemma ends_inked_app : forall a b,
  b <> EmptyString -> ends_inked (a ++ b) = ends_inked b.
Proof.
  induction a as [|c a IH]; intros b Hb; [reflexivity|].
  simpl. destruct (a ++ b)%string as [|d r] eqn:E.
  - destruct a; [simpl in E; contradiction|discriminate].
  - rewrite <- E. apply IH, Hb.
Qed.

Lemma ends_inked_rstrip_fix : forall s, ends_inked s = true -> Py.rstrip s = s.
Proof.
  induction s as [|c s IH]; intros H; [reflexivity|].
  simpl in H. destruct s as [|d s].
  - simpl. unfold ink in H. apply negb_true_iff in H. rewrite H. reflexivity.
  - change (Py.rstrip (String c (String d s)))
      with (match Py.rstrip (String d s) with
            | EmptyString => if Chr.space c then EmptyString else String c EmptyString
            | r => String c r
            end).
    rewrite (IH H). reflexivity.
Qed.

Lemma rstrip_ends_inked : forall s, ends_inked (Py.rstrip s) = true.
Proof.
  induction s as [|c s IH]; [reflexivity|]. simpl.
  destruct (Py.rstrip s) as [|d r].
  - destruct (Chr.space c) eqn:Ec; [reflexivity|]. simpl. unfold ink. rewrite Ec. reflexivity.
  - exact IH.
Qed.

Lemma strip_fix : forall s,
  next_is ink s = true -> ends_inked s = true -> Py.strip s = s.
Proof.
  intros [|c s] Hh He; [discriminate|]. unfold Py.strip. simpl Py.lstrip.
  simpl in Hh. unfold ink in Hh. apply negb_true_iff in Hh. rewrite Hh.
  apply ends_inked_rstrip_fix, He.
Qed.

Lemma clean_text_ends_inked : forall t, ends_inked (clean_text t) = true.
Proof.
  intros t. unfold clean_text. destruct (Py.falsy t); [reflexivity|].
  unfold Py.strip. apply rstrip_ends_inked.
Qed.

(** Replacing matches by a literal that is not empty and does not end
    with whitespace leaves a text that does not end with whitespace. *)
Lemma sub_go_nonempty : forall r lit pv c s,
  lit <> EmptyString ->
  sub_go r [TLit lit] 0 pv (String c s) <> EmptyString.
Proof.
  intros r lit pv c s Hl. rewrite sub_go_cons.
  destruct (match_here r pv (String c s)) as [[n cs]|]; [|discriminate].
  simpl. rewrite append_nil_r. destruct lit; [contradiction|discriminate].
Qed.

Lemma ends_inked_app_lit : forall a b,
  a <> EmptyString -> ends_inked a = true -> ends_inked b = true ->
  ends_inked (a ++ b) = true.
Proof.
  intros a b Ha Ea Eb. destruct b as [|c b].
  - rewrite append_nil_r. exact Ea.
  - rewrite ends_inked_app; [exact Eb|discriminate].
Qed.

Lemma sub_go_ends_inked : forall r lit,
  lit <> EmptyString -> ends_inked lit = true ->
  forall s k pv,
    ends_inked s = true -> ends_inked (sub_go r [TLit lit] k pv s) = true.
Proof.
  intros r lit Hl El.
  assert (Hnil : forall k pv, ends_inked (sub_go r [TLit lit] k pv EmptyString) = true).
  { intros [|k] pv; [|reflexivity]. rewrite sub_go_nil.
    destruct (match_here r pv EmptyString) as [[n cs]|]; [|reflexivity].
    simpl. rewrite !append_nil_r. exact El. }
  induction s as [|c s IH]; intros k pv Hs; [apply Hnil|].
  assert (Hcons : forall pv', ends_inked (String c (sub_go r [TLit lit] 0 pv' s)) = true).
  { intros pv'. destruct s as [|d s].
    - simpl in Hs. rewrite sub_go_nil.
      destruct (match_here r pv' EmptyString) as [[n cs]|]; [|exact Hs].
      simpl. rewrite !append_nil_r. destruct lit as [|l0 lit']; [contradiction|].
      exact El.
    - pose proof (sub_go_nonempty r lit pv' d s Hl) as Hne.
      simpl in Hs.
      destruct (sub_go r [TLit lit] 0 pv' (String d s)) as [|e u] eqn:E;
        [contradiction|].
      change (ends_inked (String e u) = true). rewrite <- E. apply IH, Hs. }
  assert (Htail : forall k' pv', ends_inked (sub_go r [TLit lit] k' pv' s) = true).
  { intros k' pv'. destruct s as [|d s]; [apply Hnil|]. apply IH. exact Hs. }
  destruct k as [|k]; [|rewrite sub_go_skip; apply Htail].
  rewrite sub_go_cons.
  destruct (match_here r pv (String c s)) as [[n cs]|]; [|apply Hcons].
  simpl expand. rewrite append_nil_r.
  apply ends_inked_app_lit; [exact Hl|exact El|].
  destruct n; [apply Hcons|apply Htail].
Qed.

Lemma fixes_tails :
  Forall (fun f => snd f <> EmptyString /\ ends_inked (snd f) = true) fixes.
Proof. unfold fixes. repeat constructor; discriminate. Qed.

Lemma rule_text_ends_inked : forall t, ends_inked (rule_text t) = true.
Proof.
  intros t. unfold rule_text, fix_glued_domain_terms.
  pose proof (clean_text_ends_inked t) as H.
  destruct (Py.falsy (clean_text t)); [exact H|].
  revert H. generalize (clean_text t). generalize fixes_tails.
  induction fixes as [|f fs IH]; intros Hall s Hs; [exact Hs|].
  inversion Hall as [|? ? [Hne He] Hrest]; subst. simpl.
  apply (IH Hrest). unfold sub. apply sub_go_ends_inked; assumption.
Qed.

Lemma cut_at_gaps_head : forall pv pv' c q ps s,
  cut_at_gaps pv s (String c q :: ps) -> cut_at_gaps pv' s (String c q :: ps).
Proof. intros pv pv' c q [|p ps] s H; exact H. Qed.

(** The split at sentence gaps cuts the text at sentence gaps. *)
Lemma split_go_cut : forall n s pv,
  String.length s <= n ->
  exists p0 ps,
    split_go re_sentence_gap 0 pv s = p0 :: ps
    /\ cut_at_gaps pv s (p0 :: ps)
    /\ (forall c r, s = String c r -> Chr.space c = false ->
          exists q, p0 = String c q).
Proof.
  induction n as [|n IH]; intros s pv Hlen.
  - destruct s; [|simpl in Hlen; lia].
    exists EmptyString, []. repeat split. intros; discriminate.
  - destruct s as [|c s].
    + exists EmptyString, []. repeat split. intros; discriminate.
    + simpl in Hlen. rewrite split_go_cons, match_here_sentence_gap.
      destruct (gap_here pv (String c s)) eqn:G.
      * unfold gap_here in G. apply andb_true_iff in G. destruct G as [G Gup].
        apply andb_true_iff in G. destruct G as [Gpv Grun].
        simpl run in *. destruct (Chr.space c) eqn:Ec; [|discriminate].
        simpl drop in Gup. rewrite split_go_drop.
        destruct (IH (drop (run Chr.space s) s)
                    (prev_after (run Chr.space s) (Some c) s))
          as (q0 & qs & E & Hcut & Hq0).
        { pose proof (drop_length (run Chr.space s) s). lia. }
        exists EmptyString, (q0 :: qs). split; [rewrite E; reflexivity|].
        destruct (drop (run Chr.space s) s) as [|u r] eqn:Ed; [discriminate|].
        simpl in Gup.
        destruct (Hq0 u r eq_refl) as [q Eq].
        { destruct (Chr.space u) eqn:Eu; [|reflexivity].
          rewrite (space_not_upper u Eu) in Gup. discriminate. }
        subst q0. split.
        -- destruct (run_split Chr.space (run Chr.space s) s (le_n _)) as (w & Hw & Haw).
           exists (String c w), (String u r). simpl append.
           rewrite Ed in Hw. rewrite <- Hw.
           split; [reflexivity|]. split; [exact Gpv|]. split; [discriminate|].
           split; [simpl; rewrite Ec; exact Haw|]. split; [exact Gup|].
           exact (cut_at_gaps_head _ None _ _ _ _ Hcut).
        -- intros c' r' Hs Hc'. injection Hs as Hs _. subst c'. congruence.
      * destruct (IH s (Some c)) as (q0 & qs & E & Hcut & _); [lia|].
        rewrite E. exists (String c q0), qs. split; [reflexivity|]. split.
        -- destruct qs as [|q1 qs]; [simpl in *; rewrite Hcut; reflexivity|].
           destruct Hcut as (w & s' & Hs & Hl & Hw & Haw & Hup & Hrest).
           exists w, s'. simpl append. rewrite Hs.
           split; [reflexivity|]. split; [exact Hl|]. repeat split; assumption.
        -- intros c' r' Hs _. injection Hs as Hs _. subst c'. exists q0. reflexivity.
Qed.

(** The parts of a cut are not empty; in a text that neither begins nor
    ends with whitespace, no part does. *)
Lemma cut_parts_stripped : forall parts s,
  cut_at_gaps None s parts ->
  next_is ink s = true -> ends_inked s = true ->
  Forall (fun p => p <> EmptyString /\ Py.strip p = p) parts.
Proof.
  induction parts as [|p ps IH]; intros s Hcut Hh He; [constructor|].
  destruct ps as [|q ps].
  - simpl in Hcut. subst p. constructor; [|constructor].
    split; [destruct s; [discriminate|discriminate]|apply strip_fix; assumption].
  - destruct Hcut as (w & s' & Hs & Hl & Hw & Haw & Hup & Hrest).
    assert (Hs' : s' <> EmptyString) by (destruct s'; [discriminate|discriminate]).
    constructor.
    + split; [exact (last_is_nonempty _ _ Hl)|]. apply strip_fix.
      * destruct p as [|c p]; [discriminate|]. subst s. exact Hh.
      * exact (last_is_ends_inked _ _ Hl).
    + apply (IH s' Hrest).
      * destruct s' as [|u r]; [discriminate|]. simpl in *. apply upper_ink, Hup.
      * subst s. rewrite ends_inked_app in He.
        -- rewrite ends_inked_app in He; assumption.
        -- destruct w; [contradiction|discriminate].
Qed.

Lemma stripped_parts_kept : forall l,
  Forall (fun p => p <> EmptyString /\ Py.strip p = p) l ->
  filter (fun p => negb (Py.falsy p)) (map Py.strip l) = l.
Proof.
  induction l as [|p l IH]; intros H; [reflexivity|].
  inversion H as [|? ? [Hne Hp] Hl]; subst. simpl. rewrite Hp.
  destruct p; [contradiction|]. simpl. rewrite (IH Hl). reflexivity.
Qed.

(** C8, as stated, fails: the body push of a 650-character run with two
    sentence gaps that mentions a page number appends nothing, and neither
    does the push of a short text that is noise: the noise test comes
    before the length test. *)
Lemma noisy_body_push_emits_nothing :
  let st := MkAsm (Some "Overview") None [] in
  String.length (rule_text noisy_body_650) = 650
  /\ sentence_gaps (rule_text noisy_body_650) = 2
  /\ is_noise (rule_text noisy_body_650) = true
  /\ items (push_text st false (Some noisy_body_650) zero_box) = []
  /\ String.length (rule_text "Page 3") <= 600
  /\ items (push_text st false (Some "Page 3") zero_box) = [].
Proof. vm_compute. repeat split. lia. Qed.

(** C8: a body push never touches the section state.  A push of no text,
    or of a text that is empty or noise once cleaned, appends nothing,
    whatever the length.  Otherwise a cleaned text of at most 600
    characters appends the single paragraph item that carries it, and a
    longer one is cut at its sentence gaps (end punctuation, a run of
    whitespace, then a capital letter): the text is the parts with the
    runs of whitespace between them, there is one part more than there are
    gaps, no part is empty or begins or ends with whitespace, and one
    paragraph item per part is appended, in order, each with the part as
    its text, the current section and sub-section, the box of the push,
    and no table or meta.  So a 650-character text with two gaps is
    [p1 w1 p2 w2 p3] and appends exactly the three items of [p1], [p2]
    and [p3]. *)
Theorem body_push_splits_long_text :
  forall (st : asm) (t : string) (bx : list Q),
  let txt := rule_text t in
  let st' := push_text st false (Some t) bx in
  let item := fun p : string =>
    MkContentItem "paragraph" (current_section st) (current_sub st) (Some p)
      None (Some bx) None in
  push_text st false None bx = st
  /\ current_section st' = current_section st
  /\ current_sub st' = current_sub st
  /\ (txt = EmptyString \/ is_noise txt = true -> items st' = items st)
  /\ (txt <> EmptyString -> is_noise txt = false ->
        (String.length txt <= 600 -> items st' = items st ++ [item txt])
        /\ (600 < String.length txt ->
              exists parts,
                items st' = items st ++ map item parts
                /\ cut_at_gaps None txt parts
                /\ List.length parts = S (sentence_gaps txt)
                /\ Forall (fun p => p <> EmptyString /\ Py.strip p = p) parts)
        /\ (String.length txt = 650 -> sentence_gaps txt = 2 ->
              exists p1 w1 p2 w2 p3,
                txt = (p1 ++ w1 ++ p2 ++ w2 ++ p3)%string
                /\ last_is sentence_end None p1 = true
                /\ w1 <> EmptyString /\ all_chars Chr.space w1 = true
                /\ next_is Chr.upper_az p2 = true
                /\ last_is sentence_end None p2 = true
                /\ w2 <> EmptyString /\ all_chars Chr.space w2 = true
                /\ next_is Chr.upper_az p3 = true
                /\ items st' = items st ++ [item p1; item p2; item p3])).
Proof.
  intros st t bx txt st' item.
  split; [reflexivity|].
  assert (Hdrop : Py.falsy txt || is_noise txt = true -> st' = st).
  { intros H. subst st'. unfold push_text. fold (rule_text t). fold txt.
    rewrite H. reflexivity. }
  destruct (Py.falsy txt || is_noise txt) eqn:Edrop.
  { rewrite (Hdrop eq_refl). split; [reflexivity|]. split; [reflexivity|].
    split; [reflexivity|]. intros Hne Hnoise. exfalso.
    apply orb_true_iff in Edrop. destruct Edrop as [E|E]; [|congruence].
    destruct txt; [contradiction|discriminate]. }
  clear Hdrop. apply orb_false_iff in Edrop. destruct Edrop as [Hne Hnoise].
  assert (Hhead : next_is (fun c => negb (Chr.space c)) txt = true).
  { destruct txt as [|c s] eqn:E; [discriminate|]. simpl.
    rewrite (rule_text_head t c s E). reflexivity. }
  destruct (split_go_cut (String.length txt) txt None (le_n _))
    as (p0 & ps & Esplit & Hcut & _).
  pose proof (cut_parts_stripped _ _ Hcut Hhead (rule_text_ends_inked t)) as Hparts.
  pose proof (sentence_parts_count txt Hhead) as Hcount.
  unfold split in Hcount. rewrite Esplit, (stripped_parts_kept _ Hparts) in Hcount.
  assert (Hlong : 600 < String.length txt ->
                  st' = MkAsm (current_section st) (current_sub st)
                          (items st ++ map item (p0 :: ps))).
  { intros Hlen. subst st'. unfold push_text. fold (rule_text t). fold txt.
    rewrite Hne, Hnoise. simpl orb. cbv iota.
    apply Nat.ltb_lt in Hlen. rewrite Hlen. rewrite push_parts.
    unfold split. rewrite Esplit, (stripped_parts_kept _ Hparts). reflexivity. }
  assert (Hshort : String.length txt <= 600 ->
                   st' = append_item st (paragraph st txt bx)).
  { intros Hlen. subst st'. unfold push_text. fold (rule_text t). fold txt.
    rewrite Hne, Hnoise. simpl orb. cbv iota.
    apply Nat.ltb_ge in Hlen. rewrite Hlen. reflexivity. }
  assert (Hno : txt = EmptyString \/ is_noise txt = true -> items st' = items st).
  { intros [E|E]; [rewrite E in Hne; discriminate|congruence]. }
  destruct (Nat.le_gt_cases (String.length txt) 600) as [Hlen|Hlen].
  - rewrite (Hshort Hlen) in *. split; [reflexivity|]. split; [reflexivity|].
    split; [exact Hno|]. intros _ _.
    split; [intros _; reflexivity|]. split; intros; lia.
  - rewrite (Hlong Hlen) in *. simpl current_section. simpl current_sub.
    simpl items. split; [reflexivity|]. split; [reflexivity|].
    split; [exact Hno|]. intros _ _.
    split; [intros; lia|]. split.
    + intros _. exists (p0 :: ps). repeat split; assumption.
    + intros _ Hgaps. rewrite Hgaps in Hcount.
      destruct ps as [|p2 [|p3 [|p4 more]]]; try discriminate.
      destruct Hcut as (w1 & s1 & E1 & L1 & W1 & A1 & U1 & Hcut).
      destruct Hcut as (w2 & s2 & E2 & L2 & W2 & A2 & U2 & Hcut).
      simpl in Hcut. subst s2.
      exists p0, w1, p2, w2, p3. rewrite E1, E2.
      split; [reflexivity|]. split; [exact L1|]. split; [exact W1|].
      split; [exact A1|]. split.
      { destruct p2; [discriminate|]. subst s1. exact U1. }
      split; [exact L2|]. split; [exact W2|]. split; [exact A2|].
      split; [exact U2|reflexivity].
Qed.

(** An instance: a run of three sentences, 650 characters long, gives the
    three sentences as three paragraph items of the current section. *)
Lemma body_push_witness :
  let st := MkAsm (Some "Overview") None [] in
  let item := fun p : string =>
    MkContentItem "paragraph" (Some "Overview") None (Some p) None
      (Some zero_box) None in
  exists p1 w1 p2 w2 p3,
    rule_text body_650 = (p1 ++ w1 ++ p2 ++ w2 ++ p3)%string
    /\ items (push_text st false (Some body_650) zero_box)
       = [item p1; item p2; item p3].
Proof.
  intros st item.
  destruct (body_push_splits_long_text st body_650 zero_box)
    as (_ & _ & _ & _ & H).
  destruct H as (_ & _ & H); [vm_compute; discriminate|vm_compute; reflexivity|].
  destruct H as (p1 & w1 & p2 & w2 & p3 & E & _ & _ & _ & _ & _ & _ & _ & _ & Hi);
    [vm_compute; reflexivity|vm_compute; reflexivity|].
  exists p1, w1, p2, w2, p3. split; [exact E|exact Hi].
Defined.

(** ** The order of a merged page that the assembler built *)

Lemma assemble_page_assembled : forall i page blocks,
  assembled (assemble_page i page blocks).
Proof.
  intros i page blocks. unfold assembled. rewrite assemble_page_content. simpl.
  apply Forall_app. split.
  - eapply Forall_impl; [|apply after_blocks_text_items]. intros c H. left. exact H.
  - apply Forall_forall. intros c Hc. apply in_map_iff in Hc.
    destruct Hc as (x & E & _). subst c. right. apply chart_item_placeholder.
Qed.

Lemma group_from_assembled : forall doc bpp i out,
  group_from i doc bpp = Some out -> Forall assembled out.
Proof.
  induction doc as [|page doc IH]; intros bpp i out H; simpl in H.
  - injection H as H. subst out. constructor.
  - destruct (nth_error bpp i) as [blocks|]; [|discriminate].
    destruct (group_from (S i) doc bpp) as [out'|] eqn:E; [|discriminate].
    injection H as H. subst out. constructor.
    + apply assemble_page_assembled.
    + exact (IH bpp (S i) out' E).
Qed.

Lemma text_item_positioned : forall c,
  text_item c -> top_of c <> None /\ order_class (type c) < 2.
Proof.
  intros c (Hty & _ & _ & (bx & Hb & x0 & y0 & x1 & y1 & Hbx) & _).
  unfold top_of. rewrite Hb, Hbx. split; [discriminate|].
  destruct Hty as [E|E]; rewrite E; vm_compute; lia.
Qed.

Lemma chart_placeholder_positioned : forall c,
  chart_placeholder c -> top_of c <> None /\ order_class (type c) = 3.
Proof.
  intros c (Hty & _ & _ & Hb & _). unfold top_of. rewrite Hb, Hty.
  split; [discriminate|reflexivity].
Qed.

(** The items of a merged page: those of the page, which have a box and
    are no tables, and the table items, which have none. *)
Lemma merged_item_cases : forall d i page c,
  assembled page ->
  In c (content (merge_page d i page)) ->
  (top_of c <> None /\ type c <> "table"
   /\ (order_class (type c) < 2 \/ order_class (type c) = 3))
  \/ (top_of c = None /\ type c = "table").
Proof.
  intros d i page c Hpage Hc. rewrite merge_page_content in Hc.
  apply (Permutation_in _ (sorted_perm sort_key _)) in Hc.
  unfold with_tables in Hc. apply in_app_or in Hc. destruct Hc as [Hc|Hc].
  - left. unfold assembled in Hpage. rewrite Forall_forall in Hpage.
    destruct (Hpage c Hc) as [H|H].
    + destruct (text_item_positioned c H) as [H1 H2].
      split; [exact H1|]. split; [|left; exact H2].
      intros E. rewrite E in H2. vm_compute in H2. lia.
    + destruct (chart_placeholder_positioned c H) as [H1 H2].
      split; [exact H1|]. split; [|right; exact H2].
      intros E. rewrite E in H2. discriminate.
  - right. destruct (dict_get i d) as [ts|]; [|destruct Hc].
    apply in_map_iff in Hc. destruct Hc as (t & E & _). subst c.
    split; reflexivity.
Qed.

(** In an ordered list an item stands before every item of strictly
    greater key. *)
Lemma ordered_precedes : forall (A : Type) (key : A -> nat * Q) a b l,
  StronglySorted (ordered_by key) l -> In a l -> In b l ->
  key_lt (key a) (key b) = true -> precedes a b l.
Proof.
  intros A key a b l Hs Ha Hb Hlt.
  apply in_split in Ha. destruct Ha as (l1 & l2 & E). subst l.
  apply in_app_or in Hb. destruct Hb as [Hb|[Hb|Hb]].
  - exfalso. apply in_split in Hb. destruct Hb as (m1 & m2 & E). subst l1.
    apply (ordered_no_inversion key a b _ Hs Hlt).
    exists m1, m2, l2. rewrite <- app_assoc. reflexivity.
  - exfalso. subst b. apply key_lt_iff in Hlt.
    destruct Hlt as [H|[_ H]]; [lia|exact (Qlt_irrefl _ H)].
  - apply in_split in Hb. destruct Hb as (m1 & m2 & E). subst l2.
    exists l1, m1, m2. reflexivity.
Qed.

(** What the sort gives on a page the assembler built, for any tables. *)
Lemma merged_assembled_page : forall d i page,
  assembled page ->
  let l := content (merge_page d i page) in
  (forall c, In c l -> (top_of c = None <-> type c = "table"))
  /\ (forall a b, In a l -> In b l ->
        top_of a <> None -> top_of b = None ->
        order_class (type a) = order_class (type b) -> precedes a b l)
  /\ (forall a b, In a l -> In b l ->
        type a = "heading" \/ type a = "paragraph" -> top_of b = None ->
        precedes a b l)
  /\ (forall a b, In a l -> In b l ->
        type a = "chart" -> top_of b = None -> precedes b a l).
Proof.
  intros d i page Hpage l.
  assert (Hs : StronglySorted (ordered_by sort_key) l).
  { subst l. rewrite merge_page_content. apply sorted_ordered. }
  assert (Hcase := fun c => merged_item_cases d i page c Hpage). fold l in Hcase.
  split; [|split; [|split]].
  - intros c Hc. destruct (Hcase c Hc) as [(H1 & H2 & _)|[H1 H2]]; split; intros H;
      try assumption; contradiction.
  - intros a b Ha Hb Hta Htb Hcl. exfalso.
    destruct (Hcase a Ha) as [(_ & _ & Hca)|[H _]]; [|contradiction].
    destruct (Hcase b Hb) as [(H & _)|[_ Hty]]; [contradiction|].
    rewrite Hty in Hcl. change (order_class "table") with 2 in Hcl. lia.
  - intros a b Ha Hb Hty Htb.
    destruct (Hcase b Hb) as [(H & _)|[_ Hb2]]; [contradiction|].
    apply (ordered_precedes _ sort_key); try assumption.
    apply key_lt_iff. left. rewrite !sort_key_top. simpl. rewrite Hb2.
    destruct Hty as [E|E]; rewrite E; vm_compute; lia.
  - intros a b Ha Hb Hty Htb.
    destruct (Hcase b Hb) as [(H & _)|[_ Hb2]]; [contradiction|].
    apply (ordered_precedes _ sort_key); try assumption.
    apply key_lt_iff. left. rewrite !sort_key_top. simpl. rewrite Hb2, Hty.
    vm_compute. lia.
Qed.

(** C5: after merging tables, every page's content list is a rearrangement
    of its items and its table items, sorted by the composite key (order
    class heading=0, paragraph=1, table=2, chart=3; then vertical top
    coordinate, an item without a bounding box getting the sentinel
    1000000000), and the sort is stable (items of equal key keep their
    relative order).  Every page [group_page_content] returns is
    assembled: its items are headings, paragraphs and chart placeholders,
    each with a box of four coordinates.  On a merged assembled page the
    items without a box are exactly the table items; every item without a
    box stands after every positioned item of its class; the table items
    stand after every heading and paragraph and before every chart
    placeholder.  This holds of every page [parse] returns.  A page with a
    heading at top=10, paragraphs at top=20 and top=15 and one positionless
    table orders as heading, paragraph(15), paragraph(20), table. *)
Theorem merged_pages_are_sorted_stably :
  (forall (pages : list PageOut) (tables_by_page : tables_dict),
     let out := merge_tables_into_pages pages tables_by_page in
     List.length out = List.length pages
     /\ (forall i page, nth_error pages i = Some page ->
           exists page',
             nth_error out i = Some page'
             /\ page_number page' = page_number page
             /\ Permutation (content page') (with_tables tables_by_page i page)
             /\ StronglySorted key_ordered (content page')
             /\ (forall k, with_key k (content page')
                           = with_key k (with_tables tables_by_page i page))
             /\ (forall a b y,
                   top_of a = Some y -> (y < SENTINEL)%Q -> top_of b = None ->
                   order_class (type a) = order_class (type b) ->
                   ~ precedes b a (content page'))
             /\ (assembled page ->
                   (forall c, In c (content page') ->
                      (top_of c = None <-> type c = "table"))
                   /\ (forall a b,
                         In a (content page') -> In b (content page') ->
                         top_of a <> None -> top_of b = None ->
                         order_class (type a) = order_class (type b) ->
                         precedes a b (content page'))
                   /\ (forall a b,
                         In a (content page') -> In b (content page') ->
                         type a = "heading" \/ type a = "paragraph" ->
                         top_of b = None ->
                         precedes a b (content page'))
                   /\ (forall a b,
                         In a (content page') -> In b (content page') ->
                         type a = "chart" -> top_of b = None ->
                         precedes b a (content page')))))
  /\ (forall (doc : list DocPage) (blocks_per_page : list (list Block))
             (pages : list PageOut),
        group_page_content doc blocks_per_page = Some pages ->
        Forall assembled pages)
  /\ (forall (pdf_path : string) (doc : list DocPage) (pdf : list PdfPage),
        exists out,
          parse pdf_path doc pdf = Some out
          /\ Forall (fun p =>
                       StronglySorted key_ordered (content p)
                       /\ (forall c, In c (content p) ->
                             (top_of c = None <-> type c = "table"))
                       /\ (forall a b,
                             In a (content p) -> In b (content p) ->
                             top_of a <> None -> top_of b = None ->
                             order_class (type a) = order_class (type b) ->
                             precedes a b (content p)))
               (parsed_pages out))
  /\ (forall c, sort_key c
                = (order_class (type c),
                   match top_of c with Some y => y | None => SENTINEL end))
  /\ (order_class "heading" = 0 /\ order_class "paragraph" = 1
      /\ order_class "table" = 2 /\ order_class "chart" = 3)
  /\ merge_tables_into_pages
       [MkPageOut 1 [positioned_item "heading" "H" (10 # 1)%Q;
                     positioned_item "paragraph" "P20" (20 # 1)%Q;
                     positioned_item "paragraph" "P15" (15 # 1)%Q]]
       [(0, [sample_table])]
     = [MkPageOut 1 [positioned_item "heading" "H" (10 # 1)%Q;
                     positioned_item "paragraph" "P15" (15 # 1)%Q;
                     positioned_item "paragraph" "P20" (20 # 1)%Q;
                     table_item sample_table]].
Proof.
  split; [|split; [|split; [|split; [exact sort_key_top|split;
    [repeat split|vm_compute; reflexivity]]]]].
  - intros pages tables_by_page out. subst out. unfold merge_tables_into_pages.
    split; [apply merge_from_index_length|].
    intros i page Hnth.
    exists (merge_page tables_by_page i page).
    split; [exact (merge_from_index_nth tables_by_page pages 0 i page Hnth)|].
    split; [reflexivity|].
    split; [rewrite merge_page_content; apply sorted_perm|].
    split; [rewrite merge_page_content; apply sorted_ordered|].
    split; [intros k; rewrite merge_page_content; apply sorted_stable|].
    split; [|intros Hpage; exact (merged_assembled_page tables_by_page i page Hpage)].
    intros a b y Ha Hy Hb Hclass. rewrite merge_page_content.
    apply (ordered_no_inversion sort_key); [apply sorted_ordered|].
    rewrite !sort_key_top, Ha, Hb. apply key_lt_iff. simpl.
    right. split; [exact Hclass|exact Hy].
  - intros doc bpp pages H. unfold group_page_content in H.
    exact (group_from_assembled _ _ _ _ H).
  - intros path doc pdf. apply parsed_pages_all. intros j page.
    unfold parsed_page.
    destruct (merged_assembled_page (extract_tables pdf) j
                (assemble_page j page (text_blocks page))
                (assemble_page_assembled _ _ _)) as (H1 & H2 & _).
    split; [rewrite merge_page_content; apply sorted_ordered|].
    split; [exact H1|exact H2].
Qed.

(** An instance: the page of three positioned items is assembled; merged
    with one table, both paragraphs stand before the table item, which is
    the only item without a box. *)
Lemma merged_pages_witness :
  let page := MkPageOut 1 [positioned_item "heading" "H" (10 # 1)%Q;
                           positioned_item "paragraph" "P20" (20 # 1)%Q;
                           positioned_item "paragraph" "P15" (15 # 1)%Q] in
  exists page',
    nth_error (merge_tables_into_pages [page] [(0, [sample_table])]) 0 = Some page'
    /\ Permutation (content page') (with_tables [(0, [sample_table])] 0 page)
    /\ StronglySorted key_ordered (content page')
    /\ precedes (positioned_item "paragraph" "P20" (20 # 1)%Q)
         (table_item sample_table) (content page').
Proof.
  intros page.
  destruct merged_pages_are_sorted_stably as (Hmerge & _).
  destruct (Hmerge [page] [(0, [sample_table])]) as (_ & Hpage).
  destruct (Hpage 0 page eq_refl) as (page' & H1 & _ & H2 & H3 & _ & _ & H4).
  assert (Hasm : assembled page).
  { unfold assembled, page. simpl.
    repeat (apply Forall_cons;
            [left; split; [first [left; reflexivity|right; reflexivity]|];
             split; [eexists; split; [reflexivity|discriminate]|];
             split; [reflexivity|];
             split; [eexists; split; [reflexivity|eexists _, _, _, _; reflexivity]|];
             reflexivity|]).
    apply Forall_nil. }
  destruct (H4 Hasm) as (_ & _ & H5 & _).
  exists page'. split; [exact H1|]. split; [exact H2|]. split; [exact H3|].
  assert (Hc : content page'
               = [positioned_item "heading" "H" (10 # 1)%Q;
                  positioned_item "paragraph" "P15" (15 # 1)%Q;
                  positioned_item "paragraph" "P20" (20 # 1)%Q;
                  table_item sample_table]).
  { vm_compute in H1. injection H1 as H1. rewrite <- H1. vm_compute. reflexivity. }
  apply H5.
  - rewrite Hc. right. right. left. reflexivity.
  - rewrite Hc. right. right. right. left. reflexivity.
  - right. reflexivity.
  - reflexivity.
Defined.

(** * Hyphen breaks and the second pass of [clean_text] *)

Lemma word_not_hyphen : forall c, Chr.word c = true -> is_hyphen c = false.
Proof. by_chars. Qed.

Lemma space_not_hyphen : forall c, Chr.space c = true -> is_hyphen c = false.
Proof. by_chars. Qed.

Lemma is_hyphen_eq : forall c, is_hyphen c = true -> c = HYPHEN.
Proof. intros c H. symmetry. apply Ascii.eqb_eq, H. Qed.

Lemma completes_Idle : forall s, completes Idle s = false.
Proof.
  induction s as [|c s IH]; [reflexivity|]. simpl. unfold advance.
  destruct (Chr.word c); [reflexivity|]. simpl.
  destruct (is_hyphen c); [exact IH|]. destruct (Chr.space c); exact IH.
Qed.

Lemma completes_PastGap : forall s,
  completes PastGap s = next_is Chr.word (drop (run Chr.space s) s).
Proof.
  induction s as [|c s IH]; [reflexivity|]. simpl. unfold advance.
  destruct (Chr.space c) eqn:Es.
  - rewrite (space_not_word c Es), (space_not_hyphen c Es). simpl. exact IH.
  - simpl. destruct (Chr.word c); [reflexivity|]. simpl.
    destruct (is_hyphen c); apply completes_Idle.
Qed.

Lemma completes_PastHyphen : forall s,
  completes PastHyphen s
  = (0 <? run Chr.space s) && next_is Chr.word (drop (run Chr.space s) s).
Proof.
  intros [|c s]; [reflexivity|]. simpl. unfold advance.
  destruct (Chr.space c) eqn:Es.
  - rewrite (space_not_word c Es), (space_not_hyphen c Es). simpl.
    apply completes_PastGap.
  - simpl. destruct (Chr.word c); [reflexivity|]. simpl.
    destruct (is_hyphen c); apply completes_Idle.
Qed.

Lemma completes_PastWord : forall h s,
  completes PastWord (String h s) = is_hyphen h && completes PastHyphen s.
Proof.
  intros h s. simpl. unfold advance.
  destruct (Chr.word h) eqn:Ew; [rewrite (word_not_hyphen h Ew); reflexivity|].
  simpl. destruct (is_hyphen h); [reflexivity|].
  destruct (Chr.space h); apply completes_Idle.
Qed.

Lemma break_here_eq : forall x h s2,
  break_here (String x (String h s2))
  = Chr.word x && (is_hyphen h
                   && ((0 <? run Chr.space s2)
                       && next_is Chr.word (drop (run Chr.space s2) s2))).
Proof.
  intros. unfold break_here. rewrite completes_PastWord, completes_PastHyphen.
  reflexivity.
Qed.

(** The hyphen-break pattern matches exactly at a hyphen break, up to the
    word character after the whitespace. *)
Lemma match_here_at_break : forall pv s,
  match_here re_hyphen_break pv s
  = if break_here s
    then match s with
         | String x (String _ s2) =>
             match drop (run Chr.space s2) s2 with
             | String c _ =>
                 Some (S (2 + run Chr.space s2),
                       [(2, String c EmptyString); (1, String x EmptyString)])
             | EmptyString => None
             end
         | _ => None
         end
    else None.
Proof.
  intros pv [|x [|h s2]].
  - reflexivity.
  - unfold match_here, re_hyphen_break, chr, plus.
    cbn -[Ascii.eqb Chr.word Chr.space HYPHEN].
    destruct (Chr.word x); reflexivity.
  - rewrite break_here_eq.
    unfold match_here, re_hyphen_break, chr, plus.
    cbn -[Ascii.eqb Chr.word Chr.space HYPHEN is_hyphen run drop next_is Nat.ltb].
    destruct (Chr.word x); [|reflexivity].
    unfold is_hyphen. destruct (Ascii.eqb HYPHEN h) eqn:Eh; [|reflexivity].
    rewrite rep_needs_run.
    + simpl andb.
      destruct (1 <=? run Chr.space s2) eqn:E1.
      * assert (E0 : (0 <? run Chr.space s2) = true).
        { apply Nat.ltb_lt. apply Nat.leb_le in E1. lia. }
        rewrite E0. simpl andb.
        cbn -[Ascii.eqb Chr.word Chr.space HYPHEN run drop].
        destruct (drop (run Chr.space s2) s2) as [|c s'] eqn:Ed; [reflexivity|].
        simpl next_is. destruct (Chr.word c); [|reflexivity].
        assert (H1 : match run Chr.space s2 with
                     | 0 => S (run Chr.space s2)
                     | S l => run Chr.space s2 - l
                     end = 1) by (destruct (run Chr.space s2); lia).
        rewrite H1. simpl substring. rewrite substring_0_0. reflexivity.
      * assert (E0 : (0 <? run Chr.space s2) = false).
        { apply Nat.ltb_ge. apply Nat.leb_gt in E1. lia. }
        rewrite E0. reflexivity.
    + intros pv' n' [|c r] cs' Hn; [discriminate|].
      cbn -[Chr.word Chr.space]. simpl in Hn.
      rewrite (space_not_word c Hn). reflexivity.
Qed.

Lemma completes_breaks_in : forall s ph, completes ph s = true -> breaks_in ph s = true.
Proof.
  induction s as [|c s IH]; intros ph H; [discriminate|]. simpl in *.
  destruct (closes ph c); [reflexivity|]. simpl in *.
  apply andb_true_iff in H. apply IH, H.
Qed.

Lemma advance_word : forall ph c, Chr.word c = true -> advance ph c = PastWord.
Proof. intros ph c H. unfold advance. rewrite H. reflexivity. Qed.

(** A break that ends in [s] was begun before [s] or lies in [s]. *)
Lemma breaks_in_cases : forall s ph,
  breaks_in ph s = completes ph s || has_break s.
Proof.
  unfold has_break. induction s as [|c s IH]; intros ph; [reflexivity|].
  simpl. rewrite IH. destruct (closes ph c); [reflexivity|]. simpl.
  destruct (Chr.word c) eqn:Ew; simpl; [|reflexivity].
  rewrite (advance_word ph c Ew). reflexivity.
Qed.

Lemma breaks_in_Idle : forall s, breaks_in Idle s = has_break s.
Proof. intros s. rewrite breaks_in_cases, completes_Idle. reflexivity. Qed.

(** ** The rejoin, one match at a time *)

Lemma sub_break_nil : forall pv,
  sub_go re_hyphen_break tmpl_joined 0 pv EmptyString = EmptyString.
Proof. reflexivity. Qed.

Lemma sub_break_pass : forall pv x s1,
  break_here (String x s1) = false ->
  sub_go re_hyphen_break tmpl_joined 0 pv (String x s1)
  = String x (sub_go re_hyphen_break tmpl_joined 0 (Some x) s1).
Proof.
  intros pv x s1 H. rewrite sub_go_cons, match_here_at_break, H. reflexivity.
Qed.

(** What a hyphen break at the head of a text is made of. *)
Lemma break_here_parts : forall s,
  break_here s = true ->
  exists x h s2 u s',
    s = String x (String h s2)
    /\ Chr.word x = true /\ is_hyphen h = true
    /\ 0 < run Chr.space s2
    /\ drop (run Chr.space s2) s2 = String u s'
    /\ Chr.word u = true.
Proof.
  intros [|x [|h s2]] H; [discriminate| |].
  - unfold break_here in H. simpl in H. rewrite andb_false_r in H. discriminate.
  - rewrite break_here_eq in H.
    apply andb_true_iff in H. destruct H as [Hx H].
    apply andb_true_iff in H. destruct H as [Hh H].
    apply andb_true_iff in H. destruct H as [Hr Hu].
    destruct (drop (run Chr.space s2) s2) as [|u s'] eqn:Ed; [discriminate|].
    exists x, h, s2, u, s'. apply Nat.ltb_lt in Hr. repeat split; assumption.
Qed.

Lemma sub_break_join : forall pv x h s2 u s',
  break_here (String x (String h s2)) = true ->
  drop (run Chr.space s2) s2 = String u s' ->
  exists pv',
    sub_go re_hyphen_break tmpl_joined 0 pv (String x (String h s2))
    = String x (String u (sub_go re_hyphen_break tmpl_joined 0 pv' s')).
Proof.
  intros pv x h s2 u s' H Hd.
  rewrite sub_go_cons, match_here_at_break, H, Hd.
  destruct (drop_next _ _ _ _ Hd) as [Hd1 Hl].
  rewrite sub_go_drop by (simpl; lia).
  change (drop (2 + run Chr.space s2) (String h s2))
    with (drop (S (run Chr.space s2)) s2).
  rewrite Hd1. eexists. reflexivity.
Qed.

Lemma drop_run_length : forall p s u s',
  drop (run p s) s = String u s' -> String.length s' < String.length s.
Proof.
  intros p s u s' H. pose proof (drop_length (run p s) s) as Hl.
  rewrite H in Hl. simpl in Hl. lia.
Qed.

(** A text without a hyphen break is left as it is. *)
Lemma sub_break_none : forall s pv,
  has_break s = false -> sub_go re_hyphen_break tmpl_joined 0 pv s = s.
Proof.
  unfold has_break. induction s as [|x s IH]; intros pv H; [reflexivity|].
  simpl in H. apply orb_false_iff in H. destruct H as [Hb Hs].
  rewrite (sub_break_pass pv x s Hb), (IH _ Hs). reflexivity.
Qed.

(** ** Chained breaks *)

Lemma chained_here_word : forall c s, Chr.word c = false -> chained_here (String c s) = false.
Proof. intros c s H. unfold chained_here, break_here. rewrite H. reflexivity. Qed.

Lemma has_chained_cons : forall c s,
  has_chained_break (String c s) = chained_here (String c s) || has_chained_break s.
Proof. reflexivity. Qed.

Lemma has_chained_skip : forall c s,
  Chr.word c = false -> has_chained_break (String c s) = has_chained_break s.
Proof. intros c s H. rewrite has_chained_cons, (chained_here_word c s H). reflexivity. Qed.

Lemma has_chained_drop_run : forall s,
  has_chained_break (drop (run Chr.space s) s) = has_chained_break s.
Proof.
  induction s as [|c s IH]; [reflexivity|]. simpl run.
  destruct (Chr.space c) eqn:Ec; [|reflexivity].
  simpl drop. rewrite (has_chained_skip c s (space_not_word c Ec)). exact IH.
Qed.

(** After the rejoin a hyphen break is left exactly when the text held two
    breaks that share a word character. *)
Lemma breaks_after_rejoin : forall n s,
  String.length s <= n ->
  forall ph pv,
    breaks_in ph (sub_go re_hyphen_break tmpl_joined 0 pv s)
    = completes ph s || has_chained_break s.
Proof.
  induction n as [|n IH]; intros s Hlen ph pv.
  - destruct s; [reflexivity|simpl in Hlen; lia].
  - destruct s as [|x s1]; [reflexivity|]. simpl in Hlen.
    destruct (break_here (String x s1)) eqn:Hb.
    + destruct (break_here_parts _ Hb)
        as (x' & h & s2 & u & s' & Es & Hx & Hh & Hr & Hd & Hu).
      injection Es as Ex Es. subst x' s1.
      destruct (sub_break_join pv x h s2 u s' Hb Hd) as [pv' Ej]. rewrite Ej.
      pose proof (drop_run_length _ _ _ _ Hd) as Hl. simpl in Hlen.
      simpl breaks_in. rewrite (advance_word ph x Hx), (advance_word PastWord u Hu).
      simpl closes. rewrite orb_false_l.
      rewrite IH by lia.
      simpl completes. rewrite Hx. simpl negb. rewrite andb_false_l, orb_false_r.
      rewrite has_chained_cons.
      assert (Hc : chained_here (String x (String h s2)) = completes PastWord s').
      { unfold chained_here. rewrite Hb. simpl after_gap. rewrite Hd.
        unfold break_here. rewrite Hu. reflexivity. }
      rewrite Hc.
      rewrite (has_chained_skip h s2 (eq_trans
                 (f_equal Chr.word (is_hyphen_eq h Hh)) eq_refl)).
      rewrite <- (has_chained_drop_run s2), Hd, has_chained_cons.
      destruct (closes ph x); [reflexivity|]. simpl.
      destruct (completes PastWord s') eqn:Ec; [reflexivity|]. simpl.
      unfold chained_here, break_here. rewrite Hu, Ec. reflexivity.
    + rewrite (sub_break_pass pv x s1 Hb). simpl breaks_in.
      rewrite IH by lia. simpl completes. rewrite has_chained_cons.
      assert (Hc : chained_here (String x s1) = false).
      { unfold chained_here. rewrite Hb. reflexivity. }
      rewrite Hc. simpl orb.
      destruct (closes ph x); [reflexivity|]. simpl.
      destruct (Chr.word x) eqn:Ex; [|reflexivity]. simpl.
      rewrite (advance_word ph x Ex).
      unfold break_here in Hb. rewrite Ex in Hb. simpl in Hb. rewrite Hb.
      reflexivity.
Qed.

(** ** The later steps of [clean_text] neither make nor undo a break *)

Lemma space_closes : forall ph c, Chr.space c = true -> closes ph c = false.
Proof.
  intros ph c H. destruct ph; try reflexivity. simpl. apply space_not_word, H.
Qed.

Lemma advance_space : forall ph c,
  Chr.space c = true ->
  advance ph c = match ph with PastHyphen | PastGap => PastGap | _ => Idle end.
Proof.
  intros ph c H. unfold advance.
  rewrite (space_not_word c H), (space_not_hyphen c H), H. reflexivity.
Qed.

Lemma breaks_in_collapse_go : forall s b ph,
  (b = true -> ph = Idle \/ ph = PastGap) ->
  breaks_in ph (collapse_go b s) = breaks_in ph s.
Proof.
  induction s as [|c s IH]; intros b ph Hb; [reflexivity|].
  simpl collapse_go. destruct (Chr.space c) eqn:Ec.
  - simpl breaks_in at 2. rewrite (space_closes ph c Ec), (advance_space ph c Ec).
    simpl orb. destruct b.
    + rewrite IH by (intros _; exact (Hb eq_refl)).
      destruct (Hb eq_refl) as [E|E]; subst ph; reflexivity.
    + simpl breaks_in.
      rewrite (space_closes ph SP eq_refl), (advance_space ph SP eq_refl).
      simpl orb. apply IH. intros _. destruct ph; auto.
  - simpl breaks_in. f_equal. apply IH. intros H. discriminate.
Qed.

Lemma breaks_in_collapse : forall s, breaks_in Idle (collapse s) = breaks_in Idle s.
Proof. intros s. apply breaks_in_collapse_go. intros H. discriminate. Qed.

Section GapBreaks.
Variables p q : ascii -> bool.
Hypothesis p_word : forall c, p c = true -> Chr.word c = true.
Hypothesis q_word : forall c, q c = true -> Chr.word c = true.

Lemma breaks_in_gap_from : forall s x ph,
  (p x = true -> ph = PastWord) ->
  breaks_in ph (gap_from p q x s) = breaks_in ph s.
Proof.
  induction s as [|y s IH]; intros x ph Hx; [reflexivity|].
  simpl gap_from. destruct (p x && q y) eqn:E.
  - apply andb_true_iff in E. destruct E as [Ex Ey].
    rewrite (Hx Ex). pose proof (q_word y Ey) as Hy.
    simpl breaks_in. rewrite (advance_space PastWord SP eq_refl).
    rewrite (advance_word Idle y Hy), (advance_word PastWord y Hy).
    simpl. apply IH. intros _. reflexivity.
  - simpl breaks_in. f_equal. apply IH.
    intros Hp. apply advance_word, p_word, Hp.
Qed.

Lemma breaks_in_gap : forall s ph, breaks_in ph (gap p q s) = breaks_in ph s.
Proof.
  intros [|x s] ph; [reflexivity|]. simpl. f_equal. apply breaks_in_gap_from.
  intros Hp. apply advance_word, p_word, Hp.
Qed.

End GapBreaks.

Lemma lower_word : forall c, Chr.lower_az c = true -> Chr.word c = true.
Proof. by_chars. Qed.

Lemma upper_word : forall c, Chr.upper_az c = true -> Chr.word c = true.
Proof. by_chars. Qed.

Lemma alpha_word : forall c, Chr.alpha_az c = true -> Chr.word c = true.
Proof. by_chars. Qed.

Lemma digit_word : forall c, Chr.digit c = true -> Chr.word c = true.
Proof. by_chars. Qed.

Lemma breaks_in_lstrip : forall s, breaks_in Idle (Py.lstrip s) = breaks_in Idle s.
Proof.
  induction s as [|c s IH]; [reflexivity|]. simpl Py.lstrip.
  destruct (Chr.space c) eqn:Ec; [|reflexivity].
  simpl breaks_in. rewrite (advance_space Idle c Ec). exact IH.
Qed.

Lemma breaks_in_rstrip : forall s ph, breaks_in ph (Py.rstrip s) = breaks_in ph s.
Proof.
  induction s as [|c s IH]; intros ph; [reflexivity|]. simpl Py.rstrip.
  simpl breaks_in at 2. rewrite <- IH.
  destruct (Py.rstrip s) as [|d r].
  - destruct (Chr.space c) eqn:Ec.
    + rewrite (space_closes ph c Ec). reflexivity.
    + reflexivity.
  - reflexivity.
Qed.

Lemma breaks_in_strip : forall s, breaks_in Idle (Py.strip s) = breaks_in Idle s.
Proof. intros s. unfold Py.strip. rewrite breaks_in_rstrip. apply breaks_in_lstrip. Qed.

(** ** Tabs and no-break spaces count as whitespace *)

Section ClassMap.
Variable f : ascii -> ascii.
Hypothesis f_word : forall c, Chr.word (f c) = Chr.word c.
Hypothesis f_hyphen : forall c, is_hyphen (f c) = is_hyphen c.
Hypothesis f_space : forall c, Chr.space (f c) = Chr.space c.

Lemma advance_map : forall ph c, advance ph (f c) = advance ph c.
Proof. intros. unfold advance. rewrite f_word, f_hyphen, f_space. reflexivity. Qed.

Lemma closes_map : forall ph c, closes ph (f c) = closes ph c.
Proof. intros [] c; try reflexivity. simpl. apply f_word. Qed.

Lemma completes_map : forall s ph,
  completes ph (Py.map_chars f s) = completes ph s.
Proof.
  induction s as [|c s IH]; intros ph; [reflexivity|]. simpl.
  rewrite closes_map, f_word, advance_map, IH. reflexivity.
Qed.

Lemma break_here_map : forall s, break_here (Py.map_chars f s) = break_here s.
Proof.
  intros [|x s]; [reflexivity|]. simpl. rewrite f_word, completes_map. reflexivity.
Qed.

Lemma run_space_map : forall s, run Chr.space (Py.map_chars f s) = run Chr.space s.
Proof.
  induction s as [|c s IH]; [reflexivity|]. simpl. rewrite f_space, IH. reflexivity.
Qed.

Lemma drop_map : forall k s, drop k (Py.map_chars f s) = Py.map_chars f (drop k s).
Proof.
  induction k as [|k IH]; intros [|c s]; try reflexivity. simpl. apply IH.
Qed.

Lemma after_gap_map : forall s,
  after_gap (Py.map_chars f s) = Py.map_chars f (after_gap s).
Proof.
  intros [|x [|h r]]; try reflexivity. simpl. rewrite run_space_map. apply drop_map.
Qed.

Lemma chained_here_map : forall s,
  chained_here (Py.map_chars f s) = chained_here s.
Proof.
  intros s. unfold chained_here.
  rewrite break_here_map, after_gap_map, break_here_map. reflexivity.
Qed.

Lemma has_chained_map : forall s,
  has_chained_break (Py.map_chars f s) = has_chained_break s.
Proof.
  unfold has_chained_break. induction s as [|c s IH].
  - reflexivity.
  - change (Py.map_chars f (String c s)) with (String (f c) (Py.map_chars f s)).
    change (somewhere chained_here (String (f c) (Py.map_chars f s)))
      with (chained_here (String (f c) (Py.map_chars f s))
            || somewhere chained_here (Py.map_chars f s)).
    change (String (f c) (Py.map_chars f s)) with (Py.map_chars f (String c s)).
    rewrite chained_here_map, IH. reflexivity.
Qed.

End ClassMap.

Lemma tab_to_sp_word : forall c, Chr.word (tab_to_sp c) = Chr.word c.
Proof. by_chars. Qed.

Lemma nbsp_to_sp_word : forall c, Chr.word (to_space nbsp_class c) = Chr.word c.
Proof. by_chars. Qed.

(** The text [clean_text] returns holds a hyphen break exactly when the
    text it was given holds two breaks that share a word character. *)
Lemma clean_text_breaks : forall t,
  has_break (clean_text t) = has_chained_break t.
Proof.
  intros t. rewrite <- breaks_in_Idle, clean_text_after_rejoin.
  destruct (Py.falsy t) eqn:Ef; [destruct t; [reflexivity|discriminate]|].
  rewrite breaks_in_strip.
  rewrite (breaks_in_gap _ _ digit_word alpha_word).
  rewrite (breaks_in_gap _ _ alpha_word digit_word).
  rewrite (breaks_in_gap _ _ lower_word upper_word).
  rewrite breaks_in_collapse.
  unfold rejoined, sub. rewrite (breaks_after_rejoin _ _ (le_n _)).
  rewrite completes_Idle, orb_false_l.
  rewrite (has_chained_map _ nbsp_to_sp_word nbsp_to_sp_hyphen nbsp_to_sp_space).
  rewrite replace_tab_is_map.
  apply (has_chained_map _ tab_to_sp_word tab_to_sp_hyphen tab_to_sp_space).
Qed.

(** ** The hyphens of a text *)

Section CountNoSpace.
Variable p : ascii -> bool.
Hypothesis p_space : forall c, Chr.space c = true -> p c = false.

Lemma count_collapse_go : forall s b,
  count_chars p (collapse_go b s) = count_chars p s.
Proof.
  induction s as [|c s IH]; intros b; [reflexivity|]. simpl.
  destruct (Chr.space c) eqn:Ec.
  - rewrite (p_space c Ec). destruct b; simpl; [apply IH|].
    rewrite (p_space SP eq_refl). apply IH.
  - simpl. rewrite IH. reflexivity.
Qed.

Lemma count_gap_from : forall a q s x,
  count_chars p (gap_from a q x s) = count_chars p s.
Proof.
  intros a q. induction s as [|y s IH]; intros x; [reflexivity|]. simpl.
  destruct (a x && q y); simpl; [rewrite (p_space SP eq_refl)|]; rewrite IH;
    reflexivity.
Qed.

Lemma count_gap : forall a q s, count_chars p (gap a q s) = count_chars p s.
Proof.
  intros a q [|x s]; [reflexivity|]. simpl. rewrite count_gap_from. reflexivity.
Qed.

Lemma count_lstrip : forall s, count_chars p (Py.lstrip s) = count_chars p s.
Proof.
  induction s as [|c s IH]; [reflexivity|]. simpl Py.lstrip.
  destruct (Chr.space c) eqn:Ec; [|reflexivity].
  simpl. rewrite (p_space c Ec). exact IH.
Qed.

Lemma count_rstrip : forall s, count_chars p (Py.rstrip s) = count_chars p s.
Proof.
  induction s as [|c s IH]; [reflexivity|]. simpl Py.rstrip.
  simpl count_chars at 2. rewrite <- IH.
  destruct (Py.rstrip s) as [|d r]; [|reflexivity].
  destruct (Chr.space c) eqn:Ec; [rewrite (p_space c Ec)|]; reflexivity.
Qed.

Lemma count_strip : forall s, count_chars p (Py.strip s) = count_chars p s.
Proof. intros s. unfold Py.strip. rewrite count_rstrip. apply count_lstrip. Qed.

End CountNoSpace.

Lemma count_drop : forall p k s, count_chars p (drop k s) <= count_chars p s.
Proof.
  intros p. induction k as [|k IH]; intros [|c s]; simpl; try lia.
  specialize (IH s). lia.
Qed.

(** Every hyphen break the rejoin meets costs the text a hyphen. *)
Lemma count_after_rejoin : forall n s,
  String.length s <= n ->
  forall pv,
    count_chars is_hyphen (sub_go re_hyphen_break tmpl_joined 0 pv s)
    + (if has_break s then 1 else 0)
    <= count_chars is_hyphen s.
Proof.
  induction n as [|n IH]; intros s Hlen pv.
  - destruct s; [simpl; lia|simpl in Hlen; lia].
  - destruct s as [|x s1]; [simpl; lia|]. simpl in Hlen.
    destruct (break_here (String x s1)) eqn:Hb.
    + destruct (break_here_parts _ Hb)
        as (x' & h & s2 & u & s' & Es & Hx & Hh & Hr & Hd & Hu).
      injection Es as Ex Es. subst x' s1.
      destruct (sub_break_join pv x h s2 u s' Hb Hd) as [pv' Ej]. rewrite Ej.
      pose proof (drop_run_length _ _ _ _ Hd) as Hl. simpl in Hlen.
      simpl count_chars.
      rewrite (word_not_hyphen x Hx), (word_not_hyphen u Hu), Hh.
      pose proof (IH s' ltac:(lia) pv') as H1.
      pose proof (count_drop is_hyphen (run Chr.space s2) s2) as H2.
      rewrite Hd in H2. simpl in H2. rewrite (word_not_hyphen u Hu) in H2.
      destruct (has_break (String x (String h s2))); destruct (has_break s'); lia.
    + rewrite (sub_break_pass pv x s1 Hb). simpl count_chars.
      pose proof (IH s1 ltac:(lia) (Some x)) as H1.
      assert (E : has_break (String x s1) = has_break s1).
      { unfold has_break.
        change (somewhere break_here (String x s1))
          with (break_here (String x s1) || somewhere break_here s1).
        rewrite Hb. reflexivity. }
      rewrite E. lia.
Qed.

(** ** A second pass over a text [clean_text] returned *)

(** What [clean_text] returns is spaced: single spaces between other
    characters, and no two neighbours that call for a space. *)
Lemma clean_text_spaced : forall t,
  let r := clean_text t in
  all_chars ws_is_sp r = true
  /\ adj (pair_of Chr.space Chr.space) r = false
  /\ Py.strip r = r
  /\ adj (pair_of Chr.lower_az Chr.upper_az) r = false
  /\ adj (pair_of Chr.alpha_az Chr.digit) r = false
  /\ adj (pair_of Chr.digit Chr.alpha_az) r = false.
Proof.
  intros t r. subst r. rewrite clean_text_after_rejoin.
  destruct (Py.falsy t); [repeat split; reflexivity|].
  set (s2 := collapse (rejoined t)).
  assert (A2 : all_chars ws_is_sp s2 = true) by apply collapse_go_all.
  assert (W2 : adj (pair_of Chr.space Chr.space) s2 = false) by apply collapse_no_double.
  set (s3 := gap Chr.lower_az Chr.upper_az s2).
  assert (A3 : all_chars ws_is_sp s3 = true) by (apply gap_all; [reflexivity|exact A2]).
  assert (W3 : adj (pair_of Chr.space Chr.space) s3 = false)
    by (apply gap_keeps; [gap_side|gap_side|exact W2]).
  assert (L3 : adj (pair_of Chr.lower_az Chr.upper_az) s3 = false)
    by (apply gap_kills; reflexivity).
  set (s4 := gap Chr.alpha_az Chr.digit s3).
  assert (A4 : all_chars ws_is_sp s4 = true) by (apply gap_all; [reflexivity|exact A3]).
  assert (W4 : adj (pair_of Chr.space Chr.space) s4 = false)
    by (apply gap_keeps; [gap_side|gap_side|exact W3]).
  assert (L4 : adj (pair_of Chr.lower_az Chr.upper_az) s4 = false)
    by (apply gap_keeps; [gap_side|gap_side|exact L3]).
  assert (D4 : adj (pair_of Chr.alpha_az Chr.digit) s4 = false)
    by (apply gap_kills; reflexivity).
  set (s5 := gap Chr.digit Chr.alpha_az s4).
  assert (A5 : all_chars ws_is_sp s5 = true) by (apply gap_all; [reflexivity|exact A4]).
  assert (W5 : adj (pair_of Chr.space Chr.space) s5 = false)
    by (apply gap_keeps; [gap_side|gap_side|exact W4]).
  assert (L5 : adj (pair_of Chr.lower_az Chr.upper_az) s5 = false)
    by (apply gap_keeps; [gap_side|gap_side|exact L4]).
  assert (D5 : adj (pair_of Chr.alpha_az Chr.digit) s5 = false)
    by (apply gap_keeps; [gap_side|gap_side|exact D4]).
  assert (E5 : adj (pair_of Chr.digit Chr.alpha_az) s5 = false)
    by (apply gap_kills; reflexivity).
  split; [apply strip_all, A5|]. split; [apply strip_adj, W5|].
  split; [apply strip_idem|]. split; [apply strip_adj, L5|].
  split; [apply strip_adj, D5|]. apply strip_adj, E5.
Qed.

(** On a spaced text the second pass is the rejoin alone. *)
Lemma clean_text_of_spaced : forall r,
  all_chars ws_is_sp r = true ->
  adj (pair_of Chr.space Chr.space) r = false ->
  Py.strip r = r ->
  adj (pair_of Chr.lower_az Chr.upper_az) r = false ->
  adj (pair_of Chr.alpha_az Chr.digit) r = false ->
  adj (pair_of Chr.digit Chr.alpha_az) r = false ->
  (has_break r = false -> clean_text r = r)
  /\ (has_break r = true ->
        count_chars is_hyphen (clean_text r) < count_chars is_hyphen r).
Proof.
  intros r A W S L D E.
  assert (Hre : rejoined r = sub re_hyphen_break tmpl_joined r).
  { unfold rejoined. rewrite replace_tab_is_map.
    rewrite (map_chars_id _ _ tab_to_sp_fixes _ A).
    rewrite (map_chars_id _ _ nbsp_to_sp_fixes _ A). reflexivity. }
  rewrite clean_text_after_rejoin, Hre. unfold sub.
  destruct r as [|c r]; [split; [reflexivity|discriminate]|].
  simpl Py.falsy. cbv iota. split; intros Hb.
  - rewrite (sub_break_none _ None Hb).
    rewrite (collapse_id _ A W).
    rewrite (gap_id _ _ _ L), (gap_id _ _ _ D), (gap_id _ _ _ E).
    exact S.
  - rewrite (count_strip _ space_not_hyphen).
    rewrite !(count_gap _ space_not_hyphen).
    unfold collapse. rewrite (count_collapse_go _ space_not_hyphen).
    pose proof (count_after_rejoin _ (String c r) (le_n _) None) as H.
    rewrite Hb in H. lia.
Qed.

(** ** Two breaks that share a word character, spelled out *)

Lemma somewhere_true : forall p s,
  somewhere p s = true -> exists a b, s = (a ++ b)%string /\ p b = true.
Proof.
  intros p. induction s as [|c s IH]; intros H; simpl in H.
  - rewrite orb_false_r in H. exists EmptyString, EmptyString. split; [reflexivity|exact H].
  - destruct (p (String c s)) eqn:E.
    + exists EmptyString, (String c s). split; [reflexivity|exact E].
    + simpl in H. destruct (IH H) as (a & b & Es & Hp).
      exists (String c a), b. split; [simpl; rewrite Es; reflexivity|exact Hp].
Qed.

Lemma somewhere_app : forall p a b, p b = true -> somewhere p (a ++ b) = true.
Proof.
  intros p. induction a as [|c a IH]; intros b H.
  - simpl. destruct b; simpl; rewrite H; reflexivity.
  - simpl. rewrite (IH b H). apply orb_true_r.
Qed.

Lemma run_space_app_word : forall sp u r,
  all_chars Chr.space sp = true -> Chr.word u = true ->
  run Chr.space (sp ++ String u r) = String.length sp
  /\ drop (String.length sp) (sp ++ String u r) = String u r.
Proof.
  induction sp as [|c sp IH]; intros u r Hs Hu.
  - simpl. destruct (Chr.space u) eqn:E; [|split; reflexivity].
    rewrite (space_not_word u E) in Hu. discriminate.
  - simpl in Hs. apply andb_true_iff in Hs. destruct Hs as [Hc Hs].
    simpl. rewrite Hc. destruct (IH u r Hs Hu) as [H1 H2].
    rewrite H1. split; [reflexivity|exact H2].
Qed.

Lemma break_here_spelled : forall x sp u r,
  Chr.word x = true -> sp <> EmptyString -> all_chars Chr.space sp = true ->
  Chr.word u = true ->
  break_here (String x (String HYPHEN (sp ++ String u r))) = true
  /\ after_gap (String x (String HYPHEN (sp ++ String u r))) = String u r.
Proof.
  intros x sp u r Hx Hne Hs Hu.
  destruct (run_space_app_word sp u r Hs Hu) as [H1 H2].
  split.
  - rewrite break_here_eq, Hx, H1, H2. simpl. rewrite Hu.
    destruct sp; [contradiction|reflexivity].
  - simpl. rewrite H1. exact H2.
Qed.

Lemma break_here_spell : forall s,
  break_here s = true ->
  exists x sp u r,
    s = String x (String HYPHEN (sp ++ String u r))
    /\ Chr.word x = true /\ sp <> EmptyString
    /\ all_chars Chr.space sp = true /\ Chr.word u = true
    /\ after_gap s = String u r.
Proof.
  intros s H.
  destruct (break_here_parts s H) as (x & h & s2 & u & r & Es & Hx & Hh & Hr & Hd & Hu).
  destruct (run_split_length Chr.space (run Chr.space s2) s2 (le_n _))
    as (sp & Hsp & Ha & Hl).
  rewrite Hd in Hsp. exists x, sp, u, r.
  rewrite (is_hyphen_eq h Hh) in Es.
  split; [rewrite Es, Hsp at 1; reflexivity|].
  split; [exact Hx|]. split; [intros E; subst sp; simpl in Hl; lia|].
  split; [exact Ha|]. split; [exact Hu|].
  rewrite Es. simpl. exact Hd.
Qed.

Lemma chained_break_iff : forall t,
  has_chained_break t = true <-> chained_break t.
Proof.
  intros t. split.
  - intros H. apply somewhere_true in H. destruct H as (a & b & Et & Hb).
    unfold chained_here in Hb. apply andb_true_iff in Hb. destruct Hb as [H1 H2].
    destruct (break_here_spell b H1) as (x & sp1 & u & r & Eb & Hx & N1 & A1 & Hu & Eg).
    rewrite Eg in H2.
    destruct (break_here_spell _ H2) as (u' & sp2 & v & r' & Er & _ & N2 & A2 & Hv & _).
    injection Er as Eu Er. subst u'.
    exists a, x, sp1, u, sp2, v, r'.
    split; [rewrite Et, Eb, Er; reflexivity|]. repeat split; assumption.
  - intros (a & x & sp1 & u & sp2 & v & b & Et & Hx & Hu & Hv & N1 & A1 & N2 & A2).
    subst t. apply somewhere_app. unfold chained_here.
    destruct (break_here_spelled x sp1 u (String HYPHEN (sp2 ++ String v b))
                Hx N1 A1 Hu) as [H1 H2].
    rewrite H1, H2. simpl andb.
    exact (proj1 (break_here_spelled u sp2 v b Hu N2 A2 Hv)).
Qed.

(** C1, amended: the text normalizer is idempotent exactly on the texts
    that hold no chained hyphen break, that is, nowhere a word character,
    a hyphen, whitespace, one word character, a hyphen, whitespace and a
    word character in a row: for every t,
    clean_text (clean_text t) = clean_text t if and only if t holds no
    such chain.  The rejoin of one pass takes the first of the two breaks
    and leaves the second, which begins with the word character that ends
    the first, to the next pass. *)
Theorem clean_text_idempotent_iff_no_chained_break : forall t : string,
  clean_text (clean_text t) = clean_text t <-> ~ chained_break t.
Proof.
  intros t.
  destruct (clean_text_spaced t) as (A & W & S & L & D & E).
  destruct (clean_text_of_spaced (clean_text t) A W S L D E) as [Hfix Hless].
  pose proof (clean_text_breaks t) as Hb.
  rewrite <- chained_break_iff. split.
  - intros Hidem Hch. rewrite Hch in Hb. specialize (Hless Hb).
    rewrite Hidem in Hless. lia.
  - intros Hn. apply Hfix. rewrite Hb.
    destruct (has_chained_break t); [exfalso; apply Hn; reflexivity|reflexivity].
Qed.

(** An instance: a text with a line-break hyphen, a dash between spaces
    and a hyphen inside a word holds no chain, and is cleaned once and for
    all. *)
Lemma clean_text_idempotent_witness :
  clean_text (clean_text "inter- national Benchmark - Nifty 50  Net-AUM 12,345cr")
  = clean_text "inter- national Benchmark - Nifty 50  Net-AUM 12,345cr".
Proof.
  apply (proj2 (clean_text_idempotent_iff_no_chained_break
                  "inter- national Benchmark - Nifty 50  Net-AUM 12,345cr")).
  intros H. apply chained_break_iff in H. vm_compute in H. discriminate.
Defined.
